(* ===== verification/_CoqProject ===== *)
-Q . S2P
Prelude.v
Soroban.v
EscrowTypes.v
Config.v
Tokens.v
Players.v
MatchIndex.v
Snapshots.v
RateOracle.v
Rotation.v
Matches.v
Settlement.v
Refunds.v
Disputes.v
Governance.v
Queries.v
OracleTypes.v
OracleLimits.v
OracleStakes.v
OracleResults.v
Ledger.v
Core.v
Lifecycle.v
Simulation.v
Calls.v
Footprint.v
Solvency.v
Invariants.v
Effects.v
DisputeEffects.v
Authority.v
Registry.v
History.v
Scenarios.v
Witnesses.v
OracleCalls.v
OracleLedger.v
OracleBacking.v
OracleVotes.v
OracleTally.v
OracleOutcomes.v
OraclePenalties.v
OracleBounds.v
OracleNet.v
OracleWitnesses.v
Composition.v
Text.v
F64.v
SelfCheck.v
Tasks.v
ServiceTypes.v
ServiceStores.v
ResultCache.v
Clients.v
Providers.v
Poller.v
ExportCsv.v
Guards.v
RateLimits.v
Subscriptions.v
ServiceSafety.v
ServiceProgress.v
ServiceDiscovery.v
ChainClient.v
ClientSpec.v
ServiceScenarios.v
ServiceOps.v
Strkey.v
IndexerTypes.v
IndexerConfig.v
Validation.v
ValidationSpec.v
TransactionApi.v
EventCache.v
EventStore.v
EventStoreSpec.v
Leader.v
ApiCache.v
Ingestion.v
IndexerApi.v
