(* ===== verification/Prelude.v ===== *)
(** * Checkmate-Escrow: a verification of the contracts and their services

    The program is a pair of Soroban (Stellar) smart contracts and services around
    them.  Two players wager on an online chess game: the escrow contract
    ([contracts/escrow/src]) takes both stakes, an oracle reports the result, and
    after a vesting period the winner claims the pot; matches can be cancelled,
    expired, rolled back, paused, disputed by vote, decided by several oracles, or
    resolved by an administrator.  The oracle contract ([contracts/oracle/src]) keeps
    the oracles' stakes, their votes and the results, and the exchange rates of
    two-token matches.  The oracle service ([oracle-service/src]) finds the active
    matches, asks the chess platforms for their games, and submits the results.  The
    event indexer ([services/event-indexer/src]) stores the contracts' events and
    serves them over HTTP; the websocket server ([server/src]) pushes them to the
    clients that watch a match.  This library models the whole interface of both
    contracts, the oracle service from its configuration to its endpoints, the indexer
    from the poller and its database to the HTTP handlers, and the websocket server's
    subscriptions as executable functions, and proves what they promise.

    ** The contracts: model

    - [Prelude]: machine integers (a Rust integer is a [Z] in its range, with
      checked, saturating and wrapping operations), booleans, shared lemmas and
      tactics.
    - [Soroban]: the host.  A contract function is a computation of the monad
      [M E S A]: it reads an [Env] (own address, ledger sequence, time, and which
      addresses authorized the call), passes a state, and ends in [Ok], in [Err]
      with an error value, or in [Trap] (a panic).  The state ([State W]) has the
      three storages (instance, persistent, temporary) as functions from typed
      keys to optional values, the list of published events, and the world [W]
      outside the contract.  [invoke] is the transaction: only [Ok] commits.
      [wp] and the tactic [wpx] execute a computation symbolically; [rel] states
      a relation between the states before and after, for every outcome.
      Class [Host] is what the contract uses of the ledger: token transfers and
      balances, token symbols, the random generator, SHA-256.  Class [TokenLaws]
      is what the theorems assume of it: a transfer moves exactly its amount and
      a transferred amount is not negative.
    - [EscrowTypes]: [types.rs] and [errors.rs], with the typed storage keys, and the
      transition table of [state_machine.rs].
    - [Config] (initialisation, pause, settings, fees), [Tokens] (allowlist,
      blacklist, stablecoin issuers, frozen players), [Players] (tiers, active
      matches, statistics, ratings), [MatchIndex] (ids per state), [Snapshots]
      (balance history), [Rotation] (which oracle is in charge), [Matches]
      (creation, deposits), [Settlement] (results, finalisation, claims),
      [Refunds] (cancel, expire, recover, rollback, pause, stalled matches),
      [Disputes] (disputes, and consensus of several oracles), [Governance] (admin,
      upgrades, version), [Queries]: the escrow's [lib.rs], one definition per function, under
      the function's name.
    - [RateOracle]: the interface to the oracle contract ([get_rate], [swap]) that
      two-token matches use; class [RateOracleLaws] says which balances a swap
      moves.  [Ledger]: a concrete ledger and rate oracle that satisfies these
      classes.
    - [OracleTypes] (types, errors, storage keys), [OracleLimits] (administration,
      metrics, rate limits, exchange rates and swaps), [OracleStakes] (registry,
      slashing), [OracleResults] (submissions, votes, disputes): the oracle contract,
      in the same monad.
    - [SelfCheck]: what the escrow carries beside its entry points, the state machine of
      [state_machine.rs] and the verification harness of [formal_verification.rs] with
      its checks, probes, explorer and JSON report.

    ** The contracts: specification and theorems

    - [Core] is the abstract state (match records, index, settings, balances) and
      [Lifecycle] the abstract specification: the ways a match record may evolve
      ([evolve]) and the steps of the core ([mstep], [cstep]).  [Simulation] and
      [Calls] prove that every entry point refines it ([calls_refine_lifecycle]).
    - [Footprint] tabulates which storage entries each call may write, and the
      settings that decide whether the books balance.
    - [Solvency]: in every reachable state the escrow holds what it owes.
      [Invariants]: the lifecycle of each match, the index, single claims.
    - [Effects] and [DisputeEffects]: for each entry point that moves money, what
      a successful call requires, the record it leaves and the exact payments.
    - [Authority]: who may change settings, the admin and the code; what a pause
      stops; votes and disputes happen once.  [Registry] and
      [History]: the registries, game ids and quorums, the snapshot history and the
      listings, in every reachable state.
    - [SelfCheck] also holds the contract against its own harness: which checks every
      reachable match passes, which one rejects correct behaviour, what the explorer
      can find at all, and that its report is the JSON text of its contents.
    - [Scenarios] has concrete runs, among them the ones that show defects (a pot
      paid twice under a dispute period, refunds of two-token matches that cannot
      be paid, a deposit guard left behind by a batch, a lost oracle rotation);
      [Witnesses] applies the theorems to concrete runs.
    - [OracleCalls] enumerates the oracle contract's entry points and the reachable
      states.  [OracleLedger]: registry and staged slashes agree.  [OracleBacking]:
      the contract holds the stakes it has registered.  [OracleVotes], [OracleTally],
      [OracleOutcomes]: votes, the count of those who can still vote, the provenance
      and stability of results.  [OraclePenalties]: who is slashed, by how much, when.
      [OracleBounds]: rate limits and metrics.  [OracleNet]: the oracle contract run
      on the ledger discharges the interface of [RateOracle]; [Composition] runs both
      contracts together.  [OracleWitnesses] has runs and instances.

    ** The oracle service

    - [Text]: the string functions of the services; its module [TxHash] is
      [contracts/common/src/tx_hash.rs].  [F64]: the [f64] operations the services use,
      as IEEE binary64 with rounding to nearest even, and lemmas that bound a rounded
      result by the representable numbers around it.
    - [Tasks]: an [async fn] is a tree of atomic actions on a shared state; [run]
      executes one task, [interleave] several under a schedule; [safe] proves that an
      invariant holds at every step of every interleaving, [within] bounds what a
      task run alone changes.
    - [ServiceTypes]: the records and the shared state ([Service]: the files, the
      cache, the pauses, the clock, and the remote world [W]).  File-system errors and
      the passing of time are inputs the theorems quantify over.
    - [ServiceStores] ([queue.rs], [dead_letter.rs], [submission_log.rs],
      [reconciliation_cursor.rs]), [ResultCache] ([result_cache.rs], over an interface
      to the [lru] crate), [Clients] ([lichess_client.rs], [chess_com_client.rs], over
      an interface to HTTP), [Providers] ([provider.rs], [provider_error.rs]),
      [Poller] ([poller.rs] and the replay tool, over the interface [Chain] to the
      chain client), [ChainClient] ([soroban_client.rs], over interfaces to the RPC
      server and the XDR and signature libraries), [Guards] ([waf.rs], [ip_allowlist.rs]),
      [ExportCsv] ([bin/export_csv.rs]: what it writes reads back as the selected
      records), [RateLimits] ([middleware/rate_limit.rs], [oracle/rate_limiter.rs]: the
      shared buckets answer like private ones, tokens stay in range, what a burst gets),
      [ServiceOps] ([config.rs], [health.rs], [metrics.rs], [slash_relay.rs] and the
      router of [main.rs]: what a loaded configuration holds and what its log shows, who
      reads the metrics, what the health endpoint reports, in which order the layers
      act).
    - [ServiceSafety]: the stores stay well-formed under every interleaving.
      [ServiceProgress]: every queued match ends submitted or dead-lettered.
      [ServiceDiscovery]: reconciliation finds every match that needs a result.
      [ChainClient] discharges the interface [Chain] over a truthful server, and proves
      that a result is sent at most once, and how.
      [ClientSpec]: batches agree with single requests; the request loop ends.
      [Providers] and [Guards] also prove what failover and its batch do to errors, the
      burst limit and the reading of CIDR ranges.  [ServiceScenarios]: runs in which
      overlapping tasks undo each other's work, and instances of the theorems.

    ** The websocket server

    - [Subscriptions] ([websocket.rs], [ws/mod.rs], [ws/subscriptions.rs]): the three
      tables of subscriptions under one interface ([SubscriptionStore],
      [SubscriptionLaws]), which each of them discharges; who is sent an event; the
      two locks of the third table, under which operations of different clients do not
      interfere and those of one client can; what a connection leaves behind.

    ** The event indexer

    - [Strkey] and [Validation]: [validation.rs], every validator and the guard in
      front of the handlers; the two date parsers are parameters.  [Strkey] proves that
      the checksum of a Stellar address catches every mistyped character and every swap
      of neighbours, because decoding and checksum are linear over exclusive or.
      [ValidationSpec]: which requests pass, what their numbers denote, and that a
      query string decodes to what a client encoded.
    - [IndexerTypes] ([models.rs], [transactions.rs]), [IndexerConfig] ([config.rs],
      [metrics.rs], [request_id.rs]: what a configuration the service starts with
      satisfies), [TransactionApi] (the history query of [db.rs] and its handler in [api.rs], over
      PostgreSQL's pattern match and sort as parameters; walking the pages of a
      history).
    - [EventCache] ([cache.rs]): the cache, its size, eviction order and match index,
      and the copies that a repeated insertion leaves in the index.
    - [EventStore] ([db.rs]): tables as lists and maps of rows with the columns' widths,
      the two layouts the source gives the [matches] table, transactions that are rolled
      back when a statement fails, ingestion, reorganisations, all reads and analytics.
      [EventStoreSpec]: the match table is the fold of the surviving events, in every
      reachable store and whatever the order of arrival; and why no ingestion on the
      service's own schema reports success.
    - [Leader] ([leader.rs]): leases do not overlap while the clocks agree.
    - [ApiCache] ([api_cache.rs], over interfaces to Redis and to serde): a hit is a
      value stored within its time to live and not invalidated since.
    - [Ingestion] ([rpc.rs], [id_gen.rs], the ingestion state of [db.rs]): from the
      answers of the server to the store, one poll and one round of the poller; event
      identifiers, the types of what is read, what a ledger that comes back undoes, and
      how far the poller gets.
    - [IndexerApi] ([api.rs], [auth.rs]): the routes, the layers around them and the
      handlers, over the same state.  The key gate fails closed; paging by cursor is
      stable under concurrent changes; pages of the match list outlive the events that
      change them; what becomes of dispute and completion events in the index.

    ** Bounds and fuel

    Loops over stored lists are structural.  The loops over ring buffers run over
    at most [MAX_PLAYER_SNAPSHOTS] indexes, computed as the source computes them.
    [digits_rev] (the decimal printer) has fuel 10, the number of digits of the
    largest [u32]; [version_roundtrip] shows it is enough.  The Chess.com request
    loop has fuel 5, which [chess_com_fetch_total] shows is enough; the page loop of
    [reconcile] takes its fuel as an argument, and [reconcile_discovers] shows that
    one round per started page is enough.  [chunks_fuel] is given the length of its
    list ([chunks_concat]).  The confirmation loop of the chain client is structural on
    its 30 polls; [submit_sends_once] bounds the requests.  [Limiter.acquire], the
    loop that sleeps until a token is there, takes the number of its rounds as an
    argument.  [walk], a client's walk over the pages of a history, is given one request
    more than there are events; [history_walk_complete] shows that it ends.  [cursor_walk] is given the successive match lists; [cursor_walk_stable]
    shows that it ends when there are more of them than matches.

    ** What is not modelled

    - Time-to-live: [extend_ttl] and archival of storage entries.
    - Re-entrant calls by token contracts, and the nesting of authorizations: a
      call's authorizations are a predicate on addresses.
    - Where the committed source does not compile (fields of the nested
      configuration read as if flat, functions declared twice or nowhere), the model
      takes the definition that is evidently meant, or a parameter.
    - Of the oracle service: XDR encoding, signatures, hex and base64, the parsing of
      addresses and the formatting of times are parameters; the prometheus registry,
      the loops that repeat the ticks and the clients that [lichess_client.rs] and
      [chess_com_client.rs] replace are left out.
    - Of the event indexer: the connection pools, start-up and logs; decoding of typed
      queries (axum, a parameter) and the numbers of PostgreSQL beyond the rationals.
    - Of the websocket server: the upgrade of the request and the forwarding of events
      to the socket.  The front end, deployment scripts and test code. *)
From stdpp Require Import base decidable list strings.
From Stdlib Require Import ZArith Lia.

#[global] Open Scope Z_scope.

(** ** Machine integers

    Every integer of the contracts is a [Z] kept inside the range of its Rust
    type.  The [checked_*] operations return [None] on overflow, the
    [saturating_*] ones clamp, exactly as the Rust methods of the same name. *)

Definition u8_max : Z := 255.
Definition u32_max : Z := 4294967295.
Definition u64_max : Z := 18446744073709551615.
Definition u128_max : Z := 340282366920938463463374607431768211455.
Definition i128_min : Z := -170141183460469231731687303715884105728.
Definition i128_max : Z := 170141183460469231731687303715884105727.

Definition is_u8 (x : Z) : Prop := 0 <= x <= u8_max.
Definition is_u32 (x : Z) : Prop := 0 <= x <= u32_max.
Definition is_u64 (x : Z) : Prop := 0 <= x <= u64_max.
Definition is_i128 (x : Z) : Prop := i128_min <= x <= i128_max.

Definition clamp (lo hi x : Z) : Z := Z.max lo (Z.min hi x).
Definition in_range (lo hi x : Z) : bool := (lo <=? x) && (x <=? hi).
Definition checked (lo hi x : Z) : option Z :=
  if in_range lo hi x then Some x else None.

Definition u32_checked_add (a b : Z) := checked 0 u32_max (a + b).
Definition u32_sat_add (a b : Z) := clamp 0 u32_max (a + b).
Definition u32_sat_sub (a b : Z) := clamp 0 u32_max (a - b).
Definition u64_checked_add (a b : Z) := checked 0 u64_max (a + b).
Definition u64_sat_add (a b : Z) := clamp 0 u64_max (a + b).
Definition u64_sat_sub (a b : Z) := clamp 0 u64_max (a - b).
Definition i128_checked_add (a b : Z) := checked i128_min i128_max (a + b).
Definition i128_checked_sub (a b : Z) := checked i128_min i128_max (a - b).
Definition i128_checked_mul (a b : Z) := checked i128_min i128_max (a * b).
(** Rust's integer division truncates towards zero, as [Z.quot] does. *)
Definition i128_checked_div (a b : Z) : option Z :=
  if b =? 0 then None else checked i128_min i128_max (Z.quot a b).
Definition i128_sat_add (a b : Z) := clamp i128_min i128_max (a + b).

(** [x as u32] for a non-negative source keeps the low 32 bits. *)
Definition as_u32 (x : Z) : Z := x mod 4294967296.

Ltac unfold_ints :=
  unfold u32_checked_add, u32_sat_add, u32_sat_sub, u64_checked_add,
    u64_sat_add, u64_sat_sub, i128_checked_add, i128_checked_sub,
    i128_checked_mul, i128_sat_add, checked, in_range, clamp, is_u8, is_u32,
    is_u64, is_i128, u8_max, u32_max, u64_max, u128_max, i128_min, i128_max in *.

(** [zbool] turns the boolean comparisons of the code into propositions. *)
Ltac zbool :=
  repeat match goal with
  | H : _ && _ = true |- _ => apply andb_true_iff in H as [? ?]
  | H : _ || _ = false |- _ => apply orb_false_iff in H as [? ?]
  | H : negb _ = true |- _ => apply negb_true_iff in H
  | H : negb _ = false |- _ => apply negb_false_iff in H
  | H : bool_decide _ = true |- _ => apply bool_decide_eq_true in H
  | H : bool_decide _ = false |- _ => apply bool_decide_eq_false in H
  | H : (_ <=? _) = true |- _ => apply Z.leb_le in H
  | H : (_ <=? _) = false |- _ => apply Z.leb_gt in H
  | H : (_ <? _) = true |- _ => apply Z.ltb_lt in H
  | H : (_ <? _) = false |- _ => apply Z.ltb_ge in H
  | H : (_ =? _) = true |- _ => apply Z.eqb_eq in H
  | H : (_ =? _) = false |- _ => apply Z.eqb_neq in H
  | H : (_ >? _) = _ |- _ => rewrite Z.gtb_ltb in H
  | H : (_ >=? _) = _ |- _ => rewrite Z.geb_leb in H
  end.

Lemma checked_Some lo hi x y : checked lo hi x = Some y <-> x = y /\ lo <= x <= hi.
Proof.
  unfold checked, in_range.
  destruct ((lo <=? x) && (x <=? hi)) eqn:H; zbool; split.
  - intros [= <-]; lia.
  - intros [-> _]; done.
  - done.
  - intros [-> [? ?]]. apply andb_false_iff in H as [H|H]; zbool; lia.
Qed.

Lemma checked_None lo hi x : checked lo hi x = None <-> ~ (lo <= x <= hi).
Proof.
  destruct (checked lo hi x) eqn:H.
  - apply checked_Some in H as [-> ?]. split; [done | lia].
  - split; [intros _ Hr | done].
    assert (checked lo hi x = Some x) by (apply checked_Some; lia). congruence.
Qed.

Lemma clamp_range lo hi x : lo <= hi -> lo <= clamp lo hi x <= hi.
Proof. unfold clamp. lia. Qed.

Lemma clamp_id lo hi x : lo <= x <= hi -> clamp lo hi x = x.
Proof. unfold clamp. lia. Qed.

(** ** Record update

    [m <| f := v |>] is the record [m] with field [f] replaced, the model of a
    struct assignment [m.f = v].  A record type opts in by an [Eta] instance
    that rebuilds it from its projections. *)

Class Eta (R : Type) := eta : R -> R.
Class Setter {R E : Type} (proj : R -> E) := set_field : (E -> E) -> R -> R.
Arguments set_field {R E} proj {Setter} f r.

Ltac derive_setter R proj :=
  let i := constr:(_ : Eta R) in
  let e := eval hnf in i in
  lazymatch eval pattern proj in e with
  | ?u _ =>
      let t := eval cbv beta in (fun f => u (fun r => f (proj r))) in exact t
  end.

#[export] Hint Extern 1 (@Setter ?R ?E ?proj) =>
  derive_setter R proj : typeclass_instances.

Declare Scope record_scope.
#[global] Open Scope record_scope.
Notation "r <| proj := v |>" := (set_field proj (fun _ => v) r)
  (at level 1, left associativity, proj constr at level 1, v at level 99,
   format "r  <| proj  :=  v |>") : record_scope.

(** ** Lists *)

(** Sum of [f] over a list. *)
Fixpoint sum_list_with {A} (f : A -> Z) (l : list A) : Z :=
  match l with
  | [] => 0
  | x :: l' => f x + sum_list_with f l'
  end.

Lemma sum_list_with_ext {A} (f g : A -> Z) l :
  (forall x, x ∈ l -> f x = g x) -> sum_list_with f l = sum_list_with g l.
Proof.
  induction l as [|y l IH]; intros Heq; [done|]. cbn.
  rewrite (Heq y) by left. rewrite IH; [done|]. intros x Hx. apply Heq. by right.
Qed.

(** Changing the summand at one element of a duplicate-free list. *)
Lemma sum_list_with_update {A} (f g : A -> Z) l k :
  NoDup l -> k ∈ l -> (forall x, x <> k -> g x = f x) ->
  sum_list_with g l = sum_list_with f l + (g k - f k).
Proof.
  intros Hnd Hin Heq. induction Hnd as [|y l Hy Hnd IH]; [by apply elem_of_nil in Hin|].
  cbn. apply elem_of_cons in Hin as [->|Hin].
  - rewrite (sum_list_with_ext g f l); [lia|]. intros x Hx. apply Heq. by intros ->.
  - rewrite IH by done. rewrite (Heq y) by (by intros ->). lia.
Qed.

Lemma sum_list_with_app {A} (f : A -> Z) l1 l2 :
  sum_list_with f (l1 ++ l2) = sum_list_with f l1 + sum_list_with f l2.
Proof. induction l1 as [|x l1 IH]; cbn; [done|]. rewrite IH. lia. Qed.

Lemma sum_list_with_nonneg {A} (f : A -> Z) l :
  (forall x, x ∈ l -> 0 <= f x) -> 0 <= sum_list_with f l.
Proof.
  induction l as [|y l IH]; intros Hf; cbn; [done|].
  assert (0 <= f y) by (apply Hf; left).
  assert (0 <= sum_list_with f l) by (apply IH; intros; apply Hf; by right). lia.
Qed.

(** An element of the sum bounds the whole when all are non-negative. *)
Lemma sum_list_with_elem {A} (f : A -> Z) l k :
  (forall x, x ∈ l -> 0 <= f x) -> k ∈ l -> f k <= sum_list_with f l.
Proof.
  induction l as [|y l IH]; intros Hf Hin; [by apply elem_of_nil in Hin|]. cbn.
  assert (0 <= f y) by (apply Hf; left).
  assert (0 <= sum_list_with f l) by (apply sum_list_with_nonneg; intros; apply Hf; by right).
  apply elem_of_cons in Hin as [->|Hin]; [lia|].
  assert (f k <= sum_list_with f l) by (apply IH; [intros; apply Hf; by right|done]). lia.
Qed.

Lemma quot_bounds x n d : 0 < d -> 0 <= n <= d -> 0 <= x -> 0 <= Z.quot (x * n) d <= x.
Proof.
  intros Hd Hn Hx. rewrite Z.quot_div_nonneg by nia. split.
  - apply Z.div_pos; nia.
  - apply Z.div_le_upper_bound; nia.
Qed.
