(* ===== verification/Soroban.v ===== *)
(** The part of the Soroban host the two contracts use: addresses, the ledger
    environment, typed key-value storage, events, and the state/error monad the
    contract entry points are written in, with the proof rules for it.

    - [Env] is what one invocation can read: the contract's own address, the
      ledger sequence and timestamp, and which addresses authorized the call.
    - [Store] is one storage area: a partial map from the contract's key type to
      the value type of each key ([KeySpec]).  A contract has three areas
      ([inst], [pers], [temp] for instance, persistent and temporary storage).
      Entry lifetimes (TTL) are not part of the state: [extend_ttl] calls have
      no counterpart here, and entries never get archived.
    - A contract function is an [M]: it ends with [Ok], with [Err] (a
      contract error: the state reached so far is kept, because an internal
      caller may go on from it) or with [Trap] (a host panic).  [invoke] is the
      host's view of a top-level call, which commits only on [Ok]. *)
From stdpp Require Import base list strings.
From Stdlib Require Import ZArith Lia Ascii.
From S2P Require Import Prelude.

Inductive Address := Addr (n : Z).

#[export] Instance Address_eq_dec : EqDecision Address.
Proof. solve_decision. Defined.

Notation "a =a b" := (bool_decide (a = b)) (at level 70, no associativity).

(** What an invocation can observe of the ledger. *)
Record Env := mkEnv {
  self : Address;                    (** [env.current_contract_address()] *)
  sequence : Z;                      (** [env.ledger().sequence()], a u32 *)
  timestamp : Z;                     (** [env.ledger().timestamp()], a u64 *)
  authorized : Address -> bool       (** whose [require_auth] succeeds *)
}.

(** Event payloads: the values the contracts publish. *)
Inductive Val :=
| VUnit
| VAddr (a : Address)
| VInt (z : Z)
| VBool (b : bool)
| VStr (s : string)
| VSym (s : string)                  (** a unit variant of a contract enum *)
| VBytes (b : list Z)
| VNone
| VSome (v : Val).

Record Event := mkEvent {
  topic1 : string;
  topic2 : string;
  payload : list Val
}.

(** ** Typed storage *)

Class KeySpec (K : Type) := {
  kval : K -> Type;
  key_eq_dec :: EqDecision K
}.

Definition Store (K : Type) `{KeySpec K} : Type := forall k : K, option (kval k).

Definition empty_store {K} `{KeySpec K} : Store K := fun _ => None.

Definition upd {K} `{KeySpec K} (k : K) (v : option (kval k)) (st : Store K) : Store K :=
  fun k' =>
    match decide (k = k') with
    | left e => match e in _ = k'' return option (kval k'') with eq_refl => v end
    | right _ => st k'
    end.

Lemma upd_eq {K} `{KeySpec K} (k : K) v (st : Store K) : upd k v st k = v.
Proof.
  unfold upd. destruct (decide (k = k)) as [e|n]; [|done].
  by rewrite (proof_irrel e eq_refl).
Qed.

Lemma upd_ne {K} `{KeySpec K} (k k' : K) v (st : Store K) :
  k <> k' -> upd k v st k' = st k'.
Proof. intros Hne. unfold upd. by destruct (decide (k = k')). Qed.

(** ** Vectors, strings and options of the SDK *)

(** [v.iter().any(|x| x == a)] and the copy loops that skip an element. *)
Definition contains (l : list Address) (a : Address) : bool :=
  existsb (fun x => x =a a) l.
Definition remove_addr (l : list Address) (a : Address) : list Address :=
  List.filter (fun x => negb (x =a a)) l.

Lemma contains_spec l a : contains l a = true <-> a ∈ l.
Proof.
  unfold contains. rewrite existsb_exists. setoid_rewrite bool_decide_eq_true.
  rewrite list_elem_of_In. split; [by intros (x & Hx & ->)|eauto].
Qed.

(** [for i in start..end { result.push_back(all.get(i)) }] *)
Definition slice {A} (l : list A) (start stop : Z) : list A :=
  firstn (Z.to_nat (stop - start)) (skipn (Z.to_nat start) l).
Definition vec_len {A} (l : list A) : Z := Z.of_nat (length l).

(** Byte length of a Soroban string. *)
Definition str_len (s : string) : Z := Z.of_nat (String.length s).

Definition byte_of (c : ascii) : Z := Z.of_N (N_of_ascii c).
Definition is_ascii_digit (c : ascii) : bool := in_range 48 57 (byte_of c).
Definition is_ascii_upper (c : ascii) : bool := in_range 65 90 (byte_of c).
Definition is_ascii_lower (c : ascii) : bool := in_range 97 122 (byte_of c).
Definition is_ascii_alphanumeric (c : ascii) : bool :=
  is_ascii_digit c || is_ascii_upper c || is_ascii_lower c.

(** [slice.iter().all(p)] *)
Fixpoint all_bytes (p : ascii -> bool) (s : string) : bool :=
  match s with
  | EmptyString => true
  | String c rest => p c && all_bytes p rest
  end.

(** [u8::is_ascii_hexdigit] *)
Definition is_ascii_hexdigit (c : ascii) : bool :=
  is_ascii_digit c || in_range 65 70 (byte_of c) || in_range 97 102 (byte_of c).

(** [bytes.iter().any(p)] *)
Fixpoint any_byte (p : ascii -> bool) (s : string) : bool :=
  match s with
  | EmptyString => false
  | String c rest => p c || any_byte p rest
  end.

(** [o.map(f).unwrap_or(false)] *)
Definition opt_test {A} (f : A -> bool) (o : option A) : bool :=
  match o with Some a => f a | None => false end.

Definition opt_is_some {A} (o : option A) : bool :=
  match o with Some _ => true | None => false end.

(** ** Contract state, outcomes and the monad *)

Record St (K W : Type) `{KeySpec K} := mkSt {
  inst : Store K;
  pers : Store K;
  temp : Store K;
  world : W;                         (** the rest of the ledger: token contracts, other contracts *)
  events : list Event                (** published events, newest first *)
}.
Arguments mkSt {K W _}.
Arguments inst {K W _}.
Arguments pers {K W _}.
Arguments temp {K W _}.
Arguments world {K W _}.
Arguments events {K W _}.

Inductive outcome (E S A : Type) :=
| Ok (a : A) (s : S)
| Err (e : E) (s : S)
| Trap.
Arguments Ok {E S A}.
Arguments Err {E S A}.
Arguments Trap {E S A}.

Definition M (E S A : Type) : Type := Env -> S -> outcome E S A.

#[export] Instance M_ret E S : MRet (M E S) := fun A a _ s => Ok a s.
#[export] Instance M_bind E S : MBind (M E S) := fun A B f c env s =>
  match c env s with
  | Ok a s' => f a env s'
  | Err e s' => Err e s'
  | Trap => Trap
  end.

(** A top-level call: the host commits the state only when it returns [Ok]. *)
Inductive reply (E A : Type) := Done (a : A) | Failed (e : E) | Trapped.
Arguments Done {E A}.
Arguments Failed {E A}.
Arguments Trapped {E A}.

Definition invoke {E S A} (c : M E S A) (env : Env) (s : S) : reply E A * S :=
  match c env s with
  | Ok a s' => (Done a, s')
  | Err e _ => (Failed e, s)
  | Trap => (Trapped, s)
  end.

Section Ops.
Context {K W E : Type} `{KeySpec K}.
Let MM := M E (St K W).

Definition err {A} (e : E) : MM A := fun _ s => Err e s.
Definition trap {A} : MM A := fun _ _ => Trap.
Definition fail_if (b : bool) (e : E) : MM unit :=
  if b then err e else mret tt.
(** [o.ok_or(e)?] *)
Definition ok_or {A} (o : option A) (e : E) : MM A :=
  match o with Some a => mret a | None => err e end.
(** [o.unwrap()], and unchecked arithmetic with overflow checks on. *)
Definition unwrap {A} (o : option A) : MM A :=
  match o with Some a => mret a | None => trap end.

(** A read-only computation on the whole contract state (a loop of storage
    reads). *)
Definition gets {A} (f : St K W -> A) : MM A := fun _ s => Ok (f s) s.

Definition ask : MM Env := fun env s => Ok env s.
Definition ledger_seq : MM Z := fun env s => Ok (sequence env) s.
Definition ledger_time : MM Z := fun env s => Ok (timestamp env) s.
Definition current_contract : MM Address := fun env s => Ok (self env) s.
Definition require_auth (a : Address) : MM unit := fun env s =>
  if authorized env a then Ok tt s else Trap.

Definition i_get (k : K) : MM (option (kval k)) := fun _ s => Ok (inst s k) s.
Definition p_get (k : K) : MM (option (kval k)) := fun _ s => Ok (pers s k) s.
Definition t_get (k : K) : MM (option (kval k)) := fun _ s => Ok (temp s k) s.
Definition i_get_or (k : K) (d : kval k) : MM (kval k) :=
  fun _ s => Ok (default d (inst s k)) s.
Definition p_get_or (k : K) (d : kval k) : MM (kval k) :=
  fun _ s => Ok (default d (pers s k)) s.
Definition i_has (k : K) : MM bool :=
  fun _ s => Ok (match inst s k with Some _ => true | None => false end) s.
Definition p_has (k : K) : MM bool :=
  fun _ s => Ok (match pers s k with Some _ => true | None => false end) s.

Definition with_inst (f : Store K -> Store K) (s : St K W) : St K W :=
  mkSt (f (inst s)) (pers s) (temp s) (world s) (events s).
Definition with_pers (f : Store K -> Store K) (s : St K W) : St K W :=
  mkSt (inst s) (f (pers s)) (temp s) (world s) (events s).
Definition with_temp (f : Store K -> Store K) (s : St K W) : St K W :=
  mkSt (inst s) (pers s) (f (temp s)) (world s) (events s).
Definition with_world (w : W) (s : St K W) : St K W :=
  mkSt (inst s) (pers s) (temp s) w (events s).

Definition i_set (k : K) (v : kval k) : MM unit :=
  fun _ s => Ok tt (with_inst (upd k (Some v)) s).
Definition p_set (k : K) (v : kval k) : MM unit :=
  fun _ s => Ok tt (with_pers (upd k (Some v)) s).
Definition t_set (k : K) (v : kval k) : MM unit :=
  fun _ s => Ok tt (with_temp (upd k (Some v)) s).
Definition i_remove (k : K) : MM unit :=
  fun _ s => Ok tt (with_inst (upd k None) s).
Definition p_remove (k : K) : MM unit :=
  fun _ s => Ok tt (with_pers (upd k None) s).
Definition t_remove (k : K) : MM unit :=
  fun _ s => Ok tt (with_temp (upd k None) s).

Definition publish (t1 t2 : string) (vs : list Val) : MM unit :=
  fun _ s => Ok tt (mkSt (inst s) (pers s) (temp s) (world s)
                      (mkEvent t1 t2 vs :: events s)).

(** A call into another contract whose failure traps the caller. *)
Definition call_out (f : W -> option W) : MM unit :=
  fun _ s => match f (world s) with
             | Some w => Ok tt (with_world w s)
             | None => Trap
             end.
(** A read-only call into another contract. *)
Definition call_read {A} (f : W -> option A) : MM A :=
  fun _ s => match f (world s) with Some a => Ok a s | None => Trap end.

(** Run [c] and hand its contract error to the caller as a value, keeping the
    state [c] reached (an internal call whose [Result] is inspected). *)
Definition catch {A} (c : MM A) : MM (A + E) :=
  fun env s => match c env s with
               | Ok a s' => Ok (inl a) s'
               | Err e s' => Ok (inr e) s'
               | Trap => Trap
               end.

(** [for x in l { f(x) }] *)
Fixpoint for_each {A} (f : A -> MM unit) (l : list A) : MM unit :=
  match l with
  | [] => mret tt
  | x :: rest => f x;; for_each f rest
  end.
End Ops.

(** ** What the rest of the ledger offers a contract

    The token contracts (SEP-41) and the host's random generator and hash
    function are not code of this repository: they are operations of an abstract
    [W], and [TokenLaws] states the documented behaviour the theorems rely on. *)

Class Host (W : Type) := {
  (** [token_transfer w t from to amount]: [transfer] of token contract [t];
      [None] when the token call fails (which traps the caller). *)
  token_transfer : W -> Address -> Address -> Address -> Z -> option W;
  token_balance : W -> Address -> Address -> Z;
  (** [try_invoke_contract] of the token's [symbol()]: [None] when not callable. *)
  token_symbol : W -> Address -> option string;
  (** [env.prng().gen()]: 32 random bytes and the generator's next state. *)
  prng_gen : W -> list Z * W;
  (** [env.crypto().sha256] *)
  sha256 : list Z -> list Z
}.

Definition delta (b : bool) (x : Z) : Z := if b then x else 0.

(** SEP-41: a successful [transfer] moves exactly the amount asked for, the
    amount is not negative, and drawing random bytes moves no tokens. *)
Class TokenLaws (W : Type) `{Host W} := {
  transfer_moves w t from to amount w' :
    token_transfer w t from to amount = Some w' ->
    forall t' a, token_balance w' t' a =
      token_balance w t' a
      - delta ((t' =a t) && (a =a from)) amount
      + delta ((t' =a t) && (a =a to)) amount;
  transfer_nonneg w t from to amount w' :
    token_transfer w t from to amount = Some w' -> 0 <= amount;
  prng_moves_nothing w t a :
    token_balance (snd (prng_gen w)) t a = token_balance w t a
}.

(** Token client calls, as the contracts make them. *)
Section TokenClient.
Context {K W E : Type} `{KeySpec K} `{Host W}.
Definition transfer (t from to : Address) (amount : Z) : M E (St K W) unit :=
  call_out (fun w => token_transfer w t from to amount).
Definition balance (t a : Address) : M E (St K W) Z :=
  fun _ s => Ok (token_balance (world s) t a) s.
Definition prng_bytes : M E (St K W) (list Z) :=
  fun _ s => let '(b, w) := prng_gen (world s) in Ok b (with_world w s).
End TokenClient.

(** ** Inversion of successful runs *)

Section Inversion.
Context {E S : Type}.

Lemma bind_Ok {A B} (c : M E S A) (f : A -> M E S B) env s b s'' :
  (c ≫= f) env s = Ok b s'' <->
  exists a s', c env s = Ok a s' /\ f a env s' = Ok b s''.
Proof.
  unfold mbind, M_bind. destruct (c env s) as [a s'|e s'|]; split.
  - eauto.
  - by intros (?&?&[= -> ->]&?).
  - done.
  - by intros (?&?&?&?).
  - done.
  - by intros (?&?&?&?).
Qed.

Lemma bind_run {A B} (c : M E S A) (f : A -> M E S B) env s a s' :
  c env s = Ok a s' -> (c ≫= f) env s = f a env s'.
Proof. unfold mbind, M_bind. by intros ->. Qed.

Lemma ret_Ok {A} (a b : A) env (s s' : S) :
  (mret a : M E S A) env s = Ok b s' <-> a = b /\ s = s'.
Proof. unfold mret, M_ret. naive_solver. Qed.

Lemma invoke_Done {A} (c : M E S A) env s a s' :
  invoke c env s = (Done a, s') <-> c env s = Ok a s'.
Proof. unfold invoke. destruct (c env s); naive_solver. Qed.
End Inversion.

Section PrimInversion.
Context {K W E : Type} `{KeySpec K}.
Implicit Types s : St K W.

Lemma fail_if_Ok b (e : E) env s u s' :
  fail_if b e env s = Ok u s' <-> b = false /\ s = s'.
Proof. destruct b, u; unfold fail_if, err; rewrite ?ret_Ok; naive_solver. Qed.

Lemma ok_or_Ok {A} (o : option A) (e : E) env s a s' :
  ok_or o e env s = Ok a s' <-> o = Some a /\ s = s'.
Proof. destruct o; unfold ok_or, err; rewrite ?ret_Ok; naive_solver. Qed.

Lemma unwrap_Ok {A} (o : option A) env s a s' :
  (unwrap o : M E _ _) env s = Ok a s' <-> o = Some a /\ s = s'.
Proof. destruct o; unfold unwrap, trap; rewrite ?ret_Ok; naive_solver. Qed.

Lemma require_auth_Ok a env s u s' :
  (require_auth a : M E _ _) env s = Ok u s' <-> authorized env a = true /\ s = s'.
Proof. destruct u. unfold require_auth. destruct (authorized env a); naive_solver. Qed.

Lemma call_out_Ok (f : W -> option W) env s u s' :
  (call_out f : M E _ _) env s = Ok u s' <->
  exists w, f (world s) = Some w /\ s' = with_world w s.
Proof. destruct u. unfold call_out. destruct (f (world s)); naive_solver. Qed.

Lemma transfer_Ok `{Host W} tok from to x env s u s' :
  (transfer tok from to x : M E _ _) env s = Ok u s' <->
  exists w, token_transfer (world s) tok from to x = Some w /\ s' = with_world w s.
Proof. apply call_out_Ok. Qed.

Lemma call_read_Ok {A} (f : W -> option A) env s a s' :
  (call_read f : M E _ _) env s = Ok a s' <-> f (world s) = Some a /\ s = s'.
Proof. unfold call_read. destruct (f (world s)); naive_solver. Qed.
End PrimInversion.

(** [minv] decomposes every hypothesis saying that a contract function returned
    [Ok]: it names the intermediate results, records the outcome of each guard
    and substitutes the states that reads leave unchanged. *)
Ltac minv_step :=
  match goal with
  | H : Ok _ _ = Ok _ _ |- _ => injection H as H; subst
  | H : Err _ _ = Ok _ _ |- _ => discriminate H
  | H : Trap = Ok _ _ |- _ => discriminate H
  | H : mbind _ _ _ _ = Ok _ _ |- _ =>
      let a := fresh "a" in let s := fresh "s" in
      let H1 := fresh "Hm" in let H2 := fresh "Hm" in
      apply bind_Ok in H as (a & s & H1 & H2)
  | H : mret _ _ _ = Ok _ _ |- _ => apply ret_Ok in H as [? ?]; subst
  | H : fail_if _ _ _ _ = Ok _ _ |- _ => apply fail_if_Ok in H as [? ?]; subst
  | H : ok_or _ _ _ _ = Ok _ _ |- _ => apply ok_or_Ok in H as [? ?]; subst
  | H : unwrap _ _ _ = Ok _ _ |- _ => apply unwrap_Ok in H as [? ?]; subst
  | H : require_auth _ _ _ = Ok _ _ |- _ => apply require_auth_Ok in H as [? ?]; subst
  | H : err _ _ _ = Ok _ _ |- _ => discriminate H
  | H : trap _ _ = Ok _ _ |- _ => discriminate H
  | H : call_read _ _ _ = Ok _ _ |- _ => apply call_read_Ok in H as [? ?]; subst
  | H : gets _ _ _ = Ok _ _ |- _ => unfold gets in H
  | H : ask _ _ = Ok _ _ |- _ => unfold ask in H
  | H : ledger_seq _ _ = Ok _ _ |- _ => unfold ledger_seq in H
  | H : ledger_time _ _ = Ok _ _ |- _ => unfold ledger_time in H
  | H : current_contract _ _ = Ok _ _ |- _ => unfold current_contract in H
  | H : i_get _ _ _ = Ok _ _ |- _ => unfold i_get in H
  | H : p_get _ _ _ = Ok _ _ |- _ => unfold p_get in H
  | H : t_get _ _ _ = Ok _ _ |- _ => unfold t_get in H
  | H : i_get_or _ _ _ _ = Ok _ _ |- _ => unfold i_get_or in H
  | H : p_get_or _ _ _ _ = Ok _ _ |- _ => unfold p_get_or in H
  | H : i_has _ _ _ = Ok _ _ |- _ => unfold i_has in H
  | H : p_has _ _ _ = Ok _ _ |- _ => unfold p_has in H
  | H : i_set _ _ _ _ = Ok _ _ |- _ => unfold i_set in H
  | H : p_set _ _ _ _ = Ok _ _ |- _ => unfold p_set in H
  | H : t_set _ _ _ _ = Ok _ _ |- _ => unfold t_set in H
  | H : i_remove _ _ _ = Ok _ _ |- _ => unfold i_remove in H
  | H : p_remove _ _ _ = Ok _ _ |- _ => unfold p_remove in H
  | H : t_remove _ _ _ = Ok _ _ |- _ => unfold t_remove in H
  | H : publish _ _ _ _ _ = Ok _ _ |- _ => unfold publish in H
  | H : balance _ _ _ _ = Ok _ _ |- _ => unfold balance in H
  | H : (if ?b then _ else _) _ _ = Ok _ _ |- _ => destruct b eqn:?
  | H : (match ?x with _ => _ end) _ _ = Ok _ _ |- _ => destruct x eqn:?
  | H : (let '_ := ?x in _) _ _ = Ok _ _ |- _ => destruct x eqn:?
  end.
Ltac minv := repeat (minv_step; cbv beta in * ).

(** [peel H] takes the first command off a run [H], and reads off what it says when
    it is a read, a guard or a transfer. *)
Ltac peel H :=
  let a := fresh "a" in let s := fresh "s" in let H1 := fresh "Hm" in
  apply bind_Ok in H as (a & s & H1 & H);
  lazymatch type of H1 with
  | require_auth _ _ _ = _ => apply require_auth_Ok in H1 as [? ?]
  | fail_if _ _ _ _ = _ => apply fail_if_Ok in H1 as [? ?]
  | ok_or _ _ _ _ = _ => apply ok_or_Ok in H1 as [? ?]
  | unwrap _ _ _ = _ => apply unwrap_Ok in H1 as [? ?]
  | mret _ _ _ = _ => apply ret_Ok in H1 as [? ?]
  | transfer _ _ _ _ _ _ = _ => apply transfer_Ok in H1 as (? & ? & ?)
  | _ => try (injection H1 as ? ?)
  end;
  subst; cbv beta zeta in H.

(** ** Relational frame rules

    [rel R c]: whatever [c] does short of trapping, the state it leaves is
    [R]-related to the one it started from.  The rules below reduce such a goal
    to the writes [c] makes; [rel] is how the framing lemmas of the development
    are stated. *)

Definition rel {E S A} (R : S -> S -> Prop) (c : M E S A) : Prop :=
  forall env s, match c env s with
                | Ok _ s' => R s s'
                | Err _ s' => R s s'
                | Trap => True
                end.

Section Rel.
Context {E S : Type} (R : S -> S -> Prop) `{!PreOrder R}.

Lemma rel_ret {A} (a : A) : rel R (mret a : M E S A).
Proof. intros env s. cbn. reflexivity. Qed.

Lemma rel_bind {A B} (c : M E S A) (f : A -> M E S B) :
  rel R c -> (forall a, rel R (f a)) -> rel R (c ≫= f).
Proof.
  intros Hc Hf env s. specialize (Hc env s).
  unfold mbind, M_bind. destruct (c env s) as [a s'|e s'|]; try done.
  specialize (Hf a env s'). destruct (f a env s'); try done; by transitivity s'.
Qed.

Lemma rel_Ok {A} (c : M E S A) env s a s' :
  rel R c -> c env s = Ok a s' -> R s s'.
Proof. intros Hc Heq. specialize (Hc env s). by rewrite Heq in Hc. Qed.

Lemma rel_invoke {A} (c : M E S A) env s :
  rel R c -> R s (snd (invoke c env s)).
Proof.
  intros Hc. specialize (Hc env s). unfold invoke.
  destruct (c env s); cbn; [done | reflexivity..].
Qed.
End Rel.

Section RelPrims.
Context {K W E : Type} `{KeySpec K} (R : St K W -> St K W -> Prop) `{!PreOrder R}.
Abbreviation rel' c := (rel (E:=E) R c).

Lemma rel_err {A} (e : E) : rel' (err e : M E _ A).
Proof. intros env s. cbn. reflexivity. Qed.
Lemma rel_trap {A} : rel' (trap : M E _ A).
Proof. by intros env s. Qed.
Lemma rel_fail_if b (e : E) : rel' (fail_if b e).
Proof. destruct b; [apply rel_err | apply rel_ret, _]. Qed.
Lemma rel_ok_or {A} (o : option A) (e : E) : rel' (ok_or o e).
Proof. destruct o; [apply rel_ret, _ | apply rel_err]. Qed.
Lemma rel_unwrap {A} (o : option A) : rel' (unwrap o).
Proof. destruct o; [apply rel_ret, _ | apply rel_trap]. Qed.
Lemma rel_require_auth a : rel' (require_auth a).
Proof. intros env s. unfold require_auth. by destruct (authorized env a). Qed.
Lemma rel_gets {A} (f : St K W -> A) : rel' (gets f).
Proof. intros env s. cbn. reflexivity. Qed.
Lemma rel_ask : rel' ask.
Proof. intros env s. cbn. reflexivity. Qed.
Lemma rel_ledger_seq : rel' ledger_seq.
Proof. intros env s. cbn. reflexivity. Qed.
Lemma rel_ledger_time : rel' ledger_time.
Proof. intros env s. cbn. reflexivity. Qed.
Lemma rel_current_contract : rel' current_contract.
Proof. intros env s. cbn. reflexivity. Qed.
Lemma rel_i_get k : rel' (i_get k).
Proof. intros env s. cbn. reflexivity. Qed.
Lemma rel_p_get k : rel' (p_get k).
Proof. intros env s. cbn. reflexivity. Qed.
Lemma rel_t_get k : rel' (t_get k).
Proof. intros env s. cbn. reflexivity. Qed.
Lemma rel_i_get_or k d : rel' (i_get_or k d).
Proof. intros env s. cbn. reflexivity. Qed.
Lemma rel_p_get_or k d : rel' (p_get_or k d).
Proof. intros env s. cbn. reflexivity. Qed.
Lemma rel_i_has k : rel' (i_has k).
Proof. intros env s. cbn. reflexivity. Qed.
Lemma rel_p_has k : rel' (p_has k).
Proof. intros env s. cbn. reflexivity. Qed.
Lemma rel_call_read {A} (f : W -> option A) : rel' (call_read f).
Proof. intros env s. unfold call_read. by destruct (f (world s)). Qed.
Lemma rel_catch {A} (c : M E (St K W) A) : rel' c -> rel' (catch c).
Proof. intros Hc env s. specialize (Hc env s). unfold catch. by destruct (c env s). Qed.

Lemma rel_for_each {A} (f : A -> M E (St K W) unit) l :
  (forall x, rel' (f x)) -> rel' (for_each f l).
Proof.
  intros Hf. induction l as [|x l IH]; [apply rel_ret, _|].
  cbn [for_each]. apply rel_bind; [apply _|apply Hf|by intros _].
Qed.

Lemma rel_i_set k v :
  (forall s, R s (with_inst (upd k (Some v)) s)) -> rel' (i_set k v).
Proof. intros HR env s. apply HR. Qed.
Lemma rel_p_set k v :
  (forall s, R s (with_pers (upd k (Some v)) s)) -> rel' (p_set k v).
Proof. intros HR env s. apply HR. Qed.
Lemma rel_t_set k v :
  (forall s, R s (with_temp (upd k (Some v)) s)) -> rel' (t_set k v).
Proof. intros HR env s. apply HR. Qed.
Lemma rel_i_remove k :
  (forall s, R s (with_inst (upd k None) s)) -> rel' (i_remove k).
Proof. intros HR env s. apply HR. Qed.
Lemma rel_p_remove k :
  (forall s, R s (with_pers (upd k None) s)) -> rel' (p_remove k).
Proof. intros HR env s. apply HR. Qed.
Lemma rel_t_remove k :
  (forall s, R s (with_temp (upd k None) s)) -> rel' (t_remove k).
Proof. intros HR env s. apply HR. Qed.
End RelPrims.

Section RelMore.
Context {K W E : Type} `{KeySpec K} `{Host W} (R : St K W -> St K W -> Prop) `{!PreOrder R}.

Lemma rel_publish t1 t2 vs :
  (forall s e, R s (mkSt (inst s) (pers s) (temp s) (world s) (e :: events s))) ->
  rel (E:=E) R (publish t1 t2 vs).
Proof. intros HR env s. apply HR. Qed.
Lemma rel_call_out (f : W -> option W) :
  (forall s w, R s (with_world w s)) -> rel (E:=E) R (call_out f).
Proof. intros HR env s. unfold call_out. by destruct (f (world s)). Qed.
Lemma rel_balance t a : rel (E:=E) R (balance t a).
Proof. intros env s. cbn. reflexivity. Qed.
Lemma rel_prng_bytes :
  (forall s, R s (with_world (snd (prng_gen (world s))) s)) ->
  rel (E:=E) R prng_bytes.
Proof.
  intros HR env s. unfold prng_bytes. specialize (HR s).
  by destruct (prng_gen (world s)).
Qed.
End RelMore.

Create HintDb frame discriminated.
#[export] Hint Resolve rel_balance : frame.
#[export] Hint Resolve rel_ret rel_err rel_trap rel_fail_if rel_ok_or rel_unwrap
  rel_require_auth rel_gets rel_ask rel_ledger_seq rel_ledger_time rel_current_contract
  rel_i_get rel_p_get rel_t_get rel_i_get_or rel_p_get_or rel_i_has rel_p_has
  rel_call_read : frame.

(** [frame] proves a [rel R c] goal: it walks through [c], closes the reads with
    the rules above, and leaves the writes to the [frame] hints of [R]. *)
Ltac frame_step :=
  match goal with
  | |- rel _ (mbind _ _) => apply rel_bind; [apply _ | | intros ?]
  | |- rel _ (if ?b then _ else _) => destruct b eqn:?
  | |- rel _ (catch _) => apply rel_catch
  | |- rel _ (for_each _ _) => apply rel_for_each; [apply _|intros ?]
  | |- rel _ (match ?x with _ => _ end) => destruct x eqn:?
  | |- rel _ _ => solve [eauto 3 with frame typeclass_instances]
  end.
Ltac frame := intros; repeat frame_step.

(** [walk] proves a [rel] goal by going through the code, callees included. *)
Ltac head_of t := match t with ?f _ => head_of f | _ => t end.
Ltac walk_step :=
  first [ progress intros
        | frame_step
        | match goal with |- rel _ ?c => let h := head_of c in unfold h end ].
Ltac walk := repeat walk_step.

(** ** Invariants of computations

    [keeps ok I c]: in an environment satisfying [ok], [c] takes states with [I] to
    states with [I] whenever it returns. *)

Definition keeps {E S A} (ok : Env -> Prop) (I : S -> Prop) (c : M E S A) : Prop :=
  forall env s a s', ok env -> I s -> c env s = Ok a s' -> I s'.

Section Keeps.
Context {E S : Type} (ok : Env -> Prop) (I : S -> Prop).

Lemma keeps_ret {A} (a : A) : keeps ok I (mret a : M E S A).
Proof. intros env s b s' _ HI [_ <-]%ret_Ok. exact HI. Qed.

Lemma keeps_bind {A B} (c : M E S A) (f : A -> M E S B) :
  keeps ok I c -> (forall a, keeps ok I (f a)) -> keeps ok I (c ≫= f).
Proof. intros Hc Hf env s b s' Ho HI (a & s1 & H1 & H2)%bind_Ok. by eapply Hf, H2; eauto. Qed.

Lemma keeps_rel {A} (R : S -> S -> Prop) (c : M E S A) :
  rel R c -> (forall s s', R s s' -> I s -> I s') -> keeps ok I c.
Proof. intros Hr HR env s a s' _ HI Hc. eapply HR; [by eapply rel_Ok|done]. Qed.
End Keeps.

Lemma keeps_for_each {K W E A} `{KeySpec K} ok (I : St K W -> Prop) (f : A -> M E (St K W) unit) l :
  (forall x, keeps ok I (f x)) -> keeps ok I (for_each f l).
Proof.
  intros Hf. induction l as [|x l IH]; cbn [for_each]; [apply keeps_ret|].
  apply keeps_bind; [apply Hf|by intros _].
Qed.

(** Two nested loops are one loop over all the elements. *)
Lemma for_each_concat {K W E A B} `{KeySpec K} (f : A -> M E (St K W) unit) (g : B -> list A) l env s :
  for_each (fun x => for_each f (g x)) l env s = for_each f (concat (map g l)) env s.
Proof.
  assert (forall l1 l2 s, (for_each f l1;; for_each f l2) env s = for_each f (l1 ++ l2) env s) as Happ.
  { intros l1 l2. induction l1 as [|x l1 IH]; intros s0; [done|]. cbn [for_each app].
    unfold mbind, M_bind in *. destruct (f x env s0) as [u s1|e s1|]; [|done..].
    by rewrite <- IH. }
  revert s. induction l as [|x l IH]; intros s; [done|]. cbn [for_each map concat].
  rewrite <- Happ. unfold mbind, M_bind. destruct (for_each f (g x) env s); [apply IH|done..].
Qed.

(** ** Weakest preconditions

    [wp c env s Q QE]: started in [s], [c] either traps, returns a value and a
    state satisfying [Q], or fails with an error and a state satisfying [QE].
    The symbolic executions of the entry points are proofs of such goals. *)

Definition wp {E S A} (c : M E S A) (env : Env) (s : S)
    (Q : A -> S -> Prop) (QE : E -> S -> Prop) : Prop :=
  match c env s with
  | Ok a s' => Q a s'
  | Err e s' => QE e s'
  | Trap => True
  end.

Section Wp.
Context {E S : Type}.
Implicit Types (env : Env) (s : S).

Lemma wp_ret {A} (a : A) env s Q QE : Q a s -> wp (mret a : M E S A) env s Q QE.
Proof. done. Qed.

Lemma wp_bind {A B} (c : M E S A) (f : A -> M E S B) env s Q QE :
  wp c env s (fun a s' => wp (f a) env s' Q QE) QE -> wp (c ≫= f) env s Q QE.
Proof. unfold wp, mbind, M_bind. by destruct (c env s). Qed.

Lemma wp_conseq {A} (c : M E S A) env s (Q Q' : A -> S -> Prop) (QE QE' : E -> S -> Prop) :
  wp c env s Q QE -> (forall a s', Q a s' -> Q' a s') -> (forall e s', QE e s' -> QE' e s') ->
  wp c env s Q' QE'.
Proof. unfold wp. destruct (c env s); eauto. Qed.

Lemma wp_rel {A} (R : S -> S -> Prop) (c : M E S A) env s Q QE :
  rel R c -> (forall a s', R s s' -> Q a s') -> (forall e s', R s s' -> QE e s') ->
  wp c env s Q QE.
Proof. intros Hr HQ HE. specialize (Hr env s). unfold wp. destruct (c env s); eauto. Qed.

Lemma wp_Ok {A} (c : M E S A) env s Q QE a s' :
  wp c env s Q QE -> c env s = Ok a s' -> Q a s'.
Proof. unfold wp. intros Hw Heq. by rewrite Heq in Hw. Qed.
End Wp.

Section WpPrims.
Context {K W E : Type} `{KeySpec K}.
Implicit Types s : St K W.

Lemma wp_err {A} (e : E) env s Q QE : QE e s -> wp (err e : M E _ A) env s Q QE.
Proof. done. Qed.
Lemma wp_fail_if b (e : E) env s (Q : unit -> _ -> Prop) QE :
  (b = true -> QE e s) -> (b = false -> Q tt s) -> wp (fail_if b e) env s Q QE.
Proof. destruct b; cbn; unfold wp; cbn; eauto. Qed.
Lemma wp_ok_or {A} (o : option A) (e : E) env s (Q : A -> _ -> Prop) QE :
  (o = None -> QE e s) -> (forall a, o = Some a -> Q a s) -> wp (ok_or o e) env s Q QE.
Proof. destruct o; cbn; unfold wp; cbn; eauto. Qed.
Lemma wp_unwrap {A} (o : option A) env s (Q : A -> _ -> Prop) (QE : E -> _ -> Prop) :
  (forall a, o = Some a -> Q a s) -> wp (unwrap o) env s Q QE.
Proof. destruct o; cbn; unfold wp; cbn; eauto. Qed.
Lemma wp_require_auth a env s (Q : unit -> _ -> Prop) (QE : E -> _ -> Prop) :
  (authorized env a = true -> Q tt s) -> wp (require_auth a) env s Q QE.
Proof. unfold wp, require_auth. destruct (authorized env a); eauto. Qed.
Lemma wp_ask env s (Q : Env -> _ -> Prop) (QE : E -> _ -> Prop) :
  Q env s -> wp ask env s Q QE.
Proof. done. Qed.
Lemma wp_ledger_seq env s (Q : Z -> _ -> Prop) (QE : E -> _ -> Prop) :
  Q (sequence env) s -> wp ledger_seq env s Q QE.
Proof. done. Qed.
Lemma wp_ledger_time env s (Q : Z -> _ -> Prop) (QE : E -> _ -> Prop) :
  Q (timestamp env) s -> wp ledger_time env s Q QE.
Proof. done. Qed.
Lemma wp_current_contract env s (Q : Address -> _ -> Prop) (QE : E -> _ -> Prop) :
  Q (self env) s -> wp current_contract env s Q QE.
Proof. done. Qed.
Lemma wp_catch {A} (c : M E (St K W) A) env s (Q : A + E -> _ -> Prop) (QE : E -> _ -> Prop) :
  wp c env s (fun a s' => Q (inl a) s') (fun e s' => Q (inr e) s') ->
  wp (catch c) env s Q QE.
Proof. unfold wp, catch. by destruct (c env s). Qed.
End WpPrims.

(** ** Code that reports no error

    [noerr c]: [c] may trap but never ends with a contract error, so a caller's
    later writes are not skipped on its account. *)

Definition noerr {E S A} (c : M E S A) : Prop :=
  forall env s, match c env s with Err _ _ => False | _ => True end.

Section Noerr.
Context {K W E : Type} `{KeySpec K} `{Host W}.
Implicit Types A B : Type.
Abbreviation MM := (M E (St K W)).

Lemma noerr_bind {A B} (c : MM A) (f : A -> MM B) :
  noerr c -> (forall a, noerr (f a)) -> noerr (c ≫= f).
Proof.
  intros Hc Hf env s. specialize (Hc env s). unfold mbind, M_bind.
  destruct (c env s) as [a s'|e s'|]; try done. apply Hf.
Qed.
Lemma noerr_ret {A} (a : A) : noerr (mret a : MM A).
Proof. done. Qed.
Lemma noerr_unwrap {A} (o : option A) : noerr (unwrap o : MM A).
Proof. by destruct o. Qed.
Lemma noerr_require_auth a : noerr (require_auth a : MM unit).
Proof. intros env s. unfold require_auth. by destruct (authorized env a). Qed.
Lemma noerr_gets {A} (f : St K W -> A) : noerr (gets f : MM A).
Proof. done. Qed.
Lemma noerr_ledger_seq : noerr (ledger_seq : MM Z).
Proof. done. Qed.
Lemma noerr_ledger_time : noerr (ledger_time : MM Z).
Proof. done. Qed.
Lemma noerr_current_contract : noerr (current_contract : MM Address).
Proof. done. Qed.
Lemma noerr_i_get k : noerr (i_get k : MM _).
Proof. done. Qed.
Lemma noerr_p_get k : noerr (p_get k : MM _).
Proof. done. Qed.
Lemma noerr_i_get_or k d : noerr (i_get_or k d : MM _).
Proof. done. Qed.
Lemma noerr_p_get_or k d : noerr (p_get_or k d : MM _).
Proof. done. Qed.
Lemma noerr_p_has k : noerr (p_has k : MM _).
Proof. done. Qed.
Lemma noerr_p_set k v : noerr (p_set k v : MM _).
Proof. done. Qed.
Lemma noerr_p_remove k : noerr (p_remove k : MM _).
Proof. done. Qed.
Lemma noerr_i_set k v : noerr (i_set k v : MM _).
Proof. done. Qed.
Lemma noerr_i_remove k : noerr (i_remove k : MM _).
Proof. done. Qed.
Lemma noerr_t_remove k : noerr (t_remove k : MM _).
Proof. done. Qed.
Lemma noerr_publish t1 t2 vs : noerr (publish t1 t2 vs : MM _).
Proof. done. Qed.
Lemma noerr_prng_bytes : noerr (prng_bytes : MM _).
Proof. intros env s. unfold prng_bytes. by destruct (prng_gen (world s)). Qed.

Lemma wp_noerr {A} (c : MM A) env s Q (QE QE' : E -> St K W -> Prop) :
  noerr c -> wp c env s Q QE' -> wp c env s Q QE.
Proof. intros Hn. specialize (Hn env s). unfold wp. by destruct (c env s). Qed.
End Noerr.

Create HintDb noerr discriminated.
#[export] Hint Resolve noerr_ret noerr_unwrap noerr_require_auth noerr_gets
  noerr_ledger_seq noerr_ledger_time noerr_current_contract noerr_i_get noerr_p_get
  noerr_i_get_or noerr_p_get_or noerr_p_has noerr_p_set noerr_p_remove noerr_i_set
  noerr_i_remove noerr_t_remove noerr_publish noerr_prng_bytes : noerr.

Ltac noerr_step :=
  match goal with
  | |- noerr (mbind _ _) => apply noerr_bind; [| intros ?]
  | |- noerr (if ?b then _ else _) => destruct b eqn:?
  | |- noerr (match ?x with _ => _ end) => destruct x eqn:?
  | |- noerr _ => solve [eauto 3 with noerr typeclass_instances]
  end.
Ltac noerr := intros; repeat noerr_step.
