(* ===== verification/EscrowTypes.v ===== *)
(** The escrow contract's data: the types of [types.rs], the errors of
    [errors.rs], the storage keys with the type of the value each one holds, and
    the monad the escrow's functions are written in; and the transition table of
    [state_machine.rs]. *)
From stdpp Require Import base list strings.
From Stdlib Require Import ZArith.
From S2P Require Import Prelude Soroban.

Inductive MatchState :=
| Pending | Active | PendingResult | Completed | Cancelled | Paused.

Inductive Platform := Lichess | ChessDotCom.

Inductive Winner := WNone | WPlayer1 | WPlayer2 | WDraw.

Inductive PlayerTier := Bronze | Silver | Gold | Platinum.

#[export] Instance MatchState_eq_dec : EqDecision MatchState.
Proof. solve_decision. Defined.
#[export] Instance Platform_eq_dec : EqDecision Platform.
Proof. solve_decision. Defined.
#[export] Instance Winner_eq_dec : EqDecision Winner.
Proof. solve_decision. Defined.
#[export] Instance PlayerTier_eq_dec : EqDecision PlayerTier.
Proof. solve_decision. Defined.

Record PendingAdminProposal := mkPendingAdminProposal {
  proposer : Address;
  pending_admin : Address
}.

Record DisputeBondTier := mkDisputeBondTier {
  bond_max_stake : Z;                (** [max_stake] *)
  bond_basis_points : Z
}.

Record FeeTier := mkFeeTier {
  tier_max_stake : Z;                (** [max_stake] *)
  fee_basis_points : Z
}.

Record FeeConfig := mkFeeConfig {
  protocol_fee_bps : Z;
  fee_recipient : Address;
  cancellation_fee_basis_points : Z;
  max_protocol_fee : option Z
}.

Record TimeoutConfig := mkTimeoutConfig {
  match_timeout_seconds : Z;
  vesting_duration_seconds : Z
}.

Record StakeConfig := mkStakeConfig {
  minimum_stake : Z;
  maximum_stake : option Z;
  stablecoin_only_mode : bool;
  dispute_bond_tier_schedule : list DisputeBondTier
}.

Record ProtocolConfig := mkProtocolConfig {
  treasury : Address;
  fees : FeeConfig;
  timeouts : TimeoutConfig;
  stakes : StakeConfig
}.

#[export] Instance FeeConfig_eta : Eta FeeConfig := fun c =>
  mkFeeConfig (protocol_fee_bps c) (fee_recipient c)
    (cancellation_fee_basis_points c) (max_protocol_fee c).
#[export] Instance TimeoutConfig_eta : Eta TimeoutConfig := fun c =>
  mkTimeoutConfig (match_timeout_seconds c) (vesting_duration_seconds c).
#[export] Instance StakeConfig_eta : Eta StakeConfig := fun c =>
  mkStakeConfig (minimum_stake c) (maximum_stake c) (stablecoin_only_mode c)
    (dispute_bond_tier_schedule c).
#[export] Instance ProtocolConfig_eta : Eta ProtocolConfig := fun c =>
  mkProtocolConfig (treasury c) (fees c) (timeouts c) (stakes c).

Record Match := mkMatch {
  id : Z;
  player1 : Address;
  player2 : Address;
  stake_amount : Z;
  token : Address;
  game_id : string;
  platform : Platform;
  state : MatchState;
  player1_deposited : bool;
  player2_deposited : bool;
  created_ledger : Z;
  completed_ledger : option Z;
  winner : Winner;
  vested_at : option Z;
  player1_claimed : bool;
  player2_claimed : bool;
  conversion_rate : option Z;
  token_b : option Address;
  conversion_rate_ledger : option Z;
  paused_ledger : option Z;
  paused_at_ledger : option Z;
  total_pause_duration : Z;
  referrer : option Address;
  last_heartbeat : Z;
  bracket_id : option Z;
  activated_at : option Z;
  rollback_vote_player1 : bool;
  rollback_vote_player2 : bool;
  round : option Z;
  vesting_override_seconds : option Z
}.

#[export] Instance Match_eta : Eta Match := fun m =>
  mkMatch (id m) (player1 m) (player2 m) (stake_amount m) (token m) (game_id m)
    (platform m) (state m) (player1_deposited m) (player2_deposited m)
    (created_ledger m) (completed_ledger m) (winner m) (vested_at m)
    (player1_claimed m) (player2_claimed m) (conversion_rate m) (token_b m)
    (conversion_rate_ledger m) (paused_ledger m) (paused_at_ledger m)
    (total_pause_duration m) (referrer m) (last_heartbeat m) (bracket_id m)
    (activated_at m) (rollback_vote_player1 m) (rollback_vote_player2 m)
    (round m) (vesting_override_seconds m).

Record TempOracleRotation := mkTempOracleRotation {
  temp_rot_old_oracle : Address;     (** [old_oracle] *)
  temp_rot_oracle : Address;         (** [temp_oracle] *)
  temp_rot_expiry : Z                (** [expiry] *)
}.

Record PendingOracleRotation := mkPendingOracleRotation {
  pending_rot_old_oracle : Address;  (** [old_oracle] *)
  pending_rot_new_oracle : Address   (** [new_oracle] *)
}.

Record OracleRotationState := mkOracleRotationState {
  temp_old_oracle : option Address;
  temp_new_oracle : option Address;
  temp_expiry : option Z;
  pending_old_oracle : option Address;
  pending_new_oracle : option Address
}.

Inductive SnapshotReason :=
| RCreated | RDeposit | RPaused | RResumed | RCompleted | RCancelled
| RResultSubmitted | RFinalized.

Inductive DisputeState :=
| DActive | DUpheld | DOverturned | DResolvedUpheld | DResolvedOverturned.

#[export] Instance DisputeState_eq_dec : EqDecision DisputeState.
Proof. solve_decision. Defined.

Record Dispute := mkDispute {
  d_id : Z;
  d_match_id : Z;
  disputer : Address;
  d_created_ledger : Z;
  voting_deadline : Z;
  d_state : DisputeState;
  evidence_hash : string;
  uphold_votes : Z;
  overturn_votes : Z;
  yes_votes : Z;
  no_votes : Z;
  dispute_bond : Z;
  snapshot_ledger : Z;
  snapshot_total_weight : Z;
  quorum_threshold : Z
}.

#[export] Instance Dispute_eta : Eta Dispute := fun d =>
  mkDispute (d_id d) (d_match_id d) (disputer d) (d_created_ledger d)
    (voting_deadline d) (d_state d) (evidence_hash d) (uphold_votes d)
    (overturn_votes d) (yes_votes d) (no_votes d) (dispute_bond d)
    (snapshot_ledger d) (snapshot_total_weight d) (quorum_threshold d).

Record BalanceSnapshot := mkBalanceSnapshot {
  snap_match_id : Z;
  snap_index : Z;
  snap_reason : SnapshotReason;
  snap_ledger : Z;
  snap_token : Address;
  snap_token_symbol : string;
  snap_stake_amount : Z;
  snap_escrow_balance : Z;
  snap_player1_deposited : bool;
  snap_player2_deposited : bool;
  snap_nonce : list Z;
  snap_commitment : list Z
}.

#[export] Instance BalanceSnapshot_eta : Eta BalanceSnapshot := fun b =>
  mkBalanceSnapshot (snap_match_id b) (snap_index b) (snap_reason b)
    (snap_ledger b) (snap_token b) (snap_token_symbol b) (snap_stake_amount b)
    (snap_escrow_balance b) (snap_player1_deposited b)
    (snap_player2_deposited b) (snap_nonce b) (snap_commitment b).

Record PlayerBalanceSnapshot := mkPlayerBalanceSnapshot {
  ps_player : Address;
  ps_index : Z;
  ps_ledger : Z;
  ps_balance : Z
}.

Inductive BalanceAtTimestamp := Known (b : Z) | NoHistory | Pruned.

Record PlatformStats := mkPlatformStats {
  total_matches : Z;
  total_volume : Z;
  total_payouts : Z
}.

Record PlayerStats := mkPlayerStats {
  p_total_matches : Z;
  wins : Z;
  losses : Z;
  draws : Z;
  total_volume_staked : Z
}.

Record PlayerRating := mkPlayerRating {
  username : string;
  rating : Z;
  recorded_ledger : Z
}.

(** ** Storage keys *)

Inductive DataKey :=
| KMatch (match_id : Z)
| KMatchCount
| KOracle
| KAdmin
| KPendingAdmin
| KPaused
| KGameId (g : string)
| KPlayerMatches (p : Address)
| KAllowedToken (t : Address)
| KAllowedTokenCount
| KAllowlistEnforced
| KAllowedTokens
| KSnapshot (match_id slot : Z)
| KSnapshotCount (match_id : Z)
| KProtocolConfig
| KDisputePeriod
| KPendingWinner (match_id : Z)
| KResultDeadline (match_id : Z)
| KDispute (dispute_id : Z)
| KDisputeVote (dispute_id : Z) (voter : Address)
| KDisputeCount
| KMatchDispute (match_id : Z)
| KPlayerBalanceSnapshot (p : Address) (slot : Z)
| KPlayerBalanceSnapshotCount (p : Address)
| KDisputeVoteWeight (dispute_id : Z) (voter : Address)
| KDisputeBondBasisPoints
| KMinimumHoldDuration
| KQuorumBasisPoints
| KDisputeOracle (dispute_id : Z)
| KActiveMatch (p : Address) (match_id : Z)
| KPlayerActiveMatchCount (p : Address)
| KPlayerCompletedMatchCount (p : Address)
| KStablecoinIssuer (a : Address)
| KStablecoinIssuerCount
| KPendingUpgradeHash
| KUpgradeScheduledAt
| KContractVersion
| KReferralShareBasisPoints
| KBlacklistedToken (t : Address)
| KBlacklistedTokens
| KFeeTiers
| KPlayerPreferredToken (p : Address)
| KStats
| KPlatformStats (p : Platform)
| KPlayerStats (p : Address)
| KOracleRecord (match_id : Z)
| KConsensusLeadingWinner (match_id : Z)
| KOracleConfirmations (match_id : Z)
| KOracleVote (match_id : Z) (oracle : Address)
| KApprovedOracles
| KRequiredOracleConfirmations
| KDepositInProgress (match_id : Z)
| KOracleRotation.

Inductive MatchIndexKey := BracketMatches (b : Z) | MatchesByState (st : MatchState).
Inductive BracketKey := Organizer (b : Z).
Inductive OracleConsensusKey := OracleDeadlock (match_id : Z).
Inductive PlayerFreezeKey := FrozenPlayer (p : Address) | FrozenPlayers.
Inductive PlayerRatingKey := Rating (p : Address) (pl : Platform).
Inductive TokenSymbolCacheKey := TokenSymbol (t : Address).
Inductive UpgradeKey := ConfirmedBy.
Inductive PlayerEscrowKey := Balance (p : Address).

(** All key enums share the contract's storage. *)
Inductive Key :=
| DK (k : DataKey)
| MIK (k : MatchIndexKey)
| BK (k : BracketKey)
| OCK (k : OracleConsensusKey)
| PFK (k : PlayerFreezeKey)
| PRK (k : PlayerRatingKey)
| TSK (k : TokenSymbolCacheKey)
| UK (k : UpgradeKey)
| PEK (k : PlayerEscrowKey).
Coercion DK : DataKey >-> Key.
Coercion MIK : MatchIndexKey >-> Key.
Coercion BK : BracketKey >-> Key.
Coercion OCK : OracleConsensusKey >-> Key.
Coercion PFK : PlayerFreezeKey >-> Key.
Coercion PRK : PlayerRatingKey >-> Key.
Coercion TSK : TokenSymbolCacheKey >-> Key.
Coercion UK : UpgradeKey >-> Key.
Coercion PEK : PlayerEscrowKey >-> Key.

#[export] Instance DataKey_eq_dec : EqDecision DataKey.
Proof. solve_decision. Defined.
#[export] Instance MatchIndexKey_eq_dec : EqDecision MatchIndexKey.
Proof. solve_decision. Defined.
#[export] Instance BracketKey_eq_dec : EqDecision BracketKey.
Proof. solve_decision. Defined.
#[export] Instance OracleConsensusKey_eq_dec : EqDecision OracleConsensusKey.
Proof. solve_decision. Defined.
#[export] Instance PlayerFreezeKey_eq_dec : EqDecision PlayerFreezeKey.
Proof. solve_decision. Defined.
#[export] Instance PlayerRatingKey_eq_dec : EqDecision PlayerRatingKey.
Proof. solve_decision. Defined.
#[export] Instance TokenSymbolCacheKey_eq_dec : EqDecision TokenSymbolCacheKey.
Proof. solve_decision. Defined.
#[export] Instance UpgradeKey_eq_dec : EqDecision UpgradeKey.
Proof. solve_decision. Defined.
#[export] Instance PlayerEscrowKey_eq_dec : EqDecision PlayerEscrowKey.
Proof. solve_decision. Defined.
#[export] Instance Key_eq_dec : EqDecision Key.
Proof. solve_decision. Defined.

Definition data_val (k : DataKey) : Type :=
  match k with
  | KMatch _ => Match
  | KMatchCount => Z
  | KOracle => Address
  | KAdmin => Address
  | KPendingAdmin => PendingAdminProposal
  | KPaused => bool
  | KGameId _ => bool
  | KPlayerMatches _ => list Z
  | KAllowedToken _ => bool
  | KAllowedTokenCount => Z
  | KAllowlistEnforced => bool
  | KAllowedTokens => list Address
  | KSnapshot _ _ => BalanceSnapshot
  | KSnapshotCount _ => Z
  | KProtocolConfig => ProtocolConfig
  | KDisputePeriod => Z
  | KPendingWinner _ => Winner
  | KResultDeadline _ => Z
  | KDispute _ => Dispute
  | KDisputeVote _ _ => bool
  | KDisputeCount => Z
  | KMatchDispute _ => Z
  | KPlayerBalanceSnapshot _ _ => PlayerBalanceSnapshot
  | KPlayerBalanceSnapshotCount _ => Z
  | KDisputeVoteWeight _ _ => Z
  | KDisputeBondBasisPoints => Z
  | KMinimumHoldDuration => Z
  | KQuorumBasisPoints => Z
  | KDisputeOracle _ => Address
  | KActiveMatch _ _ => bool
  | KPlayerActiveMatchCount _ => Z
  | KPlayerCompletedMatchCount _ => Z
  | KStablecoinIssuer _ => bool
  | KStablecoinIssuerCount => Z
  | KPendingUpgradeHash => list Z
  | KUpgradeScheduledAt => Z
  | KContractVersion => Z
  | KReferralShareBasisPoints => Z
  | KBlacklistedToken _ => string
  | KBlacklistedTokens => list Address
  | KFeeTiers => list FeeTier
  | KPlayerPreferredToken _ => Address
  | KStats => PlatformStats
  | KPlatformStats _ => PlatformStats
  | KPlayerStats _ => PlayerStats
  | KOracleRecord _ => string
  | KConsensusLeadingWinner _ => Winner
  | KOracleConfirmations _ => Z
  | KOracleVote _ _ => Winner
  | KApprovedOracles => list Address
  | KRequiredOracleConfirmations => Z
  | KDepositInProgress _ => bool
  | KOracleRotation => OracleRotationState
  end.

Definition key_val (k : Key) : Type :=
  match k with
  | DK k => data_val k
  | MIK _ => list Z
  | BK _ => Address
  | OCK _ => bool
  | PFK (FrozenPlayer _) => string
  | PFK FrozenPlayers => list Address
  | PRK _ => PlayerRating
  | TSK _ => string
  | UK _ => Address
  | PEK _ => Z
  end.

#[export] Instance Key_spec : KeySpec Key := {| kval := key_val |}.

(** ** Errors *)

Inductive Error :=
| MatchNotFound | AlreadyFunded | NotFunded | Unauthorized | InvalidState
| AlreadyExists | AlreadyInitialized | Overflow | ContractPaused | InvalidAmount
| PlayerFrozen | DuplicateGameId | MatchNotExpired | InvalidGameId
| InvalidPlayers | TokenNotAllowed | InvalidAddress | MatchAlreadyActive
| InvalidTimeout | SnapshotNotFound | VestingNotExpired | AlreadyClaimed
| DisputeNotFound | PendingResultNotFound | DisputeAlreadyResolved
| VotingPeriodElapsed | AlreadyVoted | NotStaker | VotingPeriodNotElapsed
| MatchNotInPendingResult | DisputePeriodNotElapsed | DisputeAlreadyRaised
| InvalidEvidenceHash | TierStakeNotAllowed | NotInitialized
| InvalidPauseState | ConversionRateOutOfBounds
| ConversionRateStalePriceSource | InsufficientBond | QuorumNotMet
| InsufficientHoldingDuration | TooManyActiveMatches | NotStablecoin
| UpgradeNotScheduled | UpgradeReviewPeriodNotElapsed | InvalidVersion
| UpgradeAlreadyScheduled | OracleAlreadyConfirmed | ConflictingResult
| NotAnOracle | DepositInProgress | DisputeFallbackNotElapsed
| ConfigValueTooHigh | UpgradeNotConfirmed | RecoveryTimelockNotElapsed.

(** The discriminants a caller sees as [Error(Contract, #n)]. *)
Definition error_code (e : Error) : Z :=
  match e with
  | MatchNotFound => 1 | AlreadyFunded => 2 | NotFunded => 3 | Unauthorized => 4
  | InvalidState => 5 | AlreadyExists => 6 | AlreadyInitialized => 7
  | Overflow => 8 | ContractPaused => 9 | InvalidAmount => 10
  | PlayerFrozen => 11 | DuplicateGameId => 13 | MatchNotExpired => 14
  | InvalidGameId => 15 | InvalidPlayers => 16 | TokenNotAllowed => 17
  | InvalidAddress => 18 | MatchAlreadyActive => 19 | InvalidTimeout => 20
  | SnapshotNotFound => 21 | VestingNotExpired => 22 | AlreadyClaimed => 23
  | DisputeNotFound => 24 | PendingResultNotFound => 25
  | DisputeAlreadyResolved => 26 | VotingPeriodElapsed => 27
  | AlreadyVoted => 28 | NotStaker => 29 | VotingPeriodNotElapsed => 30
  | MatchNotInPendingResult => 31 | DisputePeriodNotElapsed => 32
  | DisputeAlreadyRaised => 33 | InvalidEvidenceHash => 34
  | TierStakeNotAllowed => 35 | NotInitialized => 36 | InvalidPauseState => 37
  | ConversionRateOutOfBounds => 39 | ConversionRateStalePriceSource => 40
  | InsufficientBond => 41 | QuorumNotMet => 42
  | InsufficientHoldingDuration => 43 | TooManyActiveMatches => 45
  | NotStablecoin => 46 | UpgradeNotScheduled => 47
  | UpgradeReviewPeriodNotElapsed => 48 | InvalidVersion => 49
  | UpgradeAlreadyScheduled => 50 | OracleAlreadyConfirmed => 51
  | ConflictingResult => 52 | NotAnOracle => 54 | DepositInProgress => 55
  | DisputeFallbackNotElapsed => 56 | ConfigValueTooHigh => 57
  | UpgradeNotConfirmed => 58 | RecoveryTimelockNotElapsed => 59
  end.

Lemma error_code_inj e1 e2 : error_code e1 = error_code e2 -> e1 = e2.
Proof. destruct e1, e2; intros H; (reflexivity || discriminate H). Qed.

(** ** The escrow's monad

    [M A] is a function of the escrow contract returning [A]; the storage
    operations are those of [Soroban] at the escrow's keys and errors. *)

Abbreviation State W := (St Key W).
Abbreviation EM W := (Soroban.M Error (State W)).
Abbreviation i_get := (@Soroban.i_get Key _ Error Key_spec).
Abbreviation p_get := (@Soroban.p_get Key _ Error Key_spec).
Abbreviation t_get := (@Soroban.t_get Key _ Error Key_spec).
Abbreviation i_get_or := (@Soroban.i_get_or Key _ Error Key_spec).
Abbreviation p_get_or := (@Soroban.p_get_or Key _ Error Key_spec).
Abbreviation i_has := (@Soroban.i_has Key _ Error Key_spec).
Abbreviation p_has := (@Soroban.p_has Key _ Error Key_spec).
Abbreviation i_set := (@Soroban.i_set Key _ Error Key_spec).
Abbreviation p_set := (@Soroban.p_set Key _ Error Key_spec).
Abbreviation t_set := (@Soroban.t_set Key _ Error Key_spec).
Abbreviation i_remove := (@Soroban.i_remove Key _ Error Key_spec).
Abbreviation p_remove := (@Soroban.p_remove Key _ Error Key_spec).
Abbreviation t_remove := (@Soroban.t_remove Key _ Error Key_spec).

Definition init_state {W} (w : W) : State W :=
  mkSt empty_store empty_store empty_store w [].

(** Typed views of storage areas and typed updates of them. *)
Definition set_key (k : Key) (v : key_val k) (st : Store Key) : Store Key :=
  upd k (Some v) st.

(** How the contract enums appear in event payloads. *)
Definition winner_val (w : Winner) : Val :=
  VSym match w with
       | WNone => "None" | WPlayer1 => "Player1" | WPlayer2 => "Player2"
       | WDraw => "Draw"
       end.
Definition state_val (st : MatchState) : Val :=
  VSym match st with
       | Pending => "Pending" | Active => "Active"
       | PendingResult => "PendingResult" | Completed => "Completed"
       | Cancelled => "Cancelled" | Paused => "Paused"
       end.
Definition platform_val (p : Platform) : Val :=
  VSym match p with Lichess => "Lichess" | ChessDotCom => "ChessDotCom" end.
Definition dispute_state_val (d : DisputeState) : Val :=
  VSym match d with
       | DActive => "Active" | DUpheld => "Upheld" | DOverturned => "Overturned"
       | DResolvedUpheld => "ResolvedUpheld"
       | DResolvedOverturned => "ResolvedOverturned"
       end.

(** ** The transition table of [state_machine.rs]

    The module is declared by the contract but its entry points are not called by
    [lib.rs], whose functions carry their own state guards; [Lifecycle] compares the
    table with what [lib.rs] does. *)

Inductive StateTransitionError := InvalidTransition | PauseDurationExceeded.

Definition is_valid_transition (from to : MatchState) : bool :=
  match from, to with
  | Pending, Active => true
  | Pending, Cancelled => true
  | Active, PendingResult => true
  | Active, Cancelled => true
  | Active, Paused => true
  | Paused, Active => true
  | Paused, Cancelled => true
  | Paused, PendingResult => true
  | Paused, Completed => true
  | PendingResult, Completed => true
  | PendingResult, Cancelled => true
  | _, _ => false
  end.

(** [panic_with_error!] ends the call with the error. *)
Definition validate_transition (from to : MatchState) : unit + StateTransitionError :=
  if is_valid_transition from to then inl tt else inr InvalidTransition.

Definition is_terminal (st : MatchState) : bool :=
  match st with Completed | Cancelled => true | _ => false end.
