(* ===== verification/Config.v ===== *)
(** Configuration of the escrow contract: initialisation, the contract-wide
    pause, [ProtocolConfig] and its setters, fee tiers, the referral and protocol
    fees, and the timeouts derived from the configuration
    ([contracts/escrow/src/lib.rs]).

    The code stores [treasury] in [ProtocolConfig] (as [types.rs] declares it)
    and reads the nested [fees]/[timeouts]/[stakes] settings both directly and
    through the sub-structs; here every read goes through the sub-structs. *)
From stdpp Require Import base list strings.
From Stdlib Require Import ZArith Lia.
From S2P Require Import Prelude Soroban EscrowTypes.

Definition MATCH_TTL_LEDGERS : Z := 518400.
Definition SECONDS_PER_LEDGER : Z := 5.
Definition DEFAULT_MATCH_TIMEOUT_SECONDS : Z := 2592000.
Definition MIN_MATCH_TIMEOUT_SECONDS : Z := 86400.
Definition MAX_MATCH_TIMEOUT_SECONDS : Z := 7776000.
Definition MAX_PAUSE_DURATION_LEDGERS : Z := 17280.
Definition MAX_REASON_LEN : Z := 256.
Definition DEFAULT_DISPUTE_BOND_BASIS_POINTS : Z := 100.
Definition DEFAULT_MINIMUM_HOLD_DURATION : Z := 100.
Definition DEFAULT_QUORUM_BASIS_POINTS : Z := 2000.
Definition DEFAULT_MINIMUM_STAKE : Z := 1.
Definition CONTRACT_VERSION : Z := 1000.
Definition DEFAULT_REFERRAL_SHARE_BPS : Z := 2000.
Definition DEFAULT_VESTING_SECONDS : Z := 259200.

Section Config.
Context {W : Type}.
Abbreviation M := (EM W).

(** ** Initialisation and the contract-wide pause *)

Definition initialize (oracle admin : Address) : M unit :=
  has ← i_has KOracle;
  fail_if has AlreadyInitialized;;
  me ← current_contract;
  fail_if (oracle =a me) InvalidAddress;;
  i_set KOracle oracle;;
  i_set KAdmin admin;;
  i_set KMatchCount 0;;
  i_set KPaused false;;
  i_set KAllowlistEnforced false;;
  i_set KAllowedTokenCount 0;;
  i_set KDisputeBondBasisPoints DEFAULT_DISPUTE_BOND_BASIS_POINTS;;
  i_set KMinimumHoldDuration DEFAULT_MINIMUM_HOLD_DURATION;;
  i_set KQuorumBasisPoints DEFAULT_QUORUM_BASIS_POINTS;;
  i_set KContractVersion CONTRACT_VERSION;;
  publish "escrow" "init" [VAddr oracle; VAddr admin].

(** [storage().instance().get(&DataKey::Admin).ok_or(Unauthorized)?] *)
Definition load_admin : M Address :=
  a ← i_get KAdmin; ok_or a Unauthorized.

(** The admin gate of most setters: the stored admin must authorize. *)
Definition require_admin : M Address :=
  admin ← load_admin; require_auth admin;; mret admin.

(** The gate of the functions that take the caller as an argument. *)
Definition require_caller_admin (caller : Address) : M unit :=
  require_auth caller;;
  admin ← load_admin;
  fail_if (negb (caller =a admin)) Unauthorized.

Definition pause (caller : Address) : M unit :=
  require_caller_admin caller;;
  already ← i_get_or KPaused false;
  fail_if already InvalidPauseState;;
  i_set KPaused true;;
  publish "admin" "paused" [VUnit].

Definition unpause (caller : Address) : M unit :=
  require_caller_admin caller;;
  already ← i_get_or KPaused false;
  fail_if (negb already) InvalidPauseState;;
  i_set KPaused false;;
  publish "admin" "unpaused" [VUnit].

Definition is_paused : M bool := i_get_or KPaused false.
Definition is_initialized : M bool := i_has KOracle.

(** ** Protocol configuration *)

Definition default_config (recipient : Address) : ProtocolConfig :=
  mkProtocolConfig recipient
    (mkFeeConfig 0 recipient 0 None)
    (mkTimeoutConfig DEFAULT_MATCH_TIMEOUT_SECONDS DEFAULT_VESTING_SECONDS)
    (mkStakeConfig DEFAULT_MINIMUM_STAKE None false []).

Definition get_config : M ProtocolConfig :=
  c ← i_get KProtocolConfig;
  match c with
  | Some c => mret c
  | None =>
      me ← current_contract;
      recipient ← i_get_or KAdmin me;
      mret (default_config recipient)
  end.

Definition get_protocol_config : M ProtocolConfig := get_config.

(** The ordering check on the dispute-bond schedule. *)
Fixpoint check_bond_tiers (prev_max_stake : Z) (tiers : list DisputeBondTier) : M unit :=
  match tiers with
  | [] => mret tt
  | t :: rest =>
      fail_if (bond_max_stake t <=? prev_max_stake) InvalidAmount;;
      fail_if (bond_basis_points t >? 10000) InvalidAmount;;
      check_bond_tiers (bond_max_stake t) rest
  end.

Definition set_protocol_config (config : ProtocolConfig) : M unit :=
  admin ← require_admin;
  fail_if (protocol_fee_bps (fees config) >? 10000) InvalidAmount;;
  fail_if (cancellation_fee_basis_points (fees config) >? 10000) InvalidAmount;;
  fail_if (negb (in_range MIN_MATCH_TIMEOUT_SECONDS MAX_MATCH_TIMEOUT_SECONDS
                   (match_timeout_seconds (timeouts config)))) InvalidAmount;;
  fail_if (minimum_stake (stakes config) <? 1) InvalidAmount;;
  fail_if match maximum_stake (stakes config) with
          | Some max => max <? minimum_stake (stakes config)
          | None => false
          end InvalidAmount;;
  check_bond_tiers (-1) (dispute_bond_tier_schedule (stakes config));;
  me ← current_contract;
  fail_if (treasury config =a me) InvalidAddress;;
  fail_if (fee_recipient (fees config) =a me) InvalidAddress;;
  old ← i_get KProtocolConfig;
  let old_mode := match old with
                  | Some c => stablecoin_only_mode (stakes c)
                  | None => false
                  end in
  let new_mode := stablecoin_only_mode (stakes config) in
  i_set KProtocolConfig config;;
  (if Bool.eqb old_mode new_mode then mret tt
   else publish "escrow" "stablecoin_mode" [VBool new_mode; VAddr admin]);;
  publish "admin" "protocol_config_set" [VAddr admin].

Definition set_referral_share_bps (basis_points : Z) : M unit :=
  admin ← require_admin;
  fail_if (basis_points >? 10000) InvalidAmount;;
  i_set KReferralShareBasisPoints basis_points;;
  publish "admin" "ref_share" [VInt basis_points; VAddr admin].

Definition get_referral_share_bps : M Z :=
  i_get_or KReferralShareBasisPoints DEFAULT_REFERRAL_SHARE_BPS.

Definition set_minimum_stake (amount : Z) : M unit :=
  require_admin;;
  fail_if (amount <? 1) InvalidAmount;;
  c ← get_config;
  i_set KProtocolConfig (c <| stakes := (stakes c) <| minimum_stake := amount |> |>);;
  publish "admin" "min_stake" [VInt amount].

Definition set_maximum_stake (amount : option Z) : M unit :=
  require_admin;;
  fail_if match amount with Some max => max <=? 0 | None => false end InvalidAmount;;
  c ← get_config;
  i_set KProtocolConfig (c <| stakes := (stakes c) <| maximum_stake := amount |> |>);;
  publish "admin" "max_stake"
    [match amount with Some x => VSome (VInt x) | None => VNone end].

Definition set_match_timeout (seconds : Z) : M unit :=
  require_admin;;
  fail_if (negb (in_range MIN_MATCH_TIMEOUT_SECONDS MAX_MATCH_TIMEOUT_SECONDS seconds))
    InvalidTimeout;;
  c ← get_config;
  i_set KProtocolConfig
    (c <| timeouts := (timeouts c) <| match_timeout_seconds := seconds |> |>);;
  publish "admin" "timeout"
    [VInt (match_timeout_seconds (timeouts c)); VInt seconds].

Definition get_match_timeout : M Z :=
  c ← get_config; mret (match_timeout_seconds (timeouts c)).

(** Ceiling division of the timeout by the ledger close time, [as u32]. *)
Definition current_match_timeout : M Z :=
  c ← get_config;
  sum ← unwrap (checked 0 u64_max
                  (match_timeout_seconds (timeouts c) + SECONDS_PER_LEDGER));
  mret (as_u32 ((sum - 1) / SECONDS_PER_LEDGER)).

(** ** Dispute parameters *)

Definition set_dispute_period (period : Z) : M unit :=
  require_admin;;
  i_set KDisputePeriod period;;
  publish "admin" "dispute_period" [VInt period].

Definition get_dispute_period : M Z := i_get_or KDisputePeriod 0.

Definition set_dispute_bond_basis_points (basis_points : Z) : M unit :=
  require_admin;;
  fail_if ((basis_points =? 0) || (basis_points >? 10000)) InvalidAmount;;
  i_set KDisputeBondBasisPoints basis_points;;
  publish "admin" "dispute_bond" [VInt basis_points].

Definition set_minimum_hold_duration (duration : Z) : M unit :=
  require_admin;;
  i_set KMinimumHoldDuration duration;;
  publish "admin" "min_hold_duration" [VInt duration].

Definition set_quorum_basis_points (basis_points : Z) : M unit :=
  require_admin;;
  fail_if ((basis_points =? 0) || (basis_points >? 10000)) InvalidAmount;;
  i_set KQuorumBasisPoints basis_points;;
  publish "admin" "quorum_basis_points" [VInt basis_points].

Definition get_dispute_bond_basis_points : M Z :=
  i_get_or KDisputeBondBasisPoints DEFAULT_DISPUTE_BOND_BASIS_POINTS.
Definition get_minimum_hold_duration : M Z :=
  i_get_or KMinimumHoldDuration DEFAULT_MINIMUM_HOLD_DURATION.
Definition get_quorum_basis_points : M Z :=
  i_get_or KQuorumBasisPoints DEFAULT_QUORUM_BASIS_POINTS.

(** The loop of [dispute_bond_basis_points_for]: the first tier that covers
    the stake. *)
Fixpoint find_bond_tier (stake : Z) (tiers : list DisputeBondTier) : option Z :=
  match tiers with
  | [] => None
  | t :: rest =>
      if stake <=? bond_max_stake t then Some (bond_basis_points t)
      else find_bond_tier stake rest
  end.

Definition dispute_bond_basis_points_for (stake : Z) : M Z :=
  c ← get_config;
  let schedule := dispute_bond_tier_schedule (stakes c) in
  match find_bond_tier stake schedule with
  | Some bps => mret bps
  | None =>
      match last schedule with
      | Some t => mret (bond_basis_points t)
      | None => i_get_or KDisputeBondBasisPoints DEFAULT_DISPUTE_BOND_BASIS_POINTS
      end
  end.

(** ** Fee tiers *)

Fixpoint check_fee_tiers (prev_max : Z) (tiers : list FeeTier) : M unit :=
  match tiers with
  | [] => mret tt
  | t :: rest =>
      fail_if (tier_max_stake t <=? prev_max) InvalidAmount;;
      fail_if (fee_basis_points t >? 10000) InvalidAmount;;
      check_fee_tiers (tier_max_stake t) rest
  end.

Definition set_fee_tiers (tiers : list FeeTier) : M unit :=
  admin ← require_admin;
  check_fee_tiers (-1) tiers;;
  p_set KFeeTiers tiers;;
  publish "admin" "fee_tiers_set" [VInt (Z.of_nat (length tiers)); VAddr admin].

Definition get_fee_tiers : M (list FeeTier) := p_get_or KFeeTiers [].

(** The loop of [compute_tiered_fee]: the first tier that covers the stake. *)
Fixpoint find_fee_tier (stake : Z) (tiers : list FeeTier) : option Z :=
  match tiers with
  | [] => None
  | t :: rest =>
      if stake <=? tier_max_stake t then Some (fee_basis_points t)
      else find_fee_tier stake rest
  end.

Definition selected_bps (stake : Z) (tiers : list FeeTier) : Z :=
  match find_fee_tier stake tiers with
  | Some bps => bps
  | None => match last tiers with
            | Some t => fee_basis_points t
            | None => 0
            end
  end.

Definition compute_tiered_fee (stake : Z) : M Z :=
  tiers ← p_get_or KFeeTiers [];
  if decide (tiers = [] :> list FeeTier) then mret 0 else
  pot ← ok_or (i128_checked_mul stake 2) Overflow;
  prod ← ok_or (i128_checked_mul pot (selected_bps stake tiers)) Overflow;
  ok_or (i128_checked_div prod 10000) Overflow.

Definition calculate_fee_by_tier (stake : Z) : M Z := compute_tiered_fee stake.

(** ** Fees taken out of a winner's payout *)

Definition compute_referral_fee (m : Match) (pot : Z) : M Z :=
  match referrer m with
  | None => mret 0
  | Some _ =>
      c ← get_config;
      if cancellation_fee_basis_points (fees c) =? 0 then mret 0 else
      prod ← ok_or (i128_checked_mul pot (cancellation_fee_basis_points (fees c))) Overflow;
      share ← i_get_or KReferralShareBasisPoints DEFAULT_REFERRAL_SHARE_BPS;
      prod' ← ok_or (i128_checked_mul (Z.quot prod 10000) share) Overflow;
      mret (Z.quot prod' 10000)
  end.

Definition compute_protocol_fee (pot : Z) : M Z :=
  c ← get_config;
  if protocol_fee_bps (fees c) =? 0 then mret 0 else
  prod ← ok_or (i128_checked_mul pot (protocol_fee_bps (fees c))) Overflow;
  let fee := Z.quot prod 10000 in
  mret match max_protocol_fee (fees c) with
       | Some cap => Z.min fee cap
       | None => fee
       end.

(** ** Durations *)

Definition resolve_vesting_duration (m : Match) : M Z :=
  match vesting_override_seconds m with
  | Some d => mret d
  | None => c ← get_config; mret (vesting_duration_seconds (timeouts c))
  end.

Definition pause_duration_exceeded (m : Match) : M bool :=
  seq ← ledger_seq;
  mret (bool_decide (state m = Paused) &&
        match paused_ledger m with
        | Some started => u32_sat_sub seq started >? MAX_PAUSE_DURATION_LEDGERS
        | None => false
        end).
End Config.

(** ** Properties of the fee schedule *)

(** What [set_fee_tiers] accepts: thresholds strictly increasing from above
    [prev], rates at most 100%. *)
Fixpoint tiers_ok (prev : Z) (tiers : list FeeTier) : Prop :=
  match tiers with
  | [] => True
  | t :: rest =>
      prev < tier_max_stake t /\ fee_basis_points t <= 10000 /\
      tiers_ok (tier_max_stake t) rest
  end.

(** [t] is the cheapest-threshold tier that covers [stake]. *)
Definition lowest_covering (stake : Z) (tiers : list FeeTier) (t : FeeTier) : Prop :=
  t ∈ tiers /\ stake <= tier_max_stake t /\
  forall t', t' ∈ tiers -> stake <= tier_max_stake t' -> tier_max_stake t <= tier_max_stake t'.

Section FeeFacts.
Context {W : Type}.
Implicit Types s : State W.

Lemma check_fee_tiers_Ok prev tiers env s u s' :
  check_fee_tiers prev tiers env s = Ok u s' <-> tiers_ok prev tiers /\ s = s'.
Proof.
  destruct u. revert prev. induction tiers as [|t rest IH]; intros prev; cbn [check_fee_tiers tiers_ok].
  - rewrite ret_Ok. naive_solver.
  - split.
    + intros Hr. minv. apply IH in Hm2 as [? ?]. zbool. repeat split; try done; lia.
    + intros [(?&?&?) ->]. unfold fail_if.
      destruct (tier_max_stake t <=? prev) eqn:?; zbool; [lia|].
      destruct (fee_basis_points t >? 10000) eqn:?; zbool; [lia|].
      rewrite !(bind_run _ _ _ _ tt s') by done. by apply IH.
Qed.

Lemma tiers_ok_above prev tiers t :
  tiers_ok prev tiers -> t ∈ tiers -> prev < tier_max_stake t.
Proof.
  revert prev. induction tiers as [|t0 rest IH]; intros prev; [intros _ ?%elem_of_nil; done|].
  intros (?&?&Hr) [->|Hin]%elem_of_cons; [done|]. specialize (IH _ Hr Hin). lia.
Qed.

Lemma find_fee_tier_spec prev stake tiers :
  tiers_ok prev tiers ->
  match find_fee_tier stake tiers with
  | Some bps => exists t, lowest_covering stake tiers t /\ bps = fee_basis_points t
  | None => forall t, t ∈ tiers -> tier_max_stake t < stake
  end.
Proof.
  revert prev. induction tiers as [|t rest IH]; intros prev Hok; cbn.
  - intros t ?%elem_of_nil. done.
  - destruct Hok as (Hlt & Hb & Hrest). specialize (IH _ Hrest).
    destruct (stake <=? tier_max_stake t) eqn:Hs; zbool.
    + exists t. split; [|done]. split; [left|]. split; [done|].
      intros t' [->|Hin]%elem_of_cons _; [lia|].
      pose proof (tiers_ok_above _ _ _ Hrest Hin). lia.
    + destruct (find_fee_tier stake rest) as [bps|].
      * destruct IH as (t' & (Hin & Hc & Hmin) & ->). exists t'. split; [|done].
        split; [by right|]. split; [done|].
        intros t'' [->|Hin']%elem_of_cons ?; [lia|]. by apply Hmin.
      * intros t' [->|Hin]%elem_of_cons; [done | by apply IH].
Qed.

Lemma selected_bps_bounds stake tiers prev :
  tiers_ok prev tiers -> Forall (fun t => 0 <= fee_basis_points t) tiers ->
  0 <= selected_bps stake tiers <= 10000.
Proof.
  intros Hok Hpos.
  assert (Hall : Forall (fun t => 0 <= fee_basis_points t <= 10000) tiers).
  { revert prev Hok. induction Hpos as [|t rest Ht _ IH]; intros prev Hok; constructor.
    - destruct Hok as (?&?&?). lia.
    - destruct Hok as (?&?&?). by eapply IH. }
  rewrite Forall_forall in Hall. unfold selected_bps.
  pose proof (find_fee_tier_spec prev stake tiers Hok) as Hf.
  destruct (find_fee_tier stake tiers) as [bps|].
  - destruct Hf as (t & (Hin & _) & ->). by apply Hall.
  - destruct (last tiers) as [t|] eqn:Hl; [|lia].
    apply Hall. apply last_Some in Hl as [l ->]. apply elem_of_app. right. left.
Qed.

(** For every schedule [set_fee_tiers] accepts, the tiered fee of a stake is
    the pot ([2 * stake]) times the rate of the tier with the smallest threshold
    covering the stake (or of the last tier when none covers it), rounded down;
    it lies between 0 and the pot and the computation reports no overflow when
    the pot times 10000 fits an i128. *)
Theorem tiered_fee_spec env s stake (tiers : list FeeTier) prev :
  pers s KFeeTiers = Some tiers ->
  tiers <> [] ->
  tiers_ok prev tiers ->
  Forall (fun t => 0 <= fee_basis_points t) tiers ->
  0 <= stake -> 2 * stake * 10000 <= i128_max ->
  exists bps,
    compute_tiered_fee stake env s = Ok (2 * stake * bps / 10000) s /\
    0 <= 2 * stake * bps / 10000 <= 2 * stake /\
    ((exists t, lowest_covering stake tiers t /\ bps = fee_basis_points t) \/
     ((forall t, t ∈ tiers -> tier_max_stake t < stake) /\
      option_map fee_basis_points (last tiers) = Some bps)).
Proof.
  intros Hst Hne Hok Hpos Hstake Hov. exists (selected_bps stake tiers).
  pose proof (selected_bps_bounds stake tiers prev Hok Hpos) as Hb.
  assert (Hrange : 0 <= 2 * stake * selected_bps stake tiers / 10000 <= 2 * stake).
  { rewrite <- Z.quot_div_nonneg by nia. apply quot_bounds; lia. }
  split; [|split; [done|]].
  - unfold compute_tiered_fee, p_get_or, mbind, M_bind. cbn. rewrite Hst. cbn.
    destruct (decide (tiers = [])); [done|].
    assert (i128_checked_mul stake 2 = Some (2 * stake)) as ->
      by (apply checked_Some; unfold_ints; lia).
    cbn. assert (i128_checked_mul (2 * stake) (selected_bps stake tiers)
                 = Some (2 * stake * selected_bps stake tiers)) as ->
      by (apply checked_Some; unfold_ints; nia).
    cbn. unfold i128_checked_div. cbn. rewrite Z.quot_div_nonneg by nia.
    assert (checked i128_min i128_max (2 * stake * selected_bps stake tiers / 10000)
            = Some (2 * stake * selected_bps stake tiers / 10000)) as ->
      by (apply checked_Some; unfold_ints; lia).
    reflexivity.
  - pose proof (find_fee_tier_spec prev stake tiers Hok) as Hf. unfold selected_bps.
    destruct (find_fee_tier stake tiers); [by left|]. right. split; [done|].
    destruct (last tiers) eqn:Hl; [done|]. by apply last_None in Hl.
Qed.

(** The protocol fee of a non-negative pot never exceeds the pot nor the
    configured cap, and is never negative, as long as the rate is at most 100%
    (which [set_protocol_config] enforces) and the cap is not negative (which
    it does not). *)
Theorem protocol_fee_bounds env s s' pot fee (c : ProtocolConfig) :
  inst s KProtocolConfig = Some c ->
  0 <= protocol_fee_bps (fees c) <= 10000 ->
  (forall cap, max_protocol_fee (fees c) = Some cap -> 0 <= cap) ->
  0 <= pot ->
  compute_protocol_fee pot env s = Ok fee s' ->
  0 <= fee <= pot /\ (forall cap, max_protocol_fee (fees c) = Some cap -> fee <= cap).
Proof.
  intros Hc Hbps Hcap Hpot Hrun. unfold compute_protocol_fee, get_config in Hrun.
  minv; simplify_eq/=; zbool.
  - split; [lia|]. intros cap Hm. specialize (Hcap _ Hm). lia.
  - apply checked_Some in H as [<- ?].
    pose proof (quot_bounds pot (protocol_fee_bps (fees c)) 10000) as Hq.
    destruct (max_protocol_fee (fees c)) as [cap|]; [specialize (Hcap cap eq_refl)|];
      (split; [lia|]; intros ? [=]; lia).
Qed.
End FeeFacts.
