(* ===== verification/Tokens.v ===== *)
(** Which tokens and players the escrow accepts: the token allowlist, the token
    blacklist, the stablecoin issuers and the frozen players
    ([contracts/escrow/src/lib.rs]). *)
From stdpp Require Import base list strings.
From Stdlib Require Import ZArith Lia.
From S2P Require Import Prelude Soroban EscrowTypes Config.

Section Tokens.
Context {W : Type}.
Abbreviation M := (EM W).

(** ** Allowlist *)

Definition get_allowed_token_list : M (list Address) :=
  l ← p_get KAllowedTokens; mret (default [] l).

Definition set_allowed_token_list (l : list Address) : M unit :=
  match l with
  | [] => p_remove KAllowedTokens
  | _ => p_set KAllowedTokens l
  end.

Definition append_allowed_token (t : Address) : M unit :=
  l ← p_get_or KAllowedTokens [];
  if contains l t then mret tt
  else set_allowed_token_list (l ++ [t]).

Definition remove_allowed_token_from_list (t : Address) : M unit :=
  l ← get_allowed_token_list;
  match l with
  | [] => mret tt
  | _ => set_allowed_token_list (remove_addr l t)
  end.

Definition add_allowed_token (t : Address) : M unit :=
  admin ← require_admin;
  already_allowed ← i_get_or (KAllowedToken t) false;
  i_set (KAllowedToken t) true;;
  (if negb already_allowed then
     count ← i_get_or KAllowedTokenCount 0;
     next_count ← ok_or (u32_checked_add count 1) Overflow;
     i_set KAllowedTokenCount next_count;;
     i_set KAllowlistEnforced true
   else i_set KAllowlistEnforced true);;
  append_allowed_token t;;
  publish "admin" "token_add" [VAddr t; VAddr admin].

Definition remove_allowed_token (t : Address) : M unit :=
  admin ← require_admin;
  was_allowed ← i_has (KAllowedToken t);
  i_remove (KAllowedToken t);;
  (if was_allowed : bool then
     count ← i_get_or KAllowedTokenCount 0;
     let next_count := u32_sat_sub count 1 in
     i_set KAllowedTokenCount next_count;;
     (if next_count =? 0 then i_set KAllowlistEnforced false else mret tt)
   else mret tt);;
  remove_allowed_token_from_list t;;
  publish "admin" "tok_rm" [VAddr t; VAddr admin].

Definition is_token_allowed (t : Address) : M bool := i_get_or (KAllowedToken t) false.
Definition is_allowlist_enforced : M bool := i_get_or KAllowlistEnforced false.
Definition get_allowed_tokens : M (list Address) := get_allowed_token_list.

Definition get_allowed_tokens_paginated (offset limit : Z) : M (list Address) :=
  all ← get_allowed_token_list;
  let total := vec_len all in
  let start := Z.min offset total in
  let stop := Z.min (u32_sat_add start limit) total in
  mret (slice all start stop).

(** ** Stablecoin issuers *)

Definition add_stablecoin_issuer (issuer : Address) : M unit :=
  require_admin;;
  me ← current_contract;
  fail_if (issuer =a me) InvalidAddress;;
  already_registered ← i_get_or (KStablecoinIssuer issuer) false;
  i_set (KStablecoinIssuer issuer) true;;
  (if negb already_registered then
     count ← i_get_or KStablecoinIssuerCount 0;
     next_count ← ok_or (u32_checked_add count 1) Overflow;
     i_set KStablecoinIssuerCount next_count
   else mret tt);;
  publish "admin" "sc_issuer_add" [VAddr issuer].

Definition remove_stablecoin_issuer (issuer : Address) : M unit :=
  require_admin;;
  was_registered ← i_get_or (KStablecoinIssuer issuer) false;
  if was_registered : bool then
    i_remove (KStablecoinIssuer issuer);;
    count ← i_get_or KStablecoinIssuerCount 0;
    i_set KStablecoinIssuerCount (u32_sat_sub count 1);;
    publish "admin" "sc_issuer_rm" [VAddr issuer]
  else mret tt.

Definition check_is_stablecoin (t : Address) : M bool :=
  i_get_or (KStablecoinIssuer t) false.
Definition is_stablecoin (t : Address) : M bool := check_is_stablecoin t.

(** ** Blacklist *)

Definition add_token_to_blacklist (t : Address) (reason : string) : M unit :=
  admin ← require_admin;
  fail_if ((str_len reason =? 0) || (str_len reason >? MAX_REASON_LEN)) InvalidAmount;;
  present ← i_has (KBlacklistedToken t);
  i_set (KBlacklistedToken t) reason;;
  (if negb present then
     l ← p_get_or KBlacklistedTokens [];
     p_set KBlacklistedTokens (l ++ [t])
   else mret tt);;
  publish "admin" "tok_blacklist" [VAddr t; VStr reason; VAddr admin].

Definition remove_token_from_blacklist (t : Address) : M unit :=
  require_admin;;
  was_blacklisted ← i_has (KBlacklistedToken t);
  if was_blacklisted : bool then
    i_remove (KBlacklistedToken t);;
    l ← p_get KBlacklistedTokens;
    match l with
    | Some l => p_set KBlacklistedTokens (remove_addr l t)
    | None => mret tt
    end;;
    publish "admin" "tok_unblacklist" [VAddr t]
  else mret tt.

Definition is_token_blacklisted (t : Address) : M bool := i_has (KBlacklistedToken t).
Definition get_blacklist : M (list Address) := p_get_or KBlacklistedTokens [].

(** ** Frozen players *)

Definition admin_freeze_player (p : Address) (reason : string) : M unit :=
  require_admin;;
  fail_if ((str_len reason =? 0) || (str_len reason >? MAX_REASON_LEN)) InvalidAmount;;
  present ← i_has (FrozenPlayer p);
  i_set (FrozenPlayer p) reason;;
  (if negb present then
     l ← p_get_or FrozenPlayers [];
     p_set FrozenPlayers (l ++ [p])
   else mret tt);;
  publish "admin" "freeze" [VAddr p].

Definition admin_unfreeze_player (p : Address) : M unit :=
  require_admin;;
  was_frozen ← i_has (FrozenPlayer p);
  if was_frozen : bool then
    i_remove (FrozenPlayer p);;
    l ← p_get FrozenPlayers;
    match l with
    | Some l => p_set FrozenPlayers (remove_addr l p)
    | None => mret tt
    end;;
    publish "admin" "unfreeze" [VAddr p]
  else mret tt.

Definition is_player_frozen (p : Address) : M bool := i_has (FrozenPlayer p).

(** The paging loop: [offset + capped_limit] is evaluated for every entry and
    traps when it exceeds a u32. *)
Fixpoint frozen_page (l : list Address) (count offset capped_limit : Z) : M (list Address) :=
  match l with
  | [] => mret []
  | p :: rest =>
      bound ← unwrap (u32_checked_add offset capped_limit);
      if bound <=? count then mret []
      else
        count' ← unwrap (u32_checked_add count 1);
        page ← frozen_page rest count' offset capped_limit;
        mret (if offset <=? count then p :: page else page)
  end.

Definition get_frozen_players (offset limit : Z) : M (list Address) :=
  all ← p_get_or FrozenPlayers [];
  frozen_page all 0 offset (if limit >? 100 then 100 else limit).

Definition admin_list_frozen_players (caller : Address) (offset limit : Z) : M (list Address) :=
  admin ← load_admin;
  require_auth caller;;
  fail_if (negb (caller =a admin)) Unauthorized;;
  all ← p_get_or FrozenPlayers [];
  frozen_page all 0 offset (if limit >? 100 then 100 else limit).

Definition require_player_not_frozen (p : Address) : M unit :=
  frozen ← i_has (FrozenPlayer p);
  fail_if frozen ContractPaused.
End Tokens.
