(* ===== verification/Players.v ===== *)
(** Per-player bookkeeping: stake tiers, the set of active matches, the escrow
    balance counter, win/loss statistics, platform statistics, ratings and the
    preferred payout token ([contracts/escrow/src/lib.rs]). *)
From stdpp Require Import base list strings.
From Stdlib Require Import ZArith Lia.
From S2P Require Import Prelude Soroban EscrowTypes Config.

Definition SILVER_MIN_COMPLETED_MATCHES : Z := 3.
Definition GOLD_MIN_COMPLETED_MATCHES : Z := 6.
Definition PLATINUM_MIN_COMPLETED_MATCHES : Z := 10.
Definition MAX_ACTIVE_MATCHES_PER_PLAYER : Z := 1000.

(** ** Stake tiers *)

Definition tier_for_completed_matches (completed : Z) : PlayerTier :=
  if PLATINUM_MIN_COMPLETED_MATCHES <=? completed then Platinum
  else if GOLD_MIN_COMPLETED_MATCHES <=? completed then Gold
  else if SILVER_MIN_COMPLETED_MATCHES <=? completed then Silver
  else Bronze.

Definition min_tier_stake (t : PlayerTier) : Z :=
  match t with Bronze => 1 | Silver => 101 | Gold => 501 | Platinum => 1001 end.

Definition max_tier_stake (t : PlayerTier) : Z :=
  match t with Bronze => 100 | Silver => 500 | Gold => 1000 | Platinum => i128_max end.

Section Players.
Context {W : Type}.
Abbreviation M := (EM W).

Definition completed_match_count (p : Address) : M Z :=
  p_get_or (KPlayerCompletedMatchCount p) 0.

Definition record_completed_match (p : Address) : M unit :=
  count ← p_get_or (KPlayerCompletedMatchCount p) 0;
  p_set (KPlayerCompletedMatchCount p) (u32_sat_add count 1).

Definition require_player_tier_for_stake (p : Address) (stake : Z) : M unit :=
  completed ← completed_match_count p;
  let tier := tier_for_completed_matches completed in
  fail_if ((stake <? min_tier_stake tier) || (stake >? max_tier_stake tier))
    TierStakeNotAllowed.

Definition tier_from_match_count (p : Address) : M PlayerTier :=
  completed ← completed_match_count p;
  mret (tier_for_completed_matches completed).

(** ** Active matches of a player *)

Definition add_active_match (p : Address) (match_id : Z) : M unit :=
  count ← p_get_or (KPlayerActiveMatchCount p) 0;
  fail_if (count >=? MAX_ACTIVE_MATCHES_PER_PLAYER) TooManyActiveMatches;;
  p_set (KActiveMatch p match_id) true;;
  count' ← unwrap (u32_checked_add count 1);
  p_set (KPlayerActiveMatchCount p) count'.

Definition remove_active_match_indexed (p : Address) (match_id : Z) : M unit :=
  has ← p_has (KActiveMatch p match_id);
  if has : bool then
    p_remove (KActiveMatch p match_id);;
    count ← p_get_or (KPlayerActiveMatchCount p) 0;
    if count >? 0 then p_set (KPlayerActiveMatchCount p) (count - 1) else mret tt
  else mret tt.

(** ** Escrow balance counter *)

Definition player_escrow_balance (p : Address) : M Z := p_get_or (Balance p) 0.

Definition update_player_escrow_balance (p : Address) (d : Z) : M unit :=
  current ← p_get_or (Balance p) 0;
  p_set (Balance p) (i128_sat_add current d).

(** ** Statistics *)

Definition zero_player_stats : PlayerStats := mkPlayerStats 0 0 0 0 0.
Definition zero_platform_stats : PlatformStats := mkPlatformStats 0 0 0.

Definition get_player_stats (p : Address) : M PlayerStats :=
  p_get_or (KPlayerStats p) zero_player_stats.

Definition count_result (s : PlayerStats) (w : Winner) (is_player1 : bool) : PlayerStats :=
  let won := mkPlayerStats (p_total_matches s) (u64_sat_add (wins s) 1) (losses s)
               (draws s) (total_volume_staked s) in
  let lost := mkPlayerStats (p_total_matches s) (wins s) (u64_sat_add (losses s) 1)
                (draws s) (total_volume_staked s) in
  match w with
  | WPlayer1 => if is_player1 then won else lost
  | WPlayer2 => if is_player1 then lost else won
  | WDraw => mkPlayerStats (p_total_matches s) (wins s) (losses s)
               (u64_sat_add (draws s) 1) (total_volume_staked s)
  | WNone => s
  end.

Definition update_player_stats (p : Address) (w : Winner) (stake : Z) (is_player1 : bool) : M unit :=
  s ← p_get_or (KPlayerStats p) zero_player_stats;
  let s' := mkPlayerStats (u64_sat_add (p_total_matches s) 1) (wins s) (losses s)
              (draws s) (i128_sat_add (total_volume_staked s) stake) in
  p_set (KPlayerStats p) (count_result s' w is_player1).

Definition count_created (s : PlatformStats) (stake : Z) : PlatformStats :=
  mkPlatformStats (u64_sat_add (total_matches s) 1) (i128_sat_add (total_volume s) stake)
    (total_payouts s).
Definition count_payout (s : PlatformStats) : PlatformStats :=
  mkPlatformStats (total_matches s) (total_volume s) (u64_sat_add (total_payouts s) 1).

Definition record_platform_match_created (stake : Z) (pl : Platform) : M unit :=
  s ← p_get_or KStats zero_platform_stats;
  p_set KStats (count_created s stake);;
  ps ← p_get_or (KPlatformStats pl) zero_platform_stats;
  p_set (KPlatformStats pl) (count_created ps stake).

Definition record_platform_payout (pl : Platform) : M unit :=
  s ← p_get_or KStats zero_platform_stats;
  p_set KStats (count_payout s);;
  ps ← p_get_or (KPlatformStats pl) zero_platform_stats;
  p_set (KPlatformStats pl) (count_payout ps).

Definition get_platform_stats (pl : Platform) : M (option PlatformStats) :=
  p_get (KPlatformStats pl).
Definition get_global_platform_stats : M PlatformStats :=
  p_get_or KStats zero_platform_stats.

(** ** Preferences and ratings *)

Definition set_preferred_payout_token (p : Address) (t : option Address) : M unit :=
  require_auth p;;
  match t with
  | Some a => p_set (KPlayerPreferredToken p) a
  | None => p_remove (KPlayerPreferredToken p)
  end.

Definition get_preferred_payout_token (p : Address) : M (option Address) :=
  p_get (KPlayerPreferredToken p).

Definition register_player_rating (caller p : Address) (pl : Platform)
    (name : string) (r : Z) : M unit :=
  oracle ← i_get KOracle;
  oracle ← ok_or oracle Unauthorized;
  require_auth caller;;
  fail_if (negb (caller =a oracle)) Unauthorized;;
  seq ← ledger_seq;
  p_set (Rating p pl) (mkPlayerRating name r seq);;
  publish "rating" "registered" [VAddr p; platform_val pl; VInt r].

Definition get_player_rating (p : Address) (pl : Platform) : M (option PlayerRating) :=
  p_get (Rating p pl).
End Players.

(** ** Properties of the stake tiers *)

Definition in_tier (t : PlayerTier) (stake : Z) : bool :=
  (min_tier_stake t <=? stake) && (stake <=? max_tier_stake t).

Lemma tiers_disjoint t1 t2 stake :
  in_tier t1 stake = true -> in_tier t2 stake = true -> t1 = t2.
Proof.
  unfold in_tier. intros ? ?; zbool.
  destruct t1, t2; cbn in *; unfold i128_max in *; (done || lia).
Qed.

(** The four stake tiers partition the admissible stakes: every stake from 1
    to the largest i128 lies in exactly one tier's range. *)
Theorem tier_ranges_partition stake :
  1 <= stake <= i128_max ->
  exists t, in_tier t stake = true /\ forall t', in_tier t' stake = true -> t' = t.
Proof.
  intros Hs.
  assert (exists t, in_tier t stake = true) as [t Ht].
  { destruct (Z_le_gt_dec stake 100); [exists Bronze|
    destruct (Z_le_gt_dec stake 500); [exists Silver|
    destruct (Z_le_gt_dec stake 1000); [exists Gold|exists Platinum]]];
    apply andb_true_iff; split; apply Z.leb_le; cbn; unfold i128_max in *; lia. }
  exists t. split; [done|]. intros t' Ht'. by eapply tiers_disjoint.
Qed.

Lemma tier_ranges_partition_witness :
  1 <= 250 <= i128_max /\
  exists t, in_tier t 250 = true /\ forall t', in_tier t' 250 = true -> t' = t.
Proof. split; [vm_compute; split; discriminate|]. apply (tier_ranges_partition 250). vm_compute. split; discriminate. Defined.

Section TierFacts.
Context {W : Type}.

Lemma require_tier_Ok (p : Address) stake env (s : State W) u s' :
  require_player_tier_for_stake p stake env s = Ok u s' <->
  s = s' /\ in_tier (tier_for_completed_matches
                       (default 0 (pers s (KPlayerCompletedMatchCount p)))) stake = true.
Proof.
  unfold require_player_tier_for_stake, completed_match_count, in_tier. destruct u. split.
  - intros Hr. minv. zbool. split; [done|]. apply andb_true_iff; rewrite !Z.leb_le. lia.
  - intros [-> Ht]. zbool. unfold fail_if, p_get_or, mbind, M_bind. cbn.
    match goal with |- context [if ?b then _ else _] => destruct b eqn:E end; [|done].
    apply orb_true_iff in E as [E|E]; zbool; lia.
Qed.
End TierFacts.
