(* ===== verification/MatchIndex.v ===== *)
(** The lookup indexes over matches: for every state (and every tournament
    bracket) the sorted list of the ids of its matches, and the state change that
    keeps the index in step with the match record
    ([contracts/escrow/src/lib.rs], lines 1305-1368). *)
From stdpp Require Import base list strings.
From Stdlib Require Import ZArith Lia Sorted.
From S2P Require Import Prelude Soroban EscrowTypes.

(** The insertion loop of [add_match_to_index]. *)
Fixpoint insert_loop (match_id : Z) (inserted : bool) (ids : list Z) : list Z :=
  match ids with
  | [] => if inserted then [] else [match_id]
  | x :: rest =>
      if negb inserted && (match_id <? x)
      then match_id :: x :: insert_loop match_id true rest
      else x :: insert_loop match_id inserted rest
  end.

Definition index_add (match_id : Z) (ids : list Z) : list Z :=
  if existsb (fun x => x =? match_id) ids then ids
  else insert_loop match_id false ids.

Definition index_remove (match_id : Z) (ids : list Z) : list Z :=
  List.filter (fun x => negb (x =? match_id)) ids.

Section MatchIndex.
Context {W : Type}.
Abbreviation M := (EM W).

Definition add_match_to_index (key : MatchIndexKey) (match_id : Z) : M unit :=
  ids ← p_get_or key [];
  if existsb (fun x => x =? match_id) (ids : list Z) then mret tt
  else p_set key (insert_loop match_id false ids).

Definition remove_match_from_index (key : MatchIndexKey) (match_id : Z) : M unit :=
  ids ← p_get_or key [];
  match index_remove match_id ids with
  | [] => p_remove key
  | remaining => p_set key remaining
  end.

(** [storage().persistent().get(&DataKey::Match(id)).ok_or(MatchNotFound)?] *)
Definition load_match (match_id : Z) : M Match :=
  m ← p_get (KMatch match_id); ok_or m MatchNotFound.
Definition store_match (match_id : Z) (m : Match) : M unit := p_set (KMatch match_id) m.

(** Returns the updated record: the source mutates [m] in place. *)
Definition set_match_state (m : Match) (st : MatchState) : M Match :=
  if bool_decide (state m = st) then mret m
  else
    remove_match_from_index (MatchesByState (state m)) (id m);;
    add_match_to_index (MatchesByState st) (id m);;
    mret (m <| state := st |>).
End MatchIndex.

(** ** Properties of the index *)

Definition sorted (l : list Z) : Prop := StronglySorted Z.lt l.

Lemma index_member match_id ids :
  existsb (fun x => x =? match_id) ids = true <-> match_id ∈ ids.
Proof.
  rewrite existsb_exists. split.
  - intros (x & Hin & Heq%Z.eqb_eq). subst. by apply list_elem_of_In.
  - intros Hin. exists match_id. split; [by apply list_elem_of_In | apply Z.eqb_refl].
Qed.

Lemma insert_loop_true match_id ids : insert_loop match_id true ids = ids.
Proof. induction ids as [|x ids IH]; cbn; [done | by rewrite IH]. Qed.

Lemma insert_loop_elem match_id ids x :
  x ∈ insert_loop match_id false ids <-> x = match_id \/ x ∈ ids.
Proof.
  induction ids as [|y ids IH]; cbn.
  - rewrite list_elem_of_singleton, elem_of_nil. naive_solver.
  - destruct (match_id <? y); cbn; rewrite ?insert_loop_true, !elem_of_cons, ?IH; naive_solver.
Qed.

Lemma insert_loop_sorted match_id ids :
  match_id ∉ ids -> sorted ids -> sorted (insert_loop match_id false ids).
Proof.
  unfold sorted. intros Hnin Hs. induction Hs as [|y ids Hs IH Hy]; cbn.
  - repeat constructor.
  - apply not_elem_of_cons in Hnin as [Hne Hnin].
    destruct (match_id <? y) eqn:Hlt; cbn; zbool.
    + rewrite insert_loop_true. constructor; [by constructor|].
      constructor; [done|]. eapply Forall_impl; [exact Hy|]. cbn. lia.
    + constructor; [by apply IH|]. apply Forall_forall. intros x.
      rewrite insert_loop_elem. rewrite Forall_forall in Hy. intros [->|?]; [lia|by apply Hy].
Qed.

Lemma index_remove_elem match_id ids x :
  x ∈ index_remove match_id ids <-> x ∈ ids /\ x <> match_id.
Proof.
  unfold index_remove. rewrite !list_elem_of_In, filter_In, negb_true_iff, Z.eqb_neq. done.
Qed.

Lemma index_remove_sorted match_id ids : sorted ids -> sorted (index_remove match_id ids).
Proof.
  unfold sorted, index_remove. induction 1 as [|y ids Hs IH Hy]; cbn; [constructor|].
  destruct (negb (y =? match_id)); [|done]. constructor; [done|].
  apply Forall_forall. intros x. change (x ∈ index_remove match_id ids -> y < x).
  intros [Hx _]%index_remove_elem. rewrite Forall_forall in Hy. by apply Hy.
Qed.

Lemma index_add_elem match_id ids x :
  x ∈ index_add match_id ids <-> x = match_id \/ x ∈ ids.
Proof.
  unfold index_add. destruct (existsb _ ids) eqn:He; [|apply insert_loop_elem].
  apply index_member in He. naive_solver.
Qed.

Lemma index_add_sorted match_id ids : sorted ids -> sorted (index_add match_id ids).
Proof.
  unfold index_add. destruct (existsb _ ids) eqn:He; [done|]. apply insert_loop_sorted.
  intros Hin%index_member. congruence.
Qed.

(** Two sorted lists with the same elements are equal. *)
Lemma sorted_ext l1 l2 : sorted l1 -> sorted l2 -> (forall x, x ∈ l1 <-> x ∈ l2) -> l1 = l2.
Proof.
  intros Hs1. revert l2. induction Hs1 as [|a l1 Hs1 IH Ha]; intros l2 Hs2 Heq.
  - destruct l2 as [|b l2]; [done|]. destruct (Heq b) as [_ Hb].
    by specialize (Hb ltac:(left)) as ?%elem_of_nil.
  - destruct Hs2 as [|b l2 Hs2 Hb].
    { destruct (Heq a) as [Hb _]. by specialize (Hb ltac:(left)) as ?%elem_of_nil. }
    rewrite Forall_forall in Ha, Hb.
    assert (a = b) as ->.
    { destruct (Heq a) as [H1 _]. destruct (Heq b) as [_ H2].
      specialize (H1 ltac:(left)) as [?|H1]%elem_of_cons; [done|].
      specialize (H2 ltac:(left)) as [?|H2]%elem_of_cons; [done|].
      specialize (Ha _ H2). specialize (Hb _ H1). lia. }
    f_equal. apply IH; [done|]. intros x. specialize (Heq x). rewrite !elem_of_cons in Heq.
    split; intros Hx; [destruct Heq as [[->|?] _]|destruct Heq as [_ [->|?]]]; eauto;
      [specialize (Ha _ Hx) | specialize (Hb _ Hx)]; lia.
Qed.

Section IndexFacts.
Context {W : Type}.
Implicit Types s : State W.

Definition index_of s (k : MatchIndexKey) : list Z := default [] (pers s k).

(** What the two index operations do to the stored lists. *)
Lemma add_match_to_index_run key mid env s :
  exists s', add_match_to_index key mid env s = Ok tt s' /\
    inst s' = inst s /\ temp s' = temp s /\ world s' = world s /\ events s' = events s /\
    index_of s' key = index_add mid (index_of s key) /\
    (forall k, k <> MIK key -> pers s' k = pers s k).
Proof.
  unfold add_match_to_index, index_of, index_add, p_get_or, mbind, M_bind. cbn.
  destruct (existsb _ _); eexists; (split; [reflexivity|]); cbn; [done|].
  rewrite upd_eq. split_and!; try done. intros k Hk. by rewrite upd_ne.
Qed.

Lemma remove_match_from_index_run key mid env s :
  exists s', remove_match_from_index key mid env s = Ok tt s' /\
    inst s' = inst s /\ temp s' = temp s /\ world s' = world s /\ events s' = events s /\
    index_of s' key = index_remove mid (index_of s key) /\
    (forall k, k <> MIK key -> pers s' k = pers s k).
Proof.
  unfold remove_match_from_index, index_of, p_get_or, mbind, M_bind. cbn.
  destruct (index_remove mid _) eqn:He; eexists; (split; [reflexivity|]); cbn;
    rewrite upd_eq; (split_and!; try done); intros k Hk; by rewrite upd_ne.
Qed.
End IndexFacts.
