(* ===== verification/Snapshots.v ===== *)
(** Balance snapshots: the per-match and per-player ring buffers, their
    commitments, and the queries over them ([contracts/escrow/src/lib.rs], lines
    3941-3996 and 4871-5366). *)
From stdpp Require Import base list numbers strings.
From Stdlib Require Import ZArith Lia.
From S2P Require Import Prelude Soroban EscrowTypes Config Players MatchIndex.

Definition MAX_SNAPSHOTS_PER_MATCH : Z := 8.
Definition MAX_PLAYER_SNAPSHOTS : Z := 32.

(** [i128::to_be_bytes]: two's complement, most significant byte first. *)
Fixpoint be_bytes (n : nat) (x : Z) : list Z :=
  match n with
  | O => []
  | S n' => (Z.shiftr x (8 * Z.of_nat n')) mod 256 :: be_bytes n' x
  end.
Definition i128_to_be_bytes (x : Z) : list Z := be_bytes 16 x.

Definition depositor_count (m : Match) : Z :=
  (if player1_deposited m then 1 else 0) + (if player2_deposited m then 1 else 0).

Definition is_terminal_state (st : MatchState) : bool :=
  match st with Completed | Cancelled => true | _ => false end.

Section Snapshots.
Context {W : Type} `{Host W}.
Abbreviation M := (EM W).

(** The product is unchecked in the source: overflow traps. *)
Definition escrow_balance_of (m : Match) : M Z :=
  if is_terminal_state (state m) then mret 0
  else unwrap (i128_checked_mul (depositor_count m) (stake_amount m)).

Definition get_depositor_count (match_id : Z) : M Z :=
  m ← load_match match_id;
  mret (as_u32 (depositor_count m)).

Definition get_escrow_balance (match_id : Z) : M Z :=
  m ← load_match match_id;
  escrow_balance_of m.

Definition is_currently_escrowed (match_id : Z) : M bool :=
  m ← load_match match_id;
  mret (player1_deposited m && player2_deposited m && negb (is_terminal_state (state m))).

(** ** Per-match snapshots *)

Definition fetch_token_symbol (t : Address) : M string :=
  cached ← p_get (TokenSymbol t);
  match cached with
  | Some c => mret c
  | None =>
      symbol ← gets (fun s => default EmptyString (token_symbol (world s) t));
      (if str_len symbol >? 0 then p_set (TokenSymbol t) symbol else mret tt);;
      mret symbol
  end.

Definition compute_commitment (stake balance : Z) (nonce : list Z) : list Z :=
  sha256 (W:=W) (i128_to_be_bytes stake ++ i128_to_be_bytes balance ++ nonce).

Definition record_snapshot (m : Match) (reason : SnapshotReason) : M unit :=
  token_symbol ← fetch_token_symbol (token m);
  escrow_balance ← escrow_balance_of m;
  index ← p_get_or (KSnapshotCount (id m)) 0;
  let slot := index mod MAX_SNAPSHOTS_PER_MATCH in
  (if index >=? MAX_SNAPSHOTS_PER_MATCH then
     old ← p_get (KSnapshot (id m) slot);
     let overwritten_index := match old with
                              | Some old => snap_index old
                              | None => u32_sat_sub index MAX_SNAPSHOTS_PER_MATCH
                              end in
     publish "match" "snap_ovr" [VInt (id m); VInt overwritten_index; VInt index]
   else mret tt);;
  nonce ← prng_bytes;
  let commitment := compute_commitment (stake_amount m) escrow_balance nonce in
  seq ← ledger_seq;
  p_set (KSnapshot (id m) slot)
    (mkBalanceSnapshot (id m) index reason seq (token m) token_symbol
       (stake_amount m) escrow_balance (player1_deposited m) (player2_deposited m)
       nonce commitment);;
  p_set (KSnapshotCount (id m)) (u32_sat_add index 1);;
  publish "match" "snapshot" [VInt (id m); VInt index; VBytes commitment].

Definition authorize_snapshot_query (caller : Address) (m : Match) : M bool :=
  require_auth caller;;
  admin ← load_admin;
  if caller =a admin then mret true
  else if (caller =a player1 m) || (caller =a player2 m) then mret false
  else err Unauthorized.

Definition redact_snapshot (b : BalanceSnapshot) : BalanceSnapshot :=
  b <| snap_stake_amount := 0 |> <| snap_escrow_balance := 0 |>
    <| snap_player1_deposited := false |> <| snap_player2_deposited := false |>
    <| snap_nonce := replicate 32 0 |>.

Definition view_snapshot (full_access : bool) (b : BalanceSnapshot) : BalanceSnapshot :=
  if full_access then b else redact_snapshot b.

(** The entries found at the slots of indexes [start..count). *)
Definition snapshots_between (s : State W) (match_id start count : Z) : list BalanceSnapshot :=
  omap (fun i => pers s (KSnapshot match_id (i mod MAX_SNAPSHOTS_PER_MATCH)))
    (seqZ start (count - start)).

Definition get_balance_snapshots (caller : Address) (match_id : Z) : M (list BalanceSnapshot) :=
  m ← load_match match_id;
  full_access ← authorize_snapshot_query caller m;
  count ← p_get_or (KSnapshotCount match_id) 0;
  let available := Z.min count MAX_SNAPSHOTS_PER_MATCH in
  let start := u32_sat_sub count available in
  gets (fun s => view_snapshot full_access <$> snapshots_between s match_id start count).

Definition get_latest_snapshot (caller : Address) (match_id : Z) : M BalanceSnapshot :=
  m ← load_match match_id;
  full_access ← authorize_snapshot_query caller m;
  count ← p_get_or (KSnapshotCount match_id) 0;
  fail_if (count =? 0) SnapshotNotFound;;
  snapshot ← p_get (KSnapshot match_id ((count - 1) mod MAX_SNAPSHOTS_PER_MATCH));
  snapshot ← ok_or snapshot SnapshotNotFound;
  mret (view_snapshot full_access snapshot).

(** ** Per-player snapshots *)

Definition record_player_snapshot (p : Address) : M unit :=
  balance ← player_escrow_balance p;
  index ← p_get_or (KPlayerBalanceSnapshotCount p) 0;
  seq ← ledger_seq;
  p_set (KPlayerBalanceSnapshot p (index mod MAX_PLAYER_SNAPSHOTS))
    (mkPlayerBalanceSnapshot p index seq balance);;
  p_set (KPlayerBalanceSnapshotCount p) (u64_sat_add index 1);;
  publish "player" "snapshot" [VAddr p; VInt index; VInt balance].

(** The loop of [get_balance_at_timestamp]: from [start + n] down to [start],
    newest first; [n] iterations are left. *)
Fixpoint search_balance (s : State W) (p : Address) (ts start : Z) (n : nat) : option Z :=
  match n with
  | O => None
  | S n' =>
      let cursor := start + Z.of_nat n' in
      match pers s (KPlayerBalanceSnapshot p (cursor mod MAX_PLAYER_SNAPSHOTS)) with
      | Some snap =>
          if (ps_index snap =? cursor) && (ps_ledger snap <=? ts)
          then Some (ps_balance snap)
          else search_balance s p ts start n'
      | None => search_balance s p ts start n'
      end
  end.

Definition get_balance_at_timestamp (p : Address) (ts : Z) : M BalanceAtTimestamp :=
  count ← p_get_or (KPlayerBalanceSnapshotCount p) 0;
  if count =? 0 then mret NoHistory else
  let available := Z.min count MAX_PLAYER_SNAPSHOTS in
  let start := u64_sat_sub count available in
  gets (fun s =>
          match search_balance s p ts start (Z.to_nat (count - start)) with
          | Some b => Known b
          | None => if start >? 0 then Pruned else NoHistory
          end).

(** The loop of [get_balance_snaps_paginated] over the indexes [is]. *)
Fixpoint collect_snaps (s : State W) (p : Address) (limit added : Z) (idxs : list Z)
    : list PlayerBalanceSnapshot :=
  match idxs with
  | [] => []
  | i :: rest =>
      if limit <=? added then []
      else
        match pers s (KPlayerBalanceSnapshot p (i mod MAX_PLAYER_SNAPSHOTS)) with
        | Some snap =>
            if ps_index snap =? i
            then snap :: collect_snaps s p limit (u64_sat_add added 1) rest
            else collect_snaps s p limit added rest
        | None => collect_snaps s p limit added rest
        end
  end.

Definition get_balance_snaps_paginated (p : Address) (start limit : Z)
    : M (list PlayerBalanceSnapshot) :=
  count ← p_get_or (KPlayerBalanceSnapshotCount p) 0;
  if (count =? 0) || (limit =? 0) then mret [] else
  let available := Z.min count MAX_PLAYER_SNAPSHOTS in
  let effective_start := u64_sat_add (u64_sat_sub count available) start in
  let stop := Z.min count (u64_sat_add effective_start limit) in
  gets (fun s => collect_snaps s p limit 0
                   (seqZ effective_start (stop - effective_start))).
End Snapshots.
