(* ===== verification/RateOracle.v ===== *)
(** The interface between the two contracts: what the escrow calls on the oracle
    contract ([get_rate] when a multi-token match is created, [swap] when one is
    paid out), and what it relies on.

    The escrow's definitions and theorems are stated against this class; the
    oracle contract's own [swap] discharges the laws (file [OracleNet]). *)
From stdpp Require Import base list strings.
From Stdlib Require Import ZArith.
From S2P Require Import Prelude Soroban EscrowTypes.

Class RateOracle (W : Type) := {
  (** [oracle.get_rate(token_a, token_b)]; [None] when the call fails. *)
  call_get_rate : Env -> W -> Address -> Address -> Address -> option Z;
  (** [oracle.swap(caller, token_in, token_out, amount_in, min_amount_out,
      recipient)]; [None] when the call fails. *)
  call_swap : Env -> W -> Address -> Address -> Address -> Address -> Z -> Z ->
              Address -> option W
}.

(** A swap takes exactly [amount_in] of the input token from the caller and pays
    the recipient at least [min_out] of the output token out of the oracle's own
    balance; no other balance changes. *)
Class RateOracleLaws (W : Type) `{Host W} `{RateOracle W} := {
  swap_moves env w oracle caller tin tout ain min_out recipient w' :
    call_swap env w oracle caller tin tout ain min_out recipient = Some w' ->
    0 < ain /\
    exists out, min_out <= out /\ 0 <= out /\
    forall t a, token_balance w' t a =
      token_balance w t a
      - delta ((t =a tin) && (a =a caller)) ain
      + delta ((t =a tin) && (a =a oracle)) ain
      - delta ((t =a tout) && (a =a oracle)) out
      + delta ((t =a tout) && (a =a recipient)) out
}.

(** The escrow's calls: a failing callee traps the escrow. *)
Section OracleClient.
Context {W : Type} `{RateOracle W}.

Definition oracle_get_rate (oracle ta tb : Address) : EM W Z :=
  env ← ask; call_read (fun w => call_get_rate env w oracle ta tb).

(** [oracle_swap]: the escrow itself is the caller of the swap. *)
Definition oracle_swap (token_in token_out : Address) (amount_in min_amount_out : Z)
    (recipient : Address) : EM W unit :=
  oracle_address ← i_get KOracle;
  oracle_address ← ok_or oracle_address Unauthorized;
  env ← ask;
  call_out (fun w => call_swap env w oracle_address (self env) token_in token_out
                       amount_in min_amount_out recipient).
End OracleClient.
