(* ===== verification/Rotation.v ===== *)
(** Which oracle the escrow obeys: the stored oracle address, the temporary and
    the proposed permanent rotation ([OracleRotationState] of [types.rs] and the
    rotation functions of [lib.rs]). *)
From stdpp Require Import base list strings.
From Stdlib Require Import ZArith Lia.
From S2P Require Import Prelude Soroban EscrowTypes Config.

(** ** [impl OracleRotationState] *)

Definition empty_rotation : OracleRotationState :=
  mkOracleRotationState None None None None None.

Definition temp_of (r : OracleRotationState) : option TempOracleRotation :=
  match temp_old_oracle r, temp_new_oracle r, temp_expiry r with
  | Some old, Some new, Some expiry => Some (mkTempOracleRotation old new expiry)
  | _, _, _ => None
  end.

Definition set_temp (t : option TempOracleRotation) (r : OracleRotationState)
    : OracleRotationState :=
  match t with
  | Some t => mkOracleRotationState (Some (temp_rot_old_oracle t)) (Some (temp_rot_oracle t))
                (Some (temp_rot_expiry t)) (pending_old_oracle r) (pending_new_oracle r)
  | None => mkOracleRotationState None None None (pending_old_oracle r) (pending_new_oracle r)
  end.

Definition pending_of (r : OracleRotationState) : option PendingOracleRotation :=
  match pending_old_oracle r, pending_new_oracle r with
  | Some old, Some new => Some (mkPendingOracleRotation old new)
  | _, _ => None
  end.

Definition set_pending (p : option PendingOracleRotation) (r : OracleRotationState)
    : OracleRotationState :=
  match p with
  | Some p => mkOracleRotationState (temp_old_oracle r) (temp_new_oracle r) (temp_expiry r)
                (Some (pending_rot_old_oracle p)) (Some (pending_rot_new_oracle p))
  | None => mkOracleRotationState (temp_old_oracle r) (temp_new_oracle r) (temp_expiry r)
              None None
  end.

Definition is_none {A} (o : option A) : bool :=
  match o with None => true | Some _ => false end.

Definition rotation_is_empty (r : OracleRotationState) : bool :=
  is_none (temp_old_oracle r) && is_none (pending_old_oracle r).

Definition MIN_DURATION_SECONDS : Z := 3600.
Definition MAX_DURATION_SECONDS : Z := 2592000.

Section Rotation.
Context {W : Type}.
Abbreviation M := (EM W).

Definition get_rotation_state : M OracleRotationState :=
  i_get_or KOracleRotation empty_rotation.

Definition save_rotation_state (r : OracleRotationState) : M unit :=
  if rotation_is_empty r then i_remove KOracleRotation else i_set KOracleRotation r.

Definition effective_oracle : M Address :=
  base_oracle ← i_get KOracle;
  base_oracle ← ok_or base_oracle Unauthorized;
  state ← get_rotation_state;
  match temp_of state with
  | Some rot =>
      now ← ledger_time;
      if (now <? temp_rot_expiry rot) && (temp_rot_old_oracle rot =a base_oracle)
      then mret (temp_rot_oracle rot)
      else save_rotation_state (set_temp None state);; mret base_oracle
  | None => mret base_oracle
  end.

Definition get_oracle : M Address := effective_oracle.

Definition get_oracle_address : M Address :=
  o ← i_get KOracle; ok_or o Unauthorized.

Definition get_oracle_rotation_state : M (option OracleRotationState) :=
  state ← get_rotation_state;
  mret (if rotation_is_empty state then None else Some state).

Definition update_oracle (new_oracle : Address) : M unit :=
  require_admin;;
  me ← current_contract;
  fail_if (new_oracle =a me) InvalidAddress;;
  old_oracle ← i_get KOracle;
  old_oracle ← ok_or old_oracle Unauthorized;
  i_set KOracle new_oracle;;
  state ← get_rotation_state;
  save_rotation_state (set_pending None (set_temp None state));;
  publish "admin" "oracle_up" [VAddr old_oracle; VAddr new_oracle].

Definition set_oracle (oracle : Address) : M unit := update_oracle oracle.

Definition rotate_oracle_temporary (old_oracle new_oracle : Address)
    (duration_seconds : Z) : M unit :=
  require_admin;;
  fail_if ((duration_seconds <? MIN_DURATION_SECONDS) ||
           (duration_seconds >? MAX_DURATION_SECONDS)) InvalidAmount;;
  me ← current_contract;
  fail_if (new_oracle =a me) InvalidAddress;;
  current ← effective_oracle;
  fail_if (negb (old_oracle =a current)) Unauthorized;;
  now ← ledger_time;
  let expiry := u64_sat_add now duration_seconds in
  state ← get_rotation_state;
  save_rotation_state
    (set_temp (Some (mkTempOracleRotation old_oracle new_oracle expiry)) state);;
  publish "admin" "rot_temp"
    [VAddr old_oracle; VAddr new_oracle; VInt duration_seconds].

Definition finalize_temp_oracle_rotation : M unit :=
  state ← get_rotation_state;
  temp ← ok_or (temp_of state) InvalidState;
  now ← ledger_time;
  fail_if (now <? temp_rot_expiry temp) InvalidState;;
  restored_oracle ← i_get KOracle;
  restored_oracle ← ok_or restored_oracle Unauthorized;
  save_rotation_state (set_temp None state);;
  publish "admin" "rot_rest" [VAddr (temp_rot_oracle temp); VAddr restored_oracle].

Definition propose_oracle_rotation (old_oracle new_oracle : Address) : M unit :=
  require_admin;;
  me ← current_contract;
  fail_if (new_oracle =a me) InvalidAddress;;
  current ← i_get KOracle;
  current ← ok_or current Unauthorized;
  fail_if (negb (old_oracle =a current)) Unauthorized;;
  state ← get_rotation_state;
  save_rotation_state
    (set_pending (Some (mkPendingOracleRotation old_oracle new_oracle)) state);;
  publish "admin" "rot_prop" [VAddr old_oracle; VAddr new_oracle].

Definition rotate_oracle_permanent (old_oracle new_oracle : Address) : M unit :=
  require_admin;;
  state ← get_rotation_state;
  proposal ← ok_or (pending_of state) InvalidState;
  fail_if (negb (pending_rot_old_oracle proposal =a old_oracle) ||
           negb (pending_rot_new_oracle proposal =a new_oracle)) InvalidState;;
  current ← i_get KOracle;
  current ← ok_or current Unauthorized;
  fail_if (negb (pending_rot_old_oracle proposal =a current)) Unauthorized;;
  i_set KOracle new_oracle;;
  i_remove KOracleRotation;;
  publish "admin" "oracle_up" [VAddr old_oracle; VAddr new_oracle].
End Rotation.
