(* ===== verification/Matches.v ===== *)
(** Creating and funding matches: the [create_match*] family and brackets; then
    [deposit] with its temporary-storage guard, and [deposit_batch]
    ([contracts/escrow/src/lib.rs]). *)
From stdpp Require Import base list strings.
From Stdlib Require Import ZArith Lia Ascii.
From S2P Require Import Prelude Soroban EscrowTypes Config Tokens Players MatchIndex Snapshots.
From S2P Require Import RateOracle.

Definition MAX_GAME_ID_LEN : Z := 64.
Definition LICHESS_GAME_ID_LEN : Z := 8.
Definition LICHESS_GAME_ID_LEN_EXTENDED : Z := 12.
Definition CHESS_COM_GAME_ID_MIN_LEN : Z := 7.
Definition CHESS_COM_GAME_ID_MAX_LEN : Z := 12.

(** ** Game identifiers *)

Definition game_id_ok (g : string) (pl : Platform) : bool :=
  match pl with
  | Lichess =>
      ((str_len g =? LICHESS_GAME_ID_LEN) || (str_len g =? LICHESS_GAME_ID_LEN_EXTENDED))
      && all_bytes is_ascii_alphanumeric g
  | ChessDotCom =>
      in_range CHESS_COM_GAME_ID_MIN_LEN CHESS_COM_GAME_ID_MAX_LEN (str_len g)
      && all_bytes is_ascii_digit g
  end.

Record MatchParams := mkMatchParams {
  mp_player1 : Address;
  mp_player2 : Address;
  mp_stake_amount : Z;
  mp_token : Address;
  mp_token_b : option Address;
  mp_conversion_rate : option Z;
  mp_game_id : string;
  mp_platform : Platform;
  mp_referrer : option Address;
  mp_bracket_id : option Z;
  mp_round : option Z;
  mp_vesting_override_seconds : option Z
}.

Section Matches.
Context {W : Type} `{Host W} `{RateOracle W}.
Abbreviation M := (EM W).

Definition validate_game_id_format (g : string) (pl : Platform) : M unit :=
  fail_if ((str_len g =? 0) || (str_len g >? MAX_GAME_ID_LEN)) InvalidGameId;;
  fail_if (negb (game_id_ok g pl)) InvalidGameId.

(** [if flag { return Err(ContractPaused) }] on the contract-wide pause. *)
Definition require_not_paused : M unit :=
  paused ← i_get_or KPaused false; fail_if paused ContractPaused.

(** [token_b.map(|t| check(t)).unwrap_or(false)] for a check that reads storage. *)
Definition opt_check (check : Address -> M bool) (o : option Address) : M bool :=
  match o with Some a => check a | None => mret false end.

(** The token admission checks of [create_match_internal]. *)
Definition require_tokens_admitted (p : MatchParams) (cfg : ProtocolConfig) : M unit :=
  bl_a ← is_token_blacklisted (mp_token p);
  bl_b ← opt_check is_token_blacklisted (mp_token_b p);
  fail_if (bl_a || bl_b) TokenNotAllowed;;
  enforced ← i_get_or KAllowlistEnforced false;
  ok_a ← is_token_allowed (mp_token p);
  bad_b ← opt_check (fun t => b ← is_token_allowed t; mret (negb b)) (mp_token_b p);
  fail_if (enforced && (negb ok_a || bad_b)) TokenNotAllowed;;
  sc_a ← check_is_stablecoin (mp_token p);
  nsc_b ← opt_check (fun t => b ← check_is_stablecoin t; mret (negb b)) (mp_token_b p);
  fail_if (stablecoin_only_mode (stakes cfg) && (negb sc_a || nsc_b)) NotStablecoin.

(** The bounds on the stake, the conversion rate and the referrer. *)
Definition require_terms_valid (p : MatchParams) (cfg : ProtocolConfig) : M unit :=
  fail_if ((mp_stake_amount p <? minimum_stake (stakes cfg)) ||
           opt_test (fun rate => rate <=? 0) (mp_conversion_rate p)) InvalidAmount;;
  fail_if (opt_test (fun max => mp_stake_amount p >? max) (maximum_stake (stakes cfg)))
    InvalidAmount;;
  me ← current_contract;
  fail_if (opt_test (fun r => (r =a mp_player1 p) || (r =a mp_player2 p) || (r =a me))
             (mp_referrer p)) InvalidAddress.

(** The deviation check of a multi-token match against the oracle's rate;
    returns the [conversion_rate_ledger] to store. *)
Definition check_conversion_rate (p : MatchParams) : M (option Z) :=
  match mp_token_b p, mp_conversion_rate p with
  | Some token_b, Some rate =>
      oracle_address ← i_get KOracle;
      oracle_address ← ok_or oracle_address Unauthorized;
      oracle_rate ← oracle_get_rate oracle_address (mp_token p) token_b;
      rate_100 ← ok_or (i128_checked_mul rate 100) Overflow;
      oracle_lower ← ok_or (i128_checked_mul oracle_rate 95) Overflow;
      oracle_upper ← ok_or (i128_checked_mul oracle_rate 105) Overflow;
      fail_if ((rate_100 <? oracle_lower) || (rate_100 >? oracle_upper))
        ConversionRateOutOfBounds;;
      seq ← ledger_seq;
      mret (Some seq)
  | _, _ => mret None
  end.

Definition new_match (p : MatchParams) (mid seq now : Z) (rate_ledger : option Z) : Match :=
  {| id := mid; player1 := mp_player1 p; player2 := mp_player2 p;
     stake_amount := mp_stake_amount p; token := mp_token p; game_id := mp_game_id p;
     platform := mp_platform p; state := Pending;
     player1_deposited := false; player2_deposited := false;
     created_ledger := seq; completed_ledger := None; winner := WNone;
     vested_at := None; player1_claimed := false; player2_claimed := false;
     conversion_rate := mp_conversion_rate p; token_b := mp_token_b p;
     conversion_rate_ledger := rate_ledger; paused_ledger := None;
     paused_at_ledger := None; total_pause_duration := 0; referrer := mp_referrer p;
     last_heartbeat := now; bracket_id := mp_bracket_id p; activated_at := None;
     rollback_vote_player1 := false; rollback_vote_player2 := false;
     round := mp_round p; vesting_override_seconds := mp_vesting_override_seconds p |}.

Definition push_player_match (p : Address) (mid : Z) : M unit :=
  l ← p_get_or (KPlayerMatches p) [];
  p_set (KPlayerMatches p) (l ++ [mid]).

Definition publish_created (m : Match) : M unit :=
  match bracket_id m, referrer m with
  | Some b, _ =>
      publish "match" "bracket_created"
        [VInt (id m); VInt b; VInt (default 0 (round m)); VAddr (player1 m);
         VAddr (player2 m); VInt (stake_amount m)]
  | None, Some r =>
      publish "match" "created"
        [VInt (id m); VAddr (player1 m); VAddr (player2 m); VInt (stake_amount m); VAddr r]
  | None, None =>
      publish "match" "created"
        [VInt (id m); VAddr (player1 m); VAddr (player2 m); VInt (stake_amount m)]
  end.

Definition create_match_internal (p : MatchParams) : M Z :=
  require_auth (mp_player1 p);;
  match mp_bracket_id p with
  | Some b => org ← p_get (Organizer b); org ← ok_or org Unauthorized; require_auth org
  | None => mret tt
  end;;
  require_not_paused;;
  require_player_not_frozen (mp_player1 p);;
  require_player_not_frozen (mp_player2 p);;
  cfg ← get_config;
  require_tokens_admitted p cfg;;
  require_terms_valid p cfg;;
  require_player_tier_for_stake (mp_player1 p) (mp_stake_amount p);;
  require_player_tier_for_stake (mp_player2 p) (mp_stake_amount p);;
  validate_game_id_format (mp_game_id p) (mp_platform p);;
  me ← current_contract;
  fail_if ((mp_player1 p =a mp_player2 p) || (mp_player2 p =a me)) InvalidPlayers;;
  fail_if (negb (Bool.eqb (opt_is_some (mp_token_b p)) (opt_is_some (mp_conversion_rate p))))
    InvalidAmount;;
  dup ← p_has (KGameId (mp_game_id p));
  fail_if dup DuplicateGameId;;
  mid ← i_get_or KMatchCount 0;
  taken ← p_has (KMatch mid);
  fail_if taken AlreadyExists;;
  next_id ← ok_or (u64_checked_add mid 1) Overflow;
  rate_ledger ← check_conversion_rate p;
  seq ← ledger_seq;
  now ← ledger_time;
  let m := new_match p mid seq now rate_ledger in
  store_match mid m;;
  add_match_to_index (MatchesByState Pending) mid;;
  match bracket_id m with
  | Some b => add_match_to_index (BracketMatches b) mid
  | None => mret tt
  end;;
  i_set KMatchCount next_id;;
  p_set (KGameId (game_id m)) true;;
  push_player_match (player1 m) mid;;
  push_player_match (player2 m) mid;;
  record_snapshot m RCreated;;
  record_platform_match_created (stake_amount m) (platform m);;
  publish_created m;;
  mret mid.

Definition create_match (p1 p2 : Address) (stake : Z) (t : Address) (g : string)
    (pl : Platform) : M Z :=
  create_match_internal (mkMatchParams p1 p2 stake t None None g pl None None None None).

Definition create_match_tournament (b r : Z) (p1 p2 : Address) (stake : Z) (t : Address)
    (g : string) (pl : Platform) : M Z :=
  create_match_internal
    (mkMatchParams p1 p2 stake t None None g pl None (Some b) (Some r) None).

Definition create_match_with_conversion (p1 p2 : Address) (stake : Z) (ta tb : Address)
    (rate : Z) (g : string) (pl : Platform) : M Z :=
  create_match_internal
    (mkMatchParams p1 p2 stake ta (Some tb) (Some rate) g pl None None None None).

Definition create_match_with_referrer (p1 p2 : Address) (stake : Z) (t : Address)
    (g : string) (pl : Platform) (r : Address) : M Z :=
  create_match_internal
    (mkMatchParams p1 p2 stake t None None g pl (Some r) None None None).

Definition register_bracket (admin : Address) (b : Z) (organizer : Address) : M unit :=
  require_caller_admin admin;;
  has ← p_has (Organizer b);
  fail_if has AlreadyExists;;
  p_set (Organizer b) organizer;;
  publish "match" "bracket_registered" [VInt b; VAddr organizer].
End Matches.

Section Deposits.
Context {W : Type} `{Host W} `{RateOracle W}.
Abbreviation M := (EM W).

(** Clear the guard and return the error, when [b] holds. *)
Definition reject_deposit_if (b : bool) (match_id : Z) (e : Error) : M unit :=
  if b then t_remove (KDepositInProgress match_id);; err e else mret tt.

(** [if let Err(e) = add_active_match(..) { clear guard; return Err(e) }] *)
Definition add_active_or_reject (p : Address) (match_id : Z) : M unit :=
  r ← catch (add_active_match p match_id);
  match r with
  | inl _ => mret tt
  | inr e => t_remove (KDepositInProgress match_id);; err e
  end.

(** The bookkeeping of a match both sides of which are now funded. *)
Definition activate_match (match_id : Z) (player : Address) (m : Match) : M Match :=
  m ← set_match_state m Active;
  now ← ledger_time;
  let m := m <| activated_at := Some now |> in
  publish "match" "deposit" [VInt match_id; VAddr player; VSome (state_val (state m))];;
  publish "match" "activated" [VInt match_id];;
  add_active_or_reject (player1 m) match_id;;
  add_active_or_reject (player2 m) match_id;;
  mret m.

Definition deposit (match_id : Z) (player : Address) : M unit :=
  require_auth player;;
  require_not_paused;;
  require_player_not_frozen player;;
  in_progress ← t_get (KDepositInProgress match_id);
  fail_if (default false in_progress) InvalidState;;
  t_set (KDepositInProgress match_id) true;;
  m ← load_match match_id;
  reject_deposit_if (player1_deposited m && player2_deposited m) match_id AlreadyFunded;;
  reject_deposit_if (negb (bool_decide (state m = Pending))) match_id InvalidState;;
  let is_p1 := player =a player1 m in
  let is_p2 := player =a player2 m in
  reject_deposit_if (negb is_p1 && negb is_p2) match_id Unauthorized;;
  reject_deposit_if (is_p1 && player1_deposited m) match_id AlreadyFunded;;
  reject_deposit_if (is_p2 && player2_deposited m) match_id AlreadyFunded;;
  require_player_tier_for_stake player (stake_amount m);;
  me ← current_contract;
  transfer (token m) player me (stake_amount m);;
  let m := if is_p1 then m <| player1_deposited := true |>
           else m <| player2_deposited := true |> in
  update_player_escrow_balance player (stake_amount m);;
  now ← ledger_time;
  let m := m <| last_heartbeat := now |> in
  m ← (if player1_deposited m && player2_deposited m
       then activate_match match_id player m
       else publish "match" "deposit" [VInt match_id; VAddr player; VNone];; mret m);
  store_match match_id m;;
  record_snapshot m RDeposit;;
  record_player_snapshot player;;
  t_remove (KDepositInProgress match_id);;
  publish "escrow" "deposit" [VInt match_id; VAddr player; VInt (stake_amount m)].

(** The batch loops: every entry runs, its error becomes a value of the result. *)
Fixpoint batch {A} (f : A -> M unit) (entries : list A) : M (list (option Error)) :=
  match entries with
  | [] => mret []
  | e :: rest =>
      r ← catch (f e);
      outcomes ← batch f rest;
      mret (match r with inl _ => None | inr er => Some er end :: outcomes)
  end.

Definition deposit_batch (entries : list (Z * Address)) : M (list (option Error)) :=
  require_not_paused;;
  batch (fun '(match_id, player) => deposit match_id player) entries.
End Deposits.
