(* ===== verification/Settlement.v ===== *)
(** Results and payouts: [settle_result] and the entry points that reach it,
    [execute_payout], [finalize_match] and [claim_vested_payout]
    ([contracts/escrow/src/lib.rs]). *)
From stdpp Require Import base list strings.
From Stdlib Require Import ZArith Lia.
From S2P Require Import Prelude Soroban EscrowTypes Config Tokens Players MatchIndex Snapshots.
From S2P Require Import RateOracle Rotation Matches.

Definition MAX_RATE_AGE : Z := 1000.

(** [m.token_b.is_some() && m.conversion_rate.is_some_and(|r| r > 0)] *)
Definition is_multi_token (m : Match) : bool :=
  opt_is_some (token_b m) && opt_test (fun r => r >? 0) (conversion_rate m).

Section Settlement.
Context {W : Type} `{Host W} `{RateOracle W}.
Abbreviation M := (EM W).

(** ** Settling a result *)

(** The branch of [settle_result] without a dispute period. *)
Definition settle_now (match_id : Z) (w : Winner) (m : Match) : M unit :=
  seq ← ledger_seq;
  let m := m <| completed_ledger := Some seq |> in
  store_match match_id m;;
  update_player_escrow_balance (player1 m) (- stake_amount m);;
  update_player_escrow_balance (player2 m) (- stake_amount m);;
  record_snapshot m RCompleted;;
  record_player_snapshot (player1 m);;
  record_player_snapshot (player2 m);;
  payout_amount ← match w with
                  | WNone => mret 0
                  | _ => ok_or (i128_checked_mul (stake_amount m) 2) Overflow
                  end;
  publish "match" "completed" [VInt match_id; winner_val w; VInt payout_amount].

(** The branch with a dispute period. *)
Definition settle_later (match_id : Z) (w : Winner) (dispute_period : Z) (m : Match) : M unit :=
  seq ← ledger_seq;
  deadline ← ok_or (u32_checked_add seq dispute_period) Overflow;
  m ← set_match_state m PendingResult;
  store_match match_id m;;
  p_set (KPendingWinner match_id) w;;
  p_set (KResultDeadline match_id) deadline;;
  record_snapshot m RResultSubmitted;;
  publish "match" "pending_result" [VInt match_id; winner_val w; VInt deadline].

Definition settle_result (match_id : Z) (w : Winner) (confidence : option Z) : M unit :=
  fail_if (bool_decide (w = WNone)) InvalidState;;
  m ← load_match match_id;
  fail_if (bool_decide (state m = Pending) || negb (player1_deposited m)
           || negb (player2_deposited m)) NotFunded;;
  fail_if (negb (bool_decide (state m = Active)) && negb (bool_decide (state m = Paused)))
    InvalidState;;
  remove_active_match_indexed (player1 m) match_id;;
  remove_active_match_indexed (player2 m) match_id;;
  m ← set_match_state m Completed;
  now ← ledger_time;
  let m := m <| winner := w |> <| vested_at := Some now |> in
  record_completed_match (player1 m);;
  record_completed_match (player2 m);;
  record_platform_payout (platform m);;
  update_player_stats (player1 m) w (stake_amount m) true;;
  update_player_stats (player2 m) w (stake_amount m) false;;
  store_match match_id m;;
  dispute_period ← get_dispute_period;
  if dispute_period =? 0 then settle_now match_id w m
  else settle_later match_id w dispute_period m.

Definition submit_result (match_id : Z) (w : Winner) (oracle : Address)
    (confidence : option Z) : M unit :=
  require_not_paused;;
  require_auth oracle;;
  stored_oracle ← effective_oracle;
  fail_if (negb (oracle =a stored_oracle)) Unauthorized;;
  settle_result match_id w confidence.

Definition submit_draw (match_id : Z) (oracle : Address) (confidence : option Z) : M unit :=
  require_not_paused;;
  require_auth oracle;;
  stored_oracle ← effective_oracle;
  fail_if (negb (oracle =a stored_oracle)) Unauthorized;;
  settle_result match_id WDraw confidence.

Definition submit_result_with_oracle_record (match_id : Z) (w : Winner) (g : string)
    (oracle : Address) : M unit :=
  submit_result match_id w oracle None;;
  p_set (KOracleRecord match_id) g.

Definition settle_batch_entry (e : Z * Winner) : M unit :=
  let '(match_id, w) := e in
  m ← p_get (KMatch match_id);
  if opt_test (fun m : Match => bool_decide (state m = Completed) ||
                                bool_decide (state m = PendingResult)) m
  then err OracleAlreadyConfirmed
  else settle_result match_id w None.

Definition submit_result_batch (results : list (Z * Winner)) (caller : Address)
    : M (list (option Error)) :=
  require_not_paused;;
  oracle ← i_get KOracle;
  oracle ← ok_or oracle Unauthorized;
  fail_if (negb (caller =a oracle)) Unauthorized;;
  require_auth caller;;
  batch settle_batch_entry results.

(** ** Payouts *)

(** The staleness guard of multi-token payouts. *)
Definition require_fresh_rate (m : Match) : M unit :=
  if is_multi_token m then
    match conversion_rate_ledger m with
    | Some rate_ledger =>
        current_ledger ← ledger_seq;
        fail_if (u32_sat_sub current_ledger rate_ledger >? MAX_RATE_AGE)
          ConversionRateStalePriceSource
    | None => mret tt
    end
  else mret tt.

(** [amount.checked_mul(rate)?.checked_div(10_000_000)?] *)
Definition convert (amount rate : Z) : M Z :=
  prod ← ok_or (i128_checked_mul amount rate) Overflow;
  ok_or (i128_checked_div prod 10000000) Overflow.

Definition execute_payout (m : Match) (w : Winner) : M unit :=
  require_fresh_rate m;;
  me ← current_contract;
  match w with
  | WPlayer1 =>
      pot ← ok_or (i128_checked_mul (stake_amount m) 2) Overflow;
      transfer (token m) me (player1 m) pot
  | WPlayer2 =>
      if is_multi_token m then
        tb ← ok_or (token_b m) InvalidState;
        pot ← ok_or (i128_checked_mul (stake_amount m) 2) Overflow;
        rate ← ok_or (conversion_rate m) InvalidState;
        amount_b ← convert pot rate;
        oracle_swap (token m) tb pot amount_b (player2 m)
      else
        pot ← ok_or (i128_checked_mul (stake_amount m) 2) Overflow;
        transfer (token m) me (player2 m) pot
  | WDraw =>
      transfer (token m) me (player1 m) (stake_amount m);;
      if is_multi_token m then
        tb ← ok_or (token_b m) InvalidState;
        rate ← ok_or (conversion_rate m) InvalidState;
        amount_b ← convert (stake_amount m) rate;
        oracle_swap (token m) tb (stake_amount m) amount_b (player2 m)
      else transfer (token m) me (player2 m) (stake_amount m)
  | WNone => err InvalidState
  end.

Definition finalize_match (match_id : Z) : M unit :=
  m ← load_match match_id;
  fail_if (negb (bool_decide (state m = PendingResult))) MatchNotInPendingResult;;
  deadline ← p_get (KResultDeadline match_id);
  deadline ← ok_or deadline PendingResultNotFound;
  seq ← ledger_seq;
  fail_if (seq <? deadline) DisputePeriodNotElapsed;;
  disputed ← p_has (KMatchDispute match_id);
  fail_if disputed DisputeAlreadyRaised;;
  w ← p_get (KPendingWinner match_id);
  w ← ok_or w PendingResultNotFound;
  execute_payout m w;;
  remove_active_match_indexed (player1 m) match_id;;
  remove_active_match_indexed (player2 m) match_id;;
  update_player_escrow_balance (player1 m) (- stake_amount m);;
  update_player_escrow_balance (player2 m) (- stake_amount m);;
  m ← set_match_state m Completed;
  let m := m <| completed_ledger := Some seq |> in
  record_completed_match (player1 m);;
  record_completed_match (player2 m);;
  record_platform_payout (platform m);;
  store_match match_id m;;
  record_snapshot m RFinalized;;
  record_player_snapshot (player1 m);;
  record_player_snapshot (player2 m);;
  publish "match" "finalized" [VInt match_id; winner_val w].

(** ** Claiming a vested payout *)

(** The winner's leg, the same code for either player: the pot less the
    referral and protocol fees, swapped into the preferred token when asked;
    returns the amount claimed. *)
Definition pay_winner (m : Match) (cfg : ProtocolConfig) (use_swap : bool)
    (player : Address) : M Z :=
  me ← current_contract;
  pot ← ok_or (i128_checked_mul (stake_amount m) 2) Overflow;
  referral_fee ← compute_referral_fee m pot;
  protocol_fee ← compute_protocol_fee pot;
  rest ← ok_or (i128_checked_sub pot referral_fee) Overflow;
  net_payout ← ok_or (i128_checked_sub rest protocol_fee) Overflow;
  amount_claimed ←
    (if use_swap : bool then
       rate ← unwrap (conversion_rate m);
       swap_amount ← convert net_payout rate;
       swap_token ← unwrap (token_b m);
       oracle_swap (token m) swap_token net_payout swap_amount player;;
       mret swap_amount
     else
       transfer (token m) me player net_payout;; mret net_payout);
  (if referral_fee >? 0 then
     r ← ok_or (referrer m) InvalidState;
     transfer (token m) me r referral_fee
   else mret tt);;
  (if protocol_fee >? 0 then
     transfer (token m) me (fee_recipient (fees cfg)) protocol_fee
   else mret tt);;
  mret amount_claimed.

(** One side's leg of a draw: its own stake. *)
Definition pay_draw (m : Match) (player : Address) : M Z :=
  me ← current_contract;
  transfer (token m) me player (stake_amount m);;
  mret (stake_amount m).

Definition use_preferred (m : Match) (preferred : option Address) : bool :=
  opt_test (fun pt => negb (pt =a token m) && bool_decide (token_b m = Some pt)
                      && opt_test (fun r => r >? 0) (conversion_rate m)) preferred.

Definition claim_vested_payout (match_id : Z) (player : Address) : M unit :=
  require_auth player;;
  m ← load_match match_id;
  fail_if (negb (bool_decide (state m = Completed))) InvalidState;;
  vested ← ok_or (vested_at m) InvalidState;
  cfg ← get_config;
  now ← ledger_time;
  unlock ← ok_or (u64_checked_add vested (vesting_duration_seconds (timeouts cfg))) Overflow;
  fail_if (now <? unlock) VestingNotExpired;;
  let is_p1 := player =a player1 m in
  let is_p2 := player =a player2 m in
  fail_if (negb is_p1 && negb is_p2) Unauthorized;;
  fail_if (bool_decide (winner m = WNone)) InvalidState;;
  require_fresh_rate m;;
  preferred ← p_get (KPlayerPreferredToken player);
  let use_swap := use_preferred m preferred in
  '(m, amount_claimed) ←
    (if is_p1 then
       fail_if (player1_claimed m) AlreadyClaimed;;
       amount ← match winner m with
                | WPlayer1 => pay_winner m cfg use_swap (player1 m)
                | WDraw => pay_draw m (player1 m)
                | WPlayer2 => err Unauthorized
                | WNone => err InvalidState
                end;
       mret (m <| player1_claimed := true |>, amount)
     else
       fail_if (player2_claimed m) AlreadyClaimed;;
       amount ← match winner m with
                | WPlayer2 => pay_winner m cfg use_swap (player2 m)
                | WDraw => pay_draw m (player2 m)
                | WPlayer1 => err Unauthorized
                | WNone => err InvalidState
                end;
       mret (m <| player2_claimed := true |>, amount));
  store_match match_id m;;
  record_player_snapshot player;;
  let payout_token := if use_swap then default (token m) (token_b m) else token m in
  publish "match" "claim"
    [VInt match_id; VAddr player; VInt amount_claimed; VAddr payout_token].
End Settlement.
