(* ===== verification/Refunds.v ===== *)
(** Ways out of a match other than a result, and the pause of a match:
    [cancel_match], [expire_match], [admin_recover_match], [bulk_expire_matches],
    [dispute_and_rollback_match], [admin_resolve_stalled_match], [pause_match],
    [resume_match] and [heartbeat_match] ([contracts/escrow/src/lib.rs]). *)
From stdpp Require Import base list strings.
From Stdlib Require Import ZArith Lia.
From S2P Require Import Prelude Soroban EscrowTypes Config Tokens Players MatchIndex Snapshots.
From S2P Require Import RateOracle Rotation Matches Settlement.

Definition ROLLBACK_WINDOW_SECONDS : Z := 86400.
Definition ADMIN_STALL_WINDOW_SECONDS : Z := 604800.
Definition MAX_BULK_EXPIRE_SIZE : Z := 100.

Section Refunds.
Context {W : Type} `{Host W} `{RateOracle W}.
Abbreviation M := (EM W).

(** What player 2 is refunded, and in which token: [stake * rate / 1e7] of
    [token_b] for a multi-token match, the stake itself otherwise. *)
Definition p2_token (m : Match) : Address := default (token m) (token_b m).
Definition p2_refund (m : Match) : M Z :=
  if is_multi_token m then convert (stake_amount m) (default 0 (conversion_rate m))
  else mret (stake_amount m).

(** The same amount with overflow read as 0, used for the balance counter. *)
Definition p2_counter_amount (m : Match) : Z :=
  if is_multi_token m then
    default 0 (i128_checked_div
                 (default 0 (i128_checked_mul (stake_amount m)
                               (default 0 (conversion_rate m)))) 10000000)
  else stake_amount m.

(** Full refunds to whoever deposited. *)
Definition refund_player1 (m : Match) : M unit :=
  me ← current_contract;
  if player1_deposited m then transfer (token m) me (player1 m) (stake_amount m)
  else mret tt.
Definition refund_player2 (m : Match) : M unit :=
  me ← current_contract;
  if player2_deposited m then
    amount_b ← p2_refund m;
    transfer (p2_token m) me (player2 m) amount_b
  else mret tt.

(** Mark the match cancelled, and stamp and store it. *)
Definition store_cancelled (match_id : Z) (m : Match) : M Match :=
  m ← set_match_state m Cancelled;
  seq ← ledger_seq;
  let m := m <| completed_ledger := Some seq |> in
  store_match match_id m;;
  mret m.

Definition drop_escrow_balances (m : Match) : M unit :=
  (if player1_deposited m
   then update_player_escrow_balance (player1 m) (- stake_amount m) else mret tt);;
  (if player2_deposited m
   then update_player_escrow_balance (player2 m) (- p2_counter_amount m) else mret tt).

Definition snapshot_depositors (m : Match) : M unit :=
  (if player1_deposited m then record_player_snapshot (player1 m) else mret tt);;
  (if player2_deposited m then record_player_snapshot (player2 m) else mret tt).

(** ** Cancelling a pending match *)

Definition cancellation_fee (cfg : ProtocolConfig) (amount : Z) : M Z :=
  if cancellation_fee_basis_points (fees cfg) >? 0 then
    prod ← ok_or (i128_checked_mul amount (cancellation_fee_basis_points (fees cfg))) Overflow;
    mret (Z.quot prod 10000)
  else mret 0.

(** One player's refund less the cancellation fee, which goes to the treasury. *)
Definition refund_less_fee (cfg : ProtocolConfig) (t player : Address) (refund fee : Z) : M unit :=
  me ← current_contract;
  transfer t me player refund;;
  if fee >? 0 then transfer t me (treasury cfg) fee else mret tt.

Definition cancel_match (match_id : Z) (caller : Address) : M unit :=
  require_not_paused;;
  m ← load_match match_id;
  fail_if (negb (bool_decide (state m = Pending))) InvalidState;;
  fail_if (negb (caller =a player1 m) && negb (caller =a player2 m)) Unauthorized;;
  require_auth caller;;
  cfg ← get_config;
  fee_amount ← cancellation_fee cfg (stake_amount m);
  refund_amount ← ok_or (i128_checked_sub (stake_amount m) fee_amount) Overflow;
  (if player1_deposited m
   then refund_less_fee cfg (token m) (player1 m) refund_amount fee_amount
   else mret tt);;
  (if player2_deposited m then
     amount_b ← p2_refund m;
     fee_amount_b ← cancellation_fee cfg amount_b;
     refund_amount_b ← ok_or (i128_checked_sub amount_b fee_amount_b) Overflow;
     refund_less_fee cfg (p2_token m) (player2 m) refund_amount_b fee_amount_b
   else mret tt);;
  m ← store_cancelled match_id m;
  drop_escrow_balances m;;
  record_snapshot m RCancelled;;
  snapshot_depositors m;;
  publish "match" "cancelled" [VInt match_id].

(** ** Expiry *)

Definition expire_match (match_id : Z) : M unit :=
  m ← load_match match_id;
  fail_if (negb (bool_decide (state m = Pending))) InvalidState;;
  current_ledger ← ledger_seq;
  let elapsed := u32_sat_sub current_ledger (created_ledger m) in
  timeout ← current_match_timeout;
  fail_if (elapsed <? timeout) MatchNotExpired;;
  bl_a ← is_token_blacklisted (token m);
  bl_b ← is_token_blacklisted (p2_token m);
  fail_if (bl_a || (is_multi_token m && bl_b)) TokenNotAllowed;;
  refund_player1 m;;
  refund_player2 m;;
  m ← store_cancelled match_id m;
  drop_escrow_balances m;;
  record_snapshot m RCancelled;;
  snapshot_depositors m;;
  publish "match" "expired" [VInt match_id].

(** [catch_unwind] cannot intercept a failing token call (the contract is
    built with [panic = "abort"]): a failing transfer ends the call. *)
Definition admin_recover_match (match_id : Z) : M unit :=
  admin ← require_admin;
  m ← load_match match_id;
  fail_if (negb (bool_decide (state m = Pending))) InvalidState;;
  seq ← ledger_seq;
  let elapsed := u32_sat_sub seq (created_ledger m) in
  timeout ← current_match_timeout;
  fail_if (elapsed <? timeout) RecoveryTimelockNotElapsed;;
  refund_player1 m;;
  refund_player2 m;;
  m ← store_cancelled match_id m;
  record_snapshot m RCancelled;;
  snapshot_depositors m;;
  publish "admin" "match_recovered" [VInt match_id; VAddr admin].

(** The loop of [bulk_expire_matches]: the ids whose expiry succeeded. *)
Fixpoint expire_all (match_ids : list Z) : M (list Z) :=
  match match_ids with
  | [] => mret []
  | mid :: rest =>
      r ← catch (expire_match mid);
      results ← expire_all rest;
      mret (match r with inl _ => mid :: results | inr _ => results end)
  end.

Definition bulk_expire_matches (match_ids : list Z) : M (list Z) :=
  admin ← i_get KAdmin;
  match admin with
  | None => mret []
  | Some admin =>
      require_auth admin;;
      expire_all (if vec_len match_ids >? MAX_BULK_EXPIRE_SIZE
                  then firstn (Z.to_nat MAX_BULK_EXPIRE_SIZE) match_ids
                  else match_ids)
  end.

(** ** Rollback by mutual consent *)

Definition dispute_and_rollback_match (match_id : Z) (disputer : Address)
    (reason : string) : M unit :=
  fail_if ((str_len reason =? 0) || (str_len reason >? MAX_REASON_LEN)) InvalidEvidenceHash;;
  require_auth disputer;;
  m ← load_match match_id;
  let is_p1 := disputer =a player1 m in
  let is_p2 := disputer =a player2 m in
  fail_if (negb is_p1 && negb is_p2) Unauthorized;;
  fail_if (bool_decide (state m = PendingResult) || bool_decide (state m = Completed))
    InvalidState;;
  fail_if (negb (bool_decide (state m = Active))) InvalidState;;
  now ← ledger_time;
  fail_if (u64_sat_sub now (last_heartbeat m) >? ROLLBACK_WINDOW_SECONDS) VotingPeriodElapsed;;
  let m := if is_p1 then m <| rollback_vote_player1 := true |>
           else m <| rollback_vote_player2 := true |> in
  store_match match_id m;;
  if negb (rollback_vote_player1 m) || negb (rollback_vote_player2 m) then
    publish "match" "rb_vote" [VInt match_id; VAddr disputer]
  else
    remove_active_match_indexed (player1 m) match_id;;
    remove_active_match_indexed (player2 m) match_id;;
    refund_player1 m;;
    refund_player2 m;;
    m ← store_cancelled match_id m;
    record_snapshot m RCancelled;;
    snapshot_depositors m;;
    publish "match" "rollback" [VInt match_id; VAddr disputer; VStr reason].

(** ** Heartbeats *)

Definition heartbeat_match (match_id : Z) (player : Address) : M unit :=
  require_auth player;;
  m ← load_match match_id;
  fail_if (negb (player =a player1 m) && negb (player =a player2 m)) Unauthorized;;
  fail_if (bool_decide (state m = Completed) || bool_decide (state m = Cancelled))
    InvalidState;;
  fail_if (negb (bool_decide (state m = Active))) InvalidState;;
  now ← ledger_time;
  store_match match_id (m <| last_heartbeat := now |>);;
  publish "match" "heartbeat" [VInt match_id; VAddr player; VInt now].

Definition update_heartbeat (match_id : Z) (caller : Address) : M unit :=
  heartbeat_match match_id caller.

(** ** Pausing a match *)

Definition pause_match (match_id : Z) (caller : Address) : M unit :=
  require_auth caller;;
  m ← load_match match_id;
  fail_if (negb (bool_decide (state m = Active))) InvalidPauseState;;
  fail_if (negb (caller =a player1 m) && negb (caller =a player2 m)) Unauthorized;;
  fail_if (total_pause_duration m >=? MAX_PAUSE_DURATION_LEDGERS) InvalidPauseState;;
  m ← set_match_state m Paused;
  seq ← ledger_seq;
  let m := m <| paused_ledger := Some seq |> in
  store_match match_id m;;
  record_snapshot m RPaused;;
  publish "match" "paused" [VInt match_id].

Definition resume_match (match_id : Z) (caller : Address) : M unit :=
  require_auth caller;;
  m ← load_match match_id;
  fail_if (negb (bool_decide (state m = Paused))) InvalidState;;
  fail_if (negb (caller =a player1 m) && negb (caller =a player2 m)) Unauthorized;;
  current_ledger ← ledger_seq;
  let m := match paused_ledger m with
           | Some paused_at =>
               let pause_duration := u32_sat_sub current_ledger paused_at in
               m <| total_pause_duration :=
                      u32_sat_add (total_pause_duration m) pause_duration |>
           | None => m
           end in
  m ← set_match_state m Active;
  let m := m <| paused_ledger := None |> in
  store_match match_id m;;
  record_snapshot m RResumed;;
  publish "match" "resumed" [VInt match_id].

(** ** Admin resolution of a stalled match *)

(** The whole pot of a stalled match, in units of one token. *)
Definition stalled_pot (m : Match) : M Z :=
  if is_multi_token m then
    p2_amount ← convert (stake_amount m) (default 0 (conversion_rate m));
    ok_or (i128_checked_add (stake_amount m) p2_amount) Overflow
  else ok_or (i128_checked_mul (stake_amount m) 2) Overflow.

Definition pay_stalled (m : Match) (resolution : Winner) : M unit :=
  me ← current_contract;
  match resolution with
  | WPlayer1 =>
      total_pot ← stalled_pot m;
      transfer (token m) me (player1 m) total_pot
  | WPlayer2 =>
      total_pot ← stalled_pot m;
      transfer (p2_token m) me (player2 m) total_pot
  | WDraw =>
      transfer (token m) me (player1 m) (stake_amount m);;
      amount_b ← p2_refund m;
      transfer (p2_token m) me (player2 m) amount_b
  | WNone => err InvalidAmount
  end.

Definition is_stalled (m : Match) (now : Z) : bool :=
  let reference_ts := default (last_heartbeat m) (activated_at m) in
  let elapsed := u64_sat_sub now reference_ts in
  bool_decide (state m = Paused) ||
  (bool_decide (state m = Active) &&
   (elapsed >? MAX_PAUSE_DURATION_LEDGERS * SECONDS_PER_LEDGER)).

Definition admin_resolve_stalled_match (match_id : Z) (caller : Address)
    (resolution : Winner) : M unit :=
  require_caller_admin caller;;
  fail_if (bool_decide (resolution = WNone)) InvalidAmount;;
  m ← load_match match_id;
  now ← ledger_time;
  fail_if (negb (is_stalled m now)) InvalidState;;
  fail_if (negb (player1_deposited m) || negb (player2_deposited m)) NotFunded;;
  let reference_ts := default (last_heartbeat m) (activated_at m) in
  fail_if (u64_sat_sub now reference_ts <=? ADMIN_STALL_WINDOW_SECONDS) MatchNotExpired;;
  remove_active_match_indexed (player1 m) match_id;;
  remove_active_match_indexed (player2 m) match_id;;
  pay_stalled m resolution;;
  m ← set_match_state m Completed;
  seq ← ledger_seq;
  let m := m <| winner := resolution |> <| completed_ledger := Some seq |> in
  store_match match_id m;;
  record_snapshot m RCompleted;;
  record_player_snapshot (player1 m);;
  record_player_snapshot (player2 m);;
  (if negb (bool_decide (resolution = WDraw)) then
     record_completed_match (player1 m);;
     record_completed_match (player2 m)
   else mret tt);;
  publish "match" "adm_stall" [VInt match_id; winner_val resolution];;
  publish "match" "cancelled" [VInt match_id].
End Refunds.
