(* ===== verification/Disputes.v ===== *)
(** Disputes over an oracle result: raising one against a bond, voting with
    historical balances, resolving by quorum ([contracts/escrow/src/lib.rs], lines
    4196-4745); then results by agreement of several approved oracles, and the recovery
    of deadlocked votes (lines 2189-2238 and 6548-6915). *)
From stdpp Require Import base list strings.
From Stdlib Require Import ZArith Lia Ascii.
From S2P Require Import Prelude Soroban EscrowTypes Config Tokens Players MatchIndex Snapshots RateOracle Rotation Matches Settlement.

Definition VOTING_PERIOD_LEDGERS : Z := 17280.

Definition is_valid_evidence_hash (h : string) : bool :=
  if negb (str_len h =? 64) then false
  else all_bytes is_ascii_hexdigit h && any_byte (fun c => negb (byte_of c =? 48)) h.

Section Disputes.
Context {W : Type} `{Host W} `{RateOracle W}.
Abbreviation M := (EM W).

Definition dispute_oracle_result (match_id : Z) (who : Address) (evidence : string) : M Z :=
  require_auth who;;
  m ← load_match match_id;
  fail_if (negb (bool_decide (state m = PendingResult))) MatchNotInPendingResult;;
  fail_if (negb (who =a player1 m) && negb (who =a player2 m)) Unauthorized;;
  deadline ← p_get (KResultDeadline match_id);
  deadline ← ok_or deadline PendingResultNotFound;
  seq ← ledger_seq;
  fail_if (deadline <=? seq) DisputePeriodNotElapsed;;
  fail_if (negb (is_valid_evidence_hash evidence)) InvalidEvidenceHash;;
  disputed ← p_has (KMatchDispute match_id);
  fail_if disputed DisputeAlreadyRaised;;
  bps ← dispute_bond_basis_points_for (stake_amount m);
  prod ← ok_or (i128_checked_mul (stake_amount m) bps) Overflow;
  quotient ← ok_or (i128_checked_div prod 10000) Overflow;
  let bond := Z.max quotient 1 in
  fail_if (bond <=? 0) InsufficientBond;;
  me ← current_contract;
  transfer (token m) who me bond;;
  dispute_id ← i_get_or KDisputeCount 0;
  deadline' ← ok_or (u32_checked_add seq VOTING_PERIOD_LEDGERS) Overflow;
  total_weight ← balance (token m) me;
  quorum_bps ← i_get_or KQuorumBasisPoints DEFAULT_QUORUM_BASIS_POINTS;
  qprod ← ok_or (i128_checked_mul total_weight quorum_bps) Overflow;
  quorum ← ok_or (i128_checked_div qprod 10000) Overflow;
  p_set (KDispute dispute_id)
    {| d_id := dispute_id; d_match_id := match_id; disputer := who;
       d_created_ledger := seq; voting_deadline := deadline'; d_state := DActive;
       evidence_hash := evidence; uphold_votes := 0; overturn_votes := 0;
       yes_votes := 0; no_votes := 0; dispute_bond := bond; snapshot_ledger := seq;
       snapshot_total_weight := total_weight; quorum_threshold := quorum |};;
  p_set (KMatchDispute match_id) dispute_id;;
  oracle ← i_get KOracle;
  oracle ← ok_or oracle Unauthorized;
  p_set (KDisputeOracle dispute_id) oracle;;
  next_id ← ok_or (u64_checked_add dispute_id 1) Overflow;
  i_set KDisputeCount next_id;;
  publish "dispute" "created"
    [VInt dispute_id; VInt match_id; VAddr who; VStr evidence; VInt bond];;
  mret dispute_id.

(** ** Voting *)

(** The loop over the voter's retained snapshots, newest first: iteration [i]
    of [n] looks at index [count - (i + 1)]. *)
Fixpoint find_weight (s : State W) (voter : Address) (count snapshot_seq min_seq : Z)
    (i : Z) (n : nat) : option Z :=
  match n with
  | O => None
  | S n' =>
      let idx := u64_sat_sub count (i + 1) in
      match pers s (KPlayerBalanceSnapshot voter (idx mod MAX_PLAYER_SNAPSHOTS)) with
      | Some snap =>
          if (ps_ledger snap <=? snapshot_seq) && (ps_ledger snap <=? min_seq)
          then Some (ps_balance snap)
          else find_weight s voter count snapshot_seq min_seq (i + 1) n'
      | None => find_weight s voter count snapshot_seq min_seq (i + 1) n'
      end
  end.

Definition snapshot_weight_of (voter : Address) (d : Dispute) (min_hold : Z)
    (s : State W) : option Z :=
  match pers s (KPlayerBalanceSnapshotCount voter) with
  | Some count =>
      find_weight s voter count (snapshot_ledger d)
        (u32_sat_sub (snapshot_ledger d) min_hold) 0
        (Z.to_nat (Z.min count MAX_PLAYER_SNAPSHOTS))
  | None => None
  end.

Definition vote_on_dispute (dispute_id : Z) (voter : Address) (vote : bool) : M unit :=
  require_auth voter;;
  d ← p_get (KDispute dispute_id);
  d ← ok_or d DisputeNotFound;
  fail_if (negb (bool_decide (d_state d = DActive))) DisputeAlreadyResolved;;
  seq ← ledger_seq;
  fail_if (voting_deadline d <=? seq) VotingPeriodElapsed;;
  voted ← p_has (KDisputeVote dispute_id voter);
  fail_if voted AlreadyVoted;;
  m ← load_match (d_match_id d);
  min_hold ← i_get_or KMinimumHoldDuration DEFAULT_MINIMUM_HOLD_DURATION;
  weight ← gets (snapshot_weight_of voter d min_hold);
  match weight with
  | None =>
      current_balance ← balance (token m) voter;
      if current_balance <=? 0 then err NotStaker else err InsufficientHoldingDuration
  | Some weight =>
      fail_if (weight <=? 0) NotStaker;;
      p_set (KDisputeVoteWeight dispute_id voter) weight;;
      p_set (KDisputeVote dispute_id voter) vote;;
      p_set (KDispute dispute_id)
        (if vote then d <| yes_votes := i128_sat_add (yes_votes d) weight |>
         else d <| no_votes := i128_sat_add (no_votes d) weight |>);;
      publish "dispute" "voted" [VInt dispute_id; VAddr voter; VBool vote; VInt weight]
  end.

(** ** Resolution *)

Definition resolve_dispute_by_vote (dispute_id : Z) : M unit :=
  d ← p_get (KDispute dispute_id);
  d ← ok_or d DisputeNotFound;
  fail_if (negb (bool_decide (d_state d = DActive))) DisputeAlreadyResolved;;
  seq ← ledger_seq;
  fail_if (seq <? voting_deadline d) VotingPeriodNotElapsed;;
  let match_id := d_match_id d in
  m ← load_match match_id;
  fail_if (negb (bool_decide (state m = PendingResult))) MatchNotInPendingResult;;
  pending_winner ← p_get (KPendingWinner match_id);
  pending_winner ← ok_or pending_winner PendingResultNotFound;
  let total_votes := i128_sat_add (yes_votes d) (no_votes d) in
  fail_if (total_votes <? quorum_threshold d) QuorumNotMet;;
  let overturned := yes_votes d >? no_votes d in
  let w : Winner := if overturned then WDraw else pending_winner in
  let d := d <| d_state := if overturned then DResolvedOverturned else DResolvedUpheld |> in
  execute_payout m w;;
  remove_active_match_indexed (player1 m) match_id;;
  remove_active_match_indexed (player2 m) match_id;;
  me ← current_contract;
  (if bool_decide (d_state d = DResolvedOverturned) then
     transfer (token m) me (disputer d) (dispute_bond d)
   else
     cfg ← get_config;
     transfer (token m) me (treasury cfg) (dispute_bond d));;
  m ← set_match_state m Completed;
  let m := m <| completed_ledger := Some seq |> in
  record_completed_match (player1 m);;
  record_completed_match (player2 m);;
  record_platform_payout (platform m);;
  store_match match_id m;;
  p_set (KDispute dispute_id) d;;
  record_snapshot m RFinalized;;
  publish "dispute" "resolved"
    [VInt dispute_id; VInt match_id; dispute_state_val (d_state d); winner_val w;
     VInt total_votes; VInt (quorum_threshold d)].

Definition mark_dispute_for_oracle_slash (dispute_id slash_amount : Z) : M unit :=
  require_admin;;
  d ← p_get (KDispute dispute_id);
  d ← ok_or d DisputeNotFound;
  fail_if (negb (bool_decide (d_state d = DResolvedOverturned))) InvalidState;;
  fail_if ((slash_amount <=? 0) || (slash_amount >? dispute_bond d)) InvalidAmount;;
  oracle ← p_get (KDisputeOracle dispute_id);
  oracle ← ok_or oracle Unauthorized;
  publish "dispute" "oracle_slash_signal" [VInt dispute_id; VAddr oracle; VInt slash_amount].

(** ** Queries *)

Definition get_dispute (dispute_id : Z) : M Dispute :=
  d ← p_get (KDispute dispute_id); ok_or d DisputeNotFound.

Definition get_match_dispute_id (match_id : Z) : M Z :=
  d ← p_get (KMatchDispute match_id); ok_or d DisputeNotFound.

Definition get_dispute_details (match_id : Z) : M Dispute :=
  dispute_id ← get_match_dispute_id match_id; get_dispute dispute_id.

Definition get_dispute_by_match (match_id : Z) : M (option Dispute) :=
  dispute_id ← p_get (KMatchDispute match_id);
  match dispute_id with
  | Some dispute_id => p_get (KDispute dispute_id)
  | None => mret None
  end.
End Disputes.

Definition DEFAULT_REQUIRED_CONFIRMATIONS : Z := 2.

Section Consensus.
Context {W : Type} `{Host W} `{RateOracle W}.
Abbreviation M := (EM W).

Definition get_approved_oracles : M (list Address) := i_get_or KApprovedOracles [].
Definition get_required_confirmations : M Z :=
  i_get_or KRequiredOracleConfirmations DEFAULT_REQUIRED_CONFIRMATIONS.

Definition add_approved_oracle (oracle : Address) : M unit :=
  require_admin;;
  me ← current_contract;
  fail_if (oracle =a me) InvalidAddress;;
  oracles ← i_get_or KApprovedOracles [];
  (if negb (contains oracles oracle)
   then i_set KApprovedOracles (oracles ++ [oracle]) else mret tt);;
  publish "admin" "ora_add" [VAddr oracle].

Definition remove_approved_oracle (oracle : Address) : M unit :=
  require_admin;;
  oracles ← i_get_or KApprovedOracles [];
  required ← get_required_confirmations;
  let remaining_count := u32_sat_sub (as_u32 (vec_len oracles)) 1 in
  fail_if (required >? remaining_count) InvalidAmount;;
  i_set KApprovedOracles (remove_addr oracles oracle);;
  publish "admin" "ora_rm" [VAddr oracle].

Definition set_required_confirmations (count : Z) : M unit :=
  require_admin;;
  oracles ← i_get_or KApprovedOracles [];
  fail_if ((count =? 0) || (count >? as_u32 (vec_len oracles))) InvalidAmount;;
  i_set KRequiredOracleConfirmations count;;
  publish "admin" "req_conf" [VInt count].

Definition mark_oracle_deadlock (match_id current_confirmations required : Z) : M unit :=
  p_set (OracleDeadlock match_id) true;;
  publish "match" "ora_dead" [VInt match_id; VInt current_confirmations; VInt required].

Definition check_oracle_deadlock (match_id current_confirmations required : Z) : M unit :=
  oracles ← i_get_or KApprovedOracles [];
  let oracle_count := as_u32 (vec_len oracles) in
  if required >? oracle_count
  then mark_oracle_deadlock match_id current_confirmations required
  else
    let remaining_possible := u32_sat_sub oracle_count current_confirmations in
    let max_possible_confirmations := u32_sat_add current_confirmations remaining_possible in
    if max_possible_confirmations <? required
    then mark_oracle_deadlock match_id current_confirmations required
    else mret tt.

Definition submit_result_consensus (match_id : Z) (w : Winner) (oracle : Address) : M unit :=
  require_not_paused;;
  require_auth oracle;;
  oracles ← i_get_or KApprovedOracles [];
  fail_if (negb (contains oracles oracle)) NotAnOracle;;
  m ← load_match match_id;
  fail_if (negb (bool_decide (state m = Active))) InvalidState;;
  fail_if (negb (player1_deposited m) || negb (player2_deposited m)) NotFunded;;
  voted ← p_has (KOracleVote match_id oracle);
  fail_if voted OracleAlreadyConfirmed;;
  existing_confirmations ← p_get_or (KOracleConfirmations match_id) 0;
  (if existing_confirmations >? 0 then
     existing_winner ← p_get (KConsensusLeadingWinner match_id);
     existing_winner ← ok_or existing_winner ConflictingResult;
     if bool_decide (existing_winner = w) then mret tt
     else
       required ← get_required_confirmations;
       mark_oracle_deadlock match_id existing_confirmations required;;
       err ConflictingResult
   else p_set (KConsensusLeadingWinner match_id) w);;
  p_set (KOracleVote match_id oracle) w;;
  new_confirmations ← ok_or (u32_checked_add existing_confirmations 1) Overflow;
  p_set (KOracleConfirmations match_id) new_confirmations;;
  publish "match" "ora_vote" [VInt match_id; VAddr oracle; VInt new_confirmations];;
  required ← get_required_confirmations;
  if required <=? new_confirmations then settle_result match_id w None
  else check_oracle_deadlock match_id new_confirmations required.

Definition get_oracle_confirmations (match_id : Z) : M Z :=
  p_get_or (KOracleConfirmations match_id) 0.

Definition is_oracle_deadlocked (match_id : Z) : M bool :=
  p_get_or (OracleDeadlock match_id) false.

Definition resolve_oracle_deadlock (match_id : Z) (w : Winner) : M unit :=
  require_admin;;
  m ← load_match match_id;
  fail_if (negb (bool_decide (state m = Active))) InvalidState;;
  flagged ← p_get_or (OracleDeadlock match_id) false;
  fail_if (negb flagged) InvalidState;;
  settle_result match_id w None;;
  publish "match" "ora_adm" [VInt match_id; winner_val w].
End Consensus.

(** ** Deadlock detection *)

Section Deadlock.
Context {W : Type} `{Host W}.
Implicit Types s : State W.

(** [check_oracle_deadlock] flags a match exactly when more confirmations are
    required than there are approved oracles; how many votes were cast never
    matters, so the second half of the check is never reached. *)
Theorem deadlock_flag_iff mid current required env s :
  0 <= current <= u32_max -> 0 <= required <= u32_max ->
  vec_len (default [] (inst s KApprovedOracles)) <= u32_max ->
  exists s', check_oracle_deadlock mid current required env s = Ok tt s' /\
    (pers s' (OracleDeadlock mid) = Some true <->
     pers s (OracleDeadlock mid) = Some true \/
     vec_len (default [] (inst s KApprovedOracles)) < required).
Proof.
  intros Hc Hr Hn. unfold check_oracle_deadlock, mark_oracle_deadlock.
  unfold mbind, M_bind, i_get_or. cbn.
  set (n := vec_len (default [] (inst s KApprovedOracles))) in *.
  assert (0 <= n) by (unfold n, vec_len; lia).
  assert (as_u32 n = n) as -> by (apply Z.mod_small; unfold u32_max in *; lia).
  destruct (Z.gtb_spec required n) as [Hgt|Hle].
  - eexists. split; [reflexivity|]. cbn. rewrite upd_eq. split; [by right|done].
  - assert ((u32_sat_add current (u32_sat_sub n current) <? required) = false) as ->
      by (apply Z.ltb_ge; unfold u32_sat_add, u32_sat_sub, clamp, u32_max in *; lia).
    exists s. split; [done|]. split; [by left|]. intros [?|?]; [done|lia].
Qed.
End Deadlock.
