(* ===== verification/Governance.v ===== *)
(** Control of the contract itself: the two-step admin transfer, the reviewed and
    confirmed code upgrade, schema migration, the state health check and the
    version string ([contracts/escrow/src/lib.rs]). *)
From stdpp Require Import base list strings.
From Stdlib Require Import ZArith Lia.
From S2P Require Import Prelude Soroban EscrowTypes Config.

Definition UPGRADE_REVIEW_PERIOD_LEDGERS : Z := 120960.

(** ** The version string *)

(** The digit loop of [write_u32_decimal]: least significant digit first.  A u32
    has at most ten digits, so ten iterations always reach zero. *)
Fixpoint digits_rev (fuel : nat) (x : Z) : list Z :=
  match fuel with
  | O => []
  | S fuel' => if 0 <? x then 48 + x mod 10 :: digits_rev fuel' (x / 10) else []
  end.

(** The bytes [write_u32_decimal] writes after [buf[..pos]]. *)
Definition write_u32_decimal (buf : list Z) (n : Z) : list Z :=
  if n =? 0 then buf ++ [48] else buf ++ rev (digits_rev 10 n).

Definition version_bytes (version : Z) : list Z :=
  let major := version / 1000000 in
  let minor := (version mod 1000000) / 1000 in
  let patch := version mod 1000 in
  let buf := write_u32_decimal [] major in
  let buf := write_u32_decimal (buf ++ [46]) minor in
  write_u32_decimal (buf ++ [46]) patch.

(** [env.deployer().update_current_contract_wasm(hash)]: replacing the code of a
    contract is an operation of the host. *)
Class Deployer (W : Type) := {
  update_wasm : W -> Address -> list Z -> option W
}.

Section Governance.
Context {W : Type} `{Deployer W}.
Abbreviation M := (EM W).

Definition get_admin : M Address := load_admin.

(** ** Admin transfer *)

Definition propose_admin (new_admin : Address) : M unit :=
  admin ← require_admin;
  me ← current_contract;
  fail_if (new_admin =a me) InvalidAddress;;
  fail_if (new_admin =a admin) InvalidAddress;;
  i_set KPendingAdmin (mkPendingAdminProposal admin new_admin);;
  publish "admin" "propose" [VAddr new_admin].

Definition accept_admin : M unit :=
  proposal ← i_get KPendingAdmin;
  proposal ← ok_or proposal Unauthorized;
  require_auth (pending_admin proposal);;
  current_admin ← load_admin;
  fail_if (negb (current_admin =a proposer proposal)) Unauthorized;;
  i_set KAdmin (pending_admin proposal);;
  i_remove KPendingAdmin;;
  publish "admin" "xfer" [VAddr (pending_admin proposal)].

Definition cancel_admin_proposal : M unit :=
  admin ← require_admin;
  proposal ← i_get KPendingAdmin;
  ok_or proposal Unauthorized;;
  i_remove KPendingAdmin;;
  publish "admin" "prop_cxl" [VAddr admin].

Definition transfer_admin (new_admin caller : Address) : M unit :=
  require_auth caller;;
  me ← current_contract;
  fail_if (new_admin =a me) InvalidAddress;;
  admin ← load_admin;
  fail_if (negb (caller =a admin)) Unauthorized;;
  propose_admin new_admin.

(** ** Code upgrade *)

Definition get_version : M Z := i_get_or KContractVersion CONTRACT_VERSION.

Definition get_contract_version : M (list Z) :=
  version ← get_version; mret (version_bytes version).

Definition schedule_upgrade (new_wasm_hash : list Z) : M unit :=
  require_admin;;
  scheduled ← i_has KUpgradeScheduledAt;
  fail_if scheduled UpgradeAlreadyScheduled;;
  scheduled_at ← ledger_seq;
  i_set KUpgradeScheduledAt scheduled_at;;
  i_set KPendingUpgradeHash new_wasm_hash;;
  publish "upgrade" "sched" [VBytes new_wasm_hash; VInt scheduled_at].

Definition cancel_upgrade : M unit :=
  require_admin;;
  scheduled ← i_has KUpgradeScheduledAt;
  fail_if (negb scheduled) UpgradeNotScheduled;;
  i_remove KUpgradeScheduledAt;;
  i_remove KPendingUpgradeHash;;
  i_remove ConfirmedBy;;
  publish "upgrade" "cancel" [VUnit].

Definition confirm_upgrade (upgrader : Address) : M unit :=
  require_auth upgrader;;
  scheduled ← i_has KUpgradeScheduledAt;
  fail_if (negb scheduled) UpgradeNotScheduled;;
  i_set ConfirmedBy upgrader;;
  publish "upgrade" "confirm" [VAddr upgrader].

Definition execute_upgrade : M unit :=
  require_admin;;
  paused ← i_get_or KPaused false;
  fail_if (negb paused) InvalidPauseState;;
  scheduled_at ← i_get KUpgradeScheduledAt;
  scheduled_at ← ok_or scheduled_at UpgradeNotScheduled;
  current_ledger ← ledger_seq;
  fail_if (current_ledger <? u32_sat_add scheduled_at UPGRADE_REVIEW_PERIOD_LEDGERS)
    UpgradeReviewPeriodNotElapsed;;
  confirmed ← i_has ConfirmedBy;
  fail_if (negb confirmed) UpgradeNotConfirmed;;
  new_wasm_hash ← i_get KPendingUpgradeHash;
  new_wasm_hash ← ok_or new_wasm_hash UpgradeNotScheduled;
  i_remove KUpgradeScheduledAt;;
  i_remove KPendingUpgradeHash;;
  i_remove ConfirmedBy;;
  me ← current_contract;
  call_out (fun w => update_wasm w me new_wasm_hash);;
  publish "upgrade" "exec" [VBytes new_wasm_hash].

(** ** Migration and health check *)

Definition _apply_migrations (from to : Z) : M unit :=
  has ← i_has KDisputePeriod;
  if (from <? 1001) && (1001 <=? to) && negb has
  then i_set KDisputePeriod 0 else mret tt.

Definition migrate_state (target_version : Z) : M unit :=
  require_admin;;
  current ← i_get_or KContractVersion CONTRACT_VERSION;
  fail_if (target_version <=? current) InvalidVersion;;
  _apply_migrations current target_version;;
  i_set KContractVersion target_version;;
  publish "upgrade" "migrated" [VInt current; VInt target_version].

Definition validate_state : M unit :=
  oracle ← i_has KOracle;
  fail_if (negb oracle) NotInitialized;;
  admin ← i_has KAdmin;
  fail_if (negb admin) Unauthorized;;
  count ← i_has KMatchCount;
  fail_if (negb count) NotInitialized;;
  version ← i_has KContractVersion;
  fail_if (negb version) NotInitialized.
End Governance.

(** ** The version string determines the version *)

(** The value of a string of decimal digits. *)
Definition read_decimal (l : list Z) : Z := foldl (fun acc d => acc * 10 + (d - 48)) 0 l.
Definition is_digit (d : Z) : Prop := 48 <= d <= 57.

Lemma read_decimal_snoc l d : read_decimal (l ++ [d]) = read_decimal l * 10 + (d - 48).
Proof. unfold read_decimal. by rewrite foldl_app. Qed.

Lemma digits_rev_read fuel x :
  0 <= x < 10 ^ Z.of_nat fuel -> read_decimal (rev (digits_rev fuel x)) = x.
Proof.
  revert x. induction fuel as [|fuel IH]; intros x Hx; [cbn in *; lia|].
  cbn [digits_rev]. destruct (Z.ltb_spec 0 x); [|cbn; lia]. cbn [rev].
  rewrite read_decimal_snoc, IH.
  - pose proof (Z.div_mod x 10). lia.
  - rewrite Nat2Z.inj_succ, Z.pow_succ_r in Hx by lia.
    split; [apply Z.div_pos; lia|apply Z.div_lt_upper_bound; lia].
Qed.

Lemma digits_rev_digits fuel x : 0 <= x -> Forall is_digit (digits_rev fuel x).
Proof.
  revert x. induction fuel as [|fuel IH]; intros x Hx; cbn [digits_rev]; [constructor|].
  destruct (Z.ltb_spec 0 x); constructor.
  - unfold is_digit. pose proof (Z.mod_pos_bound x 10). lia.
  - apply IH, Z.div_pos; lia.
Qed.

(** The digits [write_u32_decimal] appends. *)
Lemma write_u32_decimal_spec buf n :
  0 <= n <= u32_max ->
  exists ds, write_u32_decimal buf n = buf ++ ds /\ Forall is_digit ds /\ ds <> [] /\
             read_decimal ds = n.
Proof.
  intros Hn. unfold write_u32_decimal. destruct (Z.eqb_spec n 0) as [->|Hne].
  - exists [48]. split_and!; [done|repeat constructor; unfold is_digit; lia|done|done].
  - exists (rev (digits_rev 10 n)). split_and!; [done| | |].
    + apply List.Forall_rev, digits_rev_digits. lia.
    + intros E. apply (f_equal (@length Z)) in E. rewrite length_rev in E. revert E.
      cbn [digits_rev]. destruct (Z.ltb_spec 0 n); [done|lia].
    + apply digits_rev_read. unfold u32_max in Hn. cbn. lia.
Qed.

(** The version string is three non-empty runs of decimal digits separated by
    dots, and reading them back gives the stored version number: for every u32
    version, [major * 1000000 + minor * 1000 + patch] with [minor] and [patch]
    below 1000. *)
Theorem version_roundtrip v :
  0 <= v <= u32_max ->
  exists major minor patch, version_bytes v = major ++ [46] ++ minor ++ [46] ++ patch /\
    Forall is_digit (major ++ minor ++ patch) /\
    0 <= read_decimal minor < 1000 /\ 0 <= read_decimal patch < 1000 /\
    read_decimal major * 1000000 + read_decimal minor * 1000 + read_decimal patch = v.
Proof.
  intros Hv. unfold version_bytes.
  assert (0 <= v / 1000000 <= u32_max /\ 0 <= (v mod 1000000) / 1000 < 1000 /\
          0 <= v mod 1000 < 1000 /\
          v / 1000000 * 1000000 + (v mod 1000000) / 1000 * 1000 + v mod 1000 = v)
    as (H1 & H2 & H3 & H4) by (unfold u32_max in *; Z.div_mod_to_equations; lia).
  destruct (write_u32_decimal_spec [] (v / 1000000)) as (a & -> & Ha & _ & Ra); [lia|].
  destruct (write_u32_decimal_spec (([] ++ a) ++ [46]) ((v mod 1000000) / 1000))
    as (b & -> & Hb & _ & Rb); [unfold u32_max; lia|].
  destruct (write_u32_decimal_spec (((([] ++ a) ++ [46]) ++ b) ++ [46]) (v mod 1000))
    as (c & -> & Hc & _ & Rc); [unfold u32_max; lia|].
  exists a, b, c. rewrite Ra, Rb, Rc, <- !app_assoc. cbn.
  split_and!; try done; try lia. rewrite !Forall_app. done.
Qed.

Lemma version_roundtrip_witness :
  0 <= 1002003 <= u32_max /\
  exists major minor patch, version_bytes 1002003 = major ++ [46] ++ minor ++ [46] ++ patch /\
    Forall is_digit (major ++ minor ++ patch) /\
    0 <= read_decimal minor < 1000 /\ 0 <= read_decimal patch < 1000 /\
    read_decimal major * 1000000 + read_decimal minor * 1000 + read_decimal patch = 1002003.
Proof.
  assert (0 <= 1002003 <= u32_max) as Hv by (unfold u32_max; lia).
  split; [exact Hv|]. exact (version_roundtrip 1002003 Hv).
Defined.
