(* ===== verification/Queries.v ===== *)
(** Read-only queries over matches: per-state listings, pages, brackets, player
    lists and the match history ([contracts/escrow/src/lib.rs]). *)
From stdpp Require Import base list numbers strings.
From Stdlib Require Import ZArith Lia.
From S2P Require Import Prelude Soroban EscrowTypes Config Tokens MatchIndex Snapshots.

Definition MAX_UNBOUNDED_MATCH_RESULTS : Z := 10000.

Section Queries.
Context {W : Type}.
Abbreviation M := (EM W).

Definition lookup_match (s : State W) (match_id : Z) : option Match :=
  pers s (KMatch match_id).

Definition get_match (match_id : Z) : M Match := load_match match_id.

Definition is_funded (match_id : Z) : M bool :=
  m ← load_match match_id; mret (player1_deposited m && player2_deposited m).

Definition get_match_count : M Z := i_get_or KMatchCount 0.

(** The records of the ids in [ids] that exist and satisfy [keep]. *)
Fixpoint pick_matches (s : State W) (keep : Match -> bool) (ids : list Z) : list Match :=
  match ids with
  | [] => []
  | i :: rest =>
      match lookup_match s i with
      | Some m => if keep m then m :: pick_matches s keep rest
                  else pick_matches s keep rest
      | None => pick_matches s keep rest
      end
  end.

Definition in_state (st : MatchState) (m : Match) : bool := bool_decide (state m = st).

Definition collect_matches_by_state (st : MatchState) : M (list Match) :=
  match_ids ← p_get_or (MatchesByState st) [];
  ms ← gets (fun s => pick_matches s (in_state st)
                        (firstn (Z.to_nat MAX_UNBOUNDED_MATCH_RESULTS) match_ids));
  (if vec_len match_ids >? MAX_UNBOUNDED_MATCH_RESULTS
   then publish "match" "truncated" [state_val st; VInt MAX_UNBOUNDED_MATCH_RESULTS]
   else mret tt);;
  mret ms.

Definition collect_matches_by_state_paginated (st : MatchState) (offset limit : Z)
    : M (list Match) :=
  if limit =? 0 then mret [] else
  match_ids ← p_get_or (MatchesByState st) [];
  let start := Z.min offset (vec_len match_ids) in
  let stop := Z.min (u32_sat_add start limit) (vec_len match_ids) in
  gets (fun s => pick_matches s (in_state st) (slice match_ids start stop)).

Definition get_pending_matches := collect_matches_by_state Pending.
Definition get_active_matches := collect_matches_by_state Active.
Definition get_live_matches := get_active_matches.
Definition get_completed_matches := collect_matches_by_state Completed.
Definition get_pending_matches_paginated := collect_matches_by_state_paginated Pending.
Definition get_active_matches_paginated := collect_matches_by_state_paginated Active.
Definition get_live_matches_paginated := get_active_matches_paginated.
Definition get_completed_matches_paginated := collect_matches_by_state_paginated Completed.
Definition get_cancelled_matches_paginated := collect_matches_by_state_paginated Cancelled.

Definition get_bracket_matches (b : Z) : M (list Match) :=
  match_ids ← p_get_or (BracketMatches b) [];
  gets (fun s => pick_matches s (fun m => bool_decide (bracket_id m = Some b)) match_ids).

Definition get_player_matches (p : Address) : M (list Z) :=
  ids ← p_get_or (KPlayerMatches p) [];
  mret (firstn (Z.to_nat MAX_UNBOUNDED_MATCH_RESULTS) ids).

(** The paging loop: skip [offset], then push until the page holds [limit]. *)
Fixpoint page_ids (ids : list Z) (skipped offset limit : Z) (page : list Z) : list Z :=
  match ids with
  | [] => page
  | x :: rest =>
      if skipped <? offset then page_ids rest (u32_sat_add skipped 1) offset limit page
      else
        let page := page ++ [x] in
        if limit <=? vec_len page then page
        else page_ids rest skipped offset limit page
  end.

Definition get_player_matches_paginated (p : Address) (offset limit : Z) : M (list Z) :=
  ids ← p_get_or (KPlayerMatches p) [];
  if limit =? 0 then mret [] else mret (page_ids ids 0 offset limit []).

(** The history loop over match ids, newest first. *)
Fixpoint history_page (s : State W) (ids : list Z) (skipped added offset limit : Z)
    : list Match :=
  match ids with
  | [] => []
  | x :: rest =>
      match lookup_match s x with
      | None => history_page s rest skipped added offset limit
      | Some m =>
          if negb (is_terminal_state (state m))
          then history_page s rest skipped added offset limit
          else if skipped <? offset
          then history_page s rest (u32_sat_add skipped 1) added offset limit
          else
            let added := u32_sat_add added 1 in
            m :: (if limit <=? added then []
                  else history_page s rest skipped added offset limit)
      end
  end.

Definition get_match_history (player : option Address) (limit offset : Z) : M (list Match) :=
  if limit =? 0 then mret [] else
  match player with
  | Some p =>
      ids ← p_get_or (KPlayerMatches p) [];
      gets (fun s => history_page s (rev (ids : list Z)) 0 0 offset limit)
  | None =>
      count ← i_get_or KMatchCount 0;
      gets (fun s => history_page s (rev (seqZ 0 count)) 0 0 offset limit)
  end.
End Queries.
