(* ===== verification/OracleTypes.v ===== *)
(** The oracle contract's data: the types of [contracts/oracle/src/types.rs], the
    errors of [contracts/oracle/src/errors.rs], the storage keys with the type of
    the value each one holds, and the monad the oracle's functions are written in.

    Field names that two records share, or that are common words, carry a prefix
    naming their record. *)
From stdpp Require Import base list strings.
From Stdlib Require Import ZArith.
From S2P Require Import Prelude Soroban.

Inductive Winner := Player1 | Player2 | Draw.
Inductive Platform := Lichess | ChessDotCom.

#[export] Instance Winner_eq_dec : EqDecision Winner.
Proof. solve_decision. Defined.
#[export] Instance Platform_eq_dec : EqDecision Platform.
Proof. solve_decision. Defined.

Record ResultEntry := mkResultEntry {
  re_game_id : string;
  re_platform : Platform;
  re_result : Winner;
  re_submitted_ledger : Z;
  re_submitter : Address;
  re_confidence : option Z
}.

Record BatchResultEntry := mkBatchResultEntry {
  be_match_id : Z;
  be_game_id : string;
  be_platform : Platform;
  be_result : Winner;
  be_confidence : option Z
}.

Record OracleRegistration := mkOracleRegistration {
  oracle_address : Address;
  oracle_stake : Z;
  reg_token : Address
}.

Record OracleMetrics := mkOracleMetrics {
  last_response_time_ms : Z;
  avg_response_time_ms : Z;
  uptime_percentage : Z;
  total_submissions : Z;
  successful_submissions : Z;
  om_active : bool
}.

Record OracleVoteRecord := mkOracleVoteRecord {
  ov_game_id : string;
  ov_platform : Platform;
  ov_result : Winner
}.

#[export] Instance OracleVoteRecord_eq_dec : EqDecision OracleVoteRecord.
Proof. solve_decision. Defined.

Record CandidateTally := mkCandidateTally {
  ct_game_id : string;
  ct_platform : Platform;
  ct_result : Winner;
  submitters : list Address
}.

Record ConsensusState := mkConsensusState {
  candidates : list CandidateTally;
  disputed : bool
}.

Record VoteTally := mkVoteTally {
  remaining_eligible : Z;
  eligibility_version : Z
}.

Record RateEntry := mkRateEntry {
  rate : Z;
  updated_ledger : Z
}.

Record PendingSlash := mkPendingSlash {
  sl_oracle_address : Address;
  sl_match_id : Z;
  slash_amount : Z;
  sl_token : Address;
  staged_ledger : Z;
  eligible_ledger : Z
}.

Record PendingAdminProposal := mkPendingAdminProposal {
  proposer : Address;
  pending_admin : Address
}.

Record OracleSubmissionEntry := mkOracleSubmissionEntry {
  se_match_id : Z;
  se_game_id : string;
  se_platform : Platform;
  se_result : Winner;
  se_submitted_ledger : Z
}.

Record RateLimitConfig := mkRateLimitConfig {
  hourly_limit : Z;
  daily_limit : Z
}.

Record RateWindow := mkRateWindow {
  window_start : Z;
  current_count : Z;
  previous_count : Z
}.

Record RateLimitStatus := mkRateLimitStatus {
  hourly_used : Z;
  st_hourly_limit : Z;
  hourly_remaining : Z;
  daily_used : Z;
  st_daily_limit : Z;
  daily_remaining : Z
}.

(** ** Storage keys

    [DApprovedOracles] is used by [lib.rs] although the enum of [types.rs] does
    not list it. *)

Inductive DataKey :=
| DAdmin
| DResult (match_id : Z)
| DPaused
| DOracleRegistration (oracle : Address)
| DOracleRateLimit (oracle : Address)
| DOracleHourlyWindow (oracle : Address)
| DOracleDailyWindow (oracle : Address)
| DRate (token_a token_b : Address)
| DConsensusThreshold
| DOracleSet
| DMatchVotes (match_id : Z)
| DVoteTally (match_id : Z)
| DOracleEligibilityVersion
| DOracleVote (match_id : Z) (oracle : Address)
| DOracleMetrics (oracle : Address)
| DOracleCache (game_id : string) (platform : Platform)
| DOracleSubmissionList (oracle : Address)
| DSlashingGracePeriodLedgers
| DPendingSlash (oracle : Address) (match_id : Z)
| DPendingAdmin
| DTreasury
| DSlaThreshold
| DPendingSlashList (oracle : Address)
| DApprovedOracles.

#[export] Instance DataKey_eq_dec : EqDecision DataKey.
Proof. solve_decision. Defined.

Definition oracle_val (k : DataKey) : Type :=
  match k with
  | DAdmin => Address
  | DResult _ => ResultEntry
  | DPaused => bool
  | DOracleRegistration _ => OracleRegistration
  | DOracleRateLimit _ => RateLimitConfig
  | DOracleHourlyWindow _ => RateWindow
  | DOracleDailyWindow _ => RateWindow
  | DRate _ _ => RateEntry
  | DConsensusThreshold => Z
  | DOracleSet => list Address
  | DMatchVotes _ => ConsensusState
  | DVoteTally _ => VoteTally
  | DOracleEligibilityVersion => Z
  | DOracleVote _ _ => OracleVoteRecord
  | DOracleMetrics _ => OracleMetrics
  | DOracleCache _ _ => Winner * Z
  | DOracleSubmissionList _ => list OracleSubmissionEntry
  | DSlashingGracePeriodLedgers => Z
  | DPendingSlash _ _ => PendingSlash
  | DPendingAdmin => PendingAdminProposal
  | DTreasury => Address
  | DSlaThreshold => Z
  | DPendingSlashList _ => list Z
  | DApprovedOracles => list Address
  end.

#[export] Instance DataKey_spec : KeySpec DataKey := {| kval := oracle_val |}.

(** ** Errors

    [NoPendingAdmin] is reported by [accept_admin] although the enum of
    [errors.rs] does not list it; it has no code there. *)

Inductive Error :=
| Unauthorized | AlreadySubmitted | ResultNotFound | AlreadyInitialized | ContractPaused
| InvalidGameId | BatchTooLarge | BatchDuplicateEntry | RateLimitExceeded | InvalidRateLimit
| InsufficientStake | NotRegisteredOracle | InvalidPauseState | MatchDisputed
| InvalidThreshold | MatchNotDisputed | OracleDeactivated | OracleNotSlow | InvalidAmount
| Overflow | SlippageExceeded | StakeTokenMismatch | SlashNotFound
| SlashGracePeriodNotElapsed | RateNotFound | InvalidRate | SlashAlreadyPending
| InvalidConfidence | NoPendingAdmin.

(** ** The oracle's monad *)

Abbreviation OState W := (St DataKey W).
Abbreviation OM W := (Soroban.M Error (OState W)).
Abbreviation i_get := (@Soroban.i_get DataKey _ Error DataKey_spec).
Abbreviation p_get := (@Soroban.p_get DataKey _ Error DataKey_spec).
Abbreviation i_get_or := (@Soroban.i_get_or DataKey _ Error DataKey_spec).
Abbreviation p_get_or := (@Soroban.p_get_or DataKey _ Error DataKey_spec).
Abbreviation i_has := (@Soroban.i_has DataKey _ Error DataKey_spec).
Abbreviation p_has := (@Soroban.p_has DataKey _ Error DataKey_spec).
Abbreviation i_set := (@Soroban.i_set DataKey _ Error DataKey_spec).
Abbreviation p_set := (@Soroban.p_set DataKey _ Error DataKey_spec).
Abbreviation i_remove := (@Soroban.i_remove DataKey _ Error DataKey_spec).
Abbreviation p_remove := (@Soroban.p_remove DataKey _ Error DataKey_spec).

Definition init_oracle {W} (w : W) : OState W :=
  mkSt empty_store empty_store empty_store w [].

Definition winner_val (r : Winner) : Val :=
  VSym match r with Player1 => "Player1" | Player2 => "Player2" | Draw => "Draw" end.
