(* ===== verification/OracleLimits.v ===== *)
(** The oracle contract's administration, response-time metrics and submission
    limits ([contracts/oracle/src/lib.rs], lines 163-330, 1370-1478 and 1840-2277);
    then its exchange rates and the swap the escrow pays multi-token matches with
    (lines 2279-2449). *)
From stdpp Require Import base list strings.
From Stdlib Require Import ZArith Lia.
From S2P Require Import Prelude Soroban OracleTypes.

Definition SLA_MAX_RESPONSE_TIME_MS : Z := 5000.
Definition DEFAULT_HOURLY_LIMIT : Z := 100.
Definition DEFAULT_DAILY_LIMIT : Z := 1000.
Definition HOURLY_WINDOW_SECS : Z := 3600.
Definition DAILY_WINDOW_SECS : Z := 86400.
Definition RATE_LIMIT_ALERT_THRESHOLD_PCT : Z := 80.

(** [x as u64] of a [u128] keeps the low 64 bits. *)
Definition as_u64 (x : Z) : Z := x mod 18446744073709551616.

Section OracleAdmin.
Context {W : Type}.
Abbreviation M := (OM W).

(** ** Administration *)

Definition initialize (admin : Address) : M unit :=
  has ← i_has DAdmin;
  fail_if has AlreadyInitialized;;
  i_set DAdmin admin;;
  publish "oracle" "init" [VAddr admin].

(** [admin = get(Admin).ok_or(Unauthorized)?; admin.require_auth()] *)
Definition load_admin : M Address := a ← i_get DAdmin; ok_or a Unauthorized.
Definition require_admin : M Address := a ← load_admin; require_auth a;; mret a.
Definition require_not_paused : M unit :=
  paused ← i_get_or DPaused false; fail_if paused ContractPaused.

Definition get_admin : M Address := load_admin.
Definition is_initialized : M bool := i_has DAdmin.

Definition pause : M unit :=
  require_admin;;
  paused ← i_get_or DPaused false;
  fail_if paused InvalidPauseState;;
  i_set DPaused true;;
  publish "admin" "paused" [VUnit].

Definition unpause : M unit :=
  require_admin;;
  paused ← i_get_or DPaused false;
  fail_if (negb paused) InvalidPauseState;;
  i_set DPaused false;;
  publish "admin" "unpaused" [VUnit].

Definition update_admin (new_admin : Address) : M unit :=
  current_admin ← require_admin;
  i_set DAdmin new_admin;;
  publish "admin" "admin_rot" [VAddr current_admin; VAddr new_admin].

Definition propose_admin (new_admin : Address) : M unit :=
  current_admin ← require_admin;
  i_set DPendingAdmin (mkPendingAdminProposal current_admin new_admin);;
  publish "admin" "propose" [VAddr new_admin].

Definition accept_admin : M unit :=
  p ← i_get DPendingAdmin;
  p ← ok_or p NoPendingAdmin;
  require_auth (pending_admin p);;
  current_admin ← load_admin;
  fail_if (negb (current_admin =a proposer p)) Unauthorized;;
  i_set DAdmin (pending_admin p);;
  i_remove DPendingAdmin;;
  publish "admin" "xfer" [VAddr (pending_admin p)].

Definition set_slashing_grace_period (grace_period_ledgers : Z) : M unit :=
  admin ← require_admin;
  i_set DSlashingGracePeriodLedgers grace_period_ledgers;;
  publish "admin" "slash_gp" [VInt grace_period_ledgers; VAddr admin].

Definition get_slashing_grace_period : M Z := i_get_or DSlashingGracePeriodLedgers 0.

Definition set_treasury (treasury : Address) : M unit :=
  require_admin;;
  i_set DTreasury treasury;;
  publish "admin" "treasury" [VAddr treasury].

Definition get_treasury_address (admin : Address) : M Address := i_get_or DTreasury admin.
Definition get_treasury : M Address := admin ← load_admin; get_treasury_address admin.

(** ** Response-time metrics *)

Definition sla_threshold : M Z := i_get_or DSlaThreshold SLA_MAX_RESPONSE_TIME_MS.
Definition get_sla_threshold : M Z := sla_threshold.

Definition set_sla_threshold (threshold_ms : Z) : M unit :=
  require_admin;;
  fail_if (threshold_ms =? 0) InvalidThreshold;;
  i_set DSlaThreshold threshold_ms;;
  publish "oracle" "sla_thrsh" [VInt threshold_ms].

Definition fresh_metrics : OracleMetrics := mkOracleMetrics 0 0 100 0 0 true.

Definition get_oracle_metrics (oracle : Address) : M OracleMetrics :=
  p_get_or (DOracleMetrics oracle) fresh_metrics.

Definition deactivate_slow_oracle (oracle : Address) : M unit :=
  require_admin;;
  metrics ← p_get (DOracleMetrics oracle);
  metrics ← ok_or metrics ResultNotFound;
  threshold ← sla_threshold;
  fail_if (avg_response_time_ms metrics <=? threshold) OracleNotSlow;;
  p_set (DOracleMetrics oracle)
    (mkOracleMetrics (last_response_time_ms metrics) (avg_response_time_ms metrics)
       (uptime_percentage metrics) (total_submissions metrics)
       (successful_submissions metrics) false);;
  publish "oracle" "deact" [VAddr oracle].

(** The metrics after one more submission.  The sums are [u128] and cannot
    overflow: a [u64] average times a [u32] count. *)
Definition measured (m : OracleMetrics) (response_time_ms : Z) : OracleMetrics :=
  let new_total := u32_sat_add (total_submissions m) 1 in
  let prev_sum := avg_response_time_ms m * total_submissions m in
  let new_sum := prev_sum + response_time_ms in
  let successful :=
    if response_time_ms <=? SLA_MAX_RESPONSE_TIME_MS
    then u32_sat_add (successful_submissions m) 1 else successful_submissions m in
  mkOracleMetrics response_time_ms (as_u64 (new_sum / new_total))
    (as_u32 (successful * 100 / new_total)) new_total successful (om_active m).

Definition update_oracle_metrics (oracle : Address) (response_time_ms : Z) : M unit :=
  metrics ← p_get_or (DOracleMetrics oracle) fresh_metrics;
  fail_if (negb (om_active metrics)) OracleDeactivated;;
  p_set (DOracleMetrics oracle) (measured metrics response_time_ms).

(** ** Submission limits *)

Definition default_limits : RateLimitConfig :=
  mkRateLimitConfig DEFAULT_HOURLY_LIMIT DEFAULT_DAILY_LIMIT.

Definition rate_limit_config (oracle : Address) : M RateLimitConfig :=
  i_get_or (DOracleRateLimit oracle) default_limits.
Definition get_oracle_rate_limits (oracle : Address) : M RateLimitConfig :=
  rate_limit_config oracle.

Definition set_oracle_rate_limits (oracle : Address) (hourly daily : Z) : M unit :=
  require_admin;;
  fail_if (negb (hourly =? 0) && negb (daily =? 0) && (hourly >? daily)) InvalidRateLimit;;
  let config := mkRateLimitConfig
    (if hourly =? 0 then DEFAULT_HOURLY_LIMIT else hourly)
    (if daily =? 0 then DEFAULT_DAILY_LIMIT else daily) in
  i_set (DOracleRateLimit oracle) config;;
  publish "oracle" "ratelim"
    [VAddr oracle; VInt (hourly_limit config); VInt (daily_limit config)].

(** [load_rate_window] on the stored window, if any. *)
Definition rolled (stored : option RateWindow) (now window_secs : Z) : RateWindow :=
  let window := default (mkRateWindow now 0 0) stored in
  let elapsed := u64_sat_sub now (window_start window) in
  if window_secs * 2 <=? elapsed then mkRateWindow now 0 0
  else if window_secs <=? elapsed
  then mkRateWindow (window_start window + window_secs) 0 (current_count window)
  else window.

(** The two windows of an oracle, read and rolled forward. *)
Definition load_hourly (oracle : Address) (now : Z) : M RateWindow :=
  w ← p_get (DOracleHourlyWindow oracle); mret (rolled w now HOURLY_WINDOW_SECS).
Definition load_daily (oracle : Address) (now : Z) : M RateWindow :=
  w ← p_get (DOracleDailyWindow oracle); mret (rolled w now DAILY_WINDOW_SECS).

Definition estimated_window_count (now : Z) (window : RateWindow) (window_secs : Z) : Z :=
  let elapsed_in_current := Z.min (u64_sat_sub now (window_start window)) window_secs in
  let remaining := window_secs - elapsed_in_current in
  let weighted_previous := previous_count window * remaining / window_secs in
  u32_sat_add (current_count window) (as_u32 weighted_previous).

Definition counted (window : RateWindow) (count : Z) : RateWindow :=
  mkRateWindow (window_start window) (u32_sat_add (current_count window) count)
    (previous_count window).

Definition maybe_alert (oracle : Address) (label : string) (used limit : Z) : M unit :=
  if limit =? 0 then mret tt
  else if limit * RATE_LIMIT_ALERT_THRESHOLD_PCT <=? used * 100
  then publish "oracle" "alert" [VAddr oracle; VSym label; VInt used; VInt limit]
  else mret tt.

Definition check_oracle_rate_limit (oracle : Address) (count : Z) : M unit :=
  config ← rate_limit_config oracle;
  now ← ledger_time;
  hourly_window ← load_hourly oracle now;
  let hourly_used := estimated_window_count now hourly_window HOURLY_WINDOW_SECS in
  fail_if (u32_sat_add hourly_used count >? hourly_limit config) RateLimitExceeded;;
  daily_window ← load_daily oracle now;
  let daily_used := estimated_window_count now daily_window DAILY_WINDOW_SECS in
  fail_if (u32_sat_add daily_used count >? daily_limit config) RateLimitExceeded;;
  p_set (DOracleHourlyWindow oracle) (counted hourly_window count);;
  p_set (DOracleDailyWindow oracle) (counted daily_window count);;
  h ← unwrap (u32_checked_add hourly_used count);
  maybe_alert oracle "hourly" h (hourly_limit config);;
  d ← unwrap (u32_checked_add daily_used count);
  maybe_alert oracle "daily" d (daily_limit config).

Definition get_oracle_rate_limit_status (oracle : Address) : M RateLimitStatus :=
  config ← rate_limit_config oracle;
  now ← ledger_time;
  hourly_window ← load_hourly oracle now;
  let hourly_used := estimated_window_count now hourly_window HOURLY_WINDOW_SECS in
  daily_window ← load_daily oracle now;
  let daily_used := estimated_window_count now daily_window DAILY_WINDOW_SECS in
  mret (mkRateLimitStatus hourly_used (hourly_limit config)
          (u32_sat_sub (hourly_limit config) hourly_used)
          daily_used (daily_limit config)
          (u32_sat_sub (daily_limit config) daily_used)).
End OracleAdmin.

Definition MAX_RATE_AGE_LEDGERS : Z := 17280.

Section OracleRates.
Context {W : Type} `{Host W}.
Abbreviation M := (OM W).

Definition set_rate (token_a token_b : Address) (r : Z) : M unit :=
  require_admin;;
  fail_if (r <=? 0) InvalidRate;;
  seq ← ledger_seq;
  p_set (DRate token_a token_b) (mkRateEntry r seq);;
  publish "oracle" "rate_set" [VAddr token_a; VAddr token_b; VInt r].

Definition get_rate_with_age (token_a token_b : Address) : M RateEntry :=
  e ← p_get (DRate token_a token_b); ok_or e RateNotFound.

Definition get_rate (token_a token_b : Address) : M Z :=
  e ← p_get (DRate token_a token_b);
  e ← ok_or e RateNotFound;
  mret (rate e).

(** [if sequence - updated > MAX { return Err(RateNotFound) }] *)
Definition require_fresh (e : RateEntry) : M unit :=
  seq ← ledger_seq;
  fail_if (u32_sat_sub seq (updated_ledger e) >? MAX_RATE_AGE_LEDGERS) RateNotFound.

(** [a * b / c], checked, and not below [min_out]. *)
Definition priced (a b c min_out : Z) : M Z :=
  prod ← ok_or (i128_checked_mul a b) Overflow;
  amt ← ok_or (i128_checked_div prod c) Overflow;
  fail_if (amt <? min_out) SlippageExceeded;;
  mret amt.

Definition swap (caller token_in token_out : Address) (amount_in min_amount_out : Z)
    (recipient : Address) : M unit :=
  require_auth caller;;
  fail_if (amount_in <=? 0) InvalidAmount;;
  forward ← p_get (DRate token_in token_out);
  backward ← p_get (DRate token_out token_in);
  amount_out ←
    match forward, backward with
    | Some e, _ => require_fresh e;; priced amount_in (rate e) 10000000 min_amount_out
    | None, Some e => require_fresh e;; priced amount_in 10000000 (rate e) min_amount_out
    | None, None => err RateNotFound
    end;
  me ← current_contract;
  transfer token_in caller me amount_in;;
  transfer token_out me recipient amount_out.
End OracleRates.
