(* ===== verification/OracleStakes.v ===== *)
(** Oracle registration and slashing: stakes, the eligibility version, staged
    slashes with a grace period, and the automatic slashes of the voting
    ([contracts/oracle/src/lib.rs], lines 188-256, 356-576 and 1655-1737). *)
From stdpp Require Import base list strings.
From Stdlib Require Import ZArith Lia.
From S2P Require Import Prelude Soroban OracleTypes OracleLimits.

Definition EQUIVOCATION_SLASH_BPS : Z := 10000.
Definition MINORITY_SLASH_BPS : Z := 1000.

Section OracleStakes.
Context {W : Type} `{Host W}.
Abbreviation M := (OM W).

Definition bump_oracle_eligibility_version : M unit :=
  version ← i_get_or DOracleEligibilityVersion 0;
  i_set DOracleEligibilityVersion (u32_sat_add version 1).

(** ** Registration *)

Definition stake_of (r : option OracleRegistration) : Z :=
  match r with Some r => oracle_stake r | None => 0 end.

Definition register_oracle_with_stake (oracle : Address) (stake_amount : Z) (token : Address)
    : M unit :=
  require_auth oracle;;
  fail_if (stake_amount <=? 0) InvalidAmount;;
  existing ← i_get (DOracleRegistration oracle);
  let was_eligible := opt_test (fun r => oracle_stake r >? 0) existing in
  fail_if (opt_test (fun r => negb (reg_token r =a token)) existing) StakeTokenMismatch;;
  me ← current_contract;
  transfer token oracle me stake_amount;;
  let new_stake := i128_sat_add (stake_of existing) stake_amount in
  i_set (DOracleRegistration oracle) (mkOracleRegistration oracle new_stake token);;
  (if negb was_eligible then bump_oracle_eligibility_version else mret tt);;
  oracle_set ← i_get_or DOracleSet [];
  (if negb (contains oracle_set oracle)
   then i_set DOracleSet (oracle_set ++ [oracle]) else mret tt);;
  publish "oracle" "stake" [VAddr oracle; VInt stake_amount; VAddr token].

Definition get_registered_oracle_count : M Z :=
  set ← i_get_or DOracleSet []; mret (vec_len set).

(** [limit.min(100)]-bounded pages; [offset + limit] is checked [u32]. *)
Definition page_of {A} (l : list A) (offset limit : Z) : M (list A) :=
  let limit := Z.min limit 100 in
  if vec_len l <=? offset then mret []
  else
    stop ← unwrap (u32_checked_add offset limit);
    mret (slice l offset (Z.min stop (vec_len l))).

Definition get_all_oracles_paginated (offset limit : Z) : M (list Address) :=
  set ← i_get_or DOracleSet []; page_of set offset limit.

(** ** Approved list *)

Definition get_approved_oracles : M (list Address) := i_get_or DApprovedOracles [].

Definition add_to_approved_list (oracle : Address) : M unit :=
  l ← i_get_or DApprovedOracles [];
  if negb (contains l oracle) then i_set DApprovedOracles (l ++ [oracle]) else mret tt.

Definition remove_from_approved_list (oracle : Address) : M unit :=
  l ← i_get_or DApprovedOracles [];
  i_set DApprovedOracles (remove_addr l oracle).

(** ** Staged slashes *)

Definition slash_oracle (oracle : Address) (match_id amount : Z) : M unit :=
  admin ← require_admin;
  r ← i_get (DOracleRegistration oracle);
  r ← ok_or r NotRegisteredOracle;
  staged ← i_has (DPendingSlash oracle match_id);
  fail_if staged SlashAlreadyPending;;
  fail_if ((amount <=? 0) || (amount >? oracle_stake r)) InsufficientStake;;
  grace_period ← get_slashing_grace_period;
  seq ← ledger_seq;
  i_set (DPendingSlash oracle match_id)
    (mkPendingSlash oracle match_id amount (reg_token r) seq (u32_sat_add seq grace_period));;
  pending_matches ← i_get_or (DPendingSlashList oracle) [];
  i_set (DPendingSlashList oracle) (pending_matches ++ [match_id]);;
  publish "oracle" "slashstg" [VAddr oracle; VInt match_id; VInt amount; VAddr admin].

Definition remove_pending_slash_match (oracle : Address) (match_id : Z) : M unit :=
  pending_matches ← i_get_or (DPendingSlashList oracle) [];
  match List.filter (fun x => negb (x =? match_id)) pending_matches with
  | [] => i_remove (DPendingSlashList oracle)
  | remaining => i_set (DPendingSlashList oracle) remaining
  end.

Definition finalize_slash (oracle : Address) (match_id : Z) : M unit :=
  admin ← load_admin;
  pending ← i_get (DPendingSlash oracle match_id);
  pending ← ok_or pending SlashNotFound;
  seq ← ledger_seq;
  fail_if (seq <? eligible_ledger pending) SlashGracePeriodNotElapsed;;
  r ← i_get (DOracleRegistration oracle);
  r ← ok_or r InsufficientStake;
  let amount := Z.min (slash_amount pending) (oracle_stake r) in
  let was_eligible := oracle_stake r >? 0 in
  left ← unwrap (i128_checked_sub (oracle_stake r) amount);
  i_set (DOracleRegistration oracle) (mkOracleRegistration (oracle_address r) left (reg_token r));;
  (if was_eligible && (left =? 0) then bump_oracle_eligibility_version else mret tt);;
  i_remove (DPendingSlash oracle match_id);;
  remove_pending_slash_match oracle match_id;;
  me ← current_contract;
  (if amount >? 0 then transfer (sl_token pending) me admin amount else mret tt);;
  publish "oracle" "slash" [VAddr oracle; VInt match_id; VInt amount].

Definition admin_cancel_slash (oracle : Address) (match_id : Z) : M unit :=
  admin ← require_admin;
  staged ← i_has (DPendingSlash oracle match_id);
  fail_if (negb staged) SlashNotFound;;
  i_remove (DPendingSlash oracle match_id);;
  remove_pending_slash_match oracle match_id;;
  publish "admin" "slashcxl" [VAddr oracle; VInt match_id; VAddr admin].

Definition get_pending_slash (oracle : Address) (match_id : Z) : M (option PendingSlash) :=
  i_get (DPendingSlash oracle match_id).

(** The loop of [get_pending_slashes]. *)
Definition staged_slashes (s : OState W) (oracle : Address) (ids : list Z) : list PendingSlash :=
  omap (fun match_id => inst s (DPendingSlash oracle match_id)) ids.

Definition get_pending_slashes (oracle : Address) : M (list PendingSlash) :=
  pending_matches ← i_get_or (DPendingSlashList oracle) [];
  gets (fun s => staged_slashes s oracle pending_matches).

(** ** Automatic slashes *)

(** The share of the stake that is taken: an unchecked [i128] product, so an
    overflow traps. *)
Definition slash_bps (oracle : Address) (bps : Z) : M Z :=
  r ← i_get (DOracleRegistration oracle);
  match r with
  | None => mret 0
  | Some r =>
      if oracle_stake r <=? 0 then mret 0
      else
        prod ← unwrap (i128_checked_mul (oracle_stake r) bps);
        let amount := clamp 0 (oracle_stake r) (Z.quot prod 10000) in
        if amount =? 0 then mret 0
        else
          left ← unwrap (i128_checked_sub (oracle_stake r) amount);
          i_set (DOracleRegistration oracle)
            (mkOracleRegistration (oracle_address r) left (reg_token r));;
          (if left =? 0 then bump_oracle_eligibility_version else mret tt);;
          admin ← i_get DAdmin;
          me ← current_contract;
          match admin with
          | Some admin => transfer (reg_token r) me admin amount
          | None => mret tt
          end;;
          mret amount
  end.
End OracleStakes.
