(* ===== verification/OracleResults.v ===== *)
(** Submission of match results: by the admin, in batches, and by the vote of
    registered oracles with a threshold; disputes among them, the result cache and
    the queries ([contracts/oracle/src/lib.rs], lines 115-146, 587-1240 and
    1480-1900). *)
From stdpp Require Import base list strings.
From Stdlib Require Import ZArith Lia.
From S2P Require Import Prelude Soroban OracleTypes OracleLimits OracleStakes.

Definition MAX_BATCH_SIZE : Z := 100.
Definition DEFAULT_CACHE_TTL_SECS : Z := 3600.
Definition DEFAULT_CONSENSUS_THRESHOLD : Z := 1.
Definition MAX_GAME_ID_LEN : Z := 64.
Definition LICHESS_GAME_ID_LEN : Z := 8.
Definition LICHESS_GAME_ID_LEN_EXTENDED : Z := 12.
Definition CHESS_COM_GAME_ID_MIN_LEN : Z := 7.
Definition CHESS_COM_GAME_ID_MAX_LEN : Z := 12.

Section OracleResults.
Context {W : Type} `{Host W}.
Abbreviation M := (OM W).

Definition validate_game_id_format (g : string) (pl : Platform) : M unit :=
  fail_if ((str_len g =? 0) || (str_len g >? MAX_GAME_ID_LEN)) InvalidGameId;;
  match pl with
  | Lichess =>
      fail_if ((negb (str_len g =? LICHESS_GAME_ID_LEN)
                && negb (str_len g =? LICHESS_GAME_ID_LEN_EXTENDED))
               || negb (all_bytes is_ascii_alphanumeric g)) InvalidGameId
  | ChessDotCom =>
      fail_if (negb (in_range CHESS_COM_GAME_ID_MIN_LEN CHESS_COM_GAME_ID_MAX_LEN (str_len g))
               || negb (all_bytes is_ascii_digit g)) InvalidGameId
  end.

(** ** What every accepted result writes *)

Definition append_oracle_submission (oracle : Address) (match_id : Z) (g : string)
    (pl : Platform) (r : Winner) : M unit :=
  l ← p_get_or (DOracleSubmissionList oracle) [];
  seq ← ledger_seq;
  p_set (DOracleSubmissionList oracle) (l ++ [mkOracleSubmissionEntry match_id g pl r seq]).

Definition cache_result (g : string) (pl : Platform) (r : Winner) : M unit :=
  now ← ledger_time;
  p_set (DOracleCache g pl) (r, u64_sat_add now DEFAULT_CACHE_TTL_SECS).

Definition store_result (match_id : Z) (g : string) (pl : Platform) (r : Winner)
    (submitter : Address) (confidence : option Z) : M unit :=
  seq ← ledger_seq;
  p_set (DResult match_id) (mkResultEntry g pl r seq submitter confidence).

(** A registered admin must have stake left. *)
Definition require_admin_stake (admin : Address) : M unit :=
  r ← i_get (DOracleRegistration admin);
  fail_if (opt_test (fun r => oracle_stake r <=? 0) r) InsufficientStake.

(** ** Results from the admin *)

Definition submit_result (match_id : Z) (g : string) (pl : Platform) (r : Winner)
    (response_time_ms : Z) (confidence : option Z) : M unit :=
  require_not_paused;;
  admin ← require_admin;
  require_admin_stake admin;;
  check_oracle_rate_limit admin 1;;
  update_oracle_metrics admin response_time_ms;;
  has ← p_has (DResult match_id);
  fail_if has AlreadySubmitted;;
  fail_if (str_len g =? 0) InvalidGameId;;
  store_result match_id g pl r admin confidence;;
  cache_result g pl r;;
  append_oracle_submission admin match_id g pl r;;
  publish "oracle" "result" [VInt match_id; winner_val r].

(** The validation loop of [submit_batch_results]. *)
Fixpoint check_batch (entries : list BatchResultEntry) : M unit :=
  match entries with
  | [] => mret tt
  | e :: rest =>
      fail_if (str_len (be_game_id e) =? 0) InvalidGameId;;
      fail_if (existsb (fun e' => be_match_id e' =? be_match_id e) rest) BatchDuplicateEntry;;
      has ← p_has (DResult (be_match_id e));
      fail_if has AlreadySubmitted;;
      check_batch rest
  end.

Definition commit_entry (admin : Address) (e : BatchResultEntry) : M unit :=
  store_result (be_match_id e) (be_game_id e) (be_platform e) (be_result e) admin
    (be_confidence e);;
  cache_result (be_game_id e) (be_platform e) (be_result e);;
  append_oracle_submission admin (be_match_id e) (be_game_id e) (be_platform e) (be_result e);;
  publish "oracle" "result" [VInt (be_match_id e); winner_val (be_result e)].

Definition submit_batch_results (entries : list BatchResultEntry) : M unit :=
  require_not_paused;;
  admin ← require_admin;
  require_admin_stake admin;;
  fail_if (vec_len entries >? MAX_BATCH_SIZE) BatchTooLarge;;
  check_oracle_rate_limit admin (vec_len entries);;
  check_batch entries;;
  for_each (commit_entry admin) entries;;
  publish "oracle" "batch" [VInt (vec_len entries)].

(** ** Voting *)

Definition consensus_threshold : M Z := i_get_or DConsensusThreshold DEFAULT_CONSENSUS_THRESHOLD.
Definition get_consensus_threshold : M Z := consensus_threshold.

Definition set_consensus_threshold (threshold : Z) : M unit :=
  require_admin;;
  fail_if (threshold =? 0) InvalidThreshold;;
  i_set DConsensusThreshold threshold;;
  publish "oracle" "thresh" [VInt threshold];;
  registered ← get_registered_oracle_count;
  if threshold >? registered
  then publish "oracle" "thr_warn" [VInt threshold; VInt registered] else mret tt.

(** The oracles that can still vote on a match, counted over the registry. *)
Definition eligible (s : OState W) (oracle : Address) : bool :=
  opt_test (fun r => oracle_stake r >? 0) (inst s (DOracleRegistration oracle)).
Definition has_voted (s : OState W) (match_id : Z) (oracle : Address) : bool :=
  opt_is_some (pers s (DOracleVote match_id oracle)).

Definition count_remaining_eligible_oracles (match_id : Z) : M Z :=
  set ← i_get_or DOracleSet [];
  gets (fun s => vec_len (List.filter
                   (fun a => negb (has_voted s match_id a) && eligible s a) set)).

(** The same number, from the cache when it is of the current version. *)
Definition remaining_eligible_oracles (match_id : Z) : M Z :=
  version ← i_get_or DOracleEligibilityVersion 0;
  tally ← p_get (DVoteTally match_id);
  remaining ←
    match tally with
    | Some t =>
        if eligibility_version t =? version
        then mret (u32_sat_sub (remaining_eligible t) 1)
        else count_remaining_eligible_oracles match_id
    | None => count_remaining_eligible_oracles match_id
    end;
  p_set (DVoteTally match_id) (mkVoteTally remaining version);;
  mret remaining.

Definition same_candidate (v : OracleVoteRecord) (c : CandidateTally) : bool :=
  bool_decide (ct_result c = ov_result v) && bool_decide (ct_platform c = ov_platform v)
  && bool_decide (ct_game_id c = ov_game_id v).

Definition voted_for (oracle : Address) (c : CandidateTally) : CandidateTally :=
  mkCandidateTally (ct_game_id c) (ct_platform c) (ct_result c) (submitters c ++ [oracle]).

(** The loop over the candidates: the first one equal to the vote gets the
    oracle; the index of the winning candidate, if the threshold is reached.
    [i] is the index of the list's head.  A vote for no listed candidate appends
    a new one. *)
Fixpoint add_vote (v : OracleVoteRecord) (oracle : Address) (threshold : Z) (i : nat)
    (cs : list CandidateTally) : list CandidateTally * option nat :=
  match cs with
  | [] =>
      ([mkCandidateTally (ov_game_id v) (ov_platform v) (ov_result v) [oracle]],
       if threshold <=? 1 then Some i else None)
  | c :: rest =>
      if same_candidate v c then
        let c := voted_for oracle c in
        (c :: rest, if threshold <=? vec_len (submitters c) then Some i else None)
      else
        let '(rest, w) := add_vote v oracle threshold (S i) rest in (c :: rest, w)
  end.

(** The candidates but the one at [idx]. *)
Definition losing (idx : nat) (cs : list CandidateTally) : list CandidateTally :=
  firstn idx cs ++ skipn (S idx) cs.

Definition slash_minority (match_id : Z) (oracle : Address) : M unit :=
  slash_bps oracle MINORITY_SLASH_BPS;;
  publish "oracle" "minority" [VInt match_id; VAddr oracle].

Definition finalize_votes (match_id : Z) (oracle : Address) (threshold : Z) (idx : nat)
    (cs : list CandidateTally) : M unit :=
  winning ← unwrap (cs !! idx);
  store_result match_id (ct_game_id winning) (ct_platform winning) (ct_result winning) oracle None;;
  cache_result (ct_game_id winning) (ct_platform winning) (ct_result winning);;
  for_each (fun o => append_oracle_submission o match_id (ct_game_id winning)
                       (ct_platform winning) (ct_result winning)) (submitters winning);;
  for_each (fun c => for_each (slash_minority match_id) (submitters c)) (losing idx cs);;
  p_remove (DMatchVotes match_id);;
  p_remove (DVoteTally match_id);;
  publish "oracle" "result" [VInt match_id; winner_val (ct_result winning)];;
  publish "oracle" "finalzd" [VInt match_id; VInt (vec_len (submitters winning)); VInt threshold].

Definition still_possible (threshold remaining : Z) (cs : list CandidateTally) : bool :=
  existsb (fun c => threshold <=? u32_sat_add (vec_len (submitters c)) remaining) cs.

Definition keep_voting (match_id : Z) (oracle : Address) (v : OracleVoteRecord) (threshold : Z)
    (cs : list CandidateTally) : M unit :=
  remaining ← remaining_eligible_oracles match_id;
  let dead := negb (still_possible threshold remaining cs) in
  (if dead then
     p_remove (DOracleCache (ov_game_id v) (ov_platform v));;
     publish "oracle" "disputed" [VInt match_id]
   else mret tt);;
  p_set (DMatchVotes match_id) (mkConsensusState cs dead);;
  publish "oracle" "vote" [VInt match_id; VAddr oracle; winner_val (ov_result v)].

(** A vote on a match that already has a result. *)
Definition late_vote (match_id : Z) (oracle : Address) (v : OracleVoteRecord) (f : ResultEntry)
    : M unit :=
  if negb (bool_decide (re_result f = ov_result v)) || negb (bool_decide (re_platform f = ov_platform v))
     || negb (bool_decide (re_game_id f = ov_game_id v))
  then
    slash_bps oracle MINORITY_SLASH_BPS;;
    publish "oracle" "minority" [VInt match_id; VAddr oracle]
  else err AlreadySubmitted.

Definition submit_oracle_result (oracle : Address) (match_id : Z) (g : string) (pl : Platform)
    (r : Winner) (response_time_ms : Z) : M unit :=
  require_not_paused;;
  init ← i_has DAdmin;
  fail_if (negb init) Unauthorized;;
  require_auth oracle;;
  fail_if (str_len g =? 0) InvalidGameId;;
  reg ← i_get (DOracleRegistration oracle);
  reg ← ok_or reg NotRegisteredOracle;
  fail_if (oracle_stake reg <=? 0) InsufficientStake;;
  let v := mkOracleVoteRecord g pl r in
  finalized ← p_get (DResult match_id);
  match finalized with
  | Some f => late_vote match_id oracle v f
  | None =>
      check_oracle_rate_limit oracle 1;;
      update_oracle_metrics oracle response_time_ms;;
      prev ← p_get (DOracleVote match_id oracle);
      match prev with
      | Some prev =>
          fail_if (bool_decide (prev = v)) AlreadySubmitted;;
          slash_bps oracle EQUIVOCATION_SLASH_BPS;;
          publish "oracle" "equivoc" [VInt match_id; VAddr oracle]
      | None =>
          state ← p_get_or (DMatchVotes match_id) (mkConsensusState [] false);
          fail_if (disputed state) MatchDisputed;;
          p_set (DOracleVote match_id oracle) v;;
          threshold ← consensus_threshold;
          match add_vote v oracle threshold 0 (candidates state) with
          | (cs, Some idx) => finalize_votes match_id oracle threshold idx cs
          | (cs, None) => keep_voting match_id oracle v threshold cs
          end
      end
  end.

Definition resolve_disputed_match (match_id : Z) (g : string) (pl : Platform) (r : Winner)
    : M unit :=
  admin ← require_admin;
  has ← p_has (DResult match_id);
  fail_if has AlreadySubmitted;;
  state ← p_get (DMatchVotes match_id);
  state ← ok_or state MatchNotDisputed;
  fail_if (negb (disputed state)) MatchNotDisputed;;
  for_each (fun c => if same_candidate (mkOracleVoteRecord g pl r) c then mret tt
                     else for_each (slash_minority match_id) (submitters c))
    (candidates state);;
  store_result match_id g pl r admin None;;
  cache_result g pl r;;
  p_remove (DMatchVotes match_id);;
  p_remove (DVoteTally match_id);;
  publish "oracle" "resolved" [VInt match_id; winner_val r].

Definition delete_result (match_id : Z) : M unit :=
  require_not_paused;;
  require_admin;;
  entry ← p_get (DResult match_id);
  entry ← ok_or entry ResultNotFound;
  p_remove (DOracleCache (re_game_id entry) (re_platform entry));;
  p_remove (DResult match_id);;
  publish "oracle" "deleted" [VInt match_id].

(** ** Queries and the cache *)

Definition get_result (match_id : Z) : M ResultEntry :=
  r ← p_get (DResult match_id); ok_or r ResultNotFound.
Definition has_result (match_id : Z) : M bool := p_has (DResult match_id).
Definition has_result_admin (match_id : Z) : M bool := require_admin;; p_has (DResult match_id).
Definition get_match_votes (match_id : Z) : M (option ConsensusState) := p_get (DMatchVotes match_id).
Definition get_consensus_state (match_id : Z) : M (option ConsensusState) :=
  p_get (DMatchVotes match_id).

Definition get_oracle_submissions (oracle : Address) (offset limit : Z)
    : M (list OracleSubmissionEntry) :=
  l ← p_get_or (DOracleSubmissionList oracle) []; page_of l offset limit.

Definition get_cached_result (g : string) (pl : Platform) : M (option (Winner * Z)) :=
  c ← p_get (DOracleCache g pl);
  match c with
  | Some (r, expiry) =>
      now ← ledger_time;
      if expiry <=? now then p_remove (DOracleCache g pl);; mret None
      else mret (Some (r, expiry))
  | None => mret None
  end.

Definition invalidate_cache (g : string) (pl : Platform) : M unit :=
  require_admin;; p_remove (DOracleCache g pl).
End OracleResults.
