(* ===== verification/Ledger.v ===== *)
(** A concrete ledger: token balances as a finite function, an always-callable
    token symbol, a counter as the random generator and a table of exchange
    rates.  It instantiates every interface the contracts are stated against, so
    that the hypotheses of the theorems can be exhibited on concrete runs. *)
From stdpp Require Import base list strings.
From Stdlib Require Import ZArith Lia.
From S2P Require Import Prelude Soroban EscrowTypes RateOracle Governance.

Record Ledger := mkLedger {
  bal : Address -> Address -> Z;     (** token, holder *)
  seed : Z;
  rate_of : Address -> Address -> option Z;
  wasm : Address -> list Z
}.

Definition move (b : Address -> Address -> Z) (t from to : Address) (amount : Z)
    (t' a : Address) : Z :=
  b t' a - delta ((t' =a t) && (a =a from)) amount
         + delta ((t' =a t) && (a =a to)) amount.

Definition ledger_transfer (w : Ledger) (t from to : Address) (amount : Z) : option Ledger :=
  if (amount <? 0) || (bal w t from <? amount) then None
  else Some (mkLedger (move (bal w) t from to amount) (seed w) (rate_of w) (wasm w)).

#[export] Instance Ledger_host : Host Ledger := {
  token_transfer := ledger_transfer;
  token_balance w := bal w;
  token_symbol _ _ := Some "TOK"%string;
  prng_gen w := (replicate 32 (seed w mod 256),
                 mkLedger (bal w) (seed w + 1) (rate_of w) (wasm w));
  sha256 b := b
}.

#[export] Instance Ledger_laws : TokenLaws Ledger.
Proof.
  split.
  - intros w t from to amount w'. cbn. unfold ledger_transfer.
    destruct (_ || _); [done|]. intros [= <-] t' a. reflexivity.
  - intros w t from to amount w'. cbn. unfold ledger_transfer.
    destruct ((amount <? 0) || _) eqn:Hb; [done|]. intros _. zbool. lia.
  - reflexivity.
Qed.

(** A swap at the table's rate, paid out of the oracle's balance. *)
Definition ledger_swap (w : Ledger) (oracle caller tin tout : Address) (ain min_out : Z)
    (recipient : Address) : option Ledger :=
  match rate_of w tin tout with
  | None => None
  | Some r =>
      let out := ain * r / 10000000 in
      if (ain <=? 0) || (out <? min_out) then None
      else
        match ledger_transfer w tin caller oracle ain with
        | Some w1 => ledger_transfer w1 tout oracle recipient out
        | None => None
        end
  end.

#[export] Instance Ledger_rates : RateOracle Ledger := {
  call_get_rate _ w _ ta tb := rate_of w ta tb;
  call_swap _ := ledger_swap
}.

#[export] Instance Ledger_rate_laws : RateOracleLaws Ledger.
Proof.
  split. intros env w oracle caller tin tout ain min_out recipient w'. cbn.
  unfold ledger_swap. destruct (rate_of w tin tout) as [r|]; [|done].
  destruct ((ain <=? 0) || _) eqn:Hb; [done|]. zbool.
  destruct (ledger_transfer w tin caller oracle ain) as [w1|] eqn:H1; [|done].
  intros H2. split; [lia|].
  pose proof (transfer_moves (W:=Ledger) _ _ _ _ _ _ H1) as M1.
  pose proof (transfer_moves (W:=Ledger) _ _ _ _ _ _ H2) as M2.
  pose proof (transfer_nonneg (W:=Ledger) _ _ _ _ _ _ H2) as N2.
  exists (ain * r / 10000000). split_and!; [lia | exact N2 |].
  intros t a. specialize (M1 t a). specialize (M2 t a). cbn in *. rewrite M2, M1. reflexivity.
Qed.

#[export] Instance Ledger_deployer : Deployer Ledger := {
  update_wasm w c h :=
    Some (mkLedger (bal w) (seed w) (rate_of w)
            (fun a => if a =a c then h else wasm w a))
}.

(** ** The accounts of the concrete runs *)

Definition alice : Address := Addr 1.
Definition bob : Address := Addr 2.
Definition the_admin : Address := Addr 3.
Definition the_oracle : Address := Addr 4.
Definition escrow : Address := Addr 5.
Definition the_treasury : Address := Addr 6.
Definition carol : Address := Addr 7.
Definition xlm : Address := Addr 10.
Definition usdc : Address := Addr 11.

(** Everyone but the escrow itself starts with [n] of each token. *)
Definition ledger0 (n : Z) : Ledger :=
  mkLedger (fun _ a => if a =a escrow then 0 else n) 0
    (fun ta tb => if (ta =a xlm) && (tb =a usdc) then Some 10000000 else None)
    (fun _ => []).

(** An invocation at a ledger sequence and time, authorized by [signers]. *)
Definition at_ (seq time : Z) (signers : list Address) : Env :=
  mkEnv escrow seq time (fun a => existsb (fun x => x =a a) signers).

(** The state after running a sequence of calls, each in its own environment;
    [None] as soon as one of them does not return [Ok]. *)
Fixpoint run_all {E S} (cs : list (Env * M E S unit)) (s : S) : option S :=
  match cs with
  | [] => Some s
  | (env, c) :: rest =>
      match c env s with
      | Ok _ s' => run_all rest s'
      | _ => None
      end
  end.
Definition ignore {E S A} (c : M E S A) : M E S unit := c ≫= fun _ => mret tt.
