(* ===== verification/Core.v ===== *)
(** The part of the escrow's state that carries its promises, and the frame of
    everything else.

    [Core] is that part: the match records, the per-state index, the instance
    settings and the token balances.  [view s c] says that the contract state [s]
    shows the core [c].  Most of what an entry point does (statistics, snapshots,
    player lists, events, ...) does not touch the core: such code is [quiet], and
    the lemmas of this file say so once for every helper. *)
From stdpp Require Import base list strings.
From Stdlib Require Import ZArith Lia.
From S2P Require Import Prelude Soroban EscrowTypes Config Tokens Players MatchIndex Snapshots.
From S2P Require Import RateOracle Rotation Matches Settlement Refunds Disputes.
From S2P Require Import Governance Queries.

(** The persistent entries the core is made of. *)
Definition core_key (k : Key) : bool :=
  match k with
  | DK (KMatch _) | MIK (MatchesByState _) => true
  | _ => false
  end.

Record Core := mkCore {
  c_match : Z -> option Match;
  c_index : MatchState -> list Z;
  c_inst : Store Key;
  c_bal : Address -> Address -> Z
}.

Definition c_count (c : Core) : Z := default 0 (c_inst c KMatchCount : option Z).

Section Core.
Context {W : Type} `{Host W}.
Implicit Types s : State W.

Definition core_of s : Core :=
  mkCore (fun i => pers s (KMatch i)) (fun st => index_of s (MatchesByState st))
    (inst s) (token_balance (world s)).

(** Everything but the oracle-rotation record, which [effective_oracle] cleans
    up in passing. *)
Definition setting (k : Key) : Prop := k <> DK KOracleRotation.

Record view s (c : Core) : Prop := {
  v_match i : (pers s (KMatch i) : option Match) = c_match c i;
  v_index st : index_of s (MatchesByState st) = c_index c st;
  v_inst k : setting k -> inst s k = c_inst c k;
  v_bal t a : token_balance (world s) t a = c_bal c t a
}.

Lemma view_core_of s : view s (core_of s).
Proof. by split. Qed.

(** ** Updates of the core *)

Definition c_store (mid : Z) (m : Match) (c : Core) : Core :=
  mkCore (fun i => if i =? mid then Some m else c_match c i) (c_index c) (c_inst c) (c_bal c).

Definition c_reindex (mid : Z) (from to : MatchState) (c : Core) : Core :=
  if bool_decide (from = to) then c else
  mkCore (c_match c)
    (fun st => if bool_decide (st = to) then index_add mid (c_index c st)
               else if bool_decide (st = from) then index_remove mid (c_index c st)
               else c_index c st)
    (c_inst c) (c_bal c).

Definition c_move (t from to : Address) (amount : Z) (c : Core) : Core :=
  mkCore (c_match c) (c_index c) (c_inst c)
    (fun t' a => c_bal c t' a - delta ((t' =a t) && (a =a from)) amount
                              + delta ((t' =a t) && (a =a to)) amount).

Definition c_enlist (mid : Z) (st : MatchState) (c : Core) : Core :=
  mkCore (c_match c)
    (fun st' => if bool_decide (st' = st) then index_add mid (c_index c st') else c_index c st')
    (c_inst c) (c_bal c).

Definition c_seti (k : Key) (v : kval k) (c : Core) : Core :=
  mkCore (c_match c) (c_index c) (upd k (Some v) (c_inst c)) (c_bal c).

(** ** Quiet code *)

Record quiet s s' : Prop := {
  q_pers k : core_key k = true -> pers s' k = pers s k;
  q_inst k : setting k -> inst s' k = inst s k;
  q_bal t a : token_balance (world s') t a = token_balance (world s) t a
}.

#[export] Instance quiet_preorder : PreOrder quiet.
Proof.
  split.
  - by split.
  - intros s1 s2 s3 [p1 i1 b1] [p2 i2 b2]. split; intros.
    + rewrite p2, p1; done.
    + rewrite i2, i1; done.
    + by rewrite b2, b1.
Qed.

Lemma view_quiet s s' c : quiet s s' -> view s c -> view s' c.
Proof.
  intros [p i b] [vm vi vn vb]. split; intros.
  - rewrite p; done.
  - unfold index_of. rewrite p by done. apply vi.
  - rewrite i; eauto.
  - by rewrite b.
Qed.

Lemma quiet_p_set k v : core_key k = false -> rel quiet (p_set k v).
Proof.
  intros Hk. apply rel_p_set. intros s. split; try done. intros k' Hk'. cbn.
  rewrite upd_ne; [done | congruence].
Qed.
Lemma quiet_p_remove k : core_key k = false -> rel quiet (p_remove k).
Proof.
  intros Hk. apply rel_p_remove. intros s. split; try done. intros k' Hk'. cbn.
  rewrite upd_ne; [done | congruence].
Qed.
Lemma quiet_t_set k v : rel quiet (t_set k v).
Proof. apply rel_t_set. by split. Qed.
Lemma quiet_t_remove k : rel quiet (t_remove k).
Proof. apply rel_t_remove. by split. Qed.
Lemma quiet_publish t1 t2 vs : rel (E:=Error) quiet (publish t1 t2 vs).
Proof. apply rel_publish. by split. Qed.
Lemma quiet_i_set_rotation v : rel quiet (i_set KOracleRotation v).
Proof.
  apply rel_i_set. intros s. split; try done. intros k Hk. cbn.
  rewrite upd_ne; [done | congruence].
Qed.
Lemma quiet_i_remove_rotation : rel quiet (i_remove KOracleRotation).
Proof.
  apply rel_i_remove. intros s. split; try done. intros k Hk. cbn.
  rewrite upd_ne; [done | congruence].
Qed.
End Core.

#[export] Hint Resolve quiet_t_set quiet_t_remove quiet_publish quiet_i_set_rotation
  quiet_i_remove_rotation : frame.
#[export] Hint Extern 1 (rel quiet (Soroban.p_set _ _)) =>
  (apply quiet_p_set; reflexivity) : frame.
#[export] Hint Extern 1 (rel quiet (Soroban.p_remove _)) =>
  (apply quiet_p_remove; reflexivity) : frame.

(** ** The helpers that leave the core alone *)

Section QuietHelpers.
Context {W : Type} `{TokenLaws W} `{RateOracle W}.
Abbreviation quiet_ c := (rel (E:=Error) (S:=State W) quiet c).

Lemma quiet_prng_bytes : quiet_ prng_bytes.
Proof. apply rel_prng_bytes. intros s. split; try done. intros. apply prng_moves_nothing. Qed.
#[local] Hint Resolve quiet_prng_bytes : frame.

Lemma quiet_get_config : quiet_ get_config.
Proof. unfold get_config. frame. Qed.
Lemma quiet_require_admin : quiet_ require_admin.
Proof. unfold require_admin, load_admin. frame. Qed.
Lemma quiet_require_caller_admin a : quiet_ (require_caller_admin a).
Proof. unfold require_caller_admin, load_admin. frame. Qed.
Lemma quiet_require_not_paused : quiet_ require_not_paused.
Proof. unfold require_not_paused. frame. Qed.
Lemma quiet_require_player_not_frozen p : quiet_ (require_player_not_frozen p).
Proof. unfold require_player_not_frozen. frame. Qed.
Lemma quiet_require_tier p x : quiet_ (require_player_tier_for_stake p x).
Proof. unfold require_player_tier_for_stake, completed_match_count. frame. Qed.
Lemma quiet_record_completed_match p : quiet_ (record_completed_match p).
Proof. unfold record_completed_match. frame. Qed.
Lemma quiet_add_active_match p i : quiet_ (add_active_match p i).
Proof. unfold add_active_match. frame. Qed.
Lemma quiet_remove_active p i : quiet_ (remove_active_match_indexed p i).
Proof. unfold remove_active_match_indexed. frame. Qed.
Lemma quiet_update_escrow_balance p d : quiet_ (update_player_escrow_balance p d).
Proof. unfold update_player_escrow_balance. frame. Qed.
Lemma quiet_update_player_stats p w x b : quiet_ (update_player_stats p w x b).
Proof. unfold update_player_stats. frame. Qed.
Lemma quiet_platform_created x pl : quiet_ (record_platform_match_created x pl).
Proof. unfold record_platform_match_created. frame. Qed.
Lemma quiet_platform_payout pl : quiet_ (record_platform_payout pl).
Proof. unfold record_platform_payout. frame. Qed.
Lemma quiet_fetch_token_symbol t : quiet_ (fetch_token_symbol t).
Proof. unfold fetch_token_symbol. frame. Qed.
Lemma quiet_escrow_balance_of m : quiet_ (escrow_balance_of m).
Proof. unfold escrow_balance_of. frame. Qed.
#[local] Hint Resolve quiet_fetch_token_symbol quiet_escrow_balance_of : frame.
Lemma quiet_record_snapshot m r : quiet_ (record_snapshot m r).
Proof. unfold record_snapshot. frame. Qed.
Lemma quiet_record_player_snapshot p : quiet_ (record_player_snapshot p).
Proof. unfold record_player_snapshot, player_escrow_balance. frame. Qed.
Lemma quiet_save_rotation_state r : quiet_ (save_rotation_state r).
Proof. unfold save_rotation_state. frame. Qed.
#[local] Hint Resolve quiet_save_rotation_state : frame.
Lemma quiet_effective_oracle : quiet_ effective_oracle.
Proof. unfold effective_oracle, get_rotation_state. frame. Qed.
Lemma quiet_push_player_match p i : quiet_ (push_player_match p i).
Proof. unfold push_player_match. frame. Qed.
Lemma quiet_publish_created m : quiet_ (publish_created m).
Proof. unfold publish_created. frame. Qed.
Lemma quiet_validate_game_id g pl : quiet_ (validate_game_id_format g pl).
Proof. unfold validate_game_id_format. frame. Qed.
Lemma quiet_is_token_blacklisted t : quiet_ (is_token_blacklisted t).
Proof. unfold is_token_blacklisted. frame. Qed.
Lemma quiet_opt_check f o : (forall a, quiet_ (f a)) -> quiet_ (opt_check f o).
Proof. unfold opt_check. frame. Qed.
Lemma quiet_tokens_admitted p c : quiet_ (require_tokens_admitted p c).
Proof.
  unfold require_tokens_admitted, is_token_allowed, is_token_blacklisted, check_is_stablecoin.
  frame; apply quiet_opt_check; frame.
Qed.
Lemma quiet_terms_valid p c : quiet_ (require_terms_valid p c).
Proof. unfold require_terms_valid. frame. Qed.
Lemma quiet_check_conversion_rate p : quiet_ (check_conversion_rate p).
Proof. unfold check_conversion_rate, oracle_get_rate. frame. Qed.
Lemma quiet_convert a r : quiet_ (convert a r).
Proof. unfold convert. frame. Qed.
Lemma quiet_require_fresh_rate m : quiet_ (require_fresh_rate m).
Proof. unfold require_fresh_rate. frame. Qed.
Lemma quiet_current_match_timeout : quiet_ current_match_timeout.
Proof. unfold current_match_timeout, get_config. frame. Qed.
Lemma quiet_cancellation_fee c x : quiet_ (cancellation_fee c x).
Proof. unfold cancellation_fee. frame. Qed.
#[local] Hint Resolve quiet_record_player_snapshot quiet_update_escrow_balance
  quiet_get_config quiet_convert : frame.
Lemma quiet_drop_escrow_balances m : quiet_ (drop_escrow_balances m).
Proof. unfold drop_escrow_balances. frame. Qed.
Lemma quiet_snapshot_depositors m : quiet_ (snapshot_depositors m).
Proof. unfold snapshot_depositors. frame. Qed.
Lemma quiet_p2_refund m : quiet_ (p2_refund m).
Proof. unfold p2_refund. frame. Qed.
Lemma quiet_stalled_pot m : quiet_ (stalled_pot m).
Proof. unfold stalled_pot. frame. Qed.
Lemma quiet_referral_fee m x : quiet_ (compute_referral_fee m x).
Proof. unfold compute_referral_fee. frame. Qed.
Lemma quiet_protocol_fee x : quiet_ (compute_protocol_fee x).
Proof. unfold compute_protocol_fee. frame. Qed.
Lemma quiet_bond_bps x : quiet_ (dispute_bond_basis_points_for x).
Proof. unfold dispute_bond_basis_points_for. frame. Qed.
Lemma quiet_mark_deadlock i x y : quiet_ (mark_oracle_deadlock i x y).
Proof. unfold mark_oracle_deadlock. frame. Qed.
#[local] Hint Resolve quiet_mark_deadlock : frame.
Lemma quiet_check_deadlock i x y : quiet_ (check_oracle_deadlock i x y).
Proof. unfold check_oracle_deadlock. frame. Qed.
Lemma quiet_get_dispute_period : quiet_ get_dispute_period.
Proof. unfold get_dispute_period. frame. Qed.
Lemma quiet_load_match i : quiet_ (load_match i).
Proof. unfold load_match. frame. Qed.
Lemma quiet_required : quiet_ get_required_confirmations.
Proof. unfold get_required_confirmations. frame. Qed.
End QuietHelpers.

#[export] Hint Resolve quiet_prng_bytes quiet_get_config quiet_require_admin
  quiet_require_caller_admin quiet_require_not_paused quiet_require_player_not_frozen
  quiet_require_tier quiet_record_completed_match quiet_add_active_match
  quiet_remove_active quiet_update_escrow_balance quiet_update_player_stats
  quiet_platform_created quiet_platform_payout quiet_fetch_token_symbol
  quiet_escrow_balance_of quiet_record_snapshot quiet_record_player_snapshot
  quiet_save_rotation_state quiet_effective_oracle quiet_push_player_match
  quiet_publish_created quiet_validate_game_id quiet_is_token_blacklisted
  quiet_tokens_admitted quiet_check_conversion_rate quiet_convert
  quiet_require_fresh_rate quiet_current_match_timeout
  quiet_drop_escrow_balances quiet_snapshot_depositors
  quiet_bond_bps quiet_mark_deadlock
  quiet_check_deadlock quiet_load_match quiet_required : frame.

(** The bookkeeping helpers report no error. *)
Section NoerrHelpers.
Context {W : Type} `{Host W} `{RateOracle W}.
Abbreviation noerr_ c := (noerr (E:=Error) (S:=State W) c).

Lemma noerr_record_completed_match p : noerr_ (record_completed_match p).
Proof. unfold record_completed_match. noerr. Qed.
Lemma noerr_remove_active p i : noerr_ (remove_active_match_indexed p i).
Proof. unfold remove_active_match_indexed. noerr. Qed.
Lemma noerr_update_escrow_balance p d : noerr_ (update_player_escrow_balance p d).
Proof. unfold update_player_escrow_balance. noerr. Qed.
Lemma noerr_update_player_stats p w x b : noerr_ (update_player_stats p w x b).
Proof. unfold update_player_stats. noerr. Qed.
Lemma noerr_platform_created x pl : noerr_ (record_platform_match_created x pl).
Proof. unfold record_platform_match_created. noerr. Qed.
Lemma noerr_platform_payout pl : noerr_ (record_platform_payout pl).
Proof. unfold record_platform_payout. noerr. Qed.
Lemma noerr_record_snapshot m r : noerr_ (record_snapshot m r).
Proof. unfold record_snapshot, fetch_token_symbol, escrow_balance_of. noerr. Qed.
Lemma noerr_record_player_snapshot p : noerr_ (record_player_snapshot p).
Proof. unfold record_player_snapshot, player_escrow_balance. noerr. Qed.
Lemma noerr_get_config : noerr_ get_config.
Proof. unfold get_config. noerr. Qed.
End NoerrHelpers.

#[export] Hint Resolve noerr_record_completed_match noerr_remove_active
  noerr_update_escrow_balance noerr_update_player_stats noerr_platform_created
  noerr_platform_payout noerr_record_snapshot noerr_record_player_snapshot
  noerr_get_config : noerr.

(** ** Symbolic execution over the core *)

(** The configuration a core shows. *)
Definition config_of (me : Address) (c : Core) : ProtocolConfig :=
  match c_inst c KProtocolConfig : option ProtocolConfig with
  | Some cfg => cfg
  | None => default_config (default me (c_inst c KAdmin : option Address))
  end.

Section WpView.
Context {W : Type} `{TokenLaws W} `{RateOracle W}.
Implicit Types (s : State W) (c : Core).

Lemma wp_quiet {A} (cmd : EM W A) env s c Q QE :
  view s c -> rel quiet cmd ->
  (forall e s', view s' c -> QE e s') -> (forall a s', view s' c -> Q a s') ->
  wp cmd env s Q QE.
Proof.
  intros Hv Hq HE HQ. eapply wp_rel; [exact Hq | | ]; intros ? s' Hs';
    [apply HQ | apply HE]; by eapply view_quiet.
Qed.

Lemma wp_quiet_noerr {A} (cmd : EM W A) env s c Q QE :
  view s c -> rel quiet cmd -> noerr cmd -> (forall a s', view s' c -> Q a s') ->
  wp cmd env s Q QE.
Proof.
  intros Hv Hq Hn HQ. apply (wp_noerr _ _ _ _ _ (fun _ _ => True)); [done|].
  by eapply wp_quiet.
Qed.

Lemma wp_load_match mid env s c (Q : Match -> _ -> Prop) QE :
  view s c -> QE MatchNotFound s ->
  (forall m, c_match c mid = Some m -> Q m s) -> wp (load_match mid) env s Q QE.
Proof.
  intros Hv HE HQ. unfold load_match. apply wp_bind. unfold wp at 1. cbn.
  apply wp_ok_or; [done|]. intros m Hm. apply HQ. by rewrite <- (v_match _ _ Hv).
Qed.

Lemma wp_p_has_match mid env s c (Q : bool -> State W -> Prop) (QE : Error -> _ -> Prop) :
  view s c -> Q (opt_is_some (c_match c mid)) s -> wp (p_has (KMatch mid)) env s Q QE.
Proof.
  intros Hv HQ. unfold wp. cbn. rewrite <- (v_match _ _ Hv) in HQ.
  by destruct (pers s (KMatch mid)).
Qed.

Lemma wp_store_match mid m env s c (Q : unit -> _ -> Prop) QE :
  view s c -> (forall s', view s' (c_store mid m c) -> Q tt s') ->
  wp (store_match mid m) env s Q QE.
Proof.
  intros [vm vi vn vb] HQ. unfold wp, store_match. cbn. apply HQ. split; cbn; try done.
  intros i. destruct (Z.eqb_spec i mid) as [->|Hne]; [by rewrite upd_eq|].
  rewrite upd_ne by congruence. apply vm.
Qed.

Lemma wp_transfer t from to x env s c (Q : unit -> _ -> Prop) (QE : Error -> _ -> Prop) :
  view s c -> (forall s', 0 <= x -> view s' (c_move t from to x c) -> Q tt s') ->
  wp (transfer t from to x) env s Q QE.
Proof.
  intros [vm vi vn vb] HQ. unfold wp, transfer, call_out.
  destruct (token_transfer (world s) t from to x) as [w|] eqn:Ht; [|done].
  apply HQ; [by eapply transfer_nonneg|]. split; cbn; try done.
  intros t' a. rewrite (transfer_moves _ _ _ _ _ _ Ht), vb. done.
Qed.

Lemma wp_i_set k v env s c (Q : unit -> _ -> Prop) QE :
  view s c -> (forall s', view s' (c_seti k v c) -> Q tt s') ->
  wp (i_set k v) env s Q QE.
Proof.
  intros [vm vi vn vb] HQ. unfold wp. cbn. apply HQ. split; cbn; try done.
  intros k' Hk'. destruct (decide (k = k')) as [->|Hne]; [by rewrite !upd_eq|].
  rewrite !upd_ne by done. by apply vn.
Qed.

Lemma wp_i_get_or k d env s c (Q : kval k -> _ -> Prop) QE :
  view s c -> setting k -> Q (default d (c_inst c k)) s -> wp (i_get_or k d) env s Q QE.
Proof. intros Hv Hk HQ. unfold wp. cbn. by rewrite (v_inst _ _ Hv). Qed.

Lemma wp_get_config env s c (Q : ProtocolConfig -> _ -> Prop) QE :
  view s c -> Q (config_of (self env) c) s -> wp get_config env s Q QE.
Proof.
  intros Hv HQ. unfold wp, get_config, config_of in *. cbn. unfold mbind, M_bind. cbn.
  rewrite (v_inst _ _ Hv) by done.
  destruct (c_inst c KProtocolConfig); cbn; [done|].
  rewrite (v_inst _ _ Hv) by done. done.
Qed.

Lemma wp_enlist st mid env s c (Q : unit -> _ -> Prop) QE :
  view s c -> (forall s', view s' (c_enlist mid st c) -> Q tt s') ->
  wp (add_match_to_index (MatchesByState st) mid) env s Q QE.
Proof.
  intros [vm vi vn vb] HQ.
  destruct (add_match_to_index_run (MatchesByState st) mid env s)
    as (s' & Hrun & Hi & _ & Hw & _ & Hidx & Hp).
  unfold wp. rewrite Hrun. apply HQ. split; cbn.
  - intros i. rewrite Hp by done. apply vm.
  - intros st'. case_bool_decide as Hst; [subst; by rewrite Hidx, vi|].
    unfold index_of. rewrite Hp by congruence. apply vi.
  - rewrite Hi. done.
  - rewrite Hw. done.
Qed.

Lemma wp_bracket_index b mid env s c (Q : unit -> _ -> Prop) QE :
  view s c -> (forall s', view s' c -> Q tt s') ->
  wp (add_match_to_index (BracketMatches b) mid) env s Q QE.
Proof.
  intros [vm vi vn vb] HQ.
  destruct (add_match_to_index_run (BracketMatches b) mid env s)
    as (s' & Hrun & Hi & _ & Hw & _ & Hidx & Hp).
  unfold wp. rewrite Hrun. apply HQ. split; intros.
  - rewrite Hp by done. apply vm.
  - unfold index_of. rewrite Hp by done. apply vi.
  - rewrite Hi. eauto.
  - rewrite Hw. done.
Qed.

Lemma set_state_id (m : Match) : m <| state := state m |> = m.
Proof. by destruct m. Qed.

Lemma wp_set_match_state m st env s c (Q : Match -> _ -> Prop) QE :
  view s c ->
  (forall s', view s' (c_reindex (id m) (state m) st c) -> Q (m <| state := st |>) s') ->
  wp (set_match_state m st) env s Q QE.
Proof.
  intros Hv HQ. unfold set_match_state, c_reindex in *.
  case_bool_decide as Heq.
  { subst st. apply wp_ret.
    rewrite <- (set_state_id m) at 1. by apply HQ. }
  destruct Hv as [vm vi vn vb].
  destruct (remove_match_from_index_run (MatchesByState (state m)) (id m) env s)
    as (s1 & Hr1 & Hi1 & _ & Hw1 & _ & Hx1 & Hp1).
  destruct (add_match_to_index_run (MatchesByState st) (id m) env s1)
    as (s2 & Hr2 & Hi2 & _ & Hw2 & _ & Hx2 & Hp2).
  apply wp_bind. unfold wp at 1. rewrite Hr1. apply wp_bind. unfold wp at 1. rewrite Hr2.
  apply wp_ret, HQ. split; cbn.
  - intros i. rewrite Hp2, Hp1 by done. apply vm.
  - intros st'. case_bool_decide as Hst.
    + subst st'. rewrite Hx2. f_equal. unfold index_of. rewrite Hp1 by congruence. apply vi.
    + unfold index_of. rewrite Hp2 by congruence.
      case_bool_decide as Hst'; [subst st'; by rewrite <- vi|].
      rewrite Hp1 by congruence. apply vi.
  - intros k Hk. rewrite Hi2, Hi1. by apply vn.
  - intros t a. rewrite Hw2, Hw1. apply vb.
Qed.
End WpView.

Section WpSwap.
Context {W : Type} `{RateOracleLaws W}.

Lemma wp_oracle_swap tin tout ain min_out rcpt env (s : State W) c
    (Q : unit -> State W -> Prop) QE :
  view s c ->
  (forall e s', view s' c -> QE e s') ->
  (forall s' oracle out, min_out <= out ->
     view s' (c_move tout oracle rcpt out (c_move tin (self env) oracle ain c)) -> Q tt s') ->
  wp (oracle_swap tin tout ain min_out rcpt) env s Q QE.
Proof.
  intros Hv HE HQ. unfold oracle_swap. apply wp_bind. unfold wp at 1. cbn.
  apply wp_bind, wp_ok_or; [by intros; apply HE|]. intros oracle _.
  apply wp_bind, wp_ask. unfold wp, call_out.
  destruct (call_swap _ _ _ _ _ _ _ _ _) as [w|] eqn:Hs; [|done].
  destruct (swap_moves _ _ _ _ _ _ _ _ _ _ Hs) as (_ & out & Hmin & _ & Hb).
  apply (HQ _ oracle out Hmin). destruct Hv as [vm vi vn vb]. split; cbn; try done.
  intros t a. rewrite Hb, vb. done.
Qed.
End WpSwap.
