(* ===== verification/Lifecycle.v ===== *)
(** The abstract specification of the escrow: how a match record may evolve, and
    how the core of the contract state may change in one step.

    [evolve env c m m' x] lists the ways a match [m] may become [m'], with [x] the
    amount of the match's token that leaves the escrow; [cstep] lifts it to the
    core.  The file [Simulation] proves that every entry point of the contract is
    such a step; the invariants of the later files are proved here once, by cases
    on the specification. *)
From stdpp Require Import base list strings.
From Stdlib Require Import ZArith Lia.
From S2P Require Import Prelude Soroban EscrowTypes Config Tokens Players MatchIndex Snapshots.
From S2P Require Import RateOracle Rotation Matches Settlement Refunds.
From S2P Require Import Core.

(** ** Evolution of one match *)

Definition both (m : Match) : bool := player1_deposited m && player2_deposited m.

(** The record after [player]'s deposit; the second deposit activates it. *)
Definition funded (env : Env) (player : Address) (m : Match) : Match :=
  (if player =a player1 m then m <| player1_deposited := true |>
   else m <| player2_deposited := true |>) <| last_heartbeat := timestamp env |>.
Definition deposited (env : Env) (player : Address) (m : Match) : Match :=
  let m' := funded env player m in
  if both m'
  then m' <| state := Active |> <| activated_at := Some (timestamp env) |> else m'.

Definition settled (env : Env) (w : Winner) (st : MatchState) (lg : option Z) (m : Match) : Match :=
  m <| state := st |> <| winner := w |> <| vested_at := Some (timestamp env) |>
    <| completed_ledger := lg |>.

Definition cancelled (env : Env) (m : Match) : Match :=
  m <| state := Cancelled |> <| completed_ledger := Some (sequence env) |>.

Definition rollback_voted (who : Address) (m : Match) : Match :=
  if who =a player1 m then m <| rollback_vote_player1 := true |>
  else m <| rollback_vote_player2 := true |>.

Definition escrowed (m : Match) : Z := depositor_count m * stake_amount m.

Definition dispute_period_of (c : Core) : Z := default 0 (c_inst c KDisputePeriod : option Z).

(** When the stall window of an active or paused match opened. *)
Definition stalled_for (env : Env) (m : Match) : Z :=
  u64_sat_sub (timestamp env) (default (last_heartbeat m) (activated_at m)).

Inductive evolve (env : Env) (c : Core) (m : Match) : Match -> Z -> Prop :=
| E_deposit player :
    state m = Pending -> both m = false -> authorized env player = true ->
    (player = player1 m /\ player1_deposited m = false) \/
    (player <> player1 m /\ player = player2 m /\ player2_deposited m = false) ->
    evolve env c m (deposited env player m) (- stake_amount m)
| E_settle w lg :
    (state m = Active \/ state m = Paused) -> both m = true -> w <> WNone ->
    evolve env c m (settled env w Completed lg m) 0
| E_settle_pending w :
    (state m = Active \/ state m = Paused) -> both m = true -> w <> WNone ->
    dispute_period_of c <> 0 ->
    evolve env c m (settled env w PendingResult (completed_ledger m) m) 0
| E_payout x :
    state m = PendingResult ->
    evolve env c m (m <| state := Completed |> <| completed_ledger := Some (sequence env) |>) x
| E_claim1 v :
    state m = Completed -> vested_at m = Some v ->
    v + vesting_duration_seconds (timeouts (config_of (self env) c)) <= timestamp env ->
    authorized env (player1 m) = true -> player1_claimed m = false ->
    winner m = WPlayer1 \/ winner m = WDraw ->
    evolve env c m (m <| player1_claimed := true |>)
      (if bool_decide (winner m = WDraw) then stake_amount m else 2 * stake_amount m)
| E_claim2 v :
    state m = Completed -> vested_at m = Some v ->
    v + vesting_duration_seconds (timeouts (config_of (self env) c)) <= timestamp env ->
    authorized env (player2 m) = true -> player2 m <> player1 m -> player2_claimed m = false ->
    winner m = WPlayer2 \/ winner m = WDraw ->
    evolve env c m (m <| player2_claimed := true |>)
      (if bool_decide (winner m = WDraw) then stake_amount m else 2 * stake_amount m)
| E_cancel :
    state m = Pending -> evolve env c m (cancelled env m) (escrowed m)
| E_rollback_vote who :
    state m = Active -> authorized env who = true -> who = player1 m \/ who = player2 m ->
    evolve env c m (rollback_voted who m) 0
| E_rollback who :
    state m = Active -> authorized env who = true -> who = player1 m \/ who = player2 m ->
    rollback_vote_player1 (rollback_voted who m) = true ->
    rollback_vote_player2 (rollback_voted who m) = true ->
    evolve env c m (cancelled env (rollback_voted who m)) (escrowed m)
| E_stalled w :
    state m = Active \/ state m = Paused -> both m = true -> w <> WNone ->
    ADMIN_STALL_WINDOW_SECONDS < stalled_for env m ->
    evolve env c m (m <| state := Completed |> <| winner := w |>
                      <| completed_ledger := Some (sequence env) |>) (2 * stake_amount m)
| E_pause who :
    state m = Active -> authorized env who = true -> who = player1 m \/ who = player2 m ->
    total_pause_duration m < MAX_PAUSE_DURATION_LEDGERS ->
    evolve env c m (m <| state := Paused |> <| paused_ledger := Some (sequence env) |>) 0
| E_resume who d :
    state m = Paused -> authorized env who = true -> who = player1 m \/ who = player2 m ->
    evolve env c m (m <| total_pause_duration := d |> <| state := Active |>
                      <| paused_ledger := None |>) 0
| E_heartbeat who :
    state m = Active -> authorized env who = true -> who = player1 m \/ who = player2 m ->
    evolve env c m (m <| last_heartbeat := timestamp env |>) 0.

(** The terms of a match: the record with everything that may evolve erased. *)
Definition terms (m : Match) : Match :=
  m <| state := Pending |> <| player1_deposited := false |> <| player2_deposited := false |>
    <| completed_ledger := None |> <| winner := WNone |> <| vested_at := None |>
    <| player1_claimed := false |> <| player2_claimed := false |> <| paused_ledger := None |>
    <| total_pause_duration := 0 |> <| last_heartbeat := 0 |> <| activated_at := None |>
    <| rollback_vote_player1 := false |> <| rollback_vote_player2 := false |>.

(** The state changes the contract makes. *)
Definition edge (from to : MatchState) : bool :=
  match from, to with
  | Pending, Active | Pending, Cancelled
  | Active, Paused | Active, Completed | Active, PendingResult | Active, Cancelled
  | Paused, Active | Paused, Completed | Paused, PendingResult
  | PendingResult, Completed => true
  | _, _ => false
  end.

Lemma evolve_terms env c m m' x : evolve env c m m' x -> terms m' = terms m.
Proof.
  destruct 1; try reflexivity; unfold deposited, funded, cancelled, rollback_voted;
    repeat case_match; reflexivity.
Qed.

Lemma deposited_state env p m :
  state m = Pending -> state (deposited env p m) = if both (deposited env p m) then Active else Pending.
Proof.
  intros Hs. unfold deposited, funded, both.
  destruct (p =a player1 m); cbn;
    destruct (player1_deposited m) eqn:H1, (player2_deposited m) eqn:H2; cbn;
    rewrite ?H1, ?H2; done.
Qed.

Lemma evolve_edge env c m m' x :
  evolve env c m m' x -> state m' = state m \/ edge (state m) (state m') = true.
Proof.
  destruct 1; cbn.
  - rewrite (deposited_state env player m) by done. rewrite H. case_match; auto.
  - destruct H as [-> | ->]; auto.
  - destruct H as [-> | ->]; auto.
  - rewrite H; auto.
  - auto.
  - auto.
  - rewrite H. auto.
  - left. unfold rollback_voted. by case_match.
  - rewrite H. auto.
  - destruct H as [-> | ->]; auto.
  - rewrite H. auto.
  - rewrite H. auto.
  - auto.
Qed.

(** ** Steps of the core *)

(** The fee settings that keep a payout within the pot: the configured cap on the
    protocol fee is not negative. *)
Definition fees_sane (cfg : ProtocolConfig) : Prop :=
  0 <= protocol_fee_bps (fees cfg) /\ 0 <= cancellation_fee_basis_points (fees cfg) /\
  forall cap, max_protocol_fee (fees cfg) = Some cap -> 0 <= cap.

(** The terms [create_match_internal] checked. *)
Definition admissible (env : Env) (c : Core) (p : MatchParams) : Prop :=
  authorized env (mp_player1 p) = true /\
  mp_player1 p <> mp_player2 p /\ mp_player2 p <> self env /\
  minimum_stake (stakes (config_of (self env) c)) <= mp_stake_amount p /\
  opt_is_some (mp_token_b p) = opt_is_some (mp_conversion_rate p).

Definition same_settings (c c' : Core) : Prop :=
  forall k, setting k -> c_inst c' k = c_inst c k.

(** Steps of matches that exist: nothing but the escrow's balance moved, one match
    evolved, or (only for two-token matches) funds moved without a record. *)
Inductive mstep (env : Env) (c : Core) : Core -> Prop :=
| S_idle c' :
    (forall i, c_match c' i = c_match c i) -> same_settings c c' ->
    (forall t, c_bal c t (self env) <= c_bal c' t (self env)) ->
    mstep env c c'
| S_match mid m m' x c' :
    c_match c mid = Some m -> evolve env c m m' x ->
    (forall i, c_match c' i = if i =? mid then Some m' else c_match c i) ->
    same_settings c c' ->
    (token_b m = None -> fees_sane (config_of (self env) c) ->
     0 <= default DEFAULT_REFERRAL_SHARE_BPS (c_inst c KReferralShareBasisPoints : option Z) ->
     0 <= stake_amount m -> authorized env (self env) = false ->
     forall t, c_bal c t (self env) - delta (t =a token m) x <= c_bal c' t (self env)) ->
    mstep env c c'
| S_spill mid m c' :
    c_match c mid = Some m -> token_b m <> None ->
    (forall i, c_match c' i = c_match c i) -> same_settings c c' ->
    mstep env c c'.

(** Steps of the contract: those, a change of settings, or the creation of the
    match with parameters [new]. *)
Inductive cstep (env : Env) (new : option MatchParams) (c : Core) : Core -> Prop :=
| S_move c' : mstep env c c' -> cstep env new c c'
| S_admin c' :
    (forall i, c_match c' i = c_match c i) -> c_count c' = c_count c ->
    (forall t, c_bal c t (self env) <= c_bal c' t (self env)) ->
    cstep env new c c'
| S_create p lg c' :
    new = Some p -> admissible env c p -> c_match c (c_count c) = None -> c_count c + 1 <= u64_max ->
    (forall i, c_match c' i =
       if i =? c_count c
       then Some (new_match p (c_count c) (sequence env) (timestamp env) lg)
       else c_match c i) ->
    c_count c' = c_count c + 1 ->
    (forall k, setting k -> k <> KMatchCount -> c_inst c' k = c_inst c k) ->
    (forall t, c_bal c' t (self env) = c_bal c t (self env)) ->
    cstep env new c c'.

(** ** Consistency of the index *)

Record idx_ok (c : Core) : Prop := {
  ix_id i m : c_match c i = Some m -> id m = i;
  ix_sorted st : sorted (c_index c st);
  ix_elem st i : i ∈ c_index c st <-> exists m, c_match c i = Some m /\ state m = st
}.

Lemma idx_ok_move t a b x c : idx_ok c -> idx_ok (c_move t a b x c).
Proof. by intros [? ? ?]. Qed.

Lemma idx_ok_seti k v c : idx_ok c -> idx_ok (c_seti k v c).
Proof. by intros [? ? ?]. Qed.

(** Storing a record after re-indexing it under its new state. *)
Lemma idx_ok_store mid m m' c :
  c_match c mid = Some m -> id m' = id m -> idx_ok c ->
  idx_ok (c_store mid m' (c_reindex mid (state m) (state m') c)).
Proof.
  intros Hm Hid [Hi Hs He]. unfold c_reindex.
  assert (Hmid : id m' = mid) by (rewrite Hid; by apply Hi).
  split; cbn.
  - intros i m0. destruct (Z.eqb_spec i mid) as [->|Hne].
    + intros [= <-]. done.
    + case_bool_decide; cbn; apply Hi.
  - intros st. case_bool_decide; cbn; [apply Hs|].
    repeat case_bool_decide; [apply index_add_sorted|apply index_remove_sorted|]; apply Hs.
  - intros st i. case_bool_decide as Heq; cbn.
    + rewrite He. destruct (Z.eqb_spec i mid) as [->|Hne]; [|done].
      rewrite Hm. naive_solver congruence.
    + case_bool_decide as H1; [subst st; rewrite index_add_elem, He|
        case_bool_decide as H2; [subst st; rewrite index_remove_elem, He|rewrite He]];
        destruct (Z.eqb_spec i mid) as [->|Hne]; rewrite ?Hm; naive_solver congruence.
Qed.

Lemma c_store_match mid m c : c_match (c_store mid m c) mid = Some m.
Proof. cbn. by rewrite Z.eqb_refl. Qed.

Lemma idx_ok_rewrite mid m m' c :
  c_match c mid = Some m -> id m' = id m -> state m' = state m -> idx_ok c ->
  idx_ok (c_store mid m' c).
Proof.
  intros Hm Hid Hst Hok. pose proof (idx_ok_store mid m m' c Hm Hid Hok) as Hr.
  unfold c_reindex in Hr. by rewrite Hst, bool_decide_true in Hr.
Qed.

(** Listing a fresh record. *)
Lemma idx_ok_enlist mid m c :
  c_match c mid = None -> id m = mid -> idx_ok c ->
  idx_ok (c_enlist mid (state m) (c_store mid m c)).
Proof.
  intros Hm Hid [Hi Hs He]. split; cbn.
  - intros i m0. destruct (Z.eqb_spec i mid) as [->|]; [by intros [= <-]|apply Hi].
  - intros st. case_bool_decide; [apply index_add_sorted|]; apply Hs.
  - intros st i. case_bool_decide as Heq; [subst st; rewrite index_add_elem|]; rewrite He;
      destruct (Z.eqb_spec i mid) as [->|Hne]; rewrite ?Hm; naive_solver congruence.
Qed.

Section WpPeriod.
Context {W : Type} `{TokenLaws W}.

Lemma wp_get_dispute_period env (s : State W) c (Q : Z -> State W -> Prop) QE :
  view s c -> Q (dispute_period_of c) s -> wp get_dispute_period env s Q QE.
Proof.
  intros Hv HQ. unfold get_dispute_period.
  eapply (wp_i_get_or KDisputePeriod 0); [exact Hv|done|exact HQ].
Qed.
End WpPeriod.
