(* ===== verification/Simulation.v ===== *)
(** Every state-changing entry point of the escrow is a step of the abstract
    specification: the symbolic executions that show it. *)
From stdpp Require Import base list strings relations.
From Stdlib Require Import ZArith Lia.
From S2P Require Import Prelude Soroban EscrowTypes Config Tokens Players MatchIndex Snapshots.
From S2P Require Import RateOracle Rotation Matches Settlement Refunds.
From S2P Require Import Disputes Governance Core Lifecycle.

(** [wpx] executes a goal [wp c env s Q QE] symbolically: guards become
    hypotheses, reads of the core give its contents, writes update the view, and
    quiet code is skipped. *)
Ltac wp_step :=
  match goal with
  | |- wp (mbind _ _) _ _ _ _ => apply wp_bind
  | |- wp (mret _) _ _ _ _ => apply wp_ret
  | |- wp (err _) _ _ _ _ => apply wp_err
  | |- wp (fail_if _ _) _ _ _ _ => apply wp_fail_if; intros ?
  | |- wp (ok_or _ _) _ _ _ _ => apply wp_ok_or; [intros _ | intros ? ?]
  | |- wp (unwrap _) _ _ _ _ => apply wp_unwrap; intros ? ?
  | |- wp (require_auth _) _ _ _ _ => apply wp_require_auth; intros ?
  | |- wp ask _ _ _ _ => apply wp_ask
  | |- wp ledger_seq _ _ _ _ => apply wp_ledger_seq
  | |- wp ledger_time _ _ _ _ => apply wp_ledger_time
  | |- wp current_contract _ _ _ _ => apply wp_current_contract
  | |- wp (catch _) _ _ _ _ => apply wp_catch
  | |- wp (load_match _) _ _ _ _ => eapply wp_load_match; [eassumption | | intros ? ?]
  | |- wp (store_match _ _) _ _ _ _ => eapply wp_store_match; [eassumption | intros ? ?]
  | |- wp (transfer _ _ _ _) _ _ _ _ => eapply wp_transfer; [eassumption | intros ? ? ?]
  | |- wp (set_match_state _ _) _ _ _ _ => eapply wp_set_match_state; [eassumption | intros ? ?]
  | |- wp get_dispute_period _ _ _ _ => eapply wp_get_dispute_period; [eassumption |]
  | |- wp (Soroban.i_get_or ?k ?d) _ _ _ _ =>
      eapply (wp_i_get_or k d); [eassumption | unfold setting; discriminate |]
  | |- wp (Soroban.p_has (DK (KMatch _))) _ _ _ _ => eapply wp_p_has_match; [eassumption |]
  | |- wp (add_match_to_index (MatchesByState _) _) _ _ _ _ =>
      eapply wp_enlist; [eassumption | intros ? ?]
  | |- wp (add_match_to_index (BracketMatches _) _) _ _ _ _ =>
      eapply wp_bracket_index; [eassumption | intros ? ?]
  | |- wp (Soroban.i_set ?k ?v) _ _ _ _ => eapply (wp_i_set k v); [eassumption | intros ? ?]
  | |- wp get_config _ _ _ _ => eapply wp_get_config; [eassumption |]
  | |- wp (if ?b then _ else _) _ _ _ _ => destruct b eqn:?
  | |- wp (match ?x with _ => _ end) _ _ _ _ => destruct x eqn:?
  | |- wp _ _ _ _ _ =>
      eapply wp_quiet_noerr; [eassumption | solve [eauto 2 with frame typeclass_instances]
                             | solve [eauto 2 with noerr typeclass_instances] | intros ? ? ?]
  | |- wp _ _ _ _ _ =>
      eapply wp_quiet; [eassumption | solve [eauto 2 with frame typeclass_instances]
                       | intros ? ? ? | intros ? ? ?]
  end.
Ltac wpx := repeat (wp_step; cbv beta iota zeta; try exact I); zbool.

(** The goal of every simulation proof. *)
Definition lands {W} `{Host W} (env : Env) (c : Core) (s' : State W) : Prop :=
  exists c', view s' c' /\ mstep env c c' /\ (idx_ok c -> idx_ok c').

Definition grows {W} `{Host W} (env : Env) (new : option MatchParams) (c : Core)
    (s' : State W) : Prop :=
  exists c', view s' c' /\ cstep env new c c' /\ (idx_ok c -> idx_ok c').

(** Close such a goal with the view at hand. *)
Ltac land :=
  match goal with
  | Hv : view ?s ?c' |- grows _ _ _ ?s => exists c'; split; [exact Hv|]; split
  end.

Definition simulates {W A} `{Host W} (cmd : EM W A) : Prop :=
  forall env s c, view s c -> wp cmd env s (fun _ s' => lands env c s') (fun _ _ => True).

(** The same for calls that create matches or change settings. *)
Definition sets {W A} `{Host W} (new : option MatchParams) (cmd : EM W A) : Prop :=
  forall env s c, view s c -> wp cmd env s (fun _ s' => grows env new c s') (fun _ _ => True).

Lemma lands_grows {W} `{Host W} env new c (s' : State W) :
  lands env c s' -> grows env new c s'.
Proof. intros (c' & ? & ? & ?). exists c'. split_and!; auto using S_move. Qed.

Lemma simulates_sets {W A} `{Host W} new (cmd : EM W A) : simulates cmd -> sets new cmd.
Proof.
  intros Hs env s c Hv. eapply wp_conseq; [by apply Hs| |done]. intros. by apply lands_grows.
Qed.

Lemma caller_is_player (who a b : Address) :
  negb (who =a a) && negb (who =a b) = false -> who = a \/ who = b.
Proof. intros Hb. apply andb_false_iff in Hb as [?|?]; zbool; auto. Qed.

Lemma delta_0 b : delta b 0 = 0.
Proof. by destruct b. Qed.

(** Balances after a sequence of transfers. *)
Ltac solve_bal :=
  intros; cbn; unfold delta, escrowed, depositor_count;
  repeat case_bool_decide; simplify_eq; cbn; try lia.

(** A core that differs from [c] in balances only. *)
Definition rebalanced (c cb : Core) : Prop :=
  c_match cb = c_match c /\ c_index cb = c_index c /\ c_inst cb = c_inst c.

Lemma evolve_id env c m m' x : evolve env c m m' x -> id m' = id m.
Proof. intros Hev. exact (f_equal id (evolve_terms _ _ _ _ _ Hev)). Qed.

Section Landing.
Context {W : Type} `{Host W}.
Implicit Types s : State W.

(** The record [mid] evolved, was re-indexed and stored. *)
Lemma lands_match env c s' mid m m' x st0 st1 cb :
  view s' (c_store mid m' (c_reindex (id m) st0 st1 cb)) ->
  st0 = state m -> st1 = state m' ->
  c_match c mid = Some m -> evolve env c m m' x -> rebalanced c cb ->
  (token_b m = None -> fees_sane (config_of (self env) c) ->
   0 <= default DEFAULT_REFERRAL_SHARE_BPS (c_inst c KReferralShareBasisPoints : option Z) ->
   0 <= stake_amount m -> authorized env (self env) = false ->
   forall t, c_bal c t (self env) - delta (t =a token m) x <= c_bal cb t (self env)) ->
  lands env c s'.
Proof.
  intros Hv -> -> Hm Hev (Hcm & Hci & Hcn) Hb. eexists. split; [exact Hv|]. split.
  - eapply S_match; [exact Hm | exact Hev | | |].
    + intros i. unfold c_reindex. case_bool_decide; cbn; by rewrite Hcm.
    + intros k _. unfold c_reindex. case_bool_decide; cbn; by rewrite Hcn.
    + unfold c_reindex. case_bool_decide; exact Hb.
  - intros Hok. pose proof (ix_id _ Hok _ _ Hm) as Hid. rewrite Hid.
    apply idx_ok_store; [by rewrite Hcm | by eapply evolve_id |].
    destruct Hok as [Hi Hs He]. split; rewrite ?Hcm, ?Hci; done.
Qed.

(** The same through an intermediate record [m1] stored on the way. *)
Lemma lands_via env c c1 s' mid m m1 m' x st0 st1 cb :
  view s' (c_store mid m' (c_reindex (id m1) st0 st1 cb)) ->
  st0 = state m1 -> st1 = state m' ->
  c_match c mid = Some m -> evolve env c m m' x -> id m1 = id m ->
  (forall i, c_match c1 i = if i =? mid then Some m1 else c_match c i) ->
  same_settings c c1 -> (idx_ok c -> idx_ok c1) -> rebalanced c1 cb ->
  (token_b m = None -> fees_sane (config_of (self env) c) ->
   0 <= default DEFAULT_REFERRAL_SHARE_BPS (c_inst c KReferralShareBasisPoints : option Z) ->
   0 <= stake_amount m -> authorized env (self env) = false ->
   forall t, c_bal c t (self env) - delta (t =a token m) x <= c_bal cb t (self env)) ->
  lands env c s'.
Proof.
  intros Hv -> -> Hm Hev Hid Hc1 Hset Hix (Hcm & Hci & Hcn) Hb.
  eexists. split; [exact Hv|]. split.
  - eapply S_match; [exact Hm | exact Hev | | |].
    + intros i. unfold c_reindex. case_bool_decide; cbn; rewrite Hcm, Hc1;
        by destruct (i =? mid).
    + intros k Hk. unfold c_reindex. case_bool_decide; cbn; rewrite Hcn; by apply Hset.
    + unfold c_reindex. case_bool_decide; exact Hb.
  - intros Hok. pose proof (ix_id _ Hok _ _ Hm) as Hi. specialize (Hix Hok).
    rewrite Hid, Hi. apply idx_ok_store.
    + rewrite Hcm, Hc1. by rewrite Z.eqb_refl.
    + rewrite Hid. by eapply evolve_id.
    + destruct Hix as [? ? ?]. split; rewrite ?Hcm, ?Hci; done.
Qed.

(** The record evolved within its state. *)
Lemma lands_rewrite env c s' mid m m' x cb :
  view s' (c_store mid m' cb) -> state m' = state m ->
  c_match c mid = Some m -> evolve env c m m' x -> rebalanced c cb ->
  (token_b m = None -> fees_sane (config_of (self env) c) ->
   0 <= default DEFAULT_REFERRAL_SHARE_BPS (c_inst c KReferralShareBasisPoints : option Z) ->
   0 <= stake_amount m -> authorized env (self env) = false ->
   forall t, c_bal c t (self env) - delta (t =a token m) x <= c_bal cb t (self env)) ->
  lands env c s'.
Proof.
  intros Hv Hst. intros.
  eapply (lands_match env c s' mid m m' x (state m) (state m') cb); try done.
  rewrite Hst. unfold c_reindex. rewrite bool_decide_true by done. exact Hv.
Qed.

Lemma lands_idle env c s' : view s' c -> lands env c s'.
Proof. intros Hv. exists c. split; [done|]. split; [|done]. by apply S_idle. Qed.
End Landing.

Lemma set_pause_total_id (m : Match) :
  m <| total_pause_duration := total_pause_duration m |> = m.
Proof. by destruct m. Qed.

Section Sim.
Context {W : Type} `{TokenLaws W} `{!RateOracle W, !RateOracleLaws W}.

(** ** Pausing and heartbeats *)

Lemma sim_pause_match mid who : simulates (W:=W) (pause_match mid who).
Proof.
  intros env s c Hv. unfold pause_match. wpx.
  eapply lands_match; [eassumption|done|done|eassumption| |done|].
  - eapply (E_pause _ _ _ who); eauto using caller_is_player.
  - intros. rewrite delta_0. lia.
Qed.

Lemma sim_resume_match mid who : simulates (W:=W) (resume_match mid who).
Proof.
  intros env s c Hv. unfold resume_match. wpx.
  assert (He : forall d, evolve env c m (m <| total_pause_duration := d |> <| state := Active |>
                                           <| paused_ledger := None |>) 0)
    by (intros d; eapply (E_resume _ _ _ who); eauto using caller_is_player).
  destruct (paused_ledger m).
  - eapply (lands_match _ _ _ _ m); [eassumption|done|done|eassumption|apply He|done|].
    intros. rewrite delta_0. lia.
  - specialize (He (total_pause_duration m)). rewrite set_pause_total_id in He.
    eapply (lands_match _ _ _ _ m); [eassumption|done|done|eassumption|apply He|done|].
    intros. rewrite delta_0. lia.
Qed.

Lemma sim_heartbeat_match mid who : simulates (W:=W) (heartbeat_match mid who).
Proof.
  intros env s c Hv. unfold heartbeat_match. wpx.
  eapply (lands_rewrite _ _ _ _ m); [eassumption|done|eassumption| |done|].
  - eapply (E_heartbeat _ _ _ who); eauto using caller_is_player.
  - intros. rewrite delta_0. lia.
Qed.

(** ** Refunds *)

(** [cb] is [c] after at most [x] of token [t] left the escrow. *)
Definition spends (me t : Address) (x : Z) (c cb : Core) : Prop :=
  rebalanced c cb /\ forall t', c_bal c t' me - delta (t' =a t) x <= c_bal cb t' me.

Lemma spends_0 me t c : spends me t 0 c c.
Proof. split; [done|]. intros. rewrite delta_0. lia. Qed.

Lemma spends_move me t to x c : 0 <= x -> spends me t x c (c_move t me to x c).
Proof. intros. split; [done|]. solve_bal. Qed.

Lemma spends_trans me t x1 x2 c1 c2 c3 :
  spends me t x1 c1 c2 -> spends me t x2 c2 c3 -> spends me t (x1 + x2) c1 c3.
Proof.
  intros [(?&?&?) Hs1] [(?&?&?) Hs2]. split; [split_and!; congruence|].
  intros t'. specialize (Hs1 t'). specialize (Hs2 t'). unfold delta in *.
  case_bool_decide; lia.
Qed.

Lemma wp_refund_less_fee cfg t p r f env s c (Q : unit -> State W -> Prop) QE :
  view s c ->
  (forall s' cb, view s' cb -> rebalanced c cb ->
     (0 <= f -> spends (self env) t (r + f) c cb) -> Q tt s') ->
  wp (refund_less_fee cfg t p r f) env s Q QE.
Proof.
  intros Hv HQ. unfold refund_less_fee. wpx.
  - eapply HQ; [eassumption|done|]. intros.
    eapply spends_trans; apply spends_move; done.
  - eapply HQ; [eassumption|done|]. intros.
    replace (r + f) with r by lia. by apply spends_move.
Qed.

Lemma wp_p2_refund m env s c (Q : Z -> State W -> Prop) QE :
  view s c -> (forall e s', view s' c -> QE e s') ->
  (forall a s', view s' c -> (token_b m = None -> a = stake_amount m) -> Q a s') ->
  wp (p2_refund m) env s Q QE.
Proof.
  intros Hv HE HQ. unfold p2_refund.
  assert (token_b m = None -> is_multi_token m = false)
    by (unfold is_multi_token; by intros ->).
  destruct (is_multi_token m) eqn:Hmt.
  - wp_step; [by apply HE | apply HQ; [done|]]. intros Ht.
    match goal with H : _ -> true = false |- _ => by specialize (H Ht) end.
  - apply wp_ret. by apply HQ.
Qed.

Lemma wp_cancellation_fee cfg x env s c (Q : Z -> State W -> Prop) QE :
  view s c -> (forall e s', view s' c -> QE e s') ->
  (forall a s', view s' c -> (0 <= x -> 0 <= a) -> Q a s') ->
  wp (cancellation_fee cfg x) env s Q QE.
Proof.
  intros Hv HE HQ. unfold cancellation_fee. wpx.
  - by apply HE.
  - apply HQ; [done|]. intros.
    match goal with Hc : i128_checked_mul _ _ = Some _ |- _ =>
      apply checked_Some in Hc as [<- _] end.
    apply Z.quot_pos; nia.
  - by apply HQ.
Qed.

Lemma p2_token_single m : token_b m = None -> p2_token m = token m.
Proof. unfold p2_token. by intros ->. Qed.

Lemma wp_refund_player1 m env s c (Q : unit -> State W -> Prop) (QE : Error -> _ -> Prop) :
  view s c ->
  (forall s' cb, view s' cb -> rebalanced c cb ->
     spends (self env) (token m) (if player1_deposited m then stake_amount m else 0) c cb ->
     Q tt s') ->
  wp (refund_player1 m) env s Q QE.
Proof.
  intros Hv HQ. unfold refund_player1. wpx.
  - eapply HQ; [eassumption|done|]. by apply spends_move.
  - eapply HQ; [eassumption|done|]. apply spends_0.
Qed.

Lemma wp_refund_player2 m env s c (Q : unit -> State W -> Prop) (QE : Error -> _ -> Prop) :
  view s c -> (forall e s', view s' c -> player2_deposited m = true -> token_b m <> None -> QE e s') ->
  (forall s' cb, view s' cb -> rebalanced c cb ->
     (token_b m = None ->
      spends (self env) (token m) (if player2_deposited m then stake_amount m else 0) c cb) ->
     Q tt s') ->
  wp (refund_player2 m) env s Q QE.
Proof.
  intros Hv HE HQ. unfold refund_player2. wp_step. wp_step. wp_step.
  - apply wp_bind. unfold p2_refund. destruct (is_multi_token m) eqn:Hmt.
    + assert (token_b m <> None) by (unfold is_multi_token in Hmt; by destruct (token_b m)).
      wpx; [by eapply HE|]. eapply HQ; [eassumption|done|]. done.
    + wpx. eapply HQ; [eassumption|done|]. intros Ht.
      rewrite (p2_token_single m Ht). by apply spends_move.
  - wpx. eapply HQ; [eassumption|done|]. intros. apply spends_0.
Qed.

(** What a full refund of both sides costs. *)
Lemma spends_escrowed me m c c1 c2 :
  spends me (token m) (if player1_deposited m then stake_amount m else 0) c c1 ->
  spends me (token m) (if player2_deposited m then stake_amount m else 0) c1 c2 ->
  spends me (token m) (escrowed m) c c2.
Proof.
  intros Hs1 Hs2.
  assert (escrowed m = (if player1_deposited m then stake_amount m else 0) +
                       (if player2_deposited m then stake_amount m else 0)) as ->
    by (unfold escrowed, depositor_count;
        destruct (player1_deposited m), (player2_deposited m); lia).
  by eapply spends_trans.
Qed.

(** A pending match with its refunds paid becomes a cancelled one. *)
Lemma lands_cancelled env c s' mid m cb st :
  view (W:=W) s' (c_store mid (cancelled env m) (c_reindex (id m) st Cancelled cb)) ->
  st = state m -> state m = Pending -> c_match c mid = Some m -> rebalanced c cb ->
  (token_b m = None -> 0 <= stake_amount m ->
   spends (self env) (token m) (escrowed m) c cb) ->
  lands env c s'.
Proof.
  intros Hv -> Hst Hm Hrb Hsp.
  eapply (lands_match _ _ _ _ m); [exact Hv|done|done|exact Hm| by apply E_cancel |done|].
  intros. by apply Hsp.
Qed.

Lemma rebalanced_trans c1 c2 c3 : rebalanced c1 c2 -> rebalanced c2 c3 -> rebalanced c1 c3.
Proof. unfold rebalanced. intuition congruence. Qed.

Lemma lands_spill env c s' mid m cb :
  view (W:=W) s' cb -> c_match c mid = Some m -> token_b m <> None -> rebalanced c cb ->
  lands env c s'.
Proof.
  intros Hv Hm Ht (Hcm & Hci & Hcn). exists cb. split; [done|]. split.
  - eapply S_spill; [exact Hm|done|by rewrite Hcm|]. intros k _. by rewrite Hcn.
  - intros [? ? ?]. split; rewrite ?Hcm, ?Hci; done.
Qed.

Lemma wp_expire_match mid env s c :
  view (W:=W) s c ->
  wp (expire_match mid) env s (fun _ => lands env c) (fun _ => lands env c).
Proof.
  intros Hv. unfold expire_match, store_cancelled. wpx; try by apply lands_idle.
  eapply wp_refund_player1; [eassumption|]. intros s1 c1 Hv1 Hr1 Hs1. wpx.
  eapply wp_refund_player2; [eassumption|intros; by eapply lands_spill|].
  intros s2 c2 Hv2 Hr2 Hs2. wpx.
  all: eapply (lands_cancelled _ _ _ _ m);
    [eassumption|done..|by eapply rebalanced_trans|intros; eapply spends_escrowed; eauto].
Qed.

Lemma sim_expire_match mid : simulates (W:=W) (expire_match mid).
Proof. intros env s c Hv. eapply wp_conseq; [by apply wp_expire_match|done|done]. Qed.

Lemma sim_admin_recover_match mid : simulates (W:=W) (admin_recover_match mid).
Proof.
  intros env s c Hv. unfold admin_recover_match, store_cancelled. wpx.
  eapply wp_refund_player1; [eassumption|]. intros s1 c1 Hv1 Hr1 Hs1. wpx.
  eapply wp_refund_player2; [eassumption|done|]. intros s2 c2 Hv2 Hr2 Hs2. wpx.
  eapply (lands_cancelled _ _ _ _ m);
    [eassumption|done..|by eapply rebalanced_trans|intros; eapply spends_escrowed; eauto].
Qed.

(** One leg of a cancellation: the refund and the fee add up to the amount. *)
Lemma wp_cancel_leg (b : bool) cfg t p x fee r env s c (Q : unit -> State W -> Prop) QE :
  view s c -> i128_checked_sub x fee = Some r ->
  (forall s' cb, view s' cb -> rebalanced c cb ->
     (0 <= fee -> spends (self env) t (if b then x else 0) c cb) -> Q tt s') ->
  wp (if b then refund_less_fee cfg t p r fee else mret tt) env s Q QE.
Proof.
  intros Hv Hr HQ. apply checked_Some in Hr as [<- _]. destruct b.
  - eapply wp_refund_less_fee; [exact Hv|]. intros s' cb Hv' Hrb Hsp.
    eapply HQ; [done|done|]. intros Hf. replace x with (x - fee + fee) by lia. by apply Hsp.
  - apply wp_ret. eapply HQ; [done|done|]. intros. apply spends_0.
Qed.

Lemma sim_cancel_match mid who : simulates (W:=W) (cancel_match mid who).
Proof.
  intros env s c Hv. unfold cancel_match, store_cancelled. wpx.
  eapply wp_cancellation_fee; [eassumption|done|]. intros fee s1 Hv1 Hfee.
  do 2 wp_step; [done|]. wp_step.
  eapply wp_cancel_leg; [eassumption|eassumption|]. intros s2 c1 Hv2 Hr1 Hs1.
  apply wp_bind.
  eapply (wp_conseq _ _ _ (fun _ s' => exists cb, view s' cb /\ rebalanced c1 cb /\
    (token_b m = None -> 0 <= stake_amount m ->
     spends (self env) (token m) (if player2_deposited m then stake_amount m else 0) c1 cb))
    _ (fun _ _ => True)); [| |done].
  - destruct (player2_deposited m) eqn:Hd.
    + apply wp_bind. eapply wp_p2_refund; [eassumption|done|]. intros x s3 Hv3 Hx.
      apply wp_bind. eapply wp_cancellation_fee; [eassumption|done|].
      intros fee2 s4 Hv4 Hfee2. do 2 wp_step; [done|].
      eapply (wp_cancel_leg true); [eassumption|eassumption|]. intros s5 c2 Hv5 Hr2 Hs2.
      exists c2. split; [done|]. split; [done|]. intros Ht Hst. specialize (Hx Ht). subst x.
      rewrite <- (p2_token_single m Ht). apply Hs2. lia.
    + apply wp_ret. exists c1. split; [done|]. split; [done|]. intros. apply spends_0.
  - intros _ s3 (c2 & Hv3 & Hr2 & Hs2). wpx.
    eapply (lands_cancelled _ _ _ _ m); [eassumption|done..|by eapply rebalanced_trans|].
    intros. eapply spends_escrowed; eauto.
Qed.

Lemma rollback_voted_facts who m :
  id (rollback_voted who m) = id m /\ state (rollback_voted who m) = state m /\
  token (rollback_voted who m) = token m /\ token_b (rollback_voted who m) = token_b m /\
  escrowed (rollback_voted who m) = escrowed m.
Proof. unfold rollback_voted. by destruct (who =a player1 m). Qed.

Lemma sim_rollback mid who reason :
  simulates (W:=W) (dispute_and_rollback_match mid who reason).
Proof.
  intros env s c Hv. unfold dispute_and_rollback_match, store_cancelled.
  wpx; fold (rollback_voted who m) in *;
    destruct (rollback_voted_facts who m) as (Hid & Hst & Htk & Htb & Hes).
  - eapply (lands_rewrite _ _ _ _ m); [eassumption|done|done| |done|].
    + eapply (E_rollback_vote _ _ _ who); eauto using caller_is_player.
    + intros. rewrite delta_0. lia.
  - eapply wp_refund_player1; [eassumption|]. intros s1 c1 Hv1 Hr1 Hs1. wpx.
    eapply wp_refund_player2; [eassumption|done|]. intros s2 c2 Hv2 Hr2 Hs2. wpx.
    eapply (lands_via _ _ (c_store mid (rollback_voted who m) c) _ _ m (rollback_voted who m)
              (cancelled env (rollback_voted who m)));
      [eassumption|done|done|eassumption| |done|reflexivity|done| |by eapply rebalanced_trans|].
    + eapply (E_rollback _ _ _ who); eauto using caller_is_player.
    + intros. by eapply idx_ok_rewrite.
    + intros Ht _ _ _ _. rewrite <- Htk, <- Hes. rewrite <- Htb in Ht.
      exact (proj2 (spends_escrowed _ _ _ _ _ Hs1 (Hs2 Ht))).
Qed.

(** ** Stalled matches *)

Lemma wp_stalled_pot m env s c (Q : Z -> State W -> Prop) QE :
  view s c -> (forall e s', view s' c -> QE e s') ->
  (forall a s', view s' c -> (token_b m = None -> a = 2 * stake_amount m) -> Q a s') ->
  wp (stalled_pot m) env s Q QE.
Proof.
  intros Hv HE HQ. unfold stalled_pot. destruct (is_multi_token m) eqn:Hmt.
  - assert (token_b m <> None) by (unfold is_multi_token in Hmt; by destruct (token_b m)).
    wpx; try (by apply HE). by apply HQ.
  - wpx; [by apply HE|]. apply HQ; [done|]. intros _.
    match goal with Hc : i128_checked_mul _ _ = Some _ |- _ =>
      apply checked_Some in Hc as [<- _] end. lia.
Qed.

Lemma wp_pay_stalled m w env s c (Q : unit -> State W -> Prop) (QE : Error -> _ -> Prop) :
  view s c -> (forall e s', QE e s') ->
  (forall s' cb, view s' cb -> rebalanced c cb ->
     (token_b m = None -> spends (self env) (token m) (2 * stake_amount m) c cb) -> Q tt s') ->
  wp (pay_stalled m w) env s Q QE.
Proof.
  intros Hv HE HQ. unfold pay_stalled. destruct w; wpx; try by apply HE.
  - eapply wp_stalled_pot; [eassumption|by intros|]. intros x s1 Hv1 Hx. wpx.
    eapply HQ; [eassumption|done|]. intros Ht. rewrite <- (Hx Ht). by apply spends_move.
  - eapply wp_stalled_pot; [eassumption|by intros|]. intros x s1 Hv1 Hx. wpx.
    eapply HQ; [eassumption|done|]. intros Ht. rewrite <- (Hx Ht), (p2_token_single m Ht).
    by apply spends_move.
  - eapply wp_p2_refund; [eassumption|by intros|]. intros x s1 Hv1 Hx. wpx.
    eapply HQ; [eassumption|done|]. intros Ht. rewrite (Hx Ht), (p2_token_single m Ht) in *.
    replace (2 * stake_amount m) with (stake_amount m + stake_amount m) by lia.
    eapply spends_trans; by apply spends_move.
Qed.

Lemma sim_stalled mid who w : simulates (W:=W) (admin_resolve_stalled_match mid who w).
Proof.
  intros env s c Hv. unfold admin_resolve_stalled_match. wpx.
  eapply wp_pay_stalled; [eassumption|done|]. intros s1 c1 Hv1 Hr1 Hs1. wpx.
  all: eapply (lands_match _ _ _ _ m); [eassumption|done|done|eassumption| |done|].
  all: try (intros; by apply Hs1).
  all: eapply E_stalled; [ |unfold both; apply andb_true_iff; done|done|done].
  all: match goal with Hst : is_stalled _ _ = true |- _ =>
         unfold is_stalled in Hst; apply orb_true_iff in Hst as [Hst|Hst]; zbool; auto end.
Qed.

(** ** Deposits *)

(** The weaker promise of a failed deposit inside a batch: the stake may have
    been taken and the index changed, but no match record did. *)
Definition drifts (env : Env) (c : Core) (s' : State W) : Prop :=
  exists c', view s' c' /\ mstep env c c'.

Lemma lands_drifts env c s' : lands (W:=W) env c s' -> drifts env c s'.
Proof. intros (c' & ? & ? & _). by exists c'. Qed.

Lemma drifts_same env c s' : view (W:=W) s' c -> drifts env c s'.
Proof. intros. by apply lands_drifts, lands_idle. Qed.

Lemma drifts_lost env c s' mid t p x st0 st1 :
  view (W:=W) s' (c_reindex mid st0 st1 (c_move t p (self env) x c)) -> 0 <= x ->
  drifts env c s'.
Proof.
  intros Hv Hx. eexists. split; [exact Hv|]. apply S_idle.
  - intros i. unfold c_reindex. by case_bool_decide.
  - intros k _. unfold c_reindex. by case_bool_decide.
  - intros t'. unfold c_reindex. case_bool_decide; solve_bal.
Qed.

Lemma drifts_taken env c s' t p x :
  view (W:=W) s' (c_move t p (self env) x c) -> 0 <= x -> drifts env c s'.
Proof.
  intros Hv Hx. apply (drifts_lost env c s' 0 t p x Pending Pending); [|done].
  unfold c_reindex. by rewrite bool_decide_true.
Qed.

Lemma deposit_guards (player a b : Address) (d1 d2 : bool) :
  negb (player =a a) && negb (player =a b) = false ->
  (player =a a) && d1 = false -> (player =a b) && d2 = false ->
  (player = a /\ d1 = false) \/ (player <> a /\ player = b /\ d2 = false).
Proof. repeat case_bool_decide; cbn; auto; discriminate. Qed.

Lemma funded_facts env player m :
  id (funded env player m) = id m /\ state (funded env player m) = state m.
Proof. unfold funded. by destruct (player =a player1 m). Qed.

(** A stored deposit; the match is re-indexed when it completed the funding. *)
Lemma lands_deposit env c s' mid m player core :
  view (W:=W) s' core -> c_match c mid = Some m -> state m = Pending ->
  both m = false -> authorized env player = true -> 0 <= stake_amount m ->
  (player = player1 m /\ player1_deposited m = false) \/
  (player <> player1 m /\ player = player2 m /\ player2_deposited m = false) ->
  core = (if both (funded env player m) then
            c_store mid ((funded env player m) <| state := Active |>
                           <| activated_at := Some (timestamp env) |>)
              (c_reindex (id (funded env player m)) (state (funded env player m)) Active
                 (c_move (token m) player (self env) (stake_amount m) c))
          else c_store mid (funded env player m)
                 (c_move (token m) player (self env) (stake_amount m) c)) ->
  lands env c s'.
Proof.
  intros Hv Hm Hp Hb Ha Hx Hg ->. destruct (funded_facts env player m) as [Hid Hst].
  pose proof (E_deposit env c m player Hp Hb Ha Hg) as Hev. unfold deposited in Hev.
  assert (Hbal : authorized env (self env) = false -> forall t,
    c_bal c t (self env) - delta (t =a token m) (- stake_amount m) <=
    c_bal (c_move (token m) player (self env) (stake_amount m) c) t (self env)).
  { intros Hme t. assert (self env <> player) by congruence. solve_bal. }
  destruct (both (funded env player m)).
  - rewrite Hid, Hst in Hv.
    eapply (lands_match _ _ _ _ m); [exact Hv|done|done|exact Hm|exact Hev|done|auto].
  - eapply (lands_rewrite _ _ _ _ m); [exact Hv|done|exact Hm|exact Hev|done|auto].
Qed.

Lemma wp_deposit mid player env s c :
  view (W:=W) s c ->
  wp (deposit mid player) env s (fun _ => lands env c) (fun _ => drifts env c).
Proof.
  intros Hv. unfold deposit, reject_deposit_if, activate_match, add_active_or_reject.
  wpx; try (by apply drifts_same); try (by eapply drifts_lost); try (by eapply drifts_taken);
    fold (funded env player m) in *; try apply lands_drifts.
  all: eapply lands_deposit; [eassumption|eassumption|assumption|assumption|eassumption|assumption| |].
  all: try (by apply deposit_guards).
  all: unfold both;
    repeat match goal with Hb : _ = _ |- context [_ && _] => rewrite Hb end; done.
Qed.

(** ** Results *)

(** The record between the two writes of [settle_result], and its core. *)
Definition settling (env : Env) (w : Winner) (m : Match) : Match :=
  m <| state := Completed |> <| winner := w |> <| vested_at := Some (timestamp env) |>.
Definition settling_core (env : Env) (w : Winner) (mid : Z) (m : Match) (c : Core) : Core :=
  c_store mid (settling env w m) (c_reindex (id m) (state m) Completed c).

Section Settling.
Context (env : Env) (w : Winner) (mid : Z) (m : Match) (c : Core).
Context (Hm : c_match c mid = Some m) (Hb : both m = true) (Hw : w <> WNone).
Context (Hst : state m = Active \/ state m = Paused).

Lemma settling_match i :
  c_match (settling_core env w mid m c) i =
  if i =? mid then Some (settling env w m) else c_match c i.
Proof. unfold settling_core, c_reindex. by case_bool_decide. Qed.

Lemma settling_settings : same_settings c (settling_core env w mid m c).
Proof. intros k _. unfold settling_core, c_reindex. by case_bool_decide. Qed.

Lemma settling_bal t a : c_bal (settling_core env w mid m c) t a = c_bal c t a.
Proof. unfold settling_core, c_reindex. by case_bool_decide. Qed.

Lemma settling_period : dispute_period_of (settling_core env w mid m c) = dispute_period_of c.
Proof. unfold settling_core, c_reindex. by case_bool_decide. Qed.

Lemma settling_idx : idx_ok c -> idx_ok (settling_core env w mid m c).
Proof.
  intros Hok. unfold settling_core. rewrite (ix_id _ Hok _ _ Hm).
  by apply (idx_ok_store mid m (settling env w m)).
Qed.

Lemma settling_evolve lg : evolve env c m (settled env w Completed lg m) 0.
Proof. by apply E_settle. Qed.

(** Stopping after the first write. *)
Lemma lands_settling (s' : State W) : view s' (settling_core env w mid m c) -> lands env c s'.
Proof.
  intros Hv. eapply (lands_match env c s' mid m (settling env w m) 0 (state m) Completed c);
    [exact Hv|done|done|exact Hm| |done|].
  - exact (settling_evolve (completed_ledger m)).
  - intros. rewrite delta_0. lia.
Qed.

Lemma lands_settled_via (s' : State W) st x m' :
  view s' (c_store mid m' (c_reindex (id m) Completed st (settling_core env w mid m c))) ->
  st = state m' -> evolve env c m m' x -> x = 0 -> lands env c s'.
Proof.
  intros Hv -> Hev ->.
  eapply (lands_via env c (settling_core env w mid m c) s' mid m (settling env w m));
    [exact Hv|done|done|exact Hm|exact Hev|done|apply settling_match
    |apply settling_settings|apply settling_idx|done|].
  intros. rewrite delta_0, settling_bal. lia.
Qed.

Lemma lands_settled_now (s' : State W) lg :
  view s' (c_store mid ((settling env w m) <| completed_ledger := lg |>)
             (settling_core env w mid m c)) -> lands env c s'.
Proof.
  intros Hv. eapply (lands_settled_via s' Completed 0 (settled env w Completed lg m));
    [ |reflexivity|apply (settling_evolve lg)|done].
  unfold c_reindex. rewrite bool_decide_true by done. exact Hv.
Qed.

Lemma lands_settled_later (s' : State W) :
  dispute_period_of c <> 0 ->
  view s' (c_store mid ((settling env w m) <| state := PendingResult |>)
             (c_reindex (id m) Completed PendingResult (settling_core env w mid m c))) ->
  lands env c s'.
Proof.
  intros Hd Hv. eapply (lands_settled_via s' PendingResult 0
                 (settled env w PendingResult (completed_ledger m) m));
    [exact Hv|reflexivity| |done]. by apply E_settle_pending.
Qed.
End Settling.

Lemma wp_settle_result mid w conf env s c :
  view (W:=W) s c ->
  wp (settle_result mid w conf) env s (fun _ => lands env c) (fun _ => lands env c).
Proof.
  intros Hv. unfold settle_result, settle_now, settle_later.
  wpx; try by apply lands_idle.
  all: assert (Hst : state m = Active \/ state m = Paused)
         by (match goal with Hg : _ && _ = false |- _ => apply andb_false_iff in Hg as [?|?] end;
             zbool; auto).
  all: assert (Hb : both m = true) by (by apply andb_true_iff).
  all: match goal with
       | |- lands _ _ ?s => first
           [ by eapply (lands_settling env _ mid m c)
           | by eapply (lands_settled_now env _ mid m c)
           | eapply (lands_settled_later env _ mid m c); [done..| |eassumption];
             rewrite <- (settling_period env w mid m c); assumption ]
       end.
Qed.

(** ** Batches *)

Lemma sim_settle mid w conf : simulates (W:=W) (settle_result mid w conf).
Proof. intros env s c Hv. eapply wp_conseq; [by apply wp_settle_result|done|done]. Qed.

Lemma sim_submit_result mid w o conf : simulates (W:=W) (submit_result mid w o conf).
Proof. intros env s c Hv. unfold submit_result. wpx. by apply sim_settle. Qed.

Lemma sim_submit_draw mid o conf : simulates (W:=W) (submit_draw mid o conf).
Proof. intros env s c Hv. unfold submit_draw. wpx. by apply sim_settle. Qed.

Lemma sim_submit_with_record mid w g o :
  simulates (W:=W) (submit_result_with_oracle_record mid w g o).
Proof.
  intros env s c Hv. unfold submit_result_with_oracle_record. apply wp_bind.
  eapply wp_conseq; [by apply sim_submit_result| |done].
  intros _ s1 (c1 & Hv1 & Hst & Hix). wpx. by exists c1.
Qed.

Lemma sim_resolve_deadlock mid w : simulates (W:=W) (resolve_oracle_deadlock mid w).
Proof.
  intros env s c Hv. unfold resolve_oracle_deadlock. wpx.
  eapply wp_conseq; [by apply sim_settle| |done].
  intros _ s1 (c1 & Hv1 & Hst & Hix). wpx. by exists c1.
Qed.

Lemma sim_submit_consensus mid w o : simulates (W:=W) (submit_result_consensus mid w o).
Proof.
  intros env s c Hv. unfold submit_result_consensus. wpx.
  all: try by apply lands_idle.
  all: by apply sim_settle.
Qed.

(** ** Payouts *)

Lemma double m : stake_amount m + stake_amount m = 2 * stake_amount m.
Proof. lia. Qed.

Lemma wp_execute_payout m w env s c (Q : unit -> State W -> Prop) (QE : Error -> _ -> Prop) :
  view s c -> (forall e s', QE e s') ->
  (forall s' cb, view s' cb -> rebalanced c cb ->
     (token_b m = None -> spends (self env) (token m) (2 * stake_amount m) c cb) -> Q tt s') ->
  wp (execute_payout m w) env s Q QE.
Proof.
  intros Hv HE HQ. unfold execute_payout.
  assert (Hmt : token_b m = None -> is_multi_token m = false)
    by (unfold is_multi_token; by intros ->).
  wpx; try by apply HE.
  all: try (eapply wp_oracle_swap; [eassumption|by intros|]; intros ? ? ? ? Hv';
            eapply HQ; [exact Hv'|done|]; intros Ht; by specialize (Hmt Ht)).
  all: eapply HQ; [eassumption|done|]; intros Ht.
  all: try match goal with Hc : i128_checked_mul _ 2 = Some ?a |- _ =>
             apply checked_Some in Hc as [Hc _];
             replace (2 * stake_amount m) with a by lia; by apply spends_move end.
  rewrite <- double. eapply spends_trans; by apply spends_move.
Qed.

Lemma sim_finalize_match mid : simulates (W:=W) (finalize_match mid).
Proof.
  intros env s c Hv. unfold finalize_match. wpx.
  eapply wp_execute_payout; [eassumption|done|]. intros s1 c1 Hv1 Hr1 Hs1. wpx.
  eapply (lands_match _ _ _ _ m); [eassumption|done|done|eassumption|by apply E_payout|done|].
  intros. by apply Hs1.
Qed.

Lemma sim_resolve_dispute d : simulates (W:=W) (resolve_dispute_by_vote d).
Proof.
  intros env s c Hv. unfold resolve_dispute_by_vote. wpx.
  all: eapply wp_execute_payout; [eassumption|done|]; intros s1 c1 Hv1 Hr1 Hs1; wpx.
  all: match goal with Hm : c_match _ _ = Some ?m, Hx : 0 <= ?b |- _ =>
         eapply (lands_match _ _ _ _ m _ (2 * stake_amount m + b));
         [eassumption|done|done|eassumption|by apply E_payout|exact Hr1|];
         intros; eapply spends_trans; [by apply Hs1 | by apply spends_move]
       end.
Qed.

(** ** Claims *)

Definition referral_share (c : Core) : Z :=
  default DEFAULT_REFERRAL_SHARE_BPS (c_inst c KReferralShareBasisPoints : option Z).

Lemma wp_referral_fee m pot env s c (Q : Z -> State W -> Prop) QE :
  view s c -> (forall e s', QE e s') ->
  (forall a s', view s' c ->
     (fees_sane (config_of (self env) c) -> 0 <= referral_share c -> 0 <= pot -> 0 <= a) ->
     Q a s') ->
  wp (compute_referral_fee m pot) env s Q QE.
Proof.
  intros Hv HE HQ. unfold compute_referral_fee. wpx; try by apply HE.
  - apply HQ; [done|]. lia.
  - apply HQ; [done|].
    intros (Hf1 & Hf2 & Hf3) Hsh Hpot.
    repeat match goal with Hc : i128_checked_mul _ _ = Some _ |- _ =>
             apply checked_Some in Hc as [<- _] end.
    apply Z.quot_pos; [|lia]. apply Z.mul_nonneg_nonneg; [|exact Hsh]. apply Z.quot_pos; nia.
  - apply HQ; [done|]. lia.
Qed.

Lemma wp_protocol_fee pot env s c (Q : Z -> State W -> Prop) QE :
  view s c -> (forall e s', QE e s') ->
  (forall a s', view s' c ->
     (fees_sane (config_of (self env) c) -> 0 <= pot -> 0 <= a) -> Q a s') ->
  wp (compute_protocol_fee pot) env s Q QE.
Proof.
  intros Hv HE HQ. unfold compute_protocol_fee. wpx; try by apply HE.
  - apply HQ; [done|]. lia.
  - apply HQ; [done|]. intros (Hf1 & Hf2 & Hf3) Hpot.
    match goal with Hc : i128_checked_mul _ _ = Some _ |- _ =>
      apply checked_Some in Hc as [<- _] end.
    assert (0 <= Z.quot (pot * protocol_fee_bps (fees (config_of (self env) c))) 10000)
      by (apply Z.quot_pos; nia).
    destruct (max_protocol_fee _) as [cap|]; [specialize (Hf3 cap eq_refl)|]; lia.
Qed.

Lemma wp_pay_winner m cfg sw p env s c (Q : Z -> State W -> Prop) (QE : Error -> _ -> Prop) :
  view s c -> (forall e s', QE e s') ->
  (forall a s' cb, view s' cb -> rebalanced c cb ->
     (sw = false -> fees_sane (config_of (self env) c) -> 0 <= referral_share c ->
      0 <= stake_amount m -> spends (self env) (token m) (2 * stake_amount m) c cb) -> Q a s') ->
  wp (pay_winner m cfg sw p) env s Q QE.
Proof.
  intros Hv HE HQ. unfold pay_winner. wpx; try by apply HE.
  eapply wp_referral_fee; [eassumption|by intros|]. intros rf s1 Hv1 Hrf. wp_step.
  eapply wp_protocol_fee; [eassumption|by intros|]. intros pf s2 Hv2 Hpf. wpx; try by apply HE.
  { eapply wp_oracle_swap; [eassumption|by intros|]. intros s3 ? ? ? Hv3. wpx; try by apply HE.
    all: eapply HQ; [eassumption|done|done]. }
  all: eapply HQ; [eassumption|done|]. all: intros _ Hfs Hsh Hst.
  all: repeat match goal with
         | Hc : i128_checked_mul _ _ = Some _ |- _ => apply checked_Some in Hc as [Hc _]
         | Hc : i128_checked_sub _ _ = Some _ |- _ => apply checked_Some in Hc as [Hc _]
         end.
  all: specialize (Hrf Hfs Hsh ltac:(lia)); specialize (Hpf Hfs ltac:(lia)).
  all: split; [done|]; solve_bal.
Qed.

Lemma wp_pay_draw m p env s c (Q : Z -> State W -> Prop) (QE : Error -> _ -> Prop) :
  view s c ->
  (forall s' cb, view s' cb -> rebalanced c cb ->
     spends (self env) (token m) (stake_amount m) c cb -> Q (stake_amount m) s') ->
  wp (pay_draw m p) env s Q QE.
Proof.
  intros Hv HQ. unfold pay_draw. wpx. eapply HQ; [eassumption|done|]. by apply spends_move.
Qed.

Lemma single_no_swap m pref : token_b m = None -> use_preferred m pref = false.
Proof.
  intros Ht. unfold use_preferred. destruct pref as [pt|]; [|done]. cbn. rewrite Ht.
  rewrite (bool_decide_false (None = Some pt)) by done.
  by rewrite andb_false_r.
Qed.

Lemma lands_claim env c s' mid m m' x cb :
  view (W:=W) s' (c_store mid m' cb) -> state m' = state m -> c_match c mid = Some m ->
  evolve env c m m' x -> rebalanced c cb ->
  (token_b m = None -> fees_sane (config_of (self env) c) -> 0 <= referral_share c ->
   0 <= stake_amount m -> spends (self env) (token m) x c cb) ->
  lands env c s'.
Proof.
  intros Hv Hst Hm Hev Hrb Hsp. eapply (lands_rewrite env c s' mid m m' x cb); try done.
  intros. by apply Hsp.
Qed.

Lemma sim_claim mid p : simulates (W:=W) (claim_vested_payout mid p).
Proof.
  intros env s c Hv. unfold claim_vested_payout. wpx.
  all: match goal with Hu : u64_checked_add _ _ = Some _ |- _ =>
         apply checked_Some in Hu as [Hu _] end.
  - eapply wp_pay_winner; [eassumption|by intros|]. intros x s1 c1 Hv1 Hr1 Hs1. wpx.
    eapply (lands_claim _ _ _ _ m); [eassumption|done|eassumption| |done|].
    + subst p. eapply E_claim1; eauto; lia.
    + rewrite bool_decide_false by congruence. intros. apply Hs1; auto using single_no_swap.
  - eapply wp_pay_draw; [eassumption|]. intros s1 c1 Hv1 Hr1 Hs1. wpx.
    eapply (lands_claim _ _ _ _ m); [eassumption|done|eassumption| |done|].
    + subst p. eapply E_claim1; eauto; lia.
    + by rewrite bool_decide_true.
  - eapply wp_pay_winner; [eassumption|by intros|]. intros x s1 c1 Hv1 Hr1 Hs1. wpx.
    eapply (lands_claim _ _ _ _ m); [eassumption|done|eassumption| |done|].
    + match goal with Hg : negb false && _ = false |- _ => cbn in Hg end. zbool.
      subst p. eapply E_claim2; eauto; lia.
    + rewrite bool_decide_false by congruence. intros. apply Hs1; auto using single_no_swap.
  - eapply wp_pay_draw; [eassumption|]. intros s1 c1 Hv1 Hr1 Hs1. wpx.
    eapply (lands_claim _ _ _ _ m); [eassumption|done|eassumption| |done|].
    + match goal with Hg : negb false && _ = false |- _ => cbn in Hg end. zbool.
      subst p. eapply E_claim2; eauto; lia.
    + by rewrite bool_decide_true.
Qed.

(** ** Creation *)

Lemma wp_terms_valid p cfg env s c (Q : unit -> State W -> Prop) (QE : Error -> _ -> Prop) :
  view s c -> (forall e s', QE e s') ->
  (minimum_stake (stakes cfg) <= mp_stake_amount p -> Q tt s) ->
  wp (require_terms_valid p cfg) env s Q QE.
Proof.
  intros Hv HE HQ. unfold require_terms_valid. wpx; try by apply HE. by apply HQ.
Qed.

Lemma c_count_seti n c : c_count (c_seti KMatchCount n c) = n.
Proof. unfold c_count, c_seti. cbn. by rewrite upd_eq. Qed.

(** What a creation leaves: the fresh record, listed and counted. *)
Lemma lands_create env c s' p lg n :
  view (W:=W) s' (c_seti KMatchCount n
    (c_enlist (c_count c) Pending
       (c_store (c_count c) (new_match p (c_count c) (sequence env) (timestamp env) lg) c))) ->
  admissible env c p -> c_match c (c_count c) = None ->
  n = c_count c + 1 -> c_count c + 1 <= u64_max -> grows env (Some p) c s'.
Proof.
  intros Hv Had Hnone Hn Hle. eexists. split; [exact Hv|]. split.
  - eapply (S_create env (Some p) c p lg); [done|done|done|done|done| |  |done].
    + exact (eq_trans (c_count_seti _ _) Hn).
    + intros k Hk Hne. cbn. by rewrite upd_ne.
  - intros Hok. apply idx_ok_seti.
    by apply (idx_ok_enlist _ (new_match p (c_count c) (sequence env) (timestamp env) lg)).
Qed.

Lemma sim_create p : sets (W:=W) (Some p) (create_match_internal p).
Proof.
  intros env s c Hv. unfold create_match_internal. wpx.
  all: eapply wp_terms_valid; [eassumption|done|]; intros Hmin; wpx.
  all: match goal with Hu : u64_checked_add _ _ = Some _ |- _ =>
         apply checked_Some in Hu as [Hu Hle] end.
  all: eapply lands_create; [eassumption| | |done|exact (proj2 Hle)].
  all: try match goal with Hs : opt_is_some ?o = false |- _ = None =>
             change (o = None); by destruct o end.
  all: unfold admissible; split_and!; try done.
  all: by apply Bool.eqb_prop.
Qed.

(** ** Disputes *)

Lemma sim_dispute new mid who ev : sets (W:=W) new (dispute_oracle_result mid who ev).
Proof.
  intros env s c Hv. unfold dispute_oracle_result. wpx.
  land; [|auto using idx_ok_seti, idx_ok_move]. apply S_admin; [done|done|solve_bal].
Qed.

Lemma sim_vote d who b : simulates (W:=W) (vote_on_dispute d who b).
Proof. intros env s c Hv. unfold vote_on_dispute. wpx; by apply lands_idle. Qed.

(** ** Sequences of steps *)

Definition lands_star (env : Env) (c : Core) (s' : State W) : Prop :=
  exists c', view s' c' /\ rtc (mstep env) c c' /\ (idx_ok c -> idx_ok c').
Definition drifts_star (env : Env) (c : Core) (s' : State W) : Prop :=
  exists c', view s' c' /\ rtc (mstep env) c c'.

Lemma lands_star_once env c s' : lands env c s' -> lands_star env c s'.
Proof. intros (c' & ? & ? & ?). exists c'. split_and!; [done|by apply rtc_once|done]. Qed.

Lemma lands_drifts_star env c s' : lands_star env c s' -> drifts_star env c s'.
Proof. intros (c' & ? & ? & ?). by exists c'. Qed.

Lemma wp_batch_drift {A} (f : A -> EM W unit) es env :
  (forall e s c, view s c -> wp (f e) env s (fun _ => drifts env c) (fun _ => drifts env c)) ->
  forall s c, view s c ->
  wp (batch f es) env s (fun _ => drifts_star env c) (fun _ => drifts_star env c).
Proof.
  intros Hf. induction es as [|e es IH]; intros s c Hv; cbn [batch].
  { apply wp_ret. by exists c. }
  apply wp_bind, wp_catch. eapply wp_conseq; [by apply Hf| |].
  all: intros ? s1 (c1 & Hv1 & Hs1); apply wp_bind.
  all: eapply wp_conseq; [by apply IH| |].
  all: intros ? s2 (c2 & Hv2 & Hs2); try apply wp_ret.
  all: exists c2; split; [done|]; by eapply rtc_l.
Qed.

Lemma wp_batch_land {A} (f : A -> EM W unit) es env :
  (forall e s c, view s c -> wp (f e) env s (fun _ => lands env c) (fun _ => lands env c)) ->
  forall s c, view s c ->
  wp (batch f es) env s (fun _ => lands_star env c) (fun _ => lands_star env c).
Proof.
  intros Hf. induction es as [|e es IH]; intros s c Hv; cbn [batch].
  { apply wp_ret. by exists c. }
  apply wp_bind, wp_catch. eapply wp_conseq; [by apply Hf| |].
  all: intros ? s1 (c1 & Hv1 & Hs1 & Hi1); apply wp_bind.
  all: eapply wp_conseq; [by apply IH| |].
  all: intros ? s2 (c2 & Hv2 & Hs2 & Hi2); try apply wp_ret.
  all: exists c2; split; [done|]; split; [by eapply rtc_l|auto].
Qed.

Lemma sim_deposit_batch es env s c :
  view s c ->
  wp (deposit_batch es) env s (fun _ => drifts_star env c) (fun _ _ => True).
Proof.
  intros Hv. unfold deposit_batch. wpx.
  eapply wp_conseq; [apply wp_batch_drift; [|eassumption]|done|done].
  intros [mid p] s1 c1 Hv1. eapply wp_conseq; [by apply wp_deposit| |done].
  intros ? s2. apply lands_drifts.
Qed.

Lemma wp_settle_batch_entry e env s c :
  view (W:=W) s c ->
  wp (settle_batch_entry e) env s (fun _ => lands env c) (fun _ => lands env c).
Proof.
  intros Hv. unfold settle_batch_entry. destruct e as [mid w]. wpx; try by apply lands_idle.
  all: by apply wp_settle_result.
Qed.

Lemma sim_submit_batch rs who env s c :
  view s c ->
  wp (submit_result_batch rs who) env s (fun _ => lands_star env c) (fun _ _ => True).
Proof.
  intros Hv. unfold submit_result_batch. wpx.
  eapply wp_conseq; [apply wp_batch_land; [|eassumption]|done|done].
  intros. by apply wp_settle_batch_entry.
Qed.

Lemma wp_expire_all ids env s c :
  view (W:=W) s c ->
  wp (expire_all ids) env s (fun _ => lands_star env c) (fun _ => lands_star env c).
Proof.
  revert s c. induction ids as [|i ids IH]; intros s c Hv; cbn [expire_all].
  { apply wp_ret. by exists c. }
  apply wp_bind, wp_catch. eapply wp_conseq; [by apply wp_expire_match| |].
  all: intros ? s1 (c1 & Hv1 & Hs1 & Hi1); apply wp_bind.
  all: eapply wp_conseq; [by apply IH| |].
  all: intros ? s2 (c2 & Hv2 & Hs2 & Hi2); try apply wp_ret.
  all: exists c2; split; [done|]; split; [by eapply rtc_l|auto].
Qed.

Lemma sim_bulk_expire ids env s c :
  view s c ->
  wp (bulk_expire_matches ids) env s (fun _ => lands_star env c) (fun _ _ => True).
Proof.
  intros Hv. unfold bulk_expire_matches. wpx.
  - eapply wp_conseq; [by apply wp_expire_all|done|done].
  - by apply lands_star_once, lands_idle.
Qed.
End Sim.
