(* ===== verification/Calls.v ===== *)
(** The escrow's interface as a whole: the type of calls, what a call executes,
    and the theorem that every call is a sequence of specification steps. *)
From stdpp Require Import base list strings relations.
From Stdlib Require Import ZArith Lia.
From S2P Require Import Prelude Soroban EscrowTypes Config Tokens Players MatchIndex Snapshots.
From S2P Require Import RateOracle Rotation Matches Settlement Refunds.
From S2P Require Import Disputes Governance Ledger Core Lifecycle Simulation.

(** ** Settings

    [adm]: code that changes settings, lists and preferences, but neither a match
    nor a balance nor the match counter. *)
Section Adm.
Context {W : Type} `{Host W}.
Implicit Types s : State W.

Record adm s s' : Prop := {
  a_pers k : core_key k = true -> pers s' k = pers s k;
  a_count : inst s' KMatchCount = inst s KMatchCount;
  a_world t a : token_balance (world s') t a = token_balance (world s) t a
}.

#[export] Instance adm_preorder : PreOrder adm.
Proof.
  split; [by split|]. intros s1 s2 s3 [p1 i1 b1] [p2 i2 b2].
  split; intros; [rewrite p2, p1; done | congruence | by rewrite b2, b1].
Qed.

Lemma adm_p_set k v : core_key k = false -> rel adm (p_set k v).
Proof.
  intros Hk. apply rel_p_set. intros s. split; try done. intros k' Hk'. cbn.
  rewrite upd_ne; [done | congruence].
Qed.
Lemma adm_p_remove k : core_key k = false -> rel adm (p_remove k).
Proof.
  intros Hk. apply rel_p_remove. intros s. split; try done. intros k' Hk'. cbn.
  rewrite upd_ne; [done | congruence].
Qed.
Lemma adm_i_set (k : Key) v : k <> DK KMatchCount -> rel adm (i_set k v).
Proof. intros Hk. apply rel_i_set. intros s. split; try done. apply upd_ne, Hk. Qed.
Lemma adm_i_remove (k : Key) : k <> DK KMatchCount -> rel adm (i_remove k).
Proof. intros Hk. apply rel_i_remove. intros s. split; try done. apply upd_ne, Hk. Qed.
Lemma adm_publish t1 t2 vs : rel (E:=Error) adm (publish t1 t2 vs).
Proof. apply rel_publish. by split. Qed.
End Adm.

#[export] Hint Resolve adm_publish : frame.
#[export] Hint Extern 1 (rel adm (Soroban.p_set _ _)) => (apply adm_p_set; reflexivity) : frame.
#[export] Hint Extern 1 (rel adm (Soroban.p_remove _)) => (apply adm_p_remove; reflexivity) : frame.
#[export] Hint Extern 1 (rel adm (Soroban.i_set _ _)) => (apply adm_i_set; discriminate) : frame.
#[export] Hint Extern 1 (rel adm (Soroban.i_remove _)) => (apply adm_i_remove; discriminate) : frame.

(** ** Calls *)

(** Every state-changing entry point of a deployed, initialised contract.
    [execute_upgrade], which replaces the code itself, is not one of them. *)
Inductive Call :=
| Pause (caller : Address) | Unpause (caller : Address)
| SetProtocolConfig (cfg : ProtocolConfig) | SetReferralShareBps (bps : Z)
| SetMinimumStake (x : Z) | SetMaximumStake (x : option Z) | SetMatchTimeout (x : Z)
| SetFeeTiers (tiers : list FeeTier) | SetDisputePeriod (x : Z)
| SetDisputeBondBps (x : Z) | SetMinimumHoldDuration (x : Z) | SetQuorumBps (x : Z)
| SetPreferredPayoutToken (p : Address) (t : option Address)
| AddAllowedToken (t : Address) | RemoveAllowedToken (t : Address)
| AddStablecoinIssuer (a : Address) | RemoveStablecoinIssuer (a : Address)
| AddTokenToBlacklist (t : Address) (why : string) | RemoveTokenFromBlacklist (t : Address)
| FreezePlayer (p : Address) (why : string) | UnfreezePlayer (p : Address)
| RegisterBracket (admin : Address) (b : Z) (org : Address)
| RegisterPlayerRating (caller p : Address) (pl : Platform) (name : string) (r : Z)
| CreateMatch (p1 p2 : Address) (stake : Z) (t : Address) (g : string) (pl : Platform)
| CreateMatchTournament (b r : Z) (p1 p2 : Address) (stake : Z) (t : Address) (g : string)
    (pl : Platform)
| CreateMatchWithConversion (p1 p2 : Address) (stake : Z) (ta tb : Address) (rate : Z)
    (g : string) (pl : Platform)
| CreateMatchWithReferrer (p1 p2 : Address) (stake : Z) (t : Address) (g : string)
    (pl : Platform) (r : Address)
| Deposit (mid : Z) (p : Address) | DepositBatch (es : list (Z * Address))
| SubmitResult (mid : Z) (w : Winner) (o : Address) (conf : option Z)
| SubmitDraw (mid : Z) (o : Address) (conf : option Z)
| SubmitResultWithRecord (mid : Z) (w : Winner) (g : string) (o : Address)
| SubmitResultBatch (rs : list (Z * Winner)) (caller : Address)
| SubmitResultConsensus (mid : Z) (w : Winner) (o : Address)
| ResolveOracleDeadlock (mid : Z) (w : Winner)
| CancelMatch (mid : Z) (caller : Address) | ExpireMatch (mid : Z)
| BulkExpireMatches (ids : list Z) | AdminRecoverMatch (mid : Z)
| PauseMatch (mid : Z) (caller : Address) | ResumeMatch (mid : Z) (caller : Address)
| DisputeAndRollback (mid : Z) (who : Address) (why : string)
| HeartbeatMatch (mid : Z) (p : Address)
| ResolveStalled (mid : Z) (caller : Address) (w : Winner)
| FinalizeMatch (mid : Z) | ClaimVestedPayout (mid : Z) (p : Address)
| DisputeOracleResult (mid : Z) (who : Address) (ev : string)
| VoteOnDispute (d : Z) (who : Address) (b : bool) | ResolveDisputeByVote (d : Z)
| MarkDisputeForSlash (d x : Z)
| ProposeAdmin (a : Address) | AcceptAdmin | CancelAdminProposal
| TransferAdmin (a caller : Address)
| UpdateOracle (o : Address) | RotateOracleTemporary (a b : Address) (x : Z)
| FinalizeTempOracleRotation | ProposeOracleRotation (a b : Address)
| RotateOraclePermanent (a b : Address)
| ScheduleUpgrade (h : list Z) | CancelUpgrade | ConfirmUpgrade (a : Address)
| MigrateState (v : Z)
| AddApprovedOracle (o : Address) | RemoveApprovedOracle (o : Address)
| SetRequiredConfirmations (x : Z).

(** The parameters of the match a call creates. *)
Definition created (c : Call) : option MatchParams :=
  match c with
  | CreateMatch p1 p2 x t g pl =>
      Some (mkMatchParams p1 p2 x t None None g pl None None None None)
  | CreateMatchTournament b r p1 p2 x t g pl =>
      Some (mkMatchParams p1 p2 x t None None g pl None (Some b) (Some r) None)
  | CreateMatchWithConversion p1 p2 x ta tb rate g pl =>
      Some (mkMatchParams p1 p2 x ta (Some tb) (Some rate) g pl None None None None)
  | CreateMatchWithReferrer p1 p2 x t g pl r =>
      Some (mkMatchParams p1 p2 x t None None g pl (Some r) None None None)
  | _ => None
  end.

Section Exec.
Context {W : Type} `{Host W} `{RateOracle W}.

Definition exec (c : Call) : EM W unit :=
  match c with
  | Pause a => pause a | Unpause a => unpause a
  | SetProtocolConfig cfg => set_protocol_config cfg
  | SetReferralShareBps x => set_referral_share_bps x
  | SetMinimumStake x => set_minimum_stake x | SetMaximumStake x => set_maximum_stake x
  | SetMatchTimeout x => set_match_timeout x | SetFeeTiers ts => set_fee_tiers ts
  | SetDisputePeriod x => set_dispute_period x
  | SetDisputeBondBps x => set_dispute_bond_basis_points x
  | SetMinimumHoldDuration x => set_minimum_hold_duration x
  | SetQuorumBps x => set_quorum_basis_points x
  | SetPreferredPayoutToken p t => set_preferred_payout_token p t
  | AddAllowedToken t => add_allowed_token t | RemoveAllowedToken t => remove_allowed_token t
  | AddStablecoinIssuer a => add_stablecoin_issuer a
  | RemoveStablecoinIssuer a => remove_stablecoin_issuer a
  | AddTokenToBlacklist t r => add_token_to_blacklist t r
  | RemoveTokenFromBlacklist t => remove_token_from_blacklist t
  | FreezePlayer p r => admin_freeze_player p r | UnfreezePlayer p => admin_unfreeze_player p
  | RegisterBracket a b o => register_bracket a b o
  | RegisterPlayerRating a p pl n r => register_player_rating a p pl n r
  | CreateMatch p1 p2 x t g pl => ignore (create_match p1 p2 x t g pl)
  | CreateMatchTournament b r p1 p2 x t g pl =>
      ignore (create_match_tournament b r p1 p2 x t g pl)
  | CreateMatchWithConversion p1 p2 x ta tb rate g pl =>
      ignore (create_match_with_conversion p1 p2 x ta tb rate g pl)
  | CreateMatchWithReferrer p1 p2 x t g pl r =>
      ignore (create_match_with_referrer p1 p2 x t g pl r)
  | Deposit mid p => deposit mid p | DepositBatch es => ignore (deposit_batch es)
  | SubmitResult mid w o c => submit_result mid w o c
  | SubmitDraw mid o c => submit_draw mid o c
  | SubmitResultWithRecord mid w g o => submit_result_with_oracle_record mid w g o
  | SubmitResultBatch rs a => ignore (submit_result_batch rs a)
  | SubmitResultConsensus mid w o => submit_result_consensus mid w o
  | ResolveOracleDeadlock mid w => resolve_oracle_deadlock mid w
  | CancelMatch mid a => cancel_match mid a | ExpireMatch mid => expire_match mid
  | BulkExpireMatches ids => ignore (bulk_expire_matches ids)
  | AdminRecoverMatch mid => admin_recover_match mid
  | PauseMatch mid a => pause_match mid a | ResumeMatch mid a => resume_match mid a
  | DisputeAndRollback mid a r => dispute_and_rollback_match mid a r
  | HeartbeatMatch mid a => heartbeat_match mid a
  | ResolveStalled mid a w => admin_resolve_stalled_match mid a w
  | FinalizeMatch mid => finalize_match mid
  | ClaimVestedPayout mid p => claim_vested_payout mid p
  | DisputeOracleResult mid a e => ignore (dispute_oracle_result mid a e)
  | VoteOnDispute d a b => vote_on_dispute d a b
  | ResolveDisputeByVote d => resolve_dispute_by_vote d
  | MarkDisputeForSlash d x => mark_dispute_for_oracle_slash d x
  | ProposeAdmin a => propose_admin a | AcceptAdmin => accept_admin
  | CancelAdminProposal => cancel_admin_proposal | TransferAdmin a b => transfer_admin a b
  | UpdateOracle o => update_oracle o
  | RotateOracleTemporary a b x => rotate_oracle_temporary a b x
  | FinalizeTempOracleRotation => finalize_temp_oracle_rotation
  | ProposeOracleRotation a b => propose_oracle_rotation a b
  | RotateOraclePermanent a b => rotate_oracle_permanent a b
  | ScheduleUpgrade h => schedule_upgrade h | CancelUpgrade => cancel_upgrade
  | ConfirmUpgrade a => confirm_upgrade a | MigrateState v => migrate_state v
  | AddApprovedOracle o => add_approved_oracle o
  | RemoveApprovedOracle o => remove_approved_oracle o
  | SetRequiredConfirmations x => set_required_confirmations x
  end.
End Exec.

Section AdmCalls.
Context {W : Type} `{TokenLaws W} `{!RateOracle W, !RateOracleLaws W}.
Abbreviation adm_ c := (rel (E:=Error) (S:=State W) adm c).

Lemma adm_of_quiet {A} (cmd : EM W A) : rel quiet cmd -> adm_ cmd.
Proof.
  intros Hq env s. specialize (Hq env s).
  destruct (cmd env s); try done; destruct Hq; split; auto; by apply q_inst.
Qed.

(** A call made of settings only is one specification step. *)
Lemma sim_adm {A} new (cmd : EM W A) : adm_ cmd -> sets new cmd.
Proof.
  intros Ha env s c Hv. eapply wp_rel; [exact Ha| |done].
  intros _ s' [p i b]. destruct Hv as [vm vi vn vb].
  exists (core_of s'). split; [apply view_core_of|]. split.
  - apply S_admin; cbn.
    + intros j. rewrite p by done. apply vm.
    + unfold c_count. cbn. rewrite i. f_equal. by apply (vn (DK KMatchCount)).
    + intros t. rewrite b, vb. lia.
  - intros [h1 h2 h3]. split; cbn.
    + intros j m. rewrite p by done. rewrite vm. apply h1.
    + intros st. unfold index_of. rewrite p by done. fold (index_of s (MatchesByState st)).
      rewrite vi. apply h2.
    + intros st j. unfold index_of. rewrite p by done. fold (index_of s (MatchesByState st)).
      rewrite vi, h3, p, vm by done. done.
Qed.

Lemma adm_require_admin : adm_ require_admin.
Proof. unfold require_admin, load_admin. frame. Qed.
Lemma adm_require_caller_admin a : adm_ (require_caller_admin a).
Proof. unfold require_caller_admin, load_admin. frame. Qed.
Lemma adm_get_config : adm_ get_config.
Proof. unfold get_config. frame. Qed.
Lemma adm_save_rotation r : adm_ (save_rotation_state r).
Proof. unfold save_rotation_state. frame. Qed.
Lemma adm_effective_oracle : adm_ effective_oracle.
Proof. apply adm_of_quiet, quiet_effective_oracle. Qed.
Lemma adm_set_allowed_list l : adm_ (set_allowed_token_list l).
Proof. unfold set_allowed_token_list. frame. Qed.
Lemma adm_check_fee_tiers p ts : adm_ (check_fee_tiers p ts).
Proof.
  revert p. induction ts as [|t ts IH]; intros p; cbn [check_fee_tiers]; frame.
Qed.
Lemma adm_check_bond_tiers p ts : adm_ (check_bond_tiers p ts).
Proof.
  revert p. induction ts as [|t ts IH]; intros p; cbn [check_bond_tiers]; frame.
Qed.
#[local] Hint Resolve adm_require_admin adm_require_caller_admin adm_get_config
  adm_save_rotation adm_effective_oracle adm_set_allowed_list adm_check_fee_tiers
  adm_check_bond_tiers : frame.

Lemma adm_propose_admin a : adm_ (propose_admin a).
Proof. unfold propose_admin. frame. Qed.
#[local] Hint Resolve adm_propose_admin : frame.

(** The calls that touch no match. *)
Definition is_setting (c : Call) : bool :=
  match c with
  | Pause _ | Unpause _ | SetProtocolConfig _ | SetReferralShareBps _ | SetMinimumStake _
  | SetMaximumStake _ | SetMatchTimeout _ | SetFeeTiers _ | SetDisputePeriod _
  | SetDisputeBondBps _ | SetMinimumHoldDuration _ | SetQuorumBps _
  | SetPreferredPayoutToken _ _ | AddAllowedToken _ | RemoveAllowedToken _
  | AddStablecoinIssuer _ | RemoveStablecoinIssuer _ | AddTokenToBlacklist _ _
  | RemoveTokenFromBlacklist _ | FreezePlayer _ _ | UnfreezePlayer _ | RegisterBracket _ _ _
  | RegisterPlayerRating _ _ _ _ _ | MarkDisputeForSlash _ _ | ProposeAdmin _ | AcceptAdmin
  | CancelAdminProposal | TransferAdmin _ _ | UpdateOracle _ | RotateOracleTemporary _ _ _
  | FinalizeTempOracleRotation | ProposeOracleRotation _ _ | RotateOraclePermanent _ _
  | ScheduleUpgrade _ | CancelUpgrade | ConfirmUpgrade _ | MigrateState _
  | AddApprovedOracle _ | RemoveApprovedOracle _ | SetRequiredConfirmations _ => true
  | _ => false
  end.

Lemma adm_setting c : is_setting c = true -> adm_ (exec c).
Proof.
  destruct c; try discriminate; intros _; cbn [exec];
  unfold pause, unpause, set_protocol_config, set_referral_share_bps, set_minimum_stake,
    set_maximum_stake, set_match_timeout, set_fee_tiers, set_dispute_period,
    set_dispute_bond_basis_points, set_minimum_hold_duration, set_quorum_basis_points,
    set_preferred_payout_token, add_allowed_token, remove_allowed_token,
    append_allowed_token, remove_allowed_token_from_list, get_allowed_token_list,
    add_stablecoin_issuer, remove_stablecoin_issuer, add_token_to_blacklist,
    remove_token_from_blacklist, admin_freeze_player, admin_unfreeze_player,
    register_bracket, register_player_rating, mark_dispute_for_oracle_slash, accept_admin,
    cancel_admin_proposal, transfer_admin, update_oracle, rotate_oracle_temporary,
    finalize_temp_oracle_rotation, propose_oracle_rotation, rotate_oracle_permanent,
    schedule_upgrade, cancel_upgrade, confirm_upgrade, migrate_state, _apply_migrations,
    add_approved_oracle, remove_approved_oracle, set_required_confirmations,
    get_required_confirmations, get_rotation_state, load_admin; frame.
Qed.

Lemma sim_ignore {A} new (cmd : EM W A) : sets new cmd -> sets new (ignore cmd).
Proof.
  intros Hs env s c Hv. unfold ignore. apply wp_bind.
  eapply wp_conseq; [by apply Hs| |done]. intros ? s' Hl. by apply wp_ret.
Qed.

(** The calls that are not batches are one step each. *)
Lemma sim_call c :
  match c with DepositBatch _ | SubmitResultBatch _ _ | BulkExpireMatches _ => True
          | _ => sets (created c) (exec (W:=W) c) end.
Proof.
  destruct c; try exact I;
    try (apply sim_adm, adm_setting; reflexivity); cbn [exec].
  all: try (apply sim_ignore; first [apply sim_create | apply sim_dispute]).
  all: apply simulates_sets; auto using sim_submit_result, sim_submit_draw, sim_submit_with_record,
    sim_submit_consensus, sim_resolve_deadlock, sim_cancel_match, sim_expire_match,
    sim_admin_recover_match, sim_pause_match, sim_resume_match, sim_rollback,
    sim_heartbeat_match, sim_stalled, sim_finalize_match, sim_claim, sim_vote,
    sim_resolve_dispute.
  intros env s c Hv. eapply wp_conseq; [by apply wp_deposit|done|done].
Qed.

(** Every call that returns [Ok] takes the core through specification steps, and
    every call but [deposit_batch] keeps the index consistent. *)
Lemma wp_ignore {A} (cmd : EM W A) env s P QE :
  wp cmd env s (fun _ => P) QE -> wp (ignore cmd) env s (fun _ => P) QE.
Proof. intros Hw. unfold ignore. apply wp_bind. eapply wp_conseq; [exact Hw| |done]. done. Qed.

Lemma exec_steps call env s s' c :
  view s c -> exec (W:=W) call env s = Ok tt s' ->
  exists c', view s' c' /\ (cstep env (created call) c c' \/ rtc (mstep env) c c') /\
    (match call with DepositBatch _ => True | _ => idx_ok c -> idx_ok c' end).
Proof.
  intros Hv Hrun. pose proof (sim_call call) as Hs.
  destruct call; try (destruct (wp_Ok _ _ _ _ _ _ _ (Hs env s c Hv) Hrun) as (c' & ? & ? & ?);
                      exists c'; split_and!; [done|by left|done]); cbn [exec] in Hrun.
  - destruct (wp_Ok _ _ _ _ _ _ _ (wp_ignore _ _ _ _ _ (sim_deposit_batch es env s c Hv)) Hrun)
      as (c' & ? & ?). exists c'. auto.
  - destruct (wp_Ok _ _ _ _ _ _ _ (wp_ignore _ _ _ _ _ (sim_submit_batch rs caller env s c Hv))
                Hrun) as (c' & ? & ? & ?). exists c'. auto.
  - destruct (wp_Ok _ _ _ _ _ _ _ (wp_ignore _ _ _ _ _ (sim_bulk_expire ids env s c Hv)) Hrun)
      as (c' & ? & ? & ?). exists c'. auto.
Qed.

End AdmCalls.
