(* ===== verification/Footprint.v ===== *)
(** What each call can write: the instance entries it may touch, and the
    persistent entries that, once written, no call ever deletes.  The questions
    "who can change the admin?" or "can a vote be cast twice?" are answered from
    this table in the later files.  Then the settings that decide whether the books
    balance (the dispute period, the protocol configuration and the referral share):
    who writes them, and what the setters guarantee. *)
From stdpp Require Import base list strings relations.
From Stdlib Require Import ZArith Lia.
From S2P Require Import Prelude Soroban EscrowTypes Config Tokens Players MatchIndex Snapshots.
From S2P Require Import RateOracle Rotation Matches Settlement Refunds Disputes.
From S2P Require Import Governance Ledger Core Lifecycle Simulation Calls.

(** The instance entries a call may write. *)
Definition inst_writes (c : Call) (k : Key) : bool :=
  match k with
  | DK KOracleRotation => true
  | DK KMatchCount => opt_is_some (created c)
  | DK KDisputeCount => match c with DisputeOracleResult _ _ _ => true | _ => false end
  | DK KAdmin => match c with AcceptAdmin => true | _ => false end
  | DK KPendingAdmin =>
      match c with ProposeAdmin _ | AcceptAdmin | CancelAdminProposal | TransferAdmin _ _ => true
              | _ => false end
  | DK KOracle =>
      match c with UpdateOracle _ | RotateOraclePermanent _ _ => true | _ => false end
  | DK KPaused => match c with Pause _ | Unpause _ => true | _ => false end
  | DK KProtocolConfig =>
      match c with SetProtocolConfig _ | SetMinimumStake _ | SetMaximumStake _
                 | SetMatchTimeout _ => true | _ => false end
  | DK KReferralShareBasisPoints =>
      match c with SetReferralShareBps _ => true | _ => false end
  | DK KDisputePeriod =>
      match c with SetDisputePeriod _ | MigrateState _ => true | _ => false end
  | DK KContractVersion => match c with MigrateState _ => true | _ => false end
  | DK KDisputeBondBasisPoints => match c with SetDisputeBondBps _ => true | _ => false end
  | DK KMinimumHoldDuration => match c with SetMinimumHoldDuration _ => true | _ => false end
  | DK KQuorumBasisPoints => match c with SetQuorumBps _ => true | _ => false end
  | DK (KAllowedToken t) =>
      match c with AddAllowedToken t' | RemoveAllowedToken t' => t =a t' | _ => false end
  | DK KAllowedTokenCount | DK KAllowlistEnforced =>
      match c with AddAllowedToken _ | RemoveAllowedToken _ => true | _ => false end
  | DK (KStablecoinIssuer a) =>
      match c with AddStablecoinIssuer b | RemoveStablecoinIssuer b => a =a b | _ => false end
  | DK KStablecoinIssuerCount =>
      match c with AddStablecoinIssuer _ | RemoveStablecoinIssuer _ => true | _ => false end
  | DK (KBlacklistedToken t) =>
      match c with AddTokenToBlacklist t' _ | RemoveTokenFromBlacklist t' => t =a t'
              | _ => false end
  | PFK (FrozenPlayer p) =>
      match c with FreezePlayer p' _ | UnfreezePlayer p' => p =a p' | _ => false end
  | DK KApprovedOracles =>
      match c with AddApprovedOracle _ | RemoveApprovedOracle _ => true | _ => false end
  | DK KRequiredOracleConfirmations =>
      match c with SetRequiredConfirmations _ => true | _ => false end
  | DK KUpgradeScheduledAt | DK KPendingUpgradeHash =>
      match c with ScheduleUpgrade _ | CancelUpgrade => true | _ => false end
  | UK ConfirmedBy => match c with ConfirmUpgrade _ | CancelUpgrade => true | _ => false end
  | _ => false
  end.

(** The persistent entries a call may write: the rows of the table that matter
    below; every call may write the remaining ones. *)
Definition pers_writes (c : Call) (k : Key) : bool :=
  match k with
  | DK (KOracleVote i _) | DK (KOracleConfirmations i) | DK (KConsensusLeadingWinner i) =>
      match c with SubmitResultConsensus mid _ _ => i =? mid | _ => false end
  | DK (KDispute _) =>
      match c with DisputeOracleResult _ _ _ | VoteOnDispute _ _ _ | ResolveDisputeByVote _ => true
              | _ => false end
  | DK (KDisputeVote i p) | DK (KDisputeVoteWeight i p) =>
      match c with VoteOnDispute d who _ => (i =? d) && (p =a who) | _ => false end
  | DK (KMatchDispute i) =>
      match c with DisputeOracleResult mid _ _ => i =? mid | _ => false end
  | DK (KDisputeOracle _) => match c with DisputeOracleResult _ _ _ => true | _ => false end
  | DK (KGameId _) => opt_is_some (created c)
  | DK KAllowedTokens =>
      match c with AddAllowedToken _ | RemoveAllowedToken _ => true | _ => false end
  | DK KBlacklistedTokens =>
      match c with AddTokenToBlacklist _ _ | RemoveTokenFromBlacklist _ => true | _ => false end
  | PFK FrozenPlayers =>
      match c with FreezePlayer _ _ | UnfreezePlayer _ => true | _ => false end
  | DK KFeeTiers => match c with SetFeeTiers _ => true | _ => false end
  | DK (KPlayerPreferredToken p) =>
      match c with SetPreferredPayoutToken q _ => p =a q | _ => false end
  | BK (Organizer b) => match c with RegisterBracket _ b' _ => b =? b' | _ => false end
  | _ => true
  end.

(** The persistent entries that may be deleted again. *)
Definition ephemeral (k : Key) : bool :=
  match k with
  | DK KAllowedTokens | DK (KActiveMatch _ _) | DK (KPlayerPreferredToken _) | MIK _ => true
  | _ => false
  end.

Section Within.
Context {W : Type} `{Host W}.
Implicit Types s : State W.

Record within (wi wp : Key -> bool) s s' : Prop := {
  w_inst k : wi k = false -> inst s' k = inst s k;
  w_pers k : wp k = false -> pers s' k = pers s k;
  w_perm k : ephemeral k = false -> is_Some (pers s k) -> is_Some (pers s' k)
}.

#[export] Instance within_preorder wi wp : PreOrder (within wi wp).
Proof.
  split; [by split|]. intros s1 s2 s3 [i1 q1 p1] [i2 q2 p2].
  split; [intros k Hk; by rewrite i2, i1 | intros k Hk; by rewrite q2, q1 | auto].
Qed.

Lemma within_p_set wi (wp : Key -> bool) (k : Key) v :
  wp k = true -> rel (within wi wp) (p_set k v).
Proof.
  intros Hk. apply rel_p_set. intros s. split; [done| |]; cbn.
  - intros k' Hk'. rewrite upd_ne; [done|congruence].
  - intros k' _ Hs. destruct (decide (k = k')) as [->|]; [by rewrite upd_eq|by rewrite upd_ne].
Qed.
Lemma within_p_remove wi (wp : Key -> bool) (k : Key) :
  wp k = true -> ephemeral k = true -> rel (within wi wp) (p_remove k).
Proof.
  intros Hw Hk. apply rel_p_remove. intros s. split; [done| |]; cbn.
  - intros k' Hk'. rewrite upd_ne; [done|congruence].
  - intros k' Hk' Hs. rewrite upd_ne; [done|congruence].
Qed.
Lemma within_i_set (wi : Key -> bool) wp (k : Key) v :
  wi k = true -> rel (within wi wp) (i_set k v).
Proof.
  intros Hk. apply rel_i_set. intros s. split; [|done..]. intros k' Hk'. cbn.
  rewrite upd_ne; [done|congruence].
Qed.
Lemma within_i_remove (wi : Key -> bool) wp (k : Key) :
  wi k = true -> rel (within wi wp) (i_remove k).
Proof.
  intros Hk. apply rel_i_remove. intros s. split; [|done..]. intros k' Hk'. cbn.
  rewrite upd_ne; [done|congruence].
Qed.
Lemma within_t_set wi wp k v : rel (within wi wp) (t_set k v).
Proof. by apply rel_t_set. Qed.
Lemma within_t_remove wi wp k : rel (within wi wp) (t_remove k).
Proof. by apply rel_t_remove. Qed.
Lemma within_publish wi wp t1 t2 vs : rel (E:=Error) (within wi wp) (publish t1 t2 vs).
Proof. by apply rel_publish. Qed.
Lemma within_call_out wi wp f : rel (E:=Error) (within wi wp) (call_out f).
Proof. by apply rel_call_out. Qed.
Lemma within_transfer wi wp t a b x : rel (E:=Error) (within wi wp) (transfer t a b x).
Proof. apply within_call_out. Qed.
Lemma within_prng wi wp : rel (E:=Error) (within wi wp) prng_bytes.
Proof. by apply rel_prng_bytes. Qed.
End Within.

#[export] Hint Resolve within_t_set within_t_remove within_publish within_call_out
  within_transfer within_prng : frame.

(** Discharge a look-up in the tables. *)
Ltac solve_writes :=
  first [reflexivity | cbn; rewrite ?Z.eqb_refl, ?bool_decide_true by done; reflexivity | assumption].
#[export] Hint Extern 1 (rel (within _ _) (Soroban.p_set _ _)) =>
  (apply within_p_set; solve_writes) : frame.
#[export] Hint Extern 1 (rel (within _ _) (Soroban.p_remove _)) =>
  (apply within_p_remove; solve_writes) : frame.
#[export] Hint Extern 1 (rel (within _ _) (Soroban.i_set _ _)) =>
  (apply within_i_set; solve_writes) : frame.
#[export] Hint Extern 1 (rel (within _ _) (Soroban.i_remove _)) =>
  (apply within_i_remove; solve_writes) : frame.

Section Footprint.
Context {W : Type} `{Host W} `{RateOracle W}.
Abbreviation within_ wi wp c := (rel (E:=Error) (S:=State W) (within wi wp) c).

Lemma within_batch {A} wi wp (f : A -> EM W unit) es :
  (forall a, within_ wi wp (f a)) -> within_ wi wp (batch f es).
Proof. intros Hf. induction es as [|e es IH]; cbn [batch]; frame; auto. Qed.
Lemma within_check_fee_tiers wi wp p ts : within_ wi wp (check_fee_tiers p ts).
Proof. revert p. induction ts as [|t ts IH]; intros p; cbn [check_fee_tiers]; frame. Qed.
Lemma within_check_bond_tiers wi wp p ts : within_ wi wp (check_bond_tiers p ts).
Proof. revert p. induction ts as [|t ts IH]; intros p; cbn [check_bond_tiers]; frame. Qed.
#[local] Hint Resolve within_check_fee_tiers within_check_bond_tiers : frame.

Lemma within_expire_all (c : Call) ids :
  within_ (inst_writes c) (pers_writes c) (expire_all ids).
Proof.
  induction ids as [|i ids IH]; cbn [expire_all]; [frame|].
  apply rel_bind; [apply _| |intros; frame]. apply rel_catch. walk.
Qed.

(** Every call stays within its row of the table. *)
Lemma footprint (c : Call) : within_ (inst_writes c) (pers_writes c) (exec c).
Proof.
  destruct c; cbn [exec]; repeat first [apply within_batch | apply within_expire_all | walk_step].
Qed.
End Footprint.

(** An entry that is there stays there through code that deletes none. *)
Lemma rel_perm {W A} `{Host W} (cmd : EM W A) (k : Key) env s a s' :
  rel (within (fun _ => true) (fun _ => true)) cmd -> ephemeral k = false -> cmd env s = Ok a s' ->
  is_Some (pers s k) -> is_Some (pers s' k).
Proof. intros Hr Hk Hrun. apply (w_perm _ _ _ _ (rel_Ok _ _ _ _ _ _ Hr Hrun) k Hk). Qed.

(** Push such a fact through the rest of a run. *)
Ltac perm_on :=
  repeat match goal with
    | Hk : is_Some (pers ?sa ?k), Hr : ?c ?env ?sa = Ok ?a ?sb |- _ =>
        let Hw := fresh in
        assert (rel (within (fun _ => true) (fun _ => true)) c) as Hw by walk;
        apply (rel_perm c k env sa a sb Hw eq_refl Hr) in Hk; clear Hr Hw
    end.

Definition money_key (k : Key) : bool :=
  match k with
  | DK KDisputePeriod | DK KProtocolConfig | DK KReferralShareBasisPoints => true
  | _ => false
  end.

(** The calls that set the money settings. *)
Definition sets_money (c : Call) : bool :=
  match c with
  | SetProtocolConfig _ | SetReferralShareBps _ | SetMinimumStake _ | SetMaximumStake _
  | SetMatchTimeout _ | SetDisputePeriod _ | MigrateState _ => true
  | _ => false
  end.

Lemma sets_money_writes c k : sets_money c = false -> money_key k = true -> inst_writes c k = false.
Proof. destruct c; try discriminate; intros _; destruct k as [[]| | | | | | | |]; done. Qed.

(** ** Settings under which the books balance *)

Record stored_ok (st : Store Key) : Prop := {
  ok_period (x : Z) : st KDisputePeriod = Some x -> x = 0;
  ok_config (cfg : ProtocolConfig) : st KProtocolConfig = Some cfg ->
    fees_sane cfg /\ 0 <= minimum_stake (stakes cfg);
  ok_share (x : Z) : st KReferralShareBasisPoints = Some x -> 0 <= x
}.

(** The calls that keep them: no dispute period, no negative fee setting, no
    two-token match.  (The basis-point arguments are unsigned in the source; the
    cap on the protocol fee is the one signed setting that is not validated.) *)
Definition allowed (c : Call) : Prop :=
  match c with
  | CreateMatchWithConversion _ _ _ _ _ _ _ _ => False
  | SetDisputePeriod x => x = 0
  | SetProtocolConfig cfg => fees_sane cfg
  | SetReferralShareBps x => 0 <= x
  | _ => True
  end.

Lemma default_config_ok a :
  fees_sane (default_config a) /\ 0 <= minimum_stake (stakes (default_config a)).
Proof. split; [split_and!; cbn; [lia|lia|discriminate] | cbn; unfold DEFAULT_MINIMUM_STAKE; lia]. Qed.

Section Stored.
Context {W : Type} `{TokenLaws W} `{!RateOracle W}.
Implicit Types s : State W.

Lemma get_config_ok env s cfg s' :
  stored_ok (inst s) -> get_config env s = Ok cfg s' ->
  s' = s /\ fees_sane cfg /\ 0 <= minimum_stake (stakes cfg).
Proof.
  intros Hok Hrun. unfold get_config in Hrun. minv.
  - split; [done|]. by apply (ok_config _ Hok).
  - split; [done|]. apply default_config_ok.
Qed.

Lemma stored_ok_ext (st st' : Store Key) :
  (forall k, money_key k = true -> st' k = st k) -> stored_ok st -> stored_ok st'.
Proof.
  intros Hk [h1 h2 h3].
  split; intros ?; rewrite Hk by done; [apply h1 | apply h2 | apply h3].
Qed.

Lemma stored_ok_config (st : Store Key) (cfg : ProtocolConfig) :
  stored_ok st -> fees_sane cfg -> 0 <= minimum_stake (stakes cfg) ->
  stored_ok (upd (DK KProtocolConfig) (@Some (kval (DK KProtocolConfig)) cfg) st).
Proof.
  intros [h1 h2 h3] Hf Hm. split.
  - intros x. rewrite upd_ne by done. apply h1.
  - intros c. rewrite upd_eq. by intros [= <-].
  - intros x. rewrite upd_ne by done. apply h3.
Qed.

Lemma require_admin_Ok env s a s' :
  require_admin env s = Ok a s' ->
  s' = s /\ inst s KAdmin = Some a /\ authorized env a = true.
Proof. unfold require_admin, load_admin. intros Hr. by minv. Qed.

Lemma check_bond_tiers_Ok prev ts env s u s' :
  check_bond_tiers prev ts env s = Ok u s' -> s' = s.
Proof.
  revert prev. induction ts as [|t ts IH]; intros prev; cbn [check_bond_tiers]; intros Hr;
    minv; [done|by eapply IH].
Qed.

(** Take the admin gate and the configuration read out of a setter's run. *)
Ltac setter :=
  repeat (minv;
    try match goal with
    | Hr : require_admin _ _ = Ok _ _ |- _ => apply require_admin_Ok in Hr as (-> & ? & ?)
    | Hr : check_bond_tiers _ _ _ _ = Ok _ _ |- _ => apply check_bond_tiers_Ok in Hr as ->
    | Hok : stored_ok (inst ?s), Hr : get_config _ ?s = Ok _ _ |- _ =>
        destruct (get_config_ok _ _ _ _ Hok Hr) as (-> & ? & ?); clear Hr
    end).

Lemma exec_stored_ok call env s s' :
  allowed call -> stored_ok (inst s) -> exec call env s = Ok tt s' -> stored_ok (inst s').
Proof.
  intros Ha Hok Hrun. destruct (sets_money call) eqn:Hm.
  - destruct call; try discriminate; cbn [exec] in Hrun.
    + unfold set_protocol_config in Hrun. setter.
      all: cbn; apply stored_ok_config; [done|done|zbool; lia].
    + unfold set_referral_share_bps in Hrun. setter. cbn in *. destruct Hok as [h1 h2 h3].
      split; intros ?; rewrite ?upd_eq, ?upd_ne by done; [apply h1|apply h2|by intros [= <-]].
    + unfold set_minimum_stake in Hrun. setter. zbool. cbn. apply stored_ok_config; try done.
      cbn. lia.
    + unfold set_maximum_stake in Hrun. setter. cbn. by apply stored_ok_config.
    + unfold set_match_timeout in Hrun. setter. cbn. by apply stored_ok_config.
    + unfold set_dispute_period in Hrun. setter. cbn in *. destruct Hok as [h1 h2 h3].
      split; intros ?; rewrite ?upd_eq, ?upd_ne by done; [by intros [= <-]|apply h2|apply h3].
    + unfold migrate_state, _apply_migrations in Hrun. setter; cbn in *; destruct Hok as [h1 h2 h3];
      (split; intros ?; rewrite ?upd_eq, ?upd_ne by done; [|apply h2|apply h3]);
      rewrite ?upd_eq; [by intros [= <-] | apply h1].
  - eapply stored_ok_ext; [|exact Hok].
    intros k Hk. apply (w_inst _ _ _ _ (rel_Ok _ _ _ _ _ _ (footprint call) Hrun)).
    by apply sets_money_writes.
Qed.
End Stored.
