(* ===== verification/Solvency.v ===== *)
(** Invariants of every reachable state of the escrow: the lifecycle of matches,
    the consistency of the per-state index, and solvency. *)
From stdpp Require Import base list numbers strings relations.
From Stdlib Require Import ZArith Lia.
From S2P Require Import Prelude Soroban EscrowTypes Config Tokens Players MatchIndex Snapshots.
From S2P Require Import RateOracle Rotation Matches Settlement Refunds.
From S2P Require Import Disputes Governance Ledger Core Lifecycle Simulation Calls Footprint.

(** ** Well-formed match records *)

Record wf (m : Match) : Prop := {
  wf_stake : 0 <= stake_amount m;
  wf_players : player1 m <> player2 m;
  wf_pending : state m = Pending -> both m = false;
  wf_funded : state m <> Pending -> state m <> Cancelled -> both m = true;
  wf_open : state m = Pending \/ state m = Active \/ state m = Paused ->
            vested_at m = None /\ player1_claimed m = false /\ player2_claimed m = false
}.

Lemma deposited_both env p m :
  state m = Pending -> state (deposited env p m) = Active <-> both (deposited env p m) = true.
Proof. intros Hp. rewrite deposited_state by done. by destruct (both _). Qed.

Lemma deposited_vesting env p m :
  vested_at (deposited env p m) = vested_at m /\
  player1_claimed (deposited env p m) = player1_claimed m /\
  player2_claimed (deposited env p m) = player2_claimed m.
Proof. unfold deposited, funded. repeat case_match; done. Qed.

(** The deposits a state stands for. *)
Definition funded_ok (m : Match) : Prop :=
  (state m = Pending -> both m = false) /\
  (state m <> Pending -> state m <> Cancelled -> both m = true).

Lemma evolve_funded env c m m' x : evolve env c m m' x -> funded_ok m -> funded_ok m'.
Proof.
  intros Hev [Hpe Hf]. split.
  - destruct Hev; try (unfold rollback_voted in *; case_match); cbn in *; try congruence; try done.
    rewrite deposited_state by done. destruct (both (deposited env player m)); done.
  - destruct Hev; try (unfold rollback_voted in *; case_match); cbn in *; intros;
      try (apply Hf; congruence); try done.
    rewrite deposited_state in * by done. destruct (both (deposited env player m)); done.
Qed.

Lemma evolve_wf env c m m' x : evolve env c m m' x -> wf m -> wf m'.
Proof.
  intros Hev [Hs Hp Hpe Hf Ho].
  pose proof (evolve_terms _ _ _ _ _ Hev) as Ht.
  assert (stake_amount m' = stake_amount m) as Hst by exact (f_equal stake_amount Ht).
  assert (player1 m' = player1 m) as Hp1 by exact (f_equal player1 Ht).
  assert (player2 m' = player2 m) as Hp2 by exact (f_equal player2 Ht).
  destruct (evolve_funded _ _ _ _ _ Hev (conj Hpe Hf)) as [Hpe' Hf'].
  split; [congruence | congruence | done | done |]; clear Ht Hst Hp1 Hp2 Hpe' Hf'.
  destruct Hev; try (unfold rollback_voted in *; case_match); cbn in *; intros;
    try (apply Ho; intuition congruence); try (exfalso; intuition congruence).
  destruct (deposited_vesting env player m) as (-> & -> & ->). auto.
Qed.

(** ** What the escrow owes for a match *)

Definition liability (m : Match) : Z :=
  match state m with
  | Pending | Active | Paused => escrowed m
  | PendingResult => 2 * stake_amount m
  | Cancelled => 0
  | Completed =>
      match vested_at m, winner m with
      | None, _ | _, WNone => 0
      | Some _, WPlayer1 => if player1_claimed m then 0 else 2 * stake_amount m
      | Some _, WPlayer2 => if player2_claimed m then 0 else 2 * stake_amount m
      | Some _, WDraw => (if player1_claimed m then 0 else stake_amount m) +
                         (if player2_claimed m then 0 else stake_amount m)
      end
  end.

Lemma liability_nonneg m : 0 <= stake_amount m -> 0 <= liability m.
Proof. intros. unfold liability, escrowed, depositor_count. repeat case_match; lia. Qed.

Lemma escrowed_both m : both m = true -> escrowed m = 2 * stake_amount m.
Proof.
  unfold both, escrowed, depositor_count. intros [-> ->]%andb_true_iff. lia.
Qed.

Lemma deposited_liability env p m :
  state m = Pending -> both m = false ->
  (p = player1 m /\ player1_deposited m = false) \/
  (p <> player1 m /\ p = player2 m /\ player2_deposited m = false) ->
  liability (deposited env p m) = liability m + stake_amount m.
Proof.
  intros Hp Hb Hg. unfold liability. rewrite deposited_state, Hp by done.
  assert (escrowed (deposited env p m) = escrowed m + stake_amount m) as Hes.
  { unfold deposited, funded, both, escrowed, depositor_count in *.
    destruct Hg as [[-> Hd]|(Hne & -> & Hd)];
      [rewrite (bool_decide_true (player1 m = player1 m)) by done
      |rewrite (bool_decide_false (player2 m = player1 m)) by done];
      cbn; rewrite Hd; repeat case_match; cbn in *; try lia; congruence. }
  by destruct (both (deposited env p m)).
Qed.

(** The step that keeps the books: what leaves the escrow is no longer owed. *)
Lemma evolve_liability env c m m' x :
  evolve env c m m' x -> wf m -> state m <> PendingResult -> dispute_period_of c = 0 ->
  liability m' + x <= liability m /\ state m' <> PendingResult.
Proof.
  intros Hev Hwf Hnp Hd. split.
  - assert (Ho : state m = Active \/ state m = Paused -> liability m = escrowed m)
      by (unfold liability; intros [-> | ->]; done).
    destruct Hev; try done.
    + rewrite deposited_liability by done. lia.
    + rewrite Ho, escrowed_both by done. unfold liability. cbn. destruct Hwf.
      destruct wf_open0 as (_ & -> & ->); [by right|]. repeat case_match; lia.
    + unfold liability; cbn. rewrite H, H0. cbn. destruct Hwf.
      case_bool_decide; destruct H4 as [Hw|Hw]; rewrite ?Hw in *; rewrite ?H3; try done; lia.
    + unfold liability; cbn. rewrite H, H0. cbn. destruct Hwf.
      case_bool_decide; destruct H5 as [Hw|Hw]; rewrite ?Hw in *; rewrite ?H4; try done; lia.
    + unfold liability; cbn. rewrite H. lia.
    + unfold rollback_voted; case_match; unfold liability; cbn; rewrite H; apply Z.eq_le_incl, Z.add_0_r.
    + rewrite (Ho (or_introl H)). cbn. lia.
    + rewrite (Ho H), escrowed_both by done. unfold liability. cbn. destruct Hwf.
      destruct wf_open0 as (-> & _ & _); [by right|]. lia.
    + rewrite (Ho (or_introl H)). cbn. unfold escrowed, depositor_count. cbn. lia.
    + rewrite (Ho (or_intror H)). cbn. unfold escrowed, depositor_count. cbn. lia.
    + unfold liability; cbn. rewrite H. unfold escrowed, depositor_count. cbn. lia.
  - destruct Hev; cbn; try congruence.
    + rewrite deposited_state by done. by case_match.
    + unfold rollback_voted; case_match; cbn; congruence.
Qed.

(** ** The books *)

Definition owed (t : Address) (c : Core) (i : Z) : Z :=
  match c_match c i with
  | Some m => if token m =a t then liability m else 0
  | None => 0
  end.

(** Everything the escrow owes in token [t]. *)
Definition total_owed (t : Address) (c : Core) : Z :=
  sum_list_with (owed t c) (seqZ 0 (c_count c)).

(** The settings under which the books balance: results are final at once (no
    dispute period), no setting is negative, and every match is in one token. *)
Record calm (me : Address) (c : Core) : Prop := {
  calm_period : dispute_period_of c = 0;
  calm_fees : fees_sane (config_of me c);
  calm_share : 0 <= referral_share c;
  calm_stake : 0 <= minimum_stake (stakes (config_of me c));
  calm_single i m : c_match c i = Some m -> token_b m = None
}.

Record sound (me : Address) (c : Core) : Prop := {
  so_count : 0 <= c_count c;
  so_match i m : c_match c i = Some m ->
    0 <= i < c_count c /\ wf m /\ state m <> PendingResult;
  so_solvent t : total_owed t c <= c_bal c t me
}.

Lemma owed_ext t c c' i : c_match c' i = c_match c i -> owed t c' i = owed t c i.
Proof. unfold owed. by intros ->. Qed.

Lemma total_owed_ext t c c' :
  c_count c' = c_count c -> (forall i, c_match c' i = c_match c i) ->
  total_owed t c' = total_owed t c.
Proof.
  intros Hn Hm. unfold total_owed. rewrite Hn. apply sum_list_with_ext.
  intros i _. by apply owed_ext.
Qed.

Lemma sound_same me c c' :
  (forall i, c_match c' i = c_match c i) -> c_count c' = c_count c ->
  (forall t, c_bal c t me <= c_bal c' t me) -> sound me c -> sound me c'.
Proof.
  intros Hm Hn Hb [h1 h2 h3]. split.
  - by rewrite Hn.
  - intros i m. rewrite Hm, Hn. apply h2.
  - intros t. rewrite (total_owed_ext t c c') by done. specialize (h3 t). specialize (Hb t). lia.
Qed.

Lemma same_settings_count c c' : same_settings c c' -> c_count c' = c_count c.
Proof. intros Hs. unfold c_count. by rewrite (Hs (DK KMatchCount)). Qed.

(** One match evolved. *)
Lemma sound_match env c c' mid m m' x :
  c_match c mid = Some m -> evolve env c m m' x ->
  (forall i, c_match c' i = if i =? mid then Some m' else c_match c i) ->
  c_count c' = c_count c -> dispute_period_of c = 0 ->
  (forall t, c_bal c t (self env) - delta (t =a token m) x <= c_bal c' t (self env)) ->
  sound (self env) c -> sound (self env) c'.
Proof.
  intros Hm Hev Hc' Hn Hd Hb [h1 h2 h3]. destruct (h2 _ _ Hm) as (Hr & Hwf & Hnp).
  destruct (evolve_liability _ _ _ _ _ Hev Hwf Hnp Hd) as [Hl Hnp'].
  split.
  - by rewrite Hn.
  - intros i m0. rewrite Hc', Hn. destruct (Z.eqb_spec i mid) as [->|]; [|apply h2].
    intros [= <-]. split; [done|]. split; [by eapply evolve_wf|done].
  - intros t. specialize (h3 t). specialize (Hb t). unfold total_owed in *. rewrite Hn.
    rewrite (sum_list_with_update (owed t c) (owed t c') _ mid).
    + unfold owed at 2 3. rewrite Hc', Z.eqb_refl, Hm.
      assert (token m' = token m) as ->
        by exact (f_equal token (evolve_terms _ _ _ _ _ Hev)).
      unfold delta in Hb. repeat case_bool_decide; simplify_eq; lia.
    + apply NoDup_seqZ.
    + apply elem_of_seqZ. lia.
    + intros i Hi. apply owed_ext. rewrite Hc'. by apply Z.eqb_neq in Hi as ->.
Qed.

Lemma wf_new p mid seq now lg :
  0 <= mp_stake_amount p -> mp_player1 p <> mp_player2 p -> wf (new_match p mid seq now lg).
Proof. intros. split; try done. Qed.

(** A match was created: nothing is owed for it yet. *)
Lemma sound_create env c c' p lg :
  0 <= mp_stake_amount p -> mp_player1 p <> mp_player2 p ->
  (forall i, c_match c' i =
     if i =? c_count c
     then Some (new_match p (c_count c) (sequence env) (timestamp env) lg)
     else c_match c i) ->
  c_count c' = c_count c + 1 ->
  (forall t, c_bal c' t (self env) = c_bal c t (self env)) ->
  sound (self env) c -> sound (self env) c'.
Proof.
  intros Hst Hpl Hc' Hn Hb [h1 h2 h3]. split.
  - lia.
  - intros i m. rewrite Hc', Hn. destruct (Z.eqb_spec i (c_count c)) as [->|].
    + intros [= <-]. split; [lia|]. split; [by apply wf_new|done].
    + intros Hm. destruct (h2 _ _ Hm) as (?&?&?). split; [lia|done].
  - intros t. rewrite Hb. specialize (h3 t). unfold total_owed in *.
    rewrite Hn, seqZ_app, sum_list_with_app by lia.
    change (seqZ (0 + c_count c) 1) with [0 + c_count c]. cbn [sum_list_with].
    replace (sum_list_with (owed t c') (seqZ 0 (c_count c)))
      with (sum_list_with (owed t c) (seqZ 0 (c_count c))).
    + unfold owed at 2. rewrite Z.add_0_l, Hc', Z.eqb_refl. cbn. unfold escrowed, depositor_count.
      cbn. case_match; lia.
    + apply sum_list_with_ext. intros i Hi%elem_of_seqZ. symmetry. apply owed_ext.
      rewrite Hc'. destruct (Z.eqb_spec i (c_count c)); [lia|done].
Qed.

Lemma mstep_sound env c c' :
  mstep env c c' -> authorized env (self env) = false -> calm (self env) c ->
  sound (self env) c -> sound (self env) c' /\ calm (self env) c'.
Proof.
  intros Hst Hme [k1 k2 k3 k4 k5] Hs.
  assert (Hcalm : same_settings c c' ->
            (forall i m, c_match c' i = Some m -> token_b m = None) -> calm (self env) c').
  { intros Hset Hsingle. unfold config_of, referral_share, dispute_period_of in *.
    split; try done; unfold dispute_period_of, config_of, referral_share;
      rewrite ?(Hset (DK KDisputePeriod)), ?(Hset (DK KProtocolConfig)), ?(Hset (DK KAdmin)),
        ?(Hset (DK KReferralShareBasisPoints)) by done; done. }
  destruct Hst as [c' Hm Hset Hb | mid m m' x c' Hm Hev Hc' Hset Hb | mid m c' Hm Ht Hc' Hset].
  - split.
    + eapply sound_same; [done|by apply same_settings_count|done|done].
    + apply Hcalm; [done|]. intros i m. rewrite Hm. apply k5.
  - specialize (k5 _ _ Hm) as Htb. destruct (so_match _ _ Hs _ _ Hm) as (_ & Hwf & _). split.
    + eapply sound_match; [done|done|done|by apply same_settings_count|done| |done].
      apply Hb; try done. by destruct Hwf.
    + apply Hcalm; [done|]. intros i m0. rewrite Hc'. destruct (i =? mid); [|apply k5].
      intros [= <-]. rewrite <- Htb.
      exact (f_equal token_b (evolve_terms _ _ _ _ _ Hev)).
  - by specialize (k5 _ _ Hm).
Qed.

Lemma msteps_sound env c c' :
  rtc (mstep env) c c' -> authorized env (self env) = false -> calm (self env) c ->
  sound (self env) c -> sound (self env) c'.
Proof.
  intros Hr Hme. induction Hr as [|c1 c2 c3 H12 _ IH]; intros Hc Hs; [done|].
  destruct (mstep_sound _ _ _ H12 Hme Hc Hs). by apply IH.
Qed.

Lemma cstep_sound env new c c' :
  cstep env new c c' -> authorized env (self env) = false -> calm (self env) c ->
  sound (self env) c -> sound (self env) c'.
Proof.
  intros Hst Hme Hc Hs.
  destruct Hst as [c' Hm | c' Hm Hn Hb | p lg c' _ (Ha & Hpl & Hpm & Hmin & _) Hno Hle Hc' Hn Hset Hb].
  - by eapply mstep_sound.
  - by eapply sound_same.
  - eapply sound_create; [|done|done|done|done|done]. destruct Hc. lia.
Qed.

(** ** Runs *)

Definition single_token (c : Core) : Prop := forall i m, c_match c i = Some m -> token_b m = None.

Lemma calm_of me c : stored_ok (c_inst c) -> single_token c -> calm me c.
Proof.
  intros [h1 h2 h3] Hs. split; [| | | |exact Hs].
  - unfold dispute_period_of. destruct (c_inst c KDisputePeriod) eqn:E; [by apply h1|done].
  - unfold config_of. destruct (c_inst c KProtocolConfig) eqn:E; [by apply h2|].
    apply default_config_ok.
  - unfold referral_share. destruct (c_inst c KReferralShareBasisPoints) eqn:E; [by apply h3|].
    cbn. unfold DEFAULT_REFERRAL_SHARE_BPS. lia.
  - unfold config_of. destruct (c_inst c KProtocolConfig) eqn:E; [by apply h2|].
    apply default_config_ok.
Qed.

Lemma allowed_single call p : allowed call -> created call = Some p -> mp_token_b p = None.
Proof. destruct call; cbn; try discriminate; try done; by intros _ [= <-]. Qed.

Section Runs.
Context {W : Type} `{TokenLaws W} `{!RateOracle W, !RateOracleLaws W}.
Context (me : Address).
Implicit Types s : State W.

(** The states the contract at [me] can be in: after a successful [initialize],
    any calls satisfying [ok] (the host commits only successful ones, and the
    contract does not sign its own calls), and anything the rest of the ledger
    does that does not take tokens from the contract. *)
Inductive reachable (ok : Call -> Prop) : State W -> Prop :=
| R_init env w oracle admin s :
    self env = me -> (forall t, 0 <= token_balance w t me) ->
    initialize oracle admin env (init_state w) = Ok tt s ->
    reachable ok s
| R_call env call s :
    reachable ok s -> self env = me -> authorized env me = false -> ok call ->
    reachable ok (snd (invoke (exec call) env s))
| R_outside w s :
    reachable ok s -> (forall t, token_balance (world s) t me <= token_balance w t me) ->
    reachable ok (with_world w s).

Lemma view_outside s w c :
  view s c -> view (with_world w s) (mkCore (c_match c) (c_index c) (c_inst c) (token_balance w)).
Proof. intros [vm vi vn vb]. by split. Qed.

Lemma initial_core env w oracle admin s :
  initialize oracle admin env (init_state w) = Ok tt s ->
  (forall k, pers s k = None) /\ world s = w /\ inst s KMatchCount = Some 0 /\
  stored_ok (inst s).
Proof.
  unfold initialize. intros Hr. minv. cbn. by split_and!.
Qed.

Lemma view_init env w oracle admin s :
  initialize oracle admin env (init_state w) = Ok tt s ->
  exists c, view s c /\ (forall i, c_match c i = None) /\ c_count c = 0 /\ c_bal c = token_balance w /\
    c_index c = fun _ => [].
Proof.
  intros Hr. destruct (initial_core _ _ _ _ _ Hr) as (Hp & Hw & Hn & _).
  exists (mkCore (fun _ => None) (fun _ => []) (inst s) (token_balance w)).
  split_and!; try done.
  - split; cbn; try done.
    + intros i. by rewrite Hp.
    + intros st. unfold index_of. by rewrite Hp.
    + by rewrite Hw.
  - unfold c_count. cbn. by rewrite Hn.
Qed.

(** The invariant carried through a run. *)
Lemma single_step env call c c' :
  allowed call -> cstep env (created call) c c' -> single_token c -> single_token c'.
Proof.
  intros Ha Hst Hs. destruct Hst as [c' Hm | c' Hm Hn Hb | p lg c' Hnew _ _ _ Hc' _ _ _].
  - destruct Hm as [c' Hm Hset Hb | mid m m' x c' Hm Hev Hc' Hset Hb | mid m c' Hm Ht Hc' Hset].
    + intros i m. rewrite Hm. apply Hs.
    + intros i m0. rewrite Hc'. destruct (i =? mid); [|apply Hs]. intros [= <-].
      rewrite <- (Hs _ _ Hm). exact (f_equal token_b (evolve_terms _ _ _ _ _ Hev)).
    + intros i m0. rewrite Hc'. apply Hs.
  - intros i m. rewrite Hm. apply Hs.
  - intros i m. rewrite Hc'. destruct (i =? c_count c); [|apply Hs]. intros [= <-].
    by eapply allowed_single.
Qed.

Definition books s : Prop :=
  exists c, view s c /\ sound me c /\ stored_ok (inst s) /\ single_token c.

Lemma view_stored s c : view s c -> stored_ok (inst s) -> stored_ok (c_inst c).
Proof.
  intros Hv. apply stored_ok_ext. intros k Hk. symmetry. apply (v_inst _ _ Hv).
  by intros ->.
Qed.

Lemma books_call env call s s' :
  self env = me -> authorized env me = false -> allowed call ->
  exec call env s = Ok tt s' -> books s -> books s'.
Proof.
  intros Hse Hme Ha Hrun (c & Hv & Hso & Hst & Hsi). rewrite <- Hse in Hme, Hso.
  pose proof (calm_of (self env) c (view_stored s c Hv Hst) Hsi) as Hcalm.
  destruct (exec_steps call env s s' c Hv Hrun) as (c' & Hv' & Hstep & _).
  exists c'. split; [done|]. split; [|split; [by eapply exec_stored_ok|]].
  - rewrite <- Hse. destruct Hstep; [by eapply cstep_sound|by eapply msteps_sound].
  - destruct Hstep as [Hc|Hr]; [by eapply single_step|]. clear Hv Hv' Hrun Hcalm Hso.
    induction Hr as [|c1 c2 c3 H12 _ IH]; [done|].
    apply IH. eapply single_step; [exact Ha|apply S_move; exact H12|done].
Qed.

Lemma reachable_books s : reachable allowed s -> books s.
Proof.
  induction 1 as [env w oracle admin s Hse Hb Hr | env call s _ IH Hse Hme Ha | w s _ IH Hb].
  - destruct (view_init _ _ _ _ _ Hr) as (c & Hv & Hn & Hc & Hbal & _).
    exists c. split; [done|]. split; [|split].
    + split; [lia | intros i m; by rewrite Hn |]. intros t. unfold total_owed. rewrite Hc, Hbal.
      apply Hb.
    + by destruct (initial_core _ _ _ _ _ Hr) as (_ & _ & _ & ?).
    + intros i m. by rewrite Hn.
  - unfold invoke. destruct (exec call env s) as [[] s'|e s'|] eqn:Hrun; cbn; [|done..].
    by eapply books_call.
  - destruct IH as (c & Hv & Hso & Hst & Hsi).
    eexists. split; [by apply view_outside|]. split; [|done].
    apply (sound_same me c); [done|done| |exact Hso]. intros t. cbn.
    rewrite <- (v_bal _ _ Hv). apply Hb.
Qed.

Lemma view_total_owed s c t : view s c -> total_owed t c = total_owed t (core_of s).
Proof.
  intros [vm vi vn vb]. apply total_owed_ext.
  - unfold c_count. cbn. by rewrite <- (vn (DK KMatchCount)).
  - intros i. cbn. by rewrite vm.
Qed.

(** C1: Solvency. In every reachable state of a run without a dispute period,
    with non-negative fee settings and single-token matches, the escrow's
    balance of every token covers everything it owes in that token: the stakes
    held for open matches and the unclaimed payouts of completed ones. *)
Theorem solvency s t :
  reachable allowed s -> total_owed t (core_of s) <= token_balance (world s) t me.
Proof.
  intros Hr. destruct (reachable_books s Hr) as (c & Hv & Hso & _).
  rewrite <- (view_total_owed s c t Hv), (v_bal _ _ Hv). apply Hso.
Qed.
End Runs.
