(* ===== verification/Invariants.v ===== *)
(** What every call and every run preserves: the terms and the lifecycle of each
    match, the per-state index, and single claims. *)
From stdpp Require Import base list numbers strings relations.
From Stdlib Require Import ZArith Lia.
From S2P Require Import Prelude Soroban EscrowTypes Config Tokens Players MatchIndex Snapshots.
From S2P Require Import RateOracle Rotation Matches Settlement Refunds.
From S2P Require Import Disputes Governance Ledger Core Lifecycle Simulation Calls.
From S2P Require Import Solvency Footprint.

Definition path : MatchState -> MatchState -> Prop := rtc (fun a b => edge a b = true).

(** The flags of a match that are never taken back. *)
Definition flags_kept (m m' : Match) : Prop :=
  (player1_claimed m = true -> player1_claimed m' = true) /\
  (player2_claimed m = true -> player2_claimed m' = true) /\
  (player1_deposited m = true -> player1_deposited m' = true) /\
  (player2_deposited m = true -> player2_deposited m' = true).

(** How a match may have changed after any number of steps. *)
Record descends (m m' : Match) : Prop := {
  de_terms : terms m' = terms m;
  de_path : path (state m) (state m');
  de_flags : flags_kept m m'
}.

#[export] Instance descends_preorder : PreOrder descends.
Proof.
  split.
  - intros m. split; [done|apply rtc_refl|by repeat split].
  - intros m1 m2 m3 [t1 p1 (a1&b1&c1&d1)] [t2 p2 (a2&b2&c2&d2)].
    split; [congruence|unfold path in *; by transitivity (state m2)|repeat split; auto].
Qed.

Lemma evolve_descends env c m m' x : evolve env c m m' x -> descends m m'.
Proof.
  intros Hev. split.
  - by eapply evolve_terms.
  - destruct (evolve_edge _ _ _ _ _ Hev) as [->|He]; [apply rtc_refl|by apply rtc_once].
  - destruct Hev; try (repeat split; done); unfold flags_kept, deposited, funded, rollback_voted;
      repeat case_match; repeat split; done.
Qed.

Definition core_descends (c c' : Core) : Prop :=
  forall i m, c_match c i = Some m -> exists m', c_match c' i = Some m' /\ descends m m'.

#[export] Instance core_descends_preorder : PreOrder core_descends.
Proof.
  split.
  - intros c i m Hm. by exists m.
  - intros c1 c2 c3 H12 H23 i m Hm. destruct (H12 _ _ Hm) as (m2 & Hm2 & Hd2).
    destruct (H23 _ _ Hm2) as (m3 & Hm3 & Hd3). exists m3. split; [done|by transitivity m2].
Qed.

Lemma mstep_descends env c c' : mstep env c c' -> core_descends c c'.
Proof.
  destruct 1 as [c' Hc' | mid m m' x c' Hm Hev Hc' | mid m c' Hm Ht Hc'];
    intros i m0 Hi; rewrite Hc'; try (by exists m0).
  destruct (Z.eqb_spec i mid) as [->|]; [|by exists m0].
  exists m'. simplify_eq. split; [done|by eapply evolve_descends].
Qed.

Lemma cstep_descends env new c c' : cstep env new c c' -> core_descends c c'.
Proof.
  destruct 1 as [c' Hm | c' Hc' | p lg c' _ _ Hno _ Hc'].
  - by eapply mstep_descends.
  - intros i m0 Hi. rewrite Hc'. by exists m0.
  - intros i m0 Hi. rewrite Hc'. destruct (Z.eqb_spec i (c_count c)) as [->|]; [congruence|].
    by exists m0.
Qed.

Lemma msteps_descends env c c' : rtc (mstep env) c c' -> core_descends c c'.
Proof.
  induction 1 as [|c1 c2 c3 H12 _ IH]; [reflexivity|].
  transitivity c2; [by eapply mstep_descends|done].
Qed.

Section Invariants.
Context {W : Type} `{TokenLaws W} `{!RateOracle W, !RateOracleLaws W}.
Implicit Types s : State W.

Lemma exec_descends call env s s' i (m : Match) :
  exec call env s = Ok tt s' -> pers s (KMatch i) = Some m ->
  exists m' : Match, pers s' (KMatch i) = Some m' /\ descends m m'.
Proof.
  intros Hrun Hm. pose proof (view_core_of s) as Hv.
  destruct (exec_steps call env s s' _ Hv Hrun) as (c' & Hv' & Hst & _).
  assert (core_descends (core_of s) c') as Hd.
  { destruct Hst; [by eapply cstep_descends|by eapply msteps_descends]. }
  destruct (Hd i m Hm) as (m' & Hm' & Hdm). exists m'. split; [|done].
  by rewrite (v_match _ _ Hv').
Qed.


Lemma terminal_stuck a b : is_terminal a = true -> path a b -> b = a.
Proof. intros Ha Hp. destruct Hp as [|a b c He _]; [done|]. by destruct a, b. Qed.

(** Terminal states absorb: a completed or cancelled match stays completed or
    cancelled under every call. *)
Theorem terminal_absorbing call env s s' i (m : Match) :
  exec call env s = Ok tt s' -> pers s (KMatch i) = Some m -> is_terminal (state m) = true ->
  exists m' : Match, pers s' (KMatch i) = Some m' /\ state m' = state m.
Proof.
  intros Hrun Hm Ht. destruct (exec_descends _ _ _ _ _ _ Hrun Hm) as (m' & ? & [? Hp ?]).
  exists m'. split; [done|by apply terminal_stuck].
Qed.

(** The transition table of [state_machine.rs] against the contract: every
    edge the contract takes is in the table except [Active -> Completed], which
    [settle_result] takes although the table forbids it. *)
Theorem table_covers_edges a b :
  edge a b = true -> is_valid_transition a b = true \/ (a = Active /\ b = Completed).
Proof. destruct a, b; cbn; auto; discriminate. Qed.

(** ** The index *)

(** The calls under which the index stays consistent: all but [deposit_batch]. *)
Definition not_deposit_batch (c : Call) : Prop :=
  match c with DepositBatch _ => False | _ => True end.

Lemma reachable_index me s :
  reachable me not_deposit_batch s -> exists c, view s c /\ idx_ok c.
Proof.
  induction 1 as [env w oracle admin s Hse Hb Hr | env call s _ IH Hse Hme Ha | w s _ IH Hb].
  - destruct (view_init _ _ _ _ _ Hr) as (c & Hv & Hn & Hc & Hbal & Hix).
    exists c. split; [done|]. split.
    + intros i m. by rewrite Hn.
    + intros st. rewrite Hix. constructor.
    + intros st i. rewrite Hix, elem_of_nil. split; [done|]. intros (m & Hm & _).
      by rewrite Hn in Hm.
  - unfold invoke. destruct (exec call env s) as [[] s'|e s'|] eqn:Hrun; cbn; [|done..].
    destruct IH as (c & Hv & Hix).
    destruct (exec_steps call env s s' c Hv Hrun) as (c' & Hv' & _ & Hkeep).
    exists c'. split; [done|]. destruct call; try (by apply Hkeep). done.
  - destruct IH as (c & Hv & [h1 h2 h3]). eexists. split; [by apply view_outside|].
    by split.
Qed.


(** ** Claims *)

(** The states that can follow [s]. *)
Definition follows : State W -> State W -> Prop :=
  rtc (fun s s' => exists env call, s' = snd (invoke (exec call) env s)).

Lemma follows_descends s s' i (m : Match) :
  follows s s' -> pers s (KMatch i) = Some m ->
  exists m' : Match, pers s' (KMatch i) = Some m' /\ descends m m'.
Proof.
  intros Hf. revert m. induction Hf as [|s1 s2 s3 (env & call & ->) _ IH]; intros m Hm.
  { by exists m. }
  unfold invoke in *. destruct (exec call env s1) as [[] s2|e s2|] eqn:Hrun; cbn in *;
    [|by apply IH..].
  destruct (exec_descends _ _ _ _ _ _ Hrun Hm) as (m2 & Hm2 & Hd).
  destruct (IH _ Hm2) as (m3 & Hm3 & Hd3). exists m3. split; [done|by transitivity m2].
Qed.

Definition claimed (p : Address) (m : Match) : bool :=
  if p =a player1 m then player1_claimed m else player2_claimed m.

(** A successful claim finds the caller's flag unset and leaves it set. *)
Lemma wp_claim_flag mid p env s c :
  view s c ->
  wp (claim_vested_payout mid p) env s
    (fun _ s' => exists m c', c_match c mid = Some m /\ claimed p m = false /\ view s' c' /\
       c_match c' mid = Some (if p =a player1 m then m <| player1_claimed := true |>
                              else m <| player2_claimed := true |>))
    (fun _ _ => True).
Proof.
  intros Hv. unfold claim_vested_payout, claimed. wpx.
  all: first [eapply wp_pay_winner; [eassumption|by intros|]; intros ? s1 c1 Hv1 _ _
             |eapply wp_pay_draw; [eassumption|]; intros s1 c1 Hv1 _ _]; wpx.
  all: eexists m, _; split_and!; [eassumption| |eassumption|];
    first [rewrite (bool_decide_true (p = player1 m)) by done
          |rewrite (bool_decide_false (p = player1 m)) by done];
    [done|apply c_store_match].
Qed.

(** C2: A payout is claimed at most once. Once a player's claim of a match has
    succeeded, whatever calls follow, no further claim of that match by that
    player succeeds. *)
Theorem claim_once mid p env s s1 env2 s2 :
  claim_vested_payout mid p env s = Ok tt s1 -> follows s1 s2 ->
  forall s3, claim_vested_payout mid p env2 s2 <> Ok tt s3.
Proof.
  intros Hc Hf s3 Hc2.
  pose proof (wp_claim_flag mid p env s _ (view_core_of s)) as Hw.
  unfold wp in Hw. rewrite Hc in Hw. destruct Hw as (m & c1 & _ & _ & Hv1 & Hm1).
  rewrite <- (v_match _ _ Hv1) in Hm1.
  destruct (follows_descends _ _ _ _ Hf Hm1) as (m2 & Hm2 & Hd).
  pose proof (wp_claim_flag mid p env2 s2 _ (view_core_of s2)) as Hw.
  unfold wp in Hw. rewrite Hc2 in Hw. destruct Hw as (m2' & c3 & Hm2' & Hcl & _).
  cbn in Hm2'. rewrite Hm2 in Hm2'. injection Hm2' as <-.
  destruct Hd as [Ht _ (h1 & h2 & _)].
  assert (player1 m2 = player1 m) as Hp.
  { apply (f_equal player1) in Ht. revert Ht. by case_bool_decide. }
  revert Hcl h1 h2. unfold claimed. rewrite Hp. case_bool_decide; cbn; intros Hcl h1 h2.
  - by rewrite h1 in Hcl.
  - by rewrite h2 in Hcl.
Qed.
End Invariants.
