(* ===== verification/Effects.v ===== *)
(** What each money-moving entry point does when it returns [Ok]: the record it
    leaves, the exact payments it makes, and whose authorization it had.  The
    payments are stated as a list; nothing else moves. *)
From stdpp Require Import base list strings relations.
From Stdlib Require Import ZArith Lia.
From S2P Require Import Prelude Soroban EscrowTypes Config Tokens Players MatchIndex Snapshots.
From S2P Require Import RateOracle Rotation Matches Settlement Refunds.
From S2P Require Import Disputes Governance Ledger Core Lifecycle Simulation Calls.
From S2P Require Import Footprint.

Record Payment := Pay { pay_token : Address; pay_from : Address; pay_to : Address; pay_amount : Z }.

(** Balances after one payment. *)
Definition paid (b : Address -> Address -> Z) (p : Payment) (t a : Address) : Z :=
  b t a - delta ((t =a pay_token p) && (a =a pay_from p)) (pay_amount p)
        + delta ((t =a pay_token p) && (a =a pay_to p)) (pay_amount p).

(** A payment that is only made under a condition. *)
Definition pay_if (b : bool) (p : Payment) : list Payment := if b then [p] else [].

Lemma paid_ext ps b1 b2 :
  (forall t a, b1 t a = b2 t a) -> forall t a, foldl paid b1 ps t a = foldl paid b2 ps t a.
Proof.
  revert b1 b2. induction ps as [|p ps IH]; intros b1 b2 Hb t a; [apply Hb|].
  cbn. apply IH. intros. unfold paid. by rewrite Hb.
Qed.

Lemma paid_app ps1 ps2 b b1 b2 :
  (forall t a, b1 t a = foldl paid b ps1 t a) -> (forall t a, b2 t a = foldl paid b1 ps2 t a) ->
  forall t a, b2 t a = foldl paid b (ps1 ++ ps2) t a.
Proof. intros H1 H2 t a. rewrite H2, foldl_app. by apply paid_ext. Qed.

Section Effects.
Context {W : Type} `{TokenLaws W} `{!RateOracle W, !RateOracleLaws W}.
Implicit Types s : State W.

Definition match_of s (i : Z) : option Match := pers s (KMatch i).

(** The ledger differs by exactly the payments [ps]. *)
Definition pays (ps : list Payment) s s' : Prop :=
  forall t a, token_balance (world s') t a = foldl paid (token_balance (world s)) ps t a.

(** The stored matches differ by exactly the record [m'] at [mid]. *)
Definition rewrites (mid : Z) (m' : Match) s s' : Prop :=
  forall i, match_of s' i = if i =? mid then Some m' else match_of s i.

Lemma view_pays s s' c' ps :
  view s' c' -> (forall t a, c_bal c' t a = foldl paid (token_balance (world s)) ps t a) ->
  pays ps s s'.
Proof. intros Hv Hc t a. by rewrite (v_bal _ _ Hv). Qed.

Lemma view_rewrites s s' c' mid m' :
  view s' c' -> (forall i, c_match c' i = if i =? mid then Some m' else match_of s i) ->
  rewrites mid m' s s'.
Proof. intros Hv Hc i. unfold match_of at 1. by rewrite (v_match _ _ Hv). Qed.

Lemma reindex_match mid a b c i : c_match (c_reindex mid a b c) i = c_match c i.
Proof. unfold c_reindex. by case_bool_decide. Qed.
Lemma reindex_bal mid a b c t x : c_bal (c_reindex mid a b c) t x = c_bal c t x.
Proof. unfold c_reindex. by case_bool_decide. Qed.
End Effects.

(** Start: turn [op env s = Ok tt s'] into a symbolic execution of [op]. *)
Ltac effect op Hrun :=
  match type of Hrun with
  | _ ?env ?s = Ok _ ?s' =>
      let Q := fresh "Q" in
      pattern s'; match goal with |- ?P s' => set (Q := P) end;
      refine (wp_Ok _ env s (fun _ => Q) (fun _ _ => True) _ s' _ Hrun); clear Hrun;
      subst Q;
      pose proof (view_core_of s) as Hview; unfold op
  end.

(** Finish: read the record and the payments off the view. *)
Ltac show_rewrites :=
  eapply view_rewrites; [eassumption|]; intros ?; cbn [c_match c_store];
  rewrite ?reindex_match; try reflexivity.
Ltac show_pays :=
  eapply view_pays; [eassumption|]; intros ? ?; cbn [c_bal c_store]; rewrite ?reindex_bal;
  try reflexivity.

(** Checked arithmetic that succeeded is plain arithmetic. *)
Ltac unchecked :=
  repeat match goal with
    | Hc : i128_checked_sub _ _ = Some _ |- _ => apply checked_Some in Hc as [<- _]
    | Hc : i128_checked_mul _ _ = Some _ |- _ => apply checked_Some in Hc as [<- _]
    | Hc : i128_checked_add _ _ = Some _ |- _ => apply checked_Some in Hc as [<- _]
    end.

Section DepositEffect.
Context {W : Type} `{TokenLaws W} `{!RateOracle W, !RateOracleLaws W}.
Implicit Types s : State W.

(** A successful [deposit] was authorized by a player of the match who had not
    paid yet, found the match pending, moves exactly the stake from that player
    to the escrow, and records the deposit; the second deposit activates the
    match. Nothing else of any match or balance changes. *)
Theorem deposit_effect mid p env s s' :
  deposit mid p env s = Ok tt s' ->
  exists m, match_of s mid = Some m /\ state m = Pending /\ authorized env p = true /\
    ((p = player1 m /\ player1_deposited m = false) \/
     (p = player2 m /\ player2_deposited m = false)) /\
    rewrites mid (deposited env p m) s s' /\
    pays [Pay (token m) p (self env) (stake_amount m)] s s'.
Proof.
  intros Hrun. effect @deposit Hrun.
  unfold reject_deposit_if, activate_match, add_active_or_reject. wpx; try done.
  all: fold (funded env p m) in *.
  all: pose proof (deposit_guards p (player1 m) (player2 m) (player1_deposited m)
         (player2_deposited m) ltac:(assumption) ltac:(assumption) ltac:(assumption)) as Hg.
  all: exists m; split_and!; [done|done|done|tauto| |show_pays].
  all: show_rewrites; unfold deposited, both;
    repeat match goal with Hb : _ = _ |- context [_ && _] => rewrite Hb end; done.
Qed.
End DepositEffect.

(** ** Refunds *)

(** What player 2's stake is worth in the token it is refunded in. *)
Definition p2_amount (m : Match) : Z :=
  if is_multi_token m then Z.quot (stake_amount m * default 0 (conversion_rate m)) 10000000
  else stake_amount m.

Lemma single_not_multi m : token_b m = None -> is_multi_token m = false.
Proof. unfold is_multi_token. by intros ->. Qed.

(** The refunds of both sides, in full. *)
Definition full_refund (me : Address) (m : Match) : list Payment :=
  pay_if (player1_deposited m) (Pay (token m) me (player1 m) (stake_amount m)) ++
  pay_if (player2_deposited m) (Pay (p2_token m) me (player2 m) (p2_amount m)).

(** The match timeout in ledgers: the configured seconds, rounded up. *)
Definition timeout_ledgers (cfg : ProtocolConfig) : Z :=
  as_u32 ((match_timeout_seconds (timeouts cfg) + SECONDS_PER_LEDGER - 1) / SECONDS_PER_LEDGER).

Section RefundEffects.
Context {W : Type} `{TokenLaws W} `{!RateOracle W, !RateOracleLaws W}.
Implicit Types s : State W.

Definition config_at (env : Env) s : ProtocolConfig := config_of (self env) (core_of s).

Lemma wp_convert a r env s (Q : Z -> State W -> Prop) QE :
  (forall e, QE e s) -> Q (Z.quot (a * r) 10000000) s -> wp (convert a r) env s Q QE.
Proof.
  intros HE HQ. unfold convert. apply wp_bind, wp_ok_or; [done|]. intros p Hp.
  apply wp_ok_or; [done|]. intros q Hq.
  apply checked_Some in Hp as [<- _]. cbn in Hq. apply checked_Some in Hq as [<- _]. done.
Qed.

Lemma wp_p2_amount m env s (Q : Z -> State W -> Prop) QE :
  (forall e, QE e s) -> Q (p2_amount m) s -> wp (p2_refund m) env s Q QE.
Proof.
  intros HE HQ. unfold p2_refund, p2_amount in *. destruct (is_multi_token m).
  - by apply wp_convert.
  - by apply wp_ret.
Qed.

(** Both refunds, as one execution step. *)
Lemma wp_full_refund {A} m (k : unit -> EM W A) env s c (Q : A -> State W -> Prop) QE :
  view s c -> (forall e s', QE e s') ->
  (forall s' cb, view s' cb -> rebalanced c cb ->
     (forall t a, c_bal cb t a = foldl paid (c_bal c) (full_refund (self env) m) t a) ->
     wp (k tt) env s' Q QE) ->
  wp (refund_player1 m) env s (fun _ s1 => wp (refund_player2 m ≫= k) env s1 Q QE) QE.
Proof.
  intros Hv HE HQ. unfold refund_player1, refund_player2, full_refund, pay_if in *.
  wpx; try (eapply wp_p2_amount; [by intros|]; wpx).
  all: repeat match goal with |- wp (?k ?a) _ _ _ _ => is_var k; destruct a end.
  all: eapply HQ; [eassumption|done|done].
Qed.

Lemma timeout_checked cfg a :
  checked 0 u64_max (match_timeout_seconds (timeouts cfg) + SECONDS_PER_LEDGER) = Some a ->
  as_u32 ((a - 1) / SECONDS_PER_LEDGER) = timeout_ledgers cfg.
Proof. by intros [<- _]%checked_Some. Qed.

(** A successful [expire_match] needs no authorization, found the match pending
    for at least the configured timeout, returns to each side that had paid
    exactly its stake, and cancels the match. *)
Theorem expire_effect mid env s s' :
  expire_match mid env s = Ok tt s' ->
  exists m, match_of s mid = Some m /\ state m = Pending /\
    timeout_ledgers (config_at env s) <= u32_sat_sub (sequence env) (created_ledger m) /\
    rewrites mid (cancelled env m) s s' /\ pays (full_refund (self env) m) s s'.
Proof.
  intros Hrun. effect @expire_match Hrun. unfold current_match_timeout, store_cancelled. wpx.
  eapply wp_full_refund; [eassumption|done|]. intros s1 cb Hv1 (Hm1 & _) Hb1. wpx.
  erewrite timeout_checked in * by eassumption.
  exists m. split_and!; [done|done|done|show_rewrites; by rewrite Hm1|].
  show_pays. apply Hb1.
Qed.

Lemma wp_require_admin env s c (Q : Address -> State W -> Prop) (QE : Error -> _ -> Prop) :
  view s c -> (forall e, QE e s) ->
  (forall a, c_inst c KAdmin = Some a -> authorized env a = true -> Q a s) ->
  wp require_admin env s Q QE.
Proof.
  intros Hv HE HQ. unfold require_admin, load_admin. apply wp_bind, wp_bind.
  unfold wp at 1. cbn. apply wp_ok_or; [by intros; apply HE|]. intros a Ha. cbn.
  apply wp_bind, wp_require_auth. intros Hau. apply wp_ret. apply HQ; [|done].
  by rewrite <- (v_inst _ _ Hv).
Qed.

Lemma wp_require_caller_admin who env s c (Q : unit -> State W -> Prop) (QE : Error -> _ -> Prop) :
  view s c -> (forall e, QE e s) ->
  (c_inst c KAdmin = Some who -> authorized env who = true -> Q tt s) ->
  wp (require_caller_admin who) env s Q QE.
Proof.
  intros Hv HE HQ. unfold require_caller_admin, load_admin.
  apply wp_bind, wp_require_auth. intros Hau. apply wp_bind, wp_bind. unfold wp at 1. cbn.
  apply wp_ok_or; [by intros; apply HE|]. intros a Ha. cbn.
  apply wp_fail_if; [by intros; apply HE|]. intros Hb. zbool. subst a.
  apply HQ; [by rewrite <- (v_inst _ _ Hv)|done].
Qed.

(** [admin_recover_match] is the admin's expiry: it needs the admin's
    authorization and the same elapsed timeout, and refunds both sides in full. *)
Theorem recover_effect mid env s s' :
  admin_recover_match mid env s = Ok tt s' ->
  exists m admin, match_of s mid = Some m /\ state m = Pending /\
    inst s KAdmin = Some admin /\ authorized env admin = true /\
    timeout_ledgers (config_at env s) <= u32_sat_sub (sequence env) (created_ledger m) /\
    rewrites mid (cancelled env m) s s' /\ pays (full_refund (self env) m) s s'.
Proof.
  intros Hrun. effect @admin_recover_match Hrun. unfold current_match_timeout, store_cancelled.
  apply wp_bind. eapply wp_require_admin; [eassumption|done|]. intros admin Had Hau. wpx.
  eapply wp_full_refund; [eassumption|done|]. intros s1 cb Hv1 (Hm1 & _) Hb1. wpx.
  erewrite timeout_checked in * by eassumption.
  exists m, admin. split_and!; [done|done|done|done|done|show_rewrites; by rewrite Hm1|].
  show_pays. apply Hb1.
Qed.

(** The fee of a cancellation, and the payments of one side's leg. *)
Definition cancel_fee (cfg : ProtocolConfig) (x : Z) : Z :=
  if cancellation_fee_basis_points (fees cfg) >? 0
  then Z.quot (x * cancellation_fee_basis_points (fees cfg)) 10000 else 0.
Definition cancel_leg (me : Address) (cfg : ProtocolConfig) (t player : Address) (x : Z)
    : list Payment :=
  Pay t me player (x - cancel_fee cfg x)
    :: pay_if (cancel_fee cfg x >? 0) (Pay t me (treasury cfg) (cancel_fee cfg x)).
Definition cancel_payments (me : Address) (cfg : ProtocolConfig) (m : Match) : list Payment :=
  (if player1_deposited m then cancel_leg me cfg (token m) (player1 m) (stake_amount m) else []) ++
  (if player2_deposited m then cancel_leg me cfg (p2_token m) (player2 m) (p2_amount m) else []).

Lemma wp_cancel_fee cfg x env s (Q : Z -> State W -> Prop) QE :
  (forall e, QE e s) -> Q (cancel_fee cfg x) s -> wp (cancellation_fee cfg x) env s Q QE.
Proof.
  intros HE HQ. unfold cancellation_fee, cancel_fee in *.
  destruct (cancellation_fee_basis_points (fees cfg) >? 0); [|by apply wp_ret].
  apply wp_bind, wp_ok_or; [done|]. intros p Hp. apply checked_Some in Hp as [<- _]. done.
Qed.

Lemma wp_leg cfg p t x env s c (Q : unit -> State W -> Prop) (QE : Error -> _ -> Prop) :
  view s c ->
  (forall s' cb, view s' cb -> rebalanced c cb ->
     (forall t' a, c_bal cb t' a = foldl paid (c_bal c) (cancel_leg (self env) cfg t p x) t' a) ->
     Q tt s') ->
  wp (refund_less_fee cfg t p (x - cancel_fee cfg x) (cancel_fee cfg x)) env s Q QE.
Proof.
  intros Hv HQ. unfold refund_less_fee, cancel_leg, pay_if in *. wp_step. wp_step. wp_step.
  wp_step. wp_step; [wp_step|wpx]; (eapply HQ; [eassumption|done|done]).
Qed.

(** A successful [cancel_match] was asked for by a player of a pending match;
    each side that had paid gets its stake back less the cancellation fee, the
    treasury gets the fee, and the match is cancelled. *)
Theorem cancel_effect mid who env s s' :
  cancel_match mid who env s = Ok tt s' ->
  exists m, match_of s mid = Some m /\ state m = Pending /\ authorized env who = true /\
    (who = player1 m \/ who = player2 m) /\
    rewrites mid (cancelled env m) s s' /\
    pays (cancel_payments (self env) (config_at env s) m) s s'.
Proof.
  intros Hrun. effect @cancel_match Hrun. unfold store_cancelled. wpx.
  eapply wp_cancel_fee; [done|]. wpx.
  all: unchecked.
  all: try (eapply wp_leg; [eassumption|]; intros s1 c1 Hv1 (Hm1 & _) Hb1; wpx).
  all: try (eapply wp_p2_amount; [done|]; wpx; eapply wp_cancel_fee; [done|]; wpx).
  all: unchecked.
  all: try (eapply wp_leg; [eassumption|]; intros s2 c2 Hv2 (Hm2 & _) Hb2; wpx).
  all: exists m; split_and!; [done|done|done|by apply caller_is_player| |].
  all: try (show_rewrites; try rewrite Hm2; try rewrite Hm1; done).
  all: show_pays; unfold cancel_payments, config_at.
  all: repeat match goal with Hd : ?b = _ |- context [if ?b then _ else _] => rewrite Hd end.
  all: first [by eapply paid_app; eauto | eauto | rewrite app_nil_r; eauto].
Qed.
End RefundEffects.

(** ** Results *)

Section SettleEffects.
Context {W : Type} `{TokenLaws W} `{!RateOracle W, !RateOracleLaws W}.
Implicit Types s : State W.

(** Who may report results: the temporary oracle while a rotation from the stored
    oracle lasts, the stored oracle otherwise. *)
Definition oracle_in_charge (env : Env) s : option Address :=
  match (inst s KOracle : option Address) with
  | None => None
  | Some base =>
      Some (match temp_of (default empty_rotation (inst s KOracleRotation)) with
            | Some rot =>
                if (timestamp env <? temp_rot_expiry rot) && (temp_rot_old_oracle rot =a base)
                then temp_rot_oracle rot else base
            | None => base
            end)
  end.

Lemma effective_oracle_Ok env s o s' :
  effective_oracle env s = Ok o s' -> oracle_in_charge env s = Some o /\ quiet s s'.
Proof.
  intros Hr. split; [|by eapply rel_Ok; [apply quiet_effective_oracle|exact Hr]].
  revert Hr. unfold effective_oracle, get_rotation_state, oracle_in_charge. intros Hr.
  minv; repeat match goal with Hx : inst _ _ = _ |- _ => rewrite Hx end;
    repeat match goal with Hx : temp_of _ = _ |- _ => rewrite Hx end;
    repeat match goal with Hx : _ && _ = _ |- _ => rewrite Hx end; done.
Qed.

(** The record a reported result leaves. *)
Definition reported (env : Env) (period : Z) (w : Winner) (m : Match) : Match :=
  if period =? 0 then settled env w Completed (Some (sequence env)) m
  else settled env w PendingResult (completed_ledger m) m.

Definition playing (m : Match) : Prop :=
  (state m = Active \/ state m = Paused) /\ both m = true.

Lemma period_store mid m c : dispute_period_of (c_store mid m c) = dispute_period_of c.
Proof. done. Qed.
Lemma period_reindex mid a b c :
  dispute_period_of (c_reindex mid a b c) = dispute_period_of c.
Proof. unfold c_reindex. by case_bool_decide. Qed.

Lemma settle_Ok mid w conf env s c s' :
  view s c -> settle_result mid w conf env s = Ok tt s' ->
  exists m, c_match c mid = Some m /\ playing m /\ w <> WNone /\
    (forall i, match_of s' i = if i =? mid then Some (reported env (dispute_period_of c) w m)
                               else c_match c i) /\
    (forall t a, token_balance (world s') t a = c_bal c t a).
Proof.
  intros Hv Hrun. effect @settle_result Hrun. clear Hview.
  unfold settle_now, settle_later. wpx; try done.
  all: exists m; assert (Hst : state m = Active \/ state m = Paused)
         by (match goal with Hg : _ && _ = false |- _ => apply andb_false_iff in Hg as [?|?] end;
             zbool; auto).
  all: split_and!; [done|split; [done|by apply andb_true_iff]|done| |].
  all: repeat match goal with
         | Hp : context [dispute_period_of] |- _ => revert Hp
         end; rewrite ?period_store, ?period_reindex; intros.
  all: first [ unfold match_of, reported; erewrite v_match by eassumption;
               cbn [c_match c_store]; rewrite ?reindex_match; cbn [c_match c_store];
               rewrite ?reindex_match;
               match goal with
               | Hp : dispute_period_of _ = 0 |- _ => rewrite (proj2 (Z.eqb_eq _ _) Hp)
               | Hp : dispute_period_of _ <> 0 |- _ => rewrite (proj2 (Z.eqb_neq _ _) Hp)
               end; by destruct (_ =? mid)
             | erewrite v_bal by eassumption;
               cbn [c_bal c_store]; rewrite ?reindex_bal; cbn [c_bal c_store];
               by rewrite ?reindex_bal ].
Qed.

(** A successful [submit_result] came, with its authorization, from the oracle
    in charge; the match was being played and fully funded; the reported winner
    is recorded and its vesting starts now. Without a dispute period the match
    is completed, with one it awaits the end of the period. No token moves. *)
Theorem submit_result_effect mid w o conf env s s' :
  submit_result mid w o conf env s = Ok tt s' ->
  exists m, match_of s mid = Some m /\ playing m /\ w <> WNone /\
    oracle_in_charge env s = Some o /\ authorized env o = true /\
    rewrites mid (reported env (dispute_period_of (core_of s)) w m) s s' /\ pays [] s s'.
Proof.
  unfold submit_result, require_not_paused. intros Hrun. minv. zbool. subst.
  match goal with Ho : effective_oracle _ _ = Ok _ _ |- _ =>
    apply effective_oracle_Ok in Ho as [Ho Hq] end.
  pose proof (view_quiet _ _ _ Hq (view_core_of _)) as Hv.
  match goal with Hs : settle_result _ _ _ _ _ = Ok _ _ |- _ =>
    destruct (settle_Ok _ _ _ _ _ _ _ Hv Hs) as (m & Hm & Hp & Hw & Hr & Hb) end.
  exists m. by split_and!.
Qed.
End SettleEffects.

(** ** Payouts *)

Definition referral_fee_of (cfg : ProtocolConfig) (share : Z) (m : Match) (pot : Z) : Z :=
  match referrer m with
  | None => 0
  | Some _ => Z.quot (Z.quot (pot * cancellation_fee_basis_points (fees cfg)) 10000 * share) 10000
  end.

Definition protocol_fee_of (cfg : ProtocolConfig) (pot : Z) : Z :=
  if protocol_fee_bps (fees cfg) =? 0 then 0 else
  let fee := Z.quot (pot * protocol_fee_bps (fees cfg)) 10000 in
  match max_protocol_fee (fees cfg) with Some cap => Z.min fee cap | None => fee end.

(** A winner's claim: the pot, less a referral fee [rf] and a protocol fee [pf]. *)
Definition winner_payments (me p : Address) (cfg : ProtocolConfig) (rf pf : Z) (m : Match)
    : list Payment :=
  Pay (token m) me p (2 * stake_amount m - rf - pf)
    :: pay_if (rf >? 0) (Pay (token m) me (default me (referrer m)) rf)
    ++ pay_if (pf >? 0) (Pay (token m) me (fee_recipient (fees cfg)) pf).

Definition claim_payments (me p : Address) (cfg : ProtocolConfig) (share : Z) (m : Match)
    : list Payment :=
  match winner m with
  | WDraw => [Pay (token m) me p (stake_amount m)]
  | _ => winner_payments me p cfg (referral_fee_of cfg share m (2 * stake_amount m))
           (protocol_fee_of cfg (2 * stake_amount m)) m
  end.

(** What leaves the payer in a list of payments it makes to others. *)
Definition total_paid (ps : list Payment) : Z := sum_list_with pay_amount ps.

Lemma claim_payments_total me p cfg share m :
  0 <= referral_fee_of cfg share m (2 * stake_amount m) ->
  0 <= protocol_fee_of cfg (2 * stake_amount m) ->
  total_paid (claim_payments me p cfg share m) =
  if bool_decide (winner m = WDraw) then stake_amount m else 2 * stake_amount m.
Proof.
  unfold claim_payments, winner_payments, pay_if, total_paid.
  generalize (referral_fee_of cfg share m (2 * stake_amount m)) as rf.
  generalize (protocol_fee_of cfg (2 * stake_amount m)) as pf. intros pf rf Hr Hp.
  destruct (winner m).
  4: { rewrite bool_decide_true by done. cbn. lia. }
  all: rewrite bool_decide_false by done; destruct (Z.gtb_spec rf 0), (Z.gtb_spec pf 0); cbn; lia.
Qed.

Section ClaimEffects.
Context {W : Type} `{TokenLaws W} `{!RateOracle W, !RateOracleLaws W}.
Implicit Types s : State W.

Lemma wp_referral_exact m pot env s c (Q : Z -> State W -> Prop) QE :
  view s c -> (forall e s', QE e s') ->
  Q (referral_fee_of (config_of (self env) c) (referral_share c) m pot) s ->
  wp (compute_referral_fee m pot) env s Q QE.
Proof.
  intros Hv HE HQ. unfold compute_referral_fee, referral_fee_of in *.
  destruct (referrer m); [|by apply wp_ret]. wpx; try by apply HE.
  - match goal with Hz : cancellation_fee_basis_points _ = 0 |- _ => rewrite Hz in HQ end.
    by rewrite Z.mul_0_r in HQ.
  - unchecked. exact HQ.
Qed.

Lemma wp_protocol_exact pot env s c (Q : Z -> State W -> Prop) QE :
  view s c -> (forall e s', QE e s') ->
  Q (protocol_fee_of (config_of (self env) c) pot) s ->
  wp (compute_protocol_fee pot) env s Q QE.
Proof.
  intros Hv HE HQ. unfold compute_protocol_fee, protocol_fee_of in *.
  wp_step. wp_step. wp_step; [by apply wp_ret|]. wp_step. wp_step; [by apply HE|].
  unchecked. by apply wp_ret.
Qed.

Lemma wp_pay_winner_exact m p env s c (Q : Z -> State W -> Prop) QE :
  view s c -> (forall e s', QE e s') ->
  let cfg := config_of (self env) c in
  let rf := referral_fee_of cfg (referral_share c) m (2 * stake_amount m) in
  let pf := protocol_fee_of cfg (2 * stake_amount m) in
  (forall a s' cb, view s' cb -> rebalanced c cb ->
     (forall t x, c_bal cb t x = foldl paid (c_bal c) (winner_payments (self env) p cfg rf pf m) t x) ->
     Q a s') ->
  wp (pay_winner m cfg false p) env s Q QE.
Proof.
  intros Hv HE cfg rf pf HQ. unfold pay_winner. wpx; try by apply HE.
  unchecked. replace (stake_amount m * 2) with (2 * stake_amount m) in * by lia.
  eapply wp_referral_exact; [eassumption|done|]. fold cfg. fold rf. wp_step.
  eapply wp_protocol_exact; [eassumption|done|]. fold cfg. fold pf.
  unfold winner_payments, pay_if in HQ.
  repeat (wp_step; cbv beta iota zeta; try exact I); try by apply HE.
  all: unchecked.
  all: repeat match goal with Hr : referrer _ = _ |- _ => rewrite Hr in HQ end.
  all: eapply HQ; [eassumption|done|reflexivity].
Qed.

(** The record after [p]'s claim. *)
Definition claim_recorded (p : Address) (m : Match) : Match :=
  if p =a player1 m then m <| player1_claimed := true |> else m <| player2_claimed := true |>.

(** What [p] must be to claim: the winner, or either side of a draw, with its
    claim flag still unset. *)
Definition entitled (p : Address) (m : Match) : Prop :=
  (p = player1 m /\ player1_claimed m = false /\ (winner m = WPlayer1 \/ winner m = WDraw)) \/
  (p <> player1 m /\ p = player2 m /\ player2_claimed m = false /\
   (winner m = WPlayer2 \/ winner m = WDraw)).

End ClaimEffects.

(** ** Delayed results, rollbacks and stalled matches *)

(** The pot of a single-token match, paid by result. *)
Definition pot_payments (me : Address) (w : Winner) (m : Match) : list Payment :=
  match w with
  | WPlayer1 => [Pay (token m) me (player1 m) (2 * stake_amount m)]
  | WPlayer2 => [Pay (token m) me (player2 m) (2 * stake_amount m)]
  | WDraw => [Pay (token m) me (player1 m) (stake_amount m);
              Pay (token m) me (player2 m) (stake_amount m)]
  | WNone => []
  end.

(** The record of a match whose delayed result was paid. *)
Definition finalized (env : Env) (m : Match) : Match :=
  m <| state := Completed |> <| completed_ledger := Some (sequence env) |>.

(** Reads that leave the state as it is, kept with their result. *)
Ltac wp_read :=
  match goal with
  | |- wp (Soroban.p_get ?k) ?env ?s ?Q ?QE => change (Q (pers s k) s)
  | |- wp (Soroban.p_has ?k) ?env ?s ?Q ?QE =>
      change (Q (match pers s k with Some _ => true | None => false end) s);
      destruct (pers s k) eqn:?
  | |- wp require_not_paused _ _ _ _ => unfold require_not_paused
  end; cbv beta iota.

Section FinalEffects.
Context {W : Type} `{TokenLaws W} `{!RateOracle W, !RateOracleLaws W}.
Implicit Types s : State W.

Lemma wp_payout_exact m w env s c (Q : unit -> State W -> Prop) (QE : Error -> _ -> Prop) :
  view s c -> token_b m = None -> (forall e s', QE e s') ->
  (forall s' cb, view s' cb -> rebalanced c cb -> w <> WNone ->
     (forall t a, c_bal cb t a = foldl paid (c_bal c) (pot_payments (self env) w m) t a) ->
     Q tt s') ->
  wp (execute_payout m w) env s Q QE.
Proof.
  intros Hv Ht HE HQ. unfold execute_payout. rewrite (single_not_multi m) by done.
  destruct w; wpx; try by apply HE.
  all: unchecked; replace (stake_amount m * 2) with (2 * stake_amount m) in * by lia.
  all: eapply HQ; [eassumption|done|done|reflexivity].
Qed.

(** A successful [finalize_match] of a single-token match found an undisputed
    reported result whose deadline has passed, and pays the pot by that result. *)
Theorem finalize_effect mid env s s' m :
  finalize_match mid env s = Ok tt s' -> match_of s mid = Some m -> token_b m = None ->
  exists w deadline, state m = PendingResult /\
    pers s (KResultDeadline mid) = Some deadline /\ deadline <= sequence env /\
    pers s (KMatchDispute mid) = None /\ pers s (KPendingWinner mid) = Some w /\ w <> WNone /\
    rewrites mid (finalized env m) s s' /\ pays (pot_payments (self env) w m) s s'.
Proof.
  intros Hrun Hm Ht. effect @finalize_match Hrun.
  do 2 wp_step; [done|]. assert (m0 = m) as -> by (cbn in *; unfold match_of in Hm; congruence).
  repeat (first [wp_read|wp_step]; cbv beta iota zeta; try exact I); try discriminate.
  eapply wp_payout_exact; [eassumption|done|done|]. intros s1 c1 Hv1 (Hm1 & _) Hw Hb1.
  wpx. eexists _, _. split_and!; try done.
  - show_rewrites. by rewrite Hm1.
  - show_pays. apply Hb1.
Qed.

(** [dispute_and_rollback_match] only records the caller's consent until both
    players have given theirs, within the window after the last heartbeat; with
    both, it cancels the match and refunds both sides in full. *)
Theorem rollback_effect mid who reason env s s' :
  dispute_and_rollback_match mid who reason env s = Ok tt s' ->
  exists m, match_of s mid = Some m /\ state m = Active /\ authorized env who = true /\
    (who = player1 m \/ who = player2 m) /\
    u64_sat_sub (timestamp env) (last_heartbeat m) <= ROLLBACK_WINDOW_SECONDS /\
    let m' := rollback_voted who m in
    if rollback_vote_player1 m' && rollback_vote_player2 m'
    then rewrites mid (cancelled env m') s s' /\ pays (full_refund (self env) m') s s'
    else rewrites mid m' s s' /\ pays [] s s'.
Proof.
  intros Hrun. effect @dispute_and_rollback_match Hrun. unfold store_cancelled.
  wpx; try done; fold (rollback_voted who m) in *.
  - exists m. split_and!; [done|done|done|by apply caller_is_player|done|]. cbv zeta.
    match goal with Hg : negb _ || negb _ = true |- _ =>
      rewrite <- negb_andb in Hg; apply negb_true_iff in Hg; rewrite Hg end.
    split; [show_rewrites|show_pays].
  - eapply wp_full_refund; [eassumption|done|]. intros s1 c1 Hv1 (Hm1 & _) Hb1. wpx.
    exists m. split_and!; [done|done|done|by apply caller_is_player|done|]. cbv zeta.
    repeat match goal with Hg : rollback_vote_player1 _ = true |- _ => rewrite Hg
                         | Hg : rollback_vote_player2 _ = true |- _ => rewrite Hg end.
    split; [show_rewrites; rewrite Hm1; cbn; by destruct (_ =? mid)|show_pays; apply Hb1].
Qed.

Lemma wp_stalled_exact m w env s c (Q : unit -> State W -> Prop) (QE : Error -> _ -> Prop) :
  view s c -> token_b m = None -> (forall e s', QE e s') ->
  (forall s' cb, view s' cb -> rebalanced c cb ->
     (forall t a, c_bal cb t a = foldl paid (c_bal c) (pot_payments (self env) w m) t a) ->
     Q tt s') ->
  wp (pay_stalled m w) env s Q QE.
Proof.
  intros Hv Ht HE HQ. unfold pay_stalled, stalled_pot, p2_refund, p2_token.
  rewrite (single_not_multi m), Ht by done. destruct w; wpx; try by apply HE.
  all: unchecked; replace (stake_amount m * 2) with (2 * stake_amount m) in * by lia.
  all: eapply HQ; [eassumption|done|reflexivity].
Qed.

Lemma stalled_playing m now :
  is_stalled m now = true -> player1_deposited m = true -> player2_deposited m = true ->
  playing m.
Proof.
  intros Hs H1 H2. split; [|by apply andb_true_iff].
  unfold is_stalled in Hs. apply orb_true_iff in Hs as [Hs|Hs]; zbool; auto.
Qed.

(** The record of a stalled match the admin settled. *)
Definition stall_settled (env : Env) (w : Winner) (m : Match) : Match :=
  m <| state := Completed |> <| winner := w |> <| completed_ledger := Some (sequence env) |>.

(** A successful [admin_resolve_stalled_match] of a single-token match needs the
    admin's authorization and more than seven days since the match was
    activated; it pays the pot by the admin's decision, at once and without
    vesting. *)
Theorem stalled_effect mid who w env s s' m :
  admin_resolve_stalled_match mid who w env s = Ok tt s' -> match_of s mid = Some m ->
  token_b m = None ->
  inst s KAdmin = Some who /\ authorized env who = true /\ playing m /\ w <> WNone /\
  ADMIN_STALL_WINDOW_SECONDS < stalled_for env m /\
  rewrites mid (stall_settled env w m) s s' /\ pays (pot_payments (self env) w m) s s'.
Proof.
  intros Hrun Hm Ht. effect @admin_resolve_stalled_match Hrun.
  apply wp_bind. eapply wp_require_caller_admin; [eassumption|done|]. intros Had Hau.
  do 2 wp_step; [done|]. do 2 wp_step; [done|].
  assert (m0 = m) as -> by (cbn in *; unfold match_of in Hm; congruence).
  wpx. eapply wp_stalled_exact; [eassumption|done|done|]. intros s1 c1 Hv1 (Hm1 & _) Hb1.
  wpx. all: split_and!; try done; try (by eapply stalled_playing).
  all: first [show_rewrites; by rewrite Hm1 | show_pays; apply Hb1].
Qed.
End FinalEffects.

(** ** Creating a match *)

Section CreateEffect.
Context {W : Type} `{TokenLaws W} `{!RateOracle W, !RateOracleLaws W}.
Implicit Types s : State W.

(** Code that only reads. *)
Lemma wp_pure {A} (cmd : EM W A) env s (Q : A -> State W -> Prop) (QE : Error -> _ -> Prop) :
  rel eq cmd -> (forall e, QE e s) -> (forall a, cmd env s = Ok a s -> Q a s) ->
  wp cmd env s Q QE.
Proof.
  intros Hr HE HQ. specialize (Hr env s). unfold wp.
  destruct (cmd env s) as [a s'|e s'|] eqn:Hc; try done; subst s'; auto.
Qed.

Lemma pure_not_frozen p : rel (E:=Error) (S:=State W) eq (require_player_not_frozen p).
Proof. unfold require_player_not_frozen. frame. Qed.
Lemma pure_tokens_admitted p c : rel (E:=Error) (S:=State W) eq (require_tokens_admitted p c).
Proof.
  unfold require_tokens_admitted, is_token_allowed, is_token_blacklisted, check_is_stablecoin,
    opt_check. frame.
Qed.
Lemma pure_terms_valid p c : rel (E:=Error) (S:=State W) eq (require_terms_valid p c).
Proof. unfold require_terms_valid. frame. Qed.
Lemma pure_tier p x : rel (E:=Error) (S:=State W) eq (require_player_tier_for_stake p x).
Proof. unfold require_player_tier_for_stake, completed_match_count. frame. Qed.
Lemma pure_game_id g pl : rel (E:=Error) (S:=State W) eq (validate_game_id_format g pl).
Proof. unfold validate_game_id_format. frame. Qed.
Lemma pure_rate p : rel (E:=Error) (S:=State W) eq (check_conversion_rate p).
Proof. unfold check_conversion_rate, oracle_get_rate. frame. Qed.

(** The stake tier of a player. *)
Definition tier_of s (p : Address) : PlayerTier :=
  tier_for_completed_matches (default 0 (pers s (KPlayerCompletedMatchCount p))).

Definition stake_within (cfg : ProtocolConfig) (x : Z) : Prop :=
  minimum_stake (stakes cfg) <= x /\ forall mx, maximum_stake (stakes cfg) = Some mx -> x <= mx.

Lemma terms_valid_Ok p cfg env s u :
  require_terms_valid p cfg env s = Ok u s -> stake_within cfg (mp_stake_amount p).
Proof.
  unfold require_terms_valid. intros Hr. minv. zbool. split; [lia|]. intros mx Hmx.
  rewrite Hmx in *. cbn in *. zbool. lia.
Qed.

Lemma game_id_reserved p env s mid s' :
  create_match_internal p env s = Ok mid s' -> is_Some (pers s' (KGameId (mp_game_id p))).
Proof.
  intros Hrun. unfold create_match_internal in Hrun. minv.
  all: match goal with Hr : push_player_match _ _ _ (with_pers ?u ?s0) = Ok _ _ |- _ =>
         assert (is_Some (pers (with_pers u s0) (KGameId (mp_game_id p)))) as Hk
           by (cbn; rewrite upd_eq; eauto) end.
  all: perm_on; exact Hk.
Qed.

(** Read-only steps of a run leave the state alone. *)
Ltac settle_reads :=
  repeat match goal with
    | Hr : ?c ?env ?sa = Ok _ ?sb |- _ =>
        lazymatch sa with sb => fail | _ => idtac end;
        let He := fresh "He" in
        assert (sa = sb) as He
          by (refine (rel_Ok eq c env sa _ sb _ Hr);
              auto using pure_not_frozen, pure_tokens_admitted, pure_terms_valid, pure_tier,
                pure_game_id, pure_rate);
        subst sb
    end.

Lemma get_config_run env s cfg s' : get_config env s = Ok cfg s' -> s' = s /\ cfg = config_at env s.
Proof.
  unfold get_config, config_at, config_of. intros Hr.
  minv; cbn; repeat match goal with Hi : inst _ _ = _ |- _ => rewrite Hi end; done.
Qed.

Lemma create_guards p env s mid s' :
  create_match_internal p env s = Ok mid s' ->
  authorized env (mp_player1 p) = true /\ default false (inst s KPaused) = false /\
  mp_player1 p <> mp_player2 p /\ mp_player2 p <> self env /\
  in_tier (tier_of s (mp_player1 p)) (mp_stake_amount p) = true /\
  in_tier (tier_of s (mp_player2 p)) (mp_stake_amount p) = true /\
  stake_within (config_at env s) (mp_stake_amount p) /\
  pers s (KGameId (mp_game_id p)) = None /\ match_of s mid = None /\
  mid = default 0 (inst s KMatchCount).
Proof.
  intros Hrun. unfold create_match_internal, require_not_paused in Hrun. minv.
  all: settle_reads.
  all: match goal with Hc : get_config _ _ = Ok _ _ |- _ =>
         apply get_config_run in Hc as [-> ->] end.
  all: repeat match goal with
         | Hr : require_player_tier_for_stake _ _ _ _ = Ok _ _ |- _ =>
             apply require_tier_Ok in Hr as [_ Hr]
         | Hr : require_terms_valid _ _ _ _ = Ok _ _ |- _ => apply terms_valid_Ok in Hr
         | Hr : match ?o with Some _ => true | None => false end = false |- _ =>
             destruct o eqn:?; [discriminate Hr|]
         | Hr : _ || _ = false |- _ => apply orb_false_iff in Hr as [? ?]
         end; zbool.
  all: split_and!; try done; done.
Qed.

(** What it writes: the new record, under the counter's value. *)
Definition creates (p : MatchParams) (env : Env) s (mid : Z) s' : Prop :=
  mid = default 0 (inst s KMatchCount) /\ inst s' KMatchCount = Some (mid + 1) /\
  (exists rl, rewrites mid (new_match p mid (sequence env) (timestamp env) rl) s s') /\
  pays [] s s'.

Lemma create_stores p env s mid s' :
  create_match_internal p env s = Ok mid s' -> creates p env s mid s'.
Proof.
  intros Hrun. refine (wp_Ok _ env s (creates p env s) (fun _ _ => True) mid s' _ Hrun).
  clear Hrun. pose proof (view_core_of s) as Hview. unfold create_match_internal. wpx.
  all: eapply wp_terms_valid; [eassumption|done|]; intros Hmin; wpx.
  all: match goal with Hu : u64_checked_add _ _ = Some _ |- _ =>
         apply checked_Some in Hu as [<- _] end.
  all: split; [done|]; split; [|split; [eexists; show_rewrites|show_pays]].
  all: erewrite (v_inst _ _ ltac:(eassumption)) by done; cbn; by rewrite upd_eq.
Qed.

(** A successful [create_match] (in any of its four forms) was authorized by
    player 1 on an unpaused contract, between two distinct players who are both
    in the stake tier of the wager, with a stake inside the configured limits
    and a game id never used before; it stores exactly one new pending record
    under the next id, advances the counter, reserves the game id, and moves no
    tokens. *)
Theorem create_effect p env s mid s' :
  create_match_internal p env s = Ok mid s' ->
  authorized env (mp_player1 p) = true /\ default false (inst s KPaused) = false /\
  mp_player1 p <> mp_player2 p /\ mp_player2 p <> self env /\
  in_tier (tier_of s (mp_player1 p)) (mp_stake_amount p) = true /\
  tier_of s (mp_player2 p) = tier_of s (mp_player1 p) /\
  stake_within (config_at env s) (mp_stake_amount p) /\
  pers s (KGameId (mp_game_id p)) = None /\ match_of s mid = None /\
  mid = default 0 (inst s KMatchCount) /\
  inst s' KMatchCount = Some (mid + 1) /\ is_Some (pers s' (KGameId (mp_game_id p))) /\
  (exists rl, rewrites mid (new_match p mid (sequence env) (timestamp env) rl) s s') /\
  pays [] s s'.
Proof.
  intros Hrun. pose proof (game_id_reserved _ _ _ _ _ Hrun) as Hg.
  destruct (create_guards _ _ _ _ _ Hrun) as (?&?&?&?&Ht1&Ht2&?&?&?&?).
  destruct (create_stores _ _ _ _ _ Hrun) as (_&?&?&?).
  split_and!; try done. by eapply tiers_disjoint.
Qed.
End CreateEffect.
