(* ===== verification/DisputeEffects.v ===== *)
(** Disputes over a reported result: what raising, voting on and resolving one
    does, and on what conditions. *)
From stdpp Require Import base list strings relations.
From Stdlib Require Import ZArith Lia.
From S2P Require Import Prelude Soroban EscrowTypes Config Tokens Players MatchIndex Snapshots.
From S2P Require Import RateOracle Rotation Matches Settlement Refunds.
From S2P Require Import Disputes Governance Ledger Core Lifecycle Simulation Calls.
From S2P Require Import Footprint Effects.

Section DisputeEffects.
Context {W : Type} `{TokenLaws W} `{!RateOracle W, !RateOracleLaws W}.
Implicit Types s : State W.

Definition dispute_of s (d : Z) : option Dispute := pers s (KDispute d).

(** A dispute that was just raised. *)
Definition raised (env : Env) (d mid : Z) (who : Address) (bond : Z) (x : Dispute) : Prop :=
  d_id x = d /\ d_match_id x = mid /\ disputer x = who /\ d_state x = DActive /\
  dispute_bond x = bond /\ yes_votes x = 0 /\ no_votes x = 0 /\
  snapshot_ledger x = sequence env /\
  voting_deadline x = sequence env + VOTING_PERIOD_LEDGERS.

Lemma pure_bond_bps x : rel (E:=Error) (S:=State W) eq (dispute_bond_basis_points_for x).
Proof. unfold dispute_bond_basis_points_for. walk. Qed.

Lemma transfer_pays t a b x env s u s' :
  transfer (E:=Error) t a b x env s = Ok u s' ->
  pays [Pay t a b x] s s' /\ inst s' = inst s /\ pers s' = pers s.
Proof.
  unfold transfer. intros (w & Hw & ->)%call_out_Ok. split; [|done].
  intros t' a'. cbn. by rewrite (transfer_moves _ _ _ _ _ _ Hw).
Qed.

Lemma quotient_checked a b q : i128_checked_div a b = Some q -> q = Z.quot a b.
Proof. unfold i128_checked_div. case_match; [done|]. by intros [<- _]%checked_Some. Qed.

(** A successful [dispute_oracle_result] was authorized by a player of a match
    whose result is pending and not yet disputed, before the result's deadline
    and with well-formed evidence; it takes a bond of at least one unit, the
    configured share of the stake, from the disputer and nothing else, and opens
    an active dispute with no votes. *)
Theorem dispute_effect mid who ev env s d s' :
  dispute_oracle_result mid who ev env s = Ok d s' ->
  exists m bps deadline x, match_of s mid = Some m /\ state m = PendingResult /\
    authorized env who = true /\ (who = player1 m \/ who = player2 m) /\
    pers s (KResultDeadline mid) = Some deadline /\ sequence env < deadline /\
    is_valid_evidence_hash ev = true /\ pers s (KMatchDispute mid) = None /\
    dispute_bond_basis_points_for (stake_amount m) env s = Ok bps s /\
    let bond := Z.max (Z.quot (stake_amount m * bps) 10000) 1 in
    pays [Pay (token m) who (self env) bond] s s' /\
    (forall i, match_of s' i = match_of s i) /\
    pers s' (KMatchDispute mid) = Some d /\ dispute_of s' d = Some x /\
    raised env d mid who bond x.
Proof.
  unfold dispute_oracle_result, load_match. intros Hr. minv. zbool.
  match goal with Hb : dispute_bond_basis_points_for _ _ _ = Ok _ _ |- _ =>
    pose proof (rel_Ok eq _ _ _ _ _ (pure_bond_bps _) Hb) as <- end.
  match goal with Ht : transfer _ _ _ _ _ _ = Ok _ _ |- _ =>
    apply transfer_pays in Ht as (Hpay & Hi & Hp) end.
  unchecked.
  repeat match goal with Hq : i128_checked_div _ _ = Some _ |- _ =>
    apply quotient_checked in Hq as -> end.
  match goal with Hd : u32_checked_add _ _ = Some _ |- _ => apply checked_Some in Hd as [<- _] end.
  eexists _, _, _, _. split_and!; try done.
  - by apply caller_is_player.
  - by match goal with Hn : match ?o with Some _ => true | None => false end = false |- _ =>
         destruct o end.
  - intros i. unfold match_of. cbn. rewrite !upd_ne by done. by rewrite Hp.
  - cbn. rewrite upd_ne by done. by rewrite upd_eq.
  - unfold dispute_of. cbn. rewrite !upd_ne by done. by rewrite upd_eq.
  - by split_and!.
Qed.

(** ** Votes *)

Definition tallied (b : bool) (weight : Z) (x : Dispute) : Dispute :=
  if b then x <| yes_votes := i128_sat_add (yes_votes x) weight |>
  else x <| no_votes := i128_sat_add (no_votes x) weight |>.

(** A successful vote was authorized by its voter, before the voting deadline
    of an active dispute on which that account had not voted; its weight is the
    positive escrow balance the voter held, by its retained snapshots, at least
    the minimum holding period before the dispute was raised, and exactly that
    weight is added to the chosen side. No match changes and no token moves. *)
Theorem vote_effect d who b env s s' :
  vote_on_dispute d who b env s = Ok tt s' ->
  exists x weight, dispute_of s d = Some x /\ d_state x = DActive /\
    authorized env who = true /\ sequence env < voting_deadline x /\
    pers s (KDisputeVote d who) = None /\
    snapshot_weight_of who x (default DEFAULT_MINIMUM_HOLD_DURATION (inst s KMinimumHoldDuration)) s
      = Some weight /\
    0 < weight /\ dispute_of s' d = Some (tallied b weight x) /\
    pers s' (KDisputeVote d who) = Some b /\
    (forall i, match_of s' i = match_of s i) /\ pays [] s s'.
Proof.
  unfold vote_on_dispute, load_match. intros Hr. minv; zbool.
  all: eexists _, _; split_and!; try done; unfold dispute_of, match_of; cbn;
    rewrite ?upd_eq; try done.
  all: try (by rewrite upd_ne, upd_eq by done).
  all: try (intros i; by rewrite !upd_ne by done).
  all: by match goal with Hn : match ?o with Some _ => true | None => false end = false |- _ =>
         destruct o end.
Qed.

(** ** Resolution *)

Definition overturned (x : Dispute) : bool := yes_votes x >? no_votes x.
Definition verdict (x : Dispute) (w : Winner) : Winner := if overturned x then WDraw else w.
Definition resolved (x : Dispute) : Dispute :=
  x <| d_state := if overturned x then DResolvedOverturned else DResolvedUpheld |>.

Lemma snapshot_spares_disputes m r :
  rel (E:=Error) (S:=State W)
    (within (fun _ => true) (fun k => match k with DK (KDispute _) => false | _ => true end))
    (record_snapshot m r).
Proof. walk. Qed.

(** The conditions of a resolution, and the dispute it leaves. *)
Lemma resolve_guards d env s s' :
  resolve_dispute_by_vote d env s = Ok tt s' ->
  exists x m w, dispute_of s d = Some x /\ d_state x = DActive /\
    voting_deadline x <= sequence env /\ match_of s (d_match_id x) = Some m /\
    state m = PendingResult /\ pers s (KPendingWinner (d_match_id x)) = Some w /\
    quorum_threshold x <= i128_sat_add (yes_votes x) (no_votes x) /\
    dispute_of s' d = Some (resolved x).
Proof.
  unfold resolve_dispute_by_vote, load_match. intros Hr. minv; zbool.
  all: eexists _, _, _; split_and!; try done.
  all: match goal with Hs : record_snapshot ?m ?r _ _ = Ok _ _ |- _ =>
         pose proof (w_pers _ _ _ _ (rel_Ok _ _ _ _ _ _ (snapshot_spares_disputes m r) Hs)
                       (KDispute d) eq_refl) as Hd end.
  all: unfold dispute_of; cbn in *; rewrite upd_eq in Hd; exact Hd.
Qed.

(** A successful [resolve_dispute_by_vote] (of a single-token match) comes after
    the voting deadline, with the quorum met. If strictly more weight voted to
    overturn, the match is paid out as a draw and the disputer gets the bond
    back; otherwise the reported result is paid and the bond goes to the
    treasury. The match is completed and the dispute closed accordingly. *)
Theorem resolve_effect d env s s' x m :
  resolve_dispute_by_vote d env s = Ok tt s' -> dispute_of s d = Some x ->
  match_of s (d_match_id x) = Some m -> token_b m = None ->
  exists w, pers s (KPendingWinner (d_match_id x)) = Some w /\
    d_state x = DActive /\ voting_deadline x <= sequence env /\ state m = PendingResult /\
    quorum_threshold x <= i128_sat_add (yes_votes x) (no_votes x) /\
    rewrites (d_match_id x) (finalized env m) s s' /\
    pays (pot_payments (self env) (verdict x w) m ++
          [Pay (token m) (self env)
             (if overturned x then disputer x else treasury (config_at env s))
             (dispute_bond x)]) s s' /\
    dispute_of s' d = Some (resolved x).
Proof.
  intros Hrun Hx Hm Ht.
  destruct (resolve_guards _ _ _ _ Hrun) as (x' & m' & w & Hx' & ? & ? & Hm' & ? & Hw & ? & Hd).
  simplify_eq. exists w.
  enough (rewrites (d_match_id x) (finalized env m) s s' /\
          pays (pot_payments (self env) (verdict x w) m ++
            [Pay (token m) (self env)
               (if overturned x then disputer x else treasury (config_at env s))
               (dispute_bond x)]) s s') as [? ?] by (by split_and!).
  clear Hd. effect @resolve_dispute_by_vote Hrun. unfold dispute_of, match_of in *.
  repeat (first [progress simplify_eq|wp_read|wp_step]; cbv beta iota zeta; try exact I).
  all: match goal with Hm2 : c_match _ (d_match_id _) = Some ?m2 |- _ =>
         assert (m2 = m) as -> by (cbn in Hm2; congruence) end.
  unfold verdict, overturned. destruct (yes_votes x >? no_votes x);
    (eapply wp_payout_exact; [eassumption|done|done|]);
    intros s1 c1 Hv1 (Hm1 & _ & Hi1) Hw1 Hb1; wpx; try done.
  all: split; [show_rewrites; cbn; by rewrite Hm1|].
  all: eapply view_pays; [eassumption|]; cbn [c_bal c_store]; setoid_rewrite reindex_bal.
  all: eapply paid_app; [exact Hb1|].
  - done.
  - unfold config_at, config_of in *. rewrite Hi1 in *. done.
Qed.
End DisputeEffects.
