(* ===== verification/Authority.v ===== *)
(** Who may do what, over the whole interface: the settings belong to the admin,
    the admin role moves only by proposal and acceptance, the code only after the
    review period, and votes, disputes and game identifiers are used once. *)
From stdpp Require Import base list strings relations.
From Stdlib Require Import ZArith Lia.
From S2P Require Import Prelude Soroban EscrowTypes Config Tokens Players MatchIndex Snapshots.
From S2P Require Import RateOracle Rotation Matches Settlement Refunds.
From S2P Require Import Disputes Governance Ledger Core Lifecycle Simulation Calls.
From S2P Require Import Footprint Solvency Invariants Effects.

(** ** Settings *)

(** The calls behind the admin's gate. *)
Definition gated (c : Call) : bool :=
  match c with
  | Pause _ | Unpause _ | SetProtocolConfig _ | SetReferralShareBps _ | SetMinimumStake _
  | SetMaximumStake _ | SetMatchTimeout _ | SetFeeTiers _ | SetDisputePeriod _
  | SetDisputeBondBps _ | SetMinimumHoldDuration _ | SetQuorumBps _
  | AddAllowedToken _ | RemoveAllowedToken _
  | AddStablecoinIssuer _ | RemoveStablecoinIssuer _ | AddTokenToBlacklist _ _
  | RemoveTokenFromBlacklist _ | FreezePlayer _ _ | UnfreezePlayer _ | RegisterBracket _ _ _
  | MarkDisputeForSlash _ _ | ProposeAdmin _ | CancelAdminProposal | TransferAdmin _ _
  | UpdateOracle _ | RotateOracleTemporary _ _ _
  | ProposeOracleRotation _ _ | RotateOraclePermanent _ _
  | ScheduleUpgrade _ | CancelUpgrade | MigrateState _
  | AddApprovedOracle _ | RemoveApprovedOracle _ | SetRequiredConfirmations _
  | AdminRecoverMatch _ | ResolveStalled _ _ _ | ResolveOracleDeadlock _ _ => true
  | _ => false
  end.

(** The instance entries that are not settings: counters, the oracle rotation
    that results clean up in passing, the admin role, and the confirmation any
    account may give a scheduled upgrade. *)
Definition admin_owned (k : Key) : bool :=
  match k with
  | DK KOracleRotation | DK KMatchCount | DK KDisputeCount | DK KAdmin | DK KPendingAdmin
  | UK ConfirmedBy => false
  | _ => true
  end.

Lemma owned_gated c k : admin_owned k = true -> inst_writes c k = true -> gated c = true.
Proof. destruct c; try reflexivity; destruct k as [[]| | | |[]| | |[]|]; done. Qed.

Section Authority.
Context {W : Type} `{TokenLaws W} `{!RateOracle W, !RateOracleLaws W}.
Implicit Types s : State W.

Definition admin_signed (env : Env) s : Prop :=
  exists admin, inst s KAdmin = Some admin /\ authorized env admin = true.

Lemma gate_require_admin env s a s' : require_admin env s = Ok a s' -> admin_signed env s.
Proof. intros (_ & ? & ?)%require_admin_Ok. by exists a. Qed.

Lemma gate_caller_admin who env s u s' :
  require_caller_admin who env s = Ok u s' -> admin_signed env s.
Proof. unfold require_caller_admin, load_admin. intros Hr. minv. zbool. subst. eexists; eauto. Qed.

Lemma gated_signed c env s s' :
  gated c = true -> exec c env s = Ok tt s' -> admin_signed env s.
Proof.
  intros Hg Hr. destruct c; try discriminate Hg; cbn [exec] in Hr.
  all: match type of Hr with ?c _ _ = _ => let h := head_of c in unfold h in Hr end.
  all: minv.
  all: try (by eapply gate_require_admin). all: try (by eapply gate_caller_admin).
  unfold load_admin in *. minv. zbool. subst. eexists; eauto.
Qed.

(** C39: The settings belong to the admin. Whatever call changes any entry of the
    contract's instance storage other than the counters, the oracle rotation,
    the admin role itself and the confirmation of an upgrade, the current admin
    authorized that call. *)
Theorem settings_admin_only call env s s' k :
  exec call env s = Ok tt s' -> admin_owned k = true -> inst s' k <> inst s k ->
  admin_signed env s.
Proof.
  intros Hr Hk Hne. apply (gated_signed call env s s'); [|done].
  destruct (inst_writes call k) eqn:Hw; [by eapply owned_gated|]. destruct Hne.
  by apply (w_inst _ _ _ _ (rel_Ok _ _ _ _ _ _ (footprint call) Hr)).
Qed.

(** ** The admin role *)

(** The admin changes only by [accept_admin]: the new admin is the account a
    proposal named, it authorized the call itself, and the proposal was made by
    the admin being replaced. *)
Theorem admin_handover call env s s' :
  exec call env s = Ok tt s' -> inst s' KAdmin <> inst s KAdmin ->
  exists proposal, inst s KPendingAdmin = Some proposal /\
    inst s KAdmin = Some (proposer proposal) /\ inst s' KAdmin = Some (pending_admin proposal) /\
    authorized env (pending_admin proposal) = true.
Proof.
  intros Hr Hne. destruct (inst_writes call KAdmin) eqn:Hw.
  - destruct call; try discriminate Hw. cbn [exec] in Hr. unfold accept_admin, load_admin in Hr.
    minv. zbool. subst. eexists. split_and!; try done. 
  - destruct Hne. by apply (w_inst _ _ _ _ (rel_Ok _ _ _ _ _ _ (footprint call) Hr)).
Qed.

(** A proposal for a new admin is only ever put in place with the
    authorization of the current admin, who is recorded as its proposer. *)
Theorem proposal_by_admin call env s s' proposal :
  exec call env s = Ok tt s' -> inst s' KPendingAdmin = Some proposal ->
  inst s KPendingAdmin <> Some proposal ->
  inst s KAdmin = Some (proposer proposal) /\ authorized env (proposer proposal) = true.
Proof.
  intros Hr Hp Hne. destruct (inst_writes call KPendingAdmin) eqn:Hw.
  - destruct call; try discriminate Hw; cbn [exec] in Hr;
      unfold transfer_admin, propose_admin, accept_admin, cancel_admin_proposal, load_admin in Hr;
      minv.
    all: cbn in Hp; rewrite ?upd_eq in Hp; try discriminate Hp; injection Hp as <-; cbn.
    all: by match goal with Ha : require_admin _ _ = Ok _ _ |- _ =>
              apply require_admin_Ok in Ha as (-> & ? & ?) end.
  - destruct Hne. rewrite <- Hp. symmetry.
    by apply (w_inst _ _ _ _ (rel_Ok _ _ _ _ _ _ (footprint call) Hr)).
Qed.

(** ** Entries written once *)

Lemma follows_perm s s' k :
  follows s s' -> ephemeral k = false -> is_Some (pers s k) -> is_Some (pers s' k).
Proof.
  intros Hf Hk. induction Hf as [|s1 s2 s3 (env & call & ->) _ IH]; [done|].
  intros Hs. apply IH. unfold invoke.
  destruct (exec call env s1) as [[] s2|e s2|] eqn:Hr; cbn; [|done..].
  by apply (w_perm _ _ _ _ (rel_Ok _ _ _ _ _ _ (footprint call) Hr)).
Qed.

(** One vote per account and dispute: after a successful vote, whatever calls
    follow, no further vote of that account on that dispute succeeds. *)
Theorem vote_once d who b env s s1 b2 env2 s2 s3 :
  vote_on_dispute d who b env s = Ok tt s1 -> follows s1 s2 ->
  vote_on_dispute d who b2 env2 s2 <> Ok tt s3.
Proof.
  intros Hv Hf Hv2.
  assert (is_Some (pers s1 (KDisputeVote d who))) as Hs.
  { unfold vote_on_dispute, load_match in Hv. minv; cbn; rewrite upd_ne by done;
      rewrite upd_eq; eauto. }
  destruct (follows_perm s1 s2 (KDisputeVote d who) Hf eq_refl Hs) as [v Hv3].
  unfold vote_on_dispute in Hv2. minv. by rewrite Hv3 in *.
Qed.

(** One dispute per match: after a successful [dispute_oracle_result], no
    further dispute of that match is opened, and [finalize_match] no longer
    applies to it. *)
Theorem dispute_once mid who ev env s d s1 s2 :
  dispute_oracle_result mid who ev env s = Ok d s1 -> follows s1 s2 ->
  (forall who2 ev2 env2 d2 s3, dispute_oracle_result mid who2 ev2 env2 s2 <> Ok d2 s3) /\
  (forall env2 s3, finalize_match mid env2 s2 <> Ok tt s3).
Proof.
  intros Hv Hf.
  assert (is_Some (pers s1 (KMatchDispute mid))) as Hs.
  { unfold dispute_oracle_result in Hv. minv; cbn; rewrite upd_ne by done;
      rewrite upd_eq; eauto. }
  destruct (follows_perm s1 s2 (KMatchDispute mid) Hf eq_refl Hs) as [x Hx]. split; intros * Hr.
  - unfold dispute_oracle_result, load_match in Hr. minv. by rewrite Hx in *.
  - unfold finalize_match, load_match in Hr. minv. by rewrite Hx in *.
Qed.

(** One confirmation per oracle and match. *)
Theorem consensus_vote_once mid w o env s s1 w2 env2 s2 s3 :
  submit_result_consensus mid w o env s = Ok tt s1 -> follows s1 s2 ->
  submit_result_consensus mid w2 o env2 s2 <> Ok tt s3.
Proof.
  intros Hv Hf Hv2.
  assert (is_Some (pers s1 (KOracleVote mid o))) as Hs.
  { unfold submit_result_consensus, load_match in Hv.
    minv.
    all: match goal with Hr : get_required_confirmations _ ?s0 = Ok _ _ |- _ =>
           assert (is_Some (pers s0 (KOracleVote mid o))) as Hk
             by (cbn; rewrite upd_ne by done; rewrite upd_eq; eauto) end.
    all: perm_on; exact Hk. }
  destruct (follows_perm s1 s2 (KOracleVote mid o) Hf eq_refl Hs) as [x Hx].
  unfold submit_result_consensus, require_not_paused, load_match in Hv2. minv; by rewrite Hx in *.
Qed.
End Authority.

(** ** The emergency stop *)

(** The calls the contract-wide pause stops. *)
Definition stopped_by_pause (c : Call) : bool :=
  match c with
  | CreateMatch _ _ _ _ _ _ | CreateMatchTournament _ _ _ _ _ _ _ _
  | CreateMatchWithConversion _ _ _ _ _ _ _ _ | CreateMatchWithReferrer _ _ _ _ _ _ _
  | Deposit _ _ | DepositBatch _ | SubmitResult _ _ _ _ | SubmitDraw _ _ _
  | SubmitResultWithRecord _ _ _ _ | SubmitResultBatch _ _ | SubmitResultConsensus _ _ _
  | CancelMatch _ _ => true
  | _ => false
  end.

Section Pause.
Context {W : Type} `{TokenLaws W} `{!RateOracle W, !RateOracleLaws W}.
Implicit Types s : State W.

Lemma not_paused_Ok env s u s' :
  require_not_paused env s = Ok u s' -> inst s KPaused <> Some true.
Proof. unfold require_not_paused. intros Hr Hp. minv. by rewrite Hp in *. Qed.

Lemma create_paused p env s mid s' :
  inst s KPaused = Some true -> create_match_internal p env s <> Ok mid s'.
Proof.
  intros Hp Hr. destruct (create_guards _ _ _ _ _ Hr) as (_ & Hn & _). by rewrite Hp in Hn.
Qed.

(** While the contract is paused, no match is created or funded, no result is
    accepted and no match is cancelled: those calls never return [Ok]. *)
Theorem pause_blocks call env s s' :
  inst s KPaused = Some true -> stopped_by_pause call = true -> exec call env s <> Ok tt s'.
Proof.
  intros Hp Hc Hr. destruct call; try discriminate Hc; cbn [exec] in Hr.
  all: unfold ignore in Hr.
  all: try (apply bind_Ok in Hr as (mid & s1 & Hr & _)).
  all: try (by eapply create_paused).
  all: match type of Hr with ?c _ _ = _ => let h := head_of c in unfold h in Hr end.
  all: try (unfold submit_result in Hr). all: minv.
  all: by match goal with Hn : require_not_paused _ _ = Ok _ _ |- _ =>
            apply not_paused_Ok in Hn end.
Qed.
End Pause.

(** ** Code upgrades *)

Section Upgrade.
Context {W : Type} `{TokenLaws W} `{!RateOracle W, !RateOracleLaws W, !Deployer W}.
Implicit Types s : State W.

(** A successful [execute_upgrade] was authorized by the admin on a paused
    contract, with a confirmed upgrade that had been scheduled for at least the
    review period; it installs exactly the scheduled code and clears the
    schedule. *)
Theorem upgrade_effect env s s' :
  execute_upgrade env s = Ok tt s' ->
  exists scheduled hash w, admin_signed env s /\ inst s KPaused = Some true /\
    inst s KUpgradeScheduledAt = Some scheduled /\
    u32_sat_add scheduled UPGRADE_REVIEW_PERIOD_LEDGERS <= sequence env /\
    is_Some (inst s ConfirmedBy) /\ inst s KPendingUpgradeHash = Some hash /\
    update_wasm (world s) (self env) hash = Some w /\ world s' = w /\
    inst s' KUpgradeScheduledAt = None /\ inst s' KPendingUpgradeHash = None /\
    inst s' ConfirmedBy = None.
Proof.
  unfold execute_upgrade. intros Hr. minv. zbool.
  match goal with Ha : require_admin _ _ = Ok _ _ |- _ =>
    pose proof (gate_require_admin _ _ _ _ Ha) as Hadm; apply require_admin_Ok in Ha as (-> & _ & _) end.
  match goal with Hc : call_out _ _ _ = Ok _ _ |- _ => apply call_out_Ok in Hc as (w & Hw & ->) end.
  eexists _, _, w. split_and!; try done; cbn.
  - by destruct (inst s KPaused) as [[]|].
  - by destruct (inst s ConfirmedBy).
Qed.

(** Once scheduled, an upgrade is not replaced or re-dated: any call that
    returns [Ok] either leaves the schedule and the hash as they are, or is the
    admin's [cancel_upgrade]. So the code that is executed after the review
    period is the code that was announced. *)
Theorem schedule_stable call env s s' scheduled :
  inst s KUpgradeScheduledAt = Some scheduled -> exec call env s = Ok tt s' ->
  (inst s' KUpgradeScheduledAt = inst s KUpgradeScheduledAt /\
   inst s' KPendingUpgradeHash = inst s KPendingUpgradeHash) \/
  (call = CancelUpgrade /\ admin_signed env s /\ inst s' KUpgradeScheduledAt = None /\
   inst s' ConfirmedBy = None).
Proof.
  intros Hs Hr. pose proof (rel_Ok _ _ _ _ _ _ (footprint call) Hr) as Hf.
  destruct (inst_writes call KUpgradeScheduledAt) eqn:Hw.
  - destruct call; try discriminate Hw; cbn [exec] in Hr.
    + unfold schedule_upgrade in Hr. minv.
      match goal with Ha : require_admin _ _ = Ok _ _ |- _ =>
        apply require_admin_Ok in Ha as (-> & _ & _) end. by rewrite Hs in *.
    + right. split; [done|]. split; [by apply (gated_signed CancelUpgrade env s s')|].
      unfold cancel_upgrade in Hr. minv. cbn. rewrite ?upd_eq, ?upd_ne by done.
      by rewrite ?upd_eq.
  - left. split; apply (w_inst _ _ _ _ Hf); [done|by destruct call].
Qed.
End Upgrade.
