(* ===== verification/Registry.v ===== *)
(** The admission registries: the allowlist, the blacklist and the frozen players
    are each kept twice, as a flag per address in instance storage and as a list
    in persistent storage.  Every reachable state has the two in agreement.  And things
    that must not be counted twice, over whole runs: a game identifier belongs to one
    match, and a consensus result is backed by as many distinct approved oracles as were
    required. *)
From stdpp Require Import base list strings relations.
From Stdlib Require Import ZArith Lia.
From S2P Require Import Prelude Soroban EscrowTypes Config Tokens Players MatchIndex Snapshots.
From S2P Require Import RateOracle Rotation Matches Settlement Refunds.
From S2P Require Import Disputes Governance Ledger Core Lifecycle Simulation Calls.
From S2P Require Import Footprint Solvency Invariants Effects.

(** ** Lists of addresses *)

Lemma remove_addr_elem l a x : x ∈ remove_addr l a <-> x ∈ l /\ x <> a.
Proof.
  unfold remove_addr. rewrite !list_elem_of_In, filter_In, negb_true_iff, bool_decide_eq_false.
  done.
Qed.

Lemma remove_addr_NoDup l a : NoDup l -> NoDup (remove_addr l a).
Proof. rewrite !NoDup_ListNoDup. apply List.NoDup_filter. Qed.

Lemma remove_addr_notin l a : a ∉ l -> remove_addr l a = l.
Proof.
  unfold remove_addr. induction l as [|x l IH]; [done|]. intros Hn. cbn.
  rewrite bool_decide_false by (intros ->; apply Hn; left). cbn. f_equal. apply IH.
  intros Hi. apply Hn. by right.
Qed.

Lemma remove_addr_length l a : NoDup l -> a ∈ l -> length l = S (length (remove_addr l a)).
Proof.
  intros Hn Ha. induction Hn as [|x l Hx Hn IH]; [by apply elem_of_nil in Ha|].
  unfold remove_addr. cbn. case_bool_decide as He; cbn; fold (remove_addr l a).
  - subst. by rewrite remove_addr_notin.
  - f_equal. apply IH. apply elem_of_cons in Ha as [->|]; [done|done].
Qed.

Lemma NoDup_snoc (l : list Address) a : NoDup l -> a ∉ l -> NoDup (l ++ [a]).
Proof.
  intros Hl Ha. apply NoDup_app. split; [done|]. split; [|apply NoDup_singleton].
  intros x Hx ->%list_elem_of_singleton. done.
Qed.

(** [l] lists exactly the addresses with property [P], once each. *)
Record lists (P : Address -> Prop) (l : list Address) : Prop := {
  li_nodup : NoDup l;
  li_elem a : a ∈ l <-> P a
}.

Lemma lists_ext (P Q : Address -> Prop) l : (forall a, P a <-> Q a) -> lists P l -> lists Q l.
Proof. intros He [h1 h2]. split; [done|]. intros a. by rewrite h2. Qed.

Lemma lists_add (P Q : Address -> Prop) l a :
  lists P l -> ~ P a -> (forall x, Q x <-> P x \/ x = a) -> lists Q (l ++ [a]).
Proof.
  intros [h1 h2] Ha HQ. split; [apply NoDup_snoc; [done|by rewrite h2]|].
  intros x. rewrite elem_of_app, list_elem_of_singleton, h2, HQ. done.
Qed.

Lemma lists_remove (P Q : Address -> Prop) l a :
  lists P l -> (forall x, Q x <-> P x /\ x <> a) -> lists Q (remove_addr l a).
Proof.
  intros [h1 h2] HQ. split; [by apply remove_addr_NoDup|]. intros x.
  by rewrite remove_addr_elem, h2, HQ.
Qed.

(** Setting and clearing one flag of a family [F]. *)
Section Flags.
Context (F : Address -> Key) (F_inj : forall a b, F a = F b -> a = b).

Lemma flag_set (st : Store Key) a v x :
  is_Some (upd (F a) (Some v) st (F x)) <-> is_Some (st (F x)) \/ x = a.
Proof.
  destruct (decide (x = a)) as [->|Hne]; [rewrite upd_eq; split; eauto|].
  rewrite upd_ne by (intros He%F_inj; congruence). tauto.
Qed.

Lemma flag_clear (st : Store Key) a x :
  is_Some (upd (F a) None st (F x)) <-> is_Some (st (F x)) /\ x <> a.
Proof.
  destruct (decide (x = a)) as [->|Hne]; [rewrite upd_eq; split; [by intros []|tauto]|].
  rewrite upd_ne by (intros He%F_inj; congruence). tauto.
Qed.
End Flags.

Lemma i_has_false {A} (o : option A) :
  match o with Some _ => true | None => false end = false -> ~ is_Some o.
Proof. destruct o; [discriminate|]. by intros _ []. Qed.
Lemma i_has_true {A} (o : option A) :
  match o with Some _ => true | None => false end = true -> is_Some o.
Proof. destruct o; [eauto|discriminate]. Qed.

(** Take the admin gate out of a run. *)
Ltac admin_gate :=
  repeat match goal with Ha : require_admin _ _ = Ok _ _ |- _ =>
    apply require_admin_Ok in Ha as (-> & ? & ?) end.

(** The allowlist also keeps a counter, and is enforced while it is not empty. *)
Record allow_inv (st : Store Key) (l : list Address) : Prop := {
  al_lists : lists (fun t => is_Some (st (KAllowedToken t))) l;
  al_true t (b : bool) : st (KAllowedToken t) = Some b -> b = true;
  al_count : default 0 (st KAllowedTokenCount) = vec_len l;
  al_bound : vec_len l <= u32_max;
  al_enforced : default false (st KAllowlistEnforced) = bool_decide (l <> [])
}.

Section AllowInv.
Abbreviation F := (fun t => DK (KAllowedToken t)).
Lemma F_inj (a b : Address) : F a = F b -> a = b.
Proof. congruence. Qed.

Lemma flag_true (st : Store Key) t x (b : bool) :
  (forall t (b : bool), st (KAllowedToken t) = Some b -> b = true) ->
  upd (DK (KAllowedToken t)) (Some true) st (KAllowedToken x) = Some b -> b = true.
Proof.
  intros Ht. destruct (decide (t = x)) as [->|]; [rewrite upd_eq; by intros [= <-]|].
  rewrite upd_ne by congruence. apply Ht.
Qed.

Lemma vec_len_snoc (l : list Address) t : vec_len (l ++ [t]) = vec_len l + 1.
Proof. unfold vec_len. rewrite length_app. cbn. lia. Qed.

Lemma allow_add (st : Store Key) l t (n : Z) :
  allow_inv st l -> st (KAllowedToken t) = None -> n = vec_len l + 1 -> n <= u32_max ->
  allow_inv (upd (DK KAllowlistEnforced) (Some true) (upd (DK KAllowedTokenCount) (Some n)
    (upd (DK (KAllowedToken t)) (Some true) st))) (l ++ [t]).
Proof.
  intros [h1 h2 h3 hb h4] Hn -> Hle. split.
  - eapply lists_add; [exact h1|cbv beta; by intros [? Hx]; rewrite Hn in Hx|].
    intros x. rewrite !upd_ne by done. apply (flag_set F F_inj).
  - intros x b. rewrite !upd_ne by done. by apply flag_true.
  - rewrite upd_ne, upd_eq by done. cbn. by rewrite vec_len_snoc.
  - by rewrite vec_len_snoc.
  - rewrite upd_eq. cbn. rewrite bool_decide_true; [done|]. by destruct l.
Qed.

Lemma allow_again (st : Store Key) l t :
  allow_inv st l -> is_Some (st (KAllowedToken t)) ->
  allow_inv (upd (DK KAllowlistEnforced) (Some true)
    (upd (DK (KAllowedToken t)) (Some true) st)) l.
Proof.
  intros [h1 h2 h3 hb h4] Hs. split.
  - eapply lists_ext; [|exact h1]. intros x. cbn. rewrite upd_ne by done.
    rewrite (flag_set F F_inj). split; [tauto|intros [?| ->]; done].
  - intros x b. rewrite !upd_ne by done. by apply flag_true.
  - by rewrite !upd_ne by done.
  - done.
  - rewrite upd_eq. cbn. rewrite bool_decide_true; [done|]. intros ->.
    by apply (li_elem _ _ h1), elem_of_nil in Hs.
Qed.

Lemma flag_true_clear (st : Store Key) t x (b : bool) :
  (forall t (b : bool), st (KAllowedToken t) = Some b -> b = true) ->
  upd (DK (KAllowedToken t)) None st (KAllowedToken x) = Some b -> b = true.
Proof.
  intros Ht. destruct (decide (t = x)) as [->|]; [by rewrite upd_eq|].
  rewrite upd_ne by congruence. apply Ht.
Qed.

Lemma allow_remove (st : Store Key) l t (n : Z) :
  allow_inv st l -> is_Some (st (KAllowedToken t)) ->
  n = u32_sat_sub (default 0 (st KAllowedTokenCount)) 1 ->
  let st' := upd (DK KAllowedTokenCount) (Some n) (upd (DK (KAllowedToken t)) None st) in
  allow_inv (if n =? 0 then upd (DK KAllowlistEnforced) (Some false) st' else st')
    (remove_addr l t).
Proof.
  intros [h1 h2 h3 hb h4] Hs Hn st'.
  pose proof (remove_addr_length l t (li_nodup _ _ h1) (proj2 (li_elem _ _ h1 t) Hs)) as Hlen.
  assert (n = vec_len (remove_addr l t)) as Hn'.
  { rewrite Hn, h3. unfold vec_len in *. rewrite Hlen in *. unfold_ints. lia. }
  assert (forall k : Key, k <> DK KAllowlistEnforced ->
            (if n =? 0 then upd (DK KAllowlistEnforced) (Some false) st' else st') k = st' k)
    as Hst by (intros k Hk; case_match; [by rewrite upd_ne|done]).
  split.
  - eapply lists_remove; [exact h1|]. intros x. cbv beta. rewrite Hst by done. unfold st'.
    rewrite upd_ne by done. apply (flag_clear F F_inj).
  - intros x b. rewrite Hst by done. unfold st'. rewrite upd_ne by done. by apply flag_true_clear.
  - rewrite Hst by done. unfold st'. by rewrite upd_eq.
  - unfold vec_len in *. lia.
  - destruct (Z.eqb_spec n 0) as [E|E].
    + rewrite upd_eq. cbn. rewrite bool_decide_false; [done|]. intros Hne. apply Hne.
      apply nil_length_inv. unfold vec_len in Hn'. lia.
    + unfold st'. rewrite !upd_ne by done. rewrite h4. unfold vec_len in Hn'.
      rewrite !bool_decide_true; [done| |]; intros E2; rewrite E2 in *; cbn in *; lia.
Qed.

Lemma allow_absent (st : Store Key) l t :
  allow_inv st l -> st (KAllowedToken t) = None ->
  allow_inv (upd (DK (KAllowedToken t)) None st) (remove_addr l t).
Proof.
  intros [h1 h2 h3 hb h4] Hn. rewrite remove_addr_notin
    by (rewrite (li_elem _ _ h1); intros [? Hx]; by rewrite Hn in Hx).
  split.
  - eapply lists_ext; [|exact h1]. intros x. cbv beta. rewrite (flag_clear F F_inj).
    split; [|tauto]. intros Hx. split; [done|]. intros ->. rewrite Hn in Hx. by destruct Hx.
  - intros x b. by apply flag_true_clear.
  - by rewrite upd_ne by done.
  - done.
  - by rewrite upd_ne by done.
Qed.
End AllowInv.

Section Registry.
Context {W : Type} `{TokenLaws W} `{!RateOracle W, !RateOracleLaws W}.
Implicit Types s : State W.

Definition allow_list s : list Address := default [] (pers s KAllowedTokens).
Definition black_list s : list Address := default [] (pers s KBlacklistedTokens).
Definition frozen_list s : list Address := default [] (pers s FrozenPlayers).

Definition allow_ok s : Prop := allow_inv (inst s) (allow_list s).
Definition black_ok s : Prop :=
  lists (fun t => is_Some (inst s (KBlacklistedToken t))) (black_list s).
Definition frozen_ok s : Prop :=
  lists (fun p => is_Some (inst s (FrozenPlayer p))) (frozen_list s).

(** One registry, with flags [F], under an addition, a removal, or neither. *)
Ltac registry_step F Hb :=
  assert (forall a b : Address, F a = F b -> a = b) as F_inj by congruence;
  first
    [ exact Hb
    | eapply lists_add; [exact Hb|cbv beta; by apply i_has_false|intros x; cbn; apply (flag_set F F_inj)]
    | eapply lists_ext; [|exact Hb]; intros x; cbn; rewrite (flag_set F F_inj);
      split; [tauto|intros [?| ->]; [done|by apply i_has_true]]
    | match goal with Hl : pers _ _ = Some _ |- _ => cbn in Hl; rewrite Hl in Hb end;
      eapply lists_remove; [exact Hb|]; intros x; cbn; apply (flag_clear F F_inj)
    | match goal with Hl : pers _ _ = None |- _ => cbn in Hl; rewrite Hl in * end;
      match goal with Hh : match _ with Some _ => true | None => false end = true |- _ =>
        apply i_has_true, (li_elem _ _ Hb), elem_of_nil in Hh end; done ].

(** Other calls do not touch the registry at all. *)
Ltac registry_same Hf Hb :=
  rewrite (w_pers _ _ _ _ Hf) by done; eapply lists_ext; [|exact Hb];
  intros x; cbn; rewrite (w_inst _ _ _ _ Hf); [done|].

Lemma black_step call env s s' : exec call env s = Ok tt s' -> black_ok s -> black_ok s'.
Proof.
  intros Hr Hb. pose proof (rel_Ok _ _ _ _ _ _ (footprint call) Hr) as Hf.
  unfold black_ok, black_list in *.
  destruct (pers_writes call KBlacklistedTokens) eqn:Hw.
  - destruct call; try discriminate Hw; cbn [exec] in Hr;
      unfold add_token_to_blacklist, remove_token_from_blacklist in Hr; clear Hf Hw;
      minv; admin_gate; zbool; cbn; rewrite ?upd_eq; cbn;
      registry_step (fun a => DK (KBlacklistedToken a)) Hb.
  - registry_same Hf Hb. by destruct call.
Qed.

Lemma frozen_step call env s s' : exec call env s = Ok tt s' -> frozen_ok s -> frozen_ok s'.
Proof.
  intros Hr Hb. pose proof (rel_Ok _ _ _ _ _ _ (footprint call) Hr) as Hf.
  unfold frozen_ok, frozen_list in *.
  destruct (pers_writes call FrozenPlayers) eqn:Hw.
  - destruct call; try discriminate Hw; cbn [exec] in Hr;
      unfold admin_freeze_player, admin_unfreeze_player in Hr; clear Hf Hw;
      minv; admin_gate; zbool; cbn; rewrite ?upd_eq; cbn;
      registry_step (fun a => PFK (FrozenPlayer a)) Hb.
  - registry_same Hf Hb. by destruct call.
Qed.

Lemma append_run t env s u s' :
  append_allowed_token t env s = Ok u s' ->
  inst s' = inst s /\
  allow_list s' = if contains (allow_list s) t then allow_list s else allow_list s ++ [t].
Proof.
  unfold append_allowed_token, allow_list, set_allowed_token_list.
  unfold mbind, M_bind, p_get_or. cbn.
  destruct (contains (default [] (pers s KAllowedTokens)) t); [by intros [= _ <-]|].
  destruct (default [] (pers s KAllowedTokens)); cbn; intros [= _ <-]; cbn; by rewrite upd_eq.
Qed.

Lemma unlist_run t env s u s' :
  remove_allowed_token_from_list t env s = Ok u s' ->
  inst s' = inst s /\ allow_list s' = remove_addr (allow_list s) t.
Proof.
  unfold remove_allowed_token_from_list, get_allowed_token_list, allow_list,
    set_allowed_token_list. unfold mbind, M_bind, p_get, mret, M_ret.
  destruct (default [] (pers s KAllowedTokens)) as [|a l] eqn:Hl; cbn -[remove_addr].
  - intros [= _ <-]. by rewrite Hl.
  - destruct (remove_addr (a :: l) t); cbn; intros [= _ <-]; cbn; by rewrite upd_eq.
Qed.

Lemma allow_flag s t :
  allow_ok s -> default false (inst s (KAllowedToken t)) = false ->
  inst s (KAllowedToken t) = None /\ contains (allow_list s) t = false.
Proof.
  intros [h1 h2 _ _ _] Hd. destruct (inst s (KAllowedToken t)) as [b|] eqn:E.
  - by rewrite (h2 _ _ E) in Hd.
  - split; [done|]. apply not_true_iff_false. rewrite contains_spec, (li_elem _ _ h1), E.
    by intros [].
Qed.

Lemma allow_listed s t :
  allow_ok s -> is_Some (inst s (KAllowedToken t)) -> contains (allow_list s) t = true.
Proof. intros [h1 _ _ _ _] Hs. by apply contains_spec, (li_elem _ _ h1). Qed.

(** The list is untouched by writes to instance storage. *)
Lemma allow_list_inst f s : allow_list (with_inst f s) = allow_list s.
Proof. done. Qed.

Lemma add_allowed_ok t env s s' : add_allowed_token t env s = Ok tt s' -> allow_ok s -> allow_ok s'.
Proof.
  unfold add_allowed_token. intros Hr Hok. minv; admin_gate; zbool;
    match goal with Ha : append_allowed_token _ _ _ = Ok _ _ |- _ =>
      apply append_run in Ha as [Hi Hl] end; unfold allow_ok; rewrite !allow_list_inst in Hl;
    match goal with |- allow_inv (inst (mkSt _ (pers ?x) _ _ _)) _ =>
      change (allow_inv (inst x) (allow_list x)) end; rewrite Hi, Hl; cbn.
  - destruct (allow_flag s t Hok) as [Hn ->]; [done|].
    match goal with Hc : u32_checked_add _ _ = Some _ |- _ =>
      rewrite upd_ne in Hc by done; rewrite (al_count _ _ Hok) in Hc;
      apply checked_Some in Hc as [<- [_ Hc]] end.
    by apply allow_add.
  - assert (is_Some (inst s (KAllowedToken t))) as Hs
      by (destruct (inst s (KAllowedToken t)); [eauto|done]).
    rewrite (allow_listed s t Hok Hs). by apply allow_again.
Qed.

Lemma remove_allowed_ok t env s s' :
  remove_allowed_token t env s = Ok tt s' -> allow_ok s -> allow_ok s'.
Proof.
  unfold remove_allowed_token. intros Hr Hok. minv; admin_gate;
    match goal with Ha : remove_allowed_token_from_list _ _ _ = Ok _ _ |- _ =>
      apply unlist_run in Ha as [Hi Hl] end; unfold allow_ok; rewrite !allow_list_inst in Hl;
    match goal with |- allow_inv (inst (mkSt _ (pers ?x) _ _ _)) _ =>
      change (allow_inv (inst x) (allow_list x)) end; rewrite Hi, Hl; cbn.
  1,2: match goal with Hh : match _ with Some _ => true | None => false end = true |- _ =>
         apply i_has_true in Hh; pose proof (allow_remove _ _ t _ Hok Hh eq_refl) as Hx end;
       cbv zeta in Hx; cbn in *; rewrite upd_ne in * by done;
       match goal with Hz : (_ =? 0) = _ |- _ => rewrite Hz in Hx end; exact Hx.
  apply allow_absent; [exact Hok|].
  match goal with Hh : match ?o with Some _ => true | None => false end = false |- _ =>
    by destruct o end.
Qed.

Lemma allow_step call env s s' : exec call env s = Ok tt s' -> allow_ok s -> allow_ok s'.
Proof.
  intros Hr Hok. pose proof (rel_Ok _ _ _ _ _ _ (footprint call) Hr) as Hf.
  destruct (pers_writes call KAllowedTokens) eqn:Hw.
  - destruct call; try discriminate Hw; cbn [exec] in Hr;
      [by eapply add_allowed_ok|by eapply remove_allowed_ok].
  - unfold allow_ok, allow_list. rewrite (w_pers _ _ _ _ Hf) by done.
    destruct Hok as [h1 h2 h3 hb h4].
    split; rewrite ?(w_inst _ _ _ _ Hf) by (by destruct call); try done.
    + eapply lists_ext; [|exact h1]. intros t. cbv beta.
      by rewrite (w_inst _ _ _ _ Hf) by (by destruct call).
    + intros t b. rewrite (w_inst _ _ _ _ Hf) by (by destruct call). apply h2.
Qed.

Record registries_ok s : Prop := {
  ro_allow : allow_ok s; ro_black : black_ok s; ro_frozen : frozen_ok s }.

Lemma registries_init env w oracle admin s :
  initialize oracle admin env (init_state w) = Ok tt s -> registries_ok s.
Proof.
  unfold initialize. intros Hr. minv. split.
  - split; cbn; try done. split; [constructor|]. intros t. rewrite elem_of_nil.
    split; [done|]. by intros [].
  - split; [constructor|]. intros t. cbn. rewrite elem_of_nil. split; [done|]. by intros [].
  - split; [constructor|]. intros t. cbn. rewrite elem_of_nil. split; [done|]. by intros [].
Qed.

(** The admission registries are consistent in every reachable state: the
    stored allowlist, blacklist and list of frozen players name, without
    repetition, exactly the addresses whose flag is set; the allowlist's counter
    is its length, and the allowlist is enforced exactly when it is not empty. *)
Theorem registries_consistent me s :
  reachable me (fun _ => True) s -> registries_ok s.
Proof.
  induction 1 as [env w oracle admin s Hse Hb Hr | env call s _ [IH1 IH2 IH3] Hse Hme _ | w s _ IH Hb].
  - by eapply registries_init.
  - unfold invoke. destruct (exec call env s) as [[] s'|e s'|] eqn:Hrun; cbn; [|done..].
    split; [by eapply allow_step|by eapply black_step|by eapply frozen_step].
  - by destruct IH as [? ? ?].
Qed.
End Registry.

(** ** Where a stored match comes from *)

(** A record of [c'] is a record of [c] with the same terms, or the new one. *)
Definition originates (new : option MatchParams) (c c' : Core) : Prop :=
  forall i m', c_match c' i = Some m' ->
    (exists m, c_match c i = Some m /\ terms m' = terms m) \/
    (exists p seq now lg, new = Some p /\ c_match c i = None /\ m' = new_match p i seq now lg).

Lemma mstep_origin env new c c' : mstep env c c' -> originates new c c'.
Proof.
  destruct 1 as [c' Hc' | mid m m' x c' Hm Hev Hc' | mid m c' Hm Ht Hc'];
    intros i m0; rewrite Hc'; try (left; by exists m0).
  destruct (Z.eqb_spec i mid) as [->|]; [|left; by exists m0]. intros [= <-]. left.
  exists m. split; [done|by eapply evolve_terms].
Qed.

Lemma cstep_origin env new c c' : cstep env new c c' -> originates new c c'.
Proof.
  destruct 1 as [c' Hm | c' Hc' | p lg c' Hnew _ Hno _ Hc'].
  - by eapply mstep_origin.
  - intros i m0. rewrite Hc'. left. by exists m0.
  - intros i m0. rewrite Hc'. destruct (Z.eqb_spec i (c_count c)) as [->|]; [|left; by exists m0].
    intros [= <-]. right. by eexists p, _, _, _.
Qed.

Lemma msteps_origin env new c c' : rtc (mstep env) c c' -> originates new c c'.
Proof.
  induction 1 as [c|c1 c2 c3 H12 _ IH]; [intros i m; left; by exists m|].
  intros i m3 H3. pose proof (mstep_origin env None _ _ H12) as Ho.
  destruct (IH _ _ H3) as [(m2 & H2 & Ht)|(p & seq & now & lg & Hn & H2 & Hm)].
  - destruct (Ho _ _ H2) as [(m & Hm & Ht')|(? & ? & ? & ? & [=] & _)]. left. exists m.
    split; [done|congruence].
  - right. exists p, seq, now, lg. split; [done|]. split; [|done].
    destruct (c_match c1 i) eqn:E; [|done].
    destruct (mstep_descends _ _ _ H12 _ _ E) as (? & Hx & _). congruence.
Qed.

Section Ballots.
Context {W : Type} `{TokenLaws W} `{!RateOracle W, !RateOracleLaws W}.
Implicit Types s : State W.

Lemma exec_origin call env s s' :
  exec call env s = Ok tt s' -> originates (created call) (core_of s) (core_of s').
Proof.
  intros Hr. destruct (exec_steps call env s s' _ (view_core_of s) Hr) as (c' & Hv & Hst & _).
  assert (originates (created call) (core_of s) c') as Ho
    by (destruct Hst; [by eapply cstep_origin|by eapply msteps_origin]).
  intros i m' Hm'. apply Ho. by rewrite <- (v_match _ _ Hv).
Qed.

(** ** Game identifiers *)

Record game_ids_ok s : Prop := {
  gi_reserved i m : match_of s i = Some m -> is_Some (pers s (KGameId (game_id m)));
  gi_unique i j m m' : match_of s i = Some m -> match_of s j = Some m' ->
    game_id m = game_id m' -> i = j
}.

Lemma created_exec call p :
  created call = Some p -> exec (W:=W) call = ignore (create_match_internal p).
Proof. destruct call; try discriminate; by intros [= <-]. Qed.

Lemma game_ids_step call env s s' :
  exec call env s = Ok tt s' -> game_ids_ok s -> game_ids_ok s'.
Proof.
  intros Hr [h1 h2]. pose proof (exec_origin _ _ _ _ Hr) as Ho.
  pose proof (rel_Ok _ _ _ _ _ _ (footprint call) Hr) as Hf.
  assert (Hold : forall i m m', match_of s i = Some m -> terms m' = terms m ->
            is_Some (pers s (KGameId (game_id m'))))
    by (intros i m m' Hm Ht; change (game_id m') with (game_id (terms m')); rewrite Ht;
        exact (h1 i m Hm)).
  assert (Hnew : forall p, created call = Some p ->
            pers s (KGameId (mp_game_id p)) = None /\ is_Some (pers s' (KGameId (mp_game_id p))) /\
            forall i j, match_of s' i <> None -> match_of s i = None ->
                        match_of s' j <> None -> match_of s j = None -> i = j).
  { intros p Hp. rewrite (created_exec _ _ Hp) in Hr. unfold ignore in Hr. minv.
    destruct (create_guards _ _ _ _ _ Hm) as (_&_&_&_&_&_&_&Hg&_&_).
    destruct (create_stores _ _ _ _ _ Hm) as (_ & _ & (rl & Hrw) & _).
    split_and!; [done|by eapply game_id_reserved|]. intros i j. rewrite !Hrw.
    destruct (Z.eqb_spec i a), (Z.eqb_spec j a); congruence. }
  split.
  - intros i m' Hm'. destruct (Ho i m' Hm') as [(m & Hm & Ht)|(p & seq & now & lg & Hp & _ & ->)].
    + apply (w_perm _ _ _ _ Hf (KGameId (game_id m'))); [done|exact (Hold i m m' Hm Ht)].
    + by apply Hnew.
  - intros i j mi mj Hi Hj Heq.
    destruct (Ho i mi Hi) as [(m & Hm & Ht)|(p & seq & now & lg & Hp & Hn & ->)],
      (Ho j mj Hj) as [(m2 & Hm2 & Ht2)|(p2 & seq2 & now2 & lg2 & Hp2 & Hn2 & ->)].
    + eapply h2; [exact Hm|exact Hm2|].
      change (game_id (terms m) = game_id (terms m2)). rewrite <- Ht, <- Ht2. exact Heq.
    + destruct (Hnew _ Hp2) as [Hno _]. cbn in Heq.
      destruct (Hold _ _ _ Hm Ht) as [? Hx]. by rewrite Heq, Hno in Hx.
    + destruct (Hnew _ Hp) as [Hno _]. cbn in Heq.
      destruct (Hold _ _ _ Hm2 Ht2) as [? Hx]. by rewrite <- Heq, Hno in Hx.
    + destruct (Hnew _ Hp) as (_ & _ & Hone).
      apply Hone; [by rewrite Hi|exact Hn|by rewrite Hj|exact Hn2].
Qed.

(** In every reachable state a game identifier belongs to at most one match:
    no game can be wagered on twice. *)
Theorem unique_game_ids me s i j m m' :
  reachable me (fun _ => True) s ->
  match_of s i = Some m -> match_of s j = Some m' -> game_id m = game_id m' -> i = j.
Proof.
  intros Hr. apply gi_unique.
  induction Hr as [env w oracle admin s Hse Hb Hi | env call s _ IH Hse Hme _ | w s _ IH Hb].
  - destruct (initial_core _ _ _ _ _ Hi) as (Hp & _).
    split; unfold match_of; intros *; by rewrite Hp.
  - unfold invoke. destruct (exec call env s) as [[] s'|e s'|] eqn:Hrun; cbn; [|done..].
    by eapply game_ids_step.
  - by destruct IH as [? ?].
Qed.

(** ** Consensus *)

Definition ballot_key (k : Key) : bool :=
  match k with
  | DK (KOracleVote _ _) | DK (KOracleConfirmations _) | DK (KConsensusLeadingWinner _) => true
  | _ => false
  end.

Definition voted s (mid : Z) (o : Address) : Prop := is_Some (pers s (KOracleVote mid o)).

(** [voters] is the ballot of match [mid]: who voted, as many as are counted, all
    for the leading winner. *)
Record ballot s (mid : Z) (voters : list Address) : Prop := {
  ba_voters : lists (voted s mid) voters;
  ba_count : vec_len voters = default 0 (pers s (KOracleConfirmations mid));
  ba_agree o w : pers s (KOracleVote mid o) = Some w ->
    pers s (KConsensusLeadingWinner mid) = Some w
}.
Definition ballots_ok s : Prop := forall mid, exists voters, ballot s mid voters.

Lemma ballot_ext s s' mid l :
  (forall k, ballot_key k = true -> pers s' k = pers s k) -> ballot s mid l -> ballot s' mid l.
Proof.
  intros He [h1 h2 h3]. split.
  - eapply lists_ext; [|exact h1]. intros o. unfold voted. by rewrite He.
  - by rewrite He.
  - intros o w. rewrite !He by done. apply h3.
Qed.

(** What settling leaves of the ballots. *)
Lemma settle_spares mid w conf :
  rel (E:=Error) (S:=State W) (within (fun _ => true) (fun k => negb (ballot_key k)))
    (settle_result mid w conf).
Proof. walk. Qed.
Lemma deadlock_spares mid x y :
  rel (E:=Error) (S:=State W) (within (fun _ => true) (fun k => negb (ballot_key k)))
    (check_oracle_deadlock mid x y).
Proof. walk. Qed.

(** The state in which a consensus submission has counted its vote. *)
Definition counted (mid : Z) (w : Winner) (o : Address) s s1 : Prop :=
  pers s1 (KOracleVote mid o) = Some w /\
  pers s1 (KConsensusLeadingWinner mid) = Some w /\
  pers s1 (KOracleConfirmations mid) =
    Some (default 0 (pers s (KOracleConfirmations mid)) + 1) /\
  (forall k, ballot_key k = true -> k <> DK (KOracleVote mid o) ->
     k <> DK (KConsensusLeadingWinner mid) -> k <> DK (KOracleConfirmations mid) ->
     pers s1 k = pers s k).

Lemma submit_counts mid w o env s s' :
  submit_result_consensus mid w o env s = Ok tt s' ->
  ~ voted s mid o /\
  (0 < default 0 (pers s (KOracleConfirmations mid)) ->
     pers s (KConsensusLeadingWinner mid) = Some w) /\
  exists s1, counted mid w o s s1 /\ view s1 (core_of s) /\
    let required := default DEFAULT_REQUIRED_CONFIRMATIONS (inst s KRequiredOracleConfirmations) in
    let n := default 0 (pers s (KOracleConfirmations mid)) + 1 in
    if required <=? n then settle_result mid w None env s1 = Ok tt s'
    else check_oracle_deadlock mid n required env s1 = Ok tt s'.
Proof.
  unfold submit_result_consensus, require_not_paused, load_match, get_required_confirmations.
  intros Hr. minv; zbool.
  all: match goal with Hc : u32_checked_add _ _ = Some _ |- _ =>
         apply checked_Some in Hc as [<- _] end; cbn in *.
  all: split; [by apply i_has_false|]; split; [intros; congruence || lia|].
  all: match goal with Hs : _ _ ?s1 = Ok tt _ |- _ => exists s1 end.
  all: split; [|split].
  all: try (split_and!; cbn; rewrite ?upd_eq; try done;
            [rewrite upd_ne by done; by rewrite upd_eq
            |rewrite !upd_ne by done; first [by rewrite upd_eq | congruence]
            |intros k _ ? ? ?; by rewrite !upd_ne by done]).
  all: try (split; try done; cbn; unfold index_of; cbn; intros; by rewrite !upd_ne by done).
  all: match goal with |- if ?b then _ else _ => destruct b eqn:? end; zbool;
    first [assumption | exfalso; lia].
Qed.

Lemma ballot_counted mid w o s s1 l :
  ballot s mid l -> ~ voted s mid o ->
  (0 < default 0 (pers s (KOracleConfirmations mid)) ->
     pers s (KConsensusLeadingWinner mid) = Some w) ->
  counted mid w o s s1 -> ballot s1 mid (l ++ [o]).
Proof.
  intros [h1 h2 h3] Hn Hlead (c1 & c2 & c3 & c4).
  assert (forall o', o' <> o -> pers s1 (KOracleVote mid o') = pers s (KOracleVote mid o'))
    as Hother by (intros o' Hne; apply c4; [done|congruence|done|done]).
  split.
  - eapply lists_add; [exact h1|exact Hn|]. intros x. unfold voted.
    destruct (decide (x = o)) as [->|Hne]; [rewrite c1; split; eauto|].
    rewrite Hother by done. tauto.
  - rewrite c3. cbn. rewrite <- h2. apply vec_len_snoc.
  - intros x v. destruct (decide (x = o)) as [->|Hne]; [rewrite c1, c2; done|].
    rewrite Hother, c2 by done. intros Hv. rewrite <- (h3 _ _ Hv). symmetry. apply Hlead.
    rewrite <- h2. assert (x ∈ l) as Hx by (apply (li_elem _ _ h1); eexists; exact Hv).
    unfold vec_len. destruct l; [by apply elem_of_nil in Hx|cbn; lia].
Qed.

Lemma counted_other mid w o s s1 mid' l :
  mid' <> mid -> counted mid w o s s1 -> ballot s mid' l -> ballot s1 mid' l.
Proof.
  intros Hne (_ & _ & _ & c4) [h1 h2 h3].
  assert (Hv : forall o', pers s1 (KOracleVote mid' o') = pers s (KOracleVote mid' o'))
    by (intros o'; apply c4; [done|congruence|congruence|congruence]).
  assert (Hl : pers s1 (KConsensusLeadingWinner mid') = pers s (KConsensusLeadingWinner mid'))
    by (apply c4; [done|congruence|congruence|congruence]).
  assert (Hc : pers s1 (KOracleConfirmations mid') = pers s (KOracleConfirmations mid'))
    by (apply c4; [done|congruence|congruence|congruence]).
  split; [|by rewrite Hc|intros o' v; rewrite Hv, Hl; apply h3].
  eapply lists_ext; [|exact h1]. intros o'. unfold voted. by rewrite Hv.
Qed.

(** The rest of a consensus submission leaves the ballots alone. *)
Lemma consensus_tail mid w o env s s' :
  submit_result_consensus mid w o env s = Ok tt s' ->
  exists s1, counted mid w o s s1 /\ forall k, ballot_key k = true -> pers s' k = pers s1 k.
Proof.
  intros Hr. destruct (submit_counts _ _ _ _ _ _ Hr) as (_ & _ & s1 & Hc & _ & Hs).
  exists s1. split; [done|]. intros k Hk. cbv zeta in Hs.
  assert (negb (ballot_key k) = false) as Hk' by (by rewrite Hk).
  destruct (_ <=? _);
    [exact (w_pers _ _ _ _ (rel_Ok _ _ _ _ _ _ (settle_spares mid w None) Hs) k Hk')
    |exact (w_pers _ _ _ _ (rel_Ok _ _ _ _ _ _ (deadlock_spares mid _ _) Hs) k Hk')].
Qed.

Lemma ballots_step call env s s' : exec call env s = Ok tt s' -> ballots_ok s -> ballots_ok s'.
Proof.
  intros Hr Hok mid. destruct (Hok mid) as [l Hl].
  destruct (pers_writes call (KOracleConfirmations mid)) eqn:Hw.
  - destruct call; try discriminate Hw. cbn [exec] in Hr. cbn in Hw. apply Z.eqb_eq in Hw as <-.
    destruct (submit_counts _ _ _ _ _ _ Hr) as (Hn & Hlead & _).
    destruct (consensus_tail _ _ _ _ _ _ Hr) as (s1 & Hc & He).
    exists (l ++ [o]). eapply ballot_ext; [exact He|]. by eapply ballot_counted.
  - exists l. pose proof (rel_Ok _ _ _ _ _ _ (footprint call) Hr) as Hf.
    assert (Hsame : forall k : DataKey, match k with KOracleVote i _ | KOracleConfirmations i
              | KConsensusLeadingWinner i => i = mid | _ => False end -> pers s' k = pers s k)
      by (intros k Hk; apply (w_pers _ _ _ _ Hf); destruct k; try done; subst; exact Hw).
    destruct Hl as [h1 h2 h3]. split.
    + eapply lists_ext; [|exact h1]. intros o. unfold voted. by rewrite Hsame.
    + by rewrite Hsame.
    + intros o w. rewrite !Hsame by done. apply h3.
Qed.

Lemma reachable_ballots me s : reachable me (fun _ => True) s -> ballots_ok s.
Proof.
  induction 1 as [env w oracle admin s Hse Hb Hi | env call s _ IH Hse Hme _ | w s _ IH Hb].
  - destruct (initial_core _ _ _ _ _ Hi) as (Hp & _). intros mid. exists [].
    split; [split; [constructor|]| |]; intros *; unfold voted; rewrite ?Hp; try done.
    rewrite elem_of_nil. split; [done|]. by intros [].
  - unfold invoke. destruct (exec call env s) as [[] s'|e s'|] eqn:Hrun; cbn; [|done..].
    by eapply ballots_step.
  - intros mid. destruct (IH mid) as [l [? ? ?]]. by exists l.
Qed.

End Ballots.
