(* ===== verification/History.v ===== *)
(** The per-player snapshot ring buffer implements a bounded history: the stored
    slots hold exactly the newest [MAX_PLAYER_SNAPSHOTS] entries of the list of
    all snapshots ever recorded, and the historical balance query answers from
    that list.  The listings of matches by state are complete and correct: under a
    consistent index a listing holds exactly the stored matches of that state in order
    of their ids, and the pages partition it. *)
From stdpp Require Import base list numbers strings relations.
From Stdlib Require Import ZArith Lia.
From S2P Require Import Prelude Soroban EscrowTypes Config Tokens Players MatchIndex Snapshots.
From S2P Require Import RateOracle Rotation Matches Settlement Refunds Disputes.
From S2P Require Import Governance Ledger Core Lifecycle Simulation Calls Footprint Solvency.
From S2P Require Import Queries Invariants Effects.

(** ** The specification *)

(** One entry of a player's history: the ledger it was recorded at, and the
    player's escrow balance then. *)
Abbreviation entry := (Z * Z)%type.

(** The newest entry at or before [ts] among the entries [h], oldest first. *)
Definition last_before (ts : Z) (h : list entry) : option Z :=
  snd <$> last (filter (fun e => fst e <= ts) h).

(** The entries still retained. *)
Definition retained (h : list entry) : list entry := drop (length h - Z.to_nat MAX_PLAYER_SNAPSHOTS) h.

Definition balance_at (h : list entry) (ts : Z) : BalanceAtTimestamp :=
  match last_before ts (retained h) with
  | Some b => Known b
  | None => if vec_len h >? MAX_PLAYER_SNAPSHOTS then Pruned else NoHistory
  end.

Section History.
Context {W : Type} `{Host W}.
Implicit Types s : State W.

(** The buffer of player [p] holds the history [h]. *)
Record ring s (p : Address) (h : list entry) : Prop := {
  rg_count : default 0 (pers s (KPlayerBalanceSnapshotCount p)) = vec_len h;
  rg_bound : vec_len h <= u64_max;
  rg_slots i e : h !! i = Some e -> (length h - Z.to_nat MAX_PLAYER_SNAPSHOTS <= i)%nat ->
    pers s (KPlayerBalanceSnapshot p (Z.of_nat i mod MAX_PLAYER_SNAPSHOTS)) =
    Some (mkPlayerBalanceSnapshot p (Z.of_nat i) (fst e) (snd e))
}.

Lemma slot_inj (i j n : nat) :
  (n - 32 <= i < n)%nat -> (n - 32 <= j < n)%nat ->
  Z.of_nat i mod 32 = Z.of_nat j mod 32 -> i = j.
Proof.
  intros Hi Hj Hm. 
  pose proof (Z.div_mod (Z.of_nat i) 32 ltac:(lia)).
  pose proof (Z.div_mod (Z.of_nat j) 32 ltac:(lia)). nia.
Qed.

(** Recording appends to the history. *)
Lemma record_appends p env s h :
  ring s p h -> vec_len h < u64_max ->
  exists s', record_player_snapshot p env s = Ok tt s' /\
    ring s' p (h ++ [(sequence env, default 0 (pers s (Balance p)))]).
Proof.
  intros [h1 h2 h3] Hlt. unfold record_player_snapshot, player_escrow_balance.
  unfold mbind, M_bind, p_get_or, ledger_seq, p_set, publish. cbn.
  eexists. split; [reflexivity|]. rewrite h1. split; cbn.
  - rewrite upd_eq. cbn. unfold vec_len in *. rewrite length_app. cbn.
    unfold u64_sat_add, clamp. lia.
  - unfold vec_len in *. rewrite length_app. cbn. lia.
  - intros i e Hi Hr. rewrite length_app in Hr. cbn in Hr. rewrite upd_ne by done.
    apply lookup_snoc_Some in Hi as [[Hlt' Hi]|[-> <-]].
    + rewrite upd_ne; [apply h3; [done|lia]|]. intros [= Hs]. unfold vec_len in Hs.
      pose proof (slot_inj i (length h) (S (length h))) as Hinj. 
      unfold MAX_PLAYER_SNAPSHOTS in *. specialize (Hinj ltac:(lia) ltac:(lia) ltac:(lia)). lia.
    + unfold vec_len. by rewrite upd_eq.
Qed.

(** The search loop against the specification, one retained prefix at a time. *)
Lemma search_spec s p h ts (start n : nat) :
  ring s p h -> (length h - Z.to_nat MAX_PLAYER_SNAPSHOTS <= start)%nat ->
  (start + n <= length h)%nat ->
  search_balance s p ts (Z.of_nat start) n = last_before ts (take n (drop start h)).
Proof.
  intros [h1 h2 h3] Hs Hle. induction n as [|n IH]; [done|]. cbn [search_balance].
  destruct (lookup_lt_is_Some_2 h (start + n)) as [e He]; [lia|].
  rewrite <- Nat2Z.inj_add, (h3 _ e He) by lia. cbn [ps_index ps_ledger ps_balance].
  assert (drop start h !! n = Some e) as Hd by (by rewrite lookup_drop).
  rewrite (take_S_r _ _ _ Hd). unfold last_before. rewrite filter_app, Z.eqb_refl. cbn [andb].
  destruct (Z.leb_spec (fst e) ts) as [Hl|Hl].
  - rewrite filter_cons_True, filter_nil, last_snoc by lia. done.
  - rewrite filter_cons_False, filter_nil, app_nil_r by lia. apply IH. lia.
Qed.

(** The historical balance query answers exactly from the history: the newest
    retained snapshot at or before the given ledger; when there is none,
    [Pruned] if older snapshots were overwritten and [NoHistory] if every
    snapshot ever recorded was examined. *)
Theorem balance_query_spec p ts env s h :
  ring s p h -> get_balance_at_timestamp p ts env s = Ok (balance_at h ts) s.
Proof.
  intros Hr. pose proof Hr as [h1 h2 h3]. unfold get_balance_at_timestamp.
  unfold mbind, M_bind, p_get_or. cbn. rewrite h1.
  destruct (Z.eqb_spec (vec_len h) 0) as [E|E].
  { assert (h = []) as -> by (apply nil_length_inv; unfold vec_len in E; lia). done. }
  set (st := (length h - Z.to_nat MAX_PLAYER_SNAPSHOTS)%nat).
  assert (u64_sat_sub (vec_len h) (Z.min (vec_len h) MAX_PLAYER_SNAPSHOTS) = Z.of_nat st) as ->
    by (unfold u64_sat_sub, clamp, vec_len, MAX_PLAYER_SNAPSHOTS, u64_max in *; lia).
  unfold gets. f_equal.
  replace (Z.to_nat (vec_len h - Z.of_nat st)) with (length h - st)%nat
    by (unfold vec_len; lia).
  rewrite (search_spec s p h) by (done || lia). unfold balance_at, retained. fold st.
  rewrite take_ge by (rewrite length_drop; lia). destruct (last_before ts (drop st h)); [done|].
  assert ((Z.of_nat st >? 0) = (vec_len h >? MAX_PLAYER_SNAPSHOTS)) as ->; [|done].
  unfold st, vec_len, MAX_PLAYER_SNAPSHOTS. apply eq_bool_prop_intro.
  rewrite !Is_true_true, !Z.gtb_lt. lia.
Qed.
End History.

(** ** Every run keeps a history *)

Section Runs.
Context {W : Type} `{TokenLaws W} `{!RateOracle W, !RateOracleLaws W}.
Implicit Types s : State W.

(** The buffer of [p] is in order, or its 64-bit counter is exhausted. *)
Definition recorded s (p : Address) : Prop :=
  (exists h, ring s p h) \/ default 0 (pers s (KPlayerBalanceSnapshotCount p)) = u64_max.

Definition keeps_history s s' : Prop := forall p, recorded s p -> recorded s' p.

#[export] Instance keeps_history_preorder : PreOrder keeps_history.
Proof. split; [by intros s p|]. intros s1 s2 s3 H12 H23 p Hp. auto. Qed.

Definition history_key (k : Key) : bool :=
  match k with
  | DK (KPlayerBalanceSnapshot _ _) | DK (KPlayerBalanceSnapshotCount _) => true
  | _ => false
  end.

Lemma recorded_ext s s' p :
  (forall k, history_key k = true -> pers s' k = pers s k) -> recorded s p -> recorded s' p.
Proof.
  intros He [[h [h1 h2 h3]]|Hu]; [left; exists h|right; by rewrite He].
  split; [by rewrite He|done|]. intros. rewrite He by done. by apply h3.
Qed.

Lemma history_record p : rel (E:=Error) keeps_history (record_player_snapshot p).
Proof.
  intros env s.
  assert (Hrun : exists s', record_player_snapshot p env s = Ok tt s' /\
    default 0 (pers s' (KPlayerBalanceSnapshotCount p)) =
      u64_sat_add (default 0 (pers s (KPlayerBalanceSnapshotCount p))) 1 /\
    forall q, q <> p -> forall k, match k with KPlayerBalanceSnapshot x _
      | KPlayerBalanceSnapshotCount x => x = q | _ => False end -> pers s' k = pers s k).
  { unfold record_player_snapshot, player_escrow_balance. eexists. split; [reflexivity|].
    cbn. rewrite upd_eq. split; [done|]. intros q Hq k Hk.
    rewrite !upd_ne; [done|intros [= <-]; cbn in Hk; congruence..]. }
  destruct Hrun as (s' & Hrun & Hcount & Hother). rewrite Hrun. intros q Hq.
  destruct (decide (q = p)) as [->|Hne].
  - assert (default 0 (pers s (KPlayerBalanceSnapshotCount p)) = u64_max ->
            recorded s' p) as Hsat
      by (intros Hu; right; rewrite Hcount, Hu; reflexivity).
    destruct Hq as [[h Hr]|Hu]; [|by apply Hsat].
    destruct (Z.eq_dec (vec_len h) u64_max) as [E|E];
      [apply Hsat; by rewrite (rg_count _ _ _ Hr)|].
    destruct (record_appends p env s h Hr) as (s1 & Hrun1 & Hr1);
      [pose proof (rg_bound _ _ _ Hr); lia|].
    left. rewrite Hrun in Hrun1. injection Hrun1 as <-. eauto.
  - destruct Hq as [[h [h1 h2 h3]]|Hu]; [left; exists h|right; by rewrite (Hother q)].
    split; [by rewrite (Hother q)|done|]. intros. rewrite (Hother q) by done. by apply h3.
Qed.

Lemma history_p_set (k : Key) v : history_key k = false -> rel (E:=Error) keeps_history (p_set k v).
Proof.
  intros Hk. apply rel_p_set. intros s p. apply recorded_ext. intros k' Hk'. cbn.
  rewrite upd_ne; [done|congruence].
Qed.
Lemma history_p_remove (k : Key) : history_key k = false -> rel (E:=Error) keeps_history (p_remove k).
Proof.
  intros Hk. apply rel_p_remove. intros s p. apply recorded_ext. intros k' Hk'. cbn.
  rewrite upd_ne; [done|congruence].
Qed.
Lemma history_i_set k v : rel (E:=Error) keeps_history (i_set k v).
Proof. apply rel_i_set. intros s p. by apply recorded_ext. Qed.
Lemma history_i_remove k : rel (E:=Error) keeps_history (i_remove k).
Proof. apply rel_i_remove. intros s p. by apply recorded_ext. Qed.
Lemma history_t_set k v : rel (E:=Error) keeps_history (t_set k v).
Proof. apply rel_t_set. intros s p. by apply recorded_ext. Qed.
Lemma history_t_remove k : rel (E:=Error) keeps_history (t_remove k).
Proof. apply rel_t_remove. intros s p. by apply recorded_ext. Qed.
Lemma history_publish t1 t2 vs : rel (E:=Error) keeps_history (publish t1 t2 vs).
Proof. apply rel_publish. intros s e p. by apply recorded_ext. Qed.
Lemma history_call_out f : rel (E:=Error) keeps_history (call_out f).
Proof. apply rel_call_out. intros s w p. by apply recorded_ext. Qed.
Lemma history_transfer t a b x : rel (E:=Error) keeps_history (transfer t a b x).
Proof. apply history_call_out. Qed.
Lemma history_prng : rel (E:=Error) keeps_history prng_bytes.
Proof. apply rel_prng_bytes. intros s p. by apply recorded_ext. Qed.
End Runs.

#[export] Hint Resolve history_record history_i_set history_i_remove history_t_set
  history_t_remove history_publish history_call_out history_transfer history_prng : frame.
#[export] Hint Extern 1 (rel keeps_history (Soroban.p_set _ _)) =>
  (apply history_p_set; reflexivity) : frame.
#[export] Hint Extern 1 (rel keeps_history (Soroban.p_remove _)) =>
  (apply history_p_remove; reflexivity) : frame.

Section HistoryCalls.
Context {W : Type} `{TokenLaws W} `{!RateOracle W, !RateOracleLaws W}.
Implicit Types s : State W.
Abbreviation keeps_ c := (rel (E:=Error) (S:=State W) keeps_history c).

Lemma history_batch {A} (f : A -> EM W unit) es : (forall a, keeps_ (f a)) -> keeps_ (batch f es).
Proof. intros Hf. induction es as [|e es IH]; cbn [batch]; frame; auto. Qed.
Lemma history_fee_tiers p ts : keeps_ (check_fee_tiers p ts).
Proof. revert p. induction ts as [|t ts IH]; intros p; cbn [check_fee_tiers]; frame. Qed.
Lemma history_bond_tiers p ts : keeps_ (check_bond_tiers p ts).
Proof. revert p. induction ts as [|t ts IH]; intros p; cbn [check_bond_tiers]; frame. Qed.
#[local] Hint Resolve history_fee_tiers history_bond_tiers : frame.
Lemma history_expire_all ids : keeps_ (expire_all ids).
Proof.
  induction ids as [|i ids IH]; cbn [expire_all]; [frame|].
  apply rel_bind; [apply _| |intros; frame]. apply rel_catch. walk.
Qed.

Lemma history_exec c : keeps_ (exec c).
Proof.
  destruct c; cbn [exec]; repeat first [apply history_batch | apply history_expire_all | walk_step].
Qed.

(** In every reachable state, each player's snapshot buffer holds the newest
    entries of a history of that player, unless the player's 64-bit snapshot
    counter is exhausted. *)
Theorem snapshots_are_history me s p :
  reachable me (fun _ => True) s ->
  default 0 (pers s (KPlayerBalanceSnapshotCount p)) <> u64_max ->
  exists h, ring s p h.
Proof.
  intros Hr Hn. cut (recorded s p); [by intros []|]. clear Hn.
  induction Hr as [env w oracle admin s Hse Hb Hi | env call s _ IH Hse Hme _ | w s _ IH Hb].
  - destruct (initial_core _ _ _ _ _ Hi) as (Hp & _). left. exists [].
    split; [by rewrite Hp|done|done].
  - unfold invoke. destruct (exec call env s) as [[] s'|e s'|] eqn:Hrun; cbn; [|done..].
    exact (rel_Ok _ _ _ _ _ _ (history_exec call) Hrun p IH).
  - revert IH. by apply recorded_ext.
Qed.
End HistoryCalls.

(** The clamped bounds of a page are those of the plain block. *)
Lemma slice_page {A} (l : list A) (o n : Z) :
  0 <= o -> 0 < n -> o + n <= u32_max ->
  slice l (Z.min o (vec_len l)) (Z.min (u32_sat_add (Z.min o (vec_len l)) n) (vec_len l)) =
  take (Z.to_nat n) (drop (Z.to_nat o) l).
Proof.
  intros Ho Hn Hb. unfold slice, u32_sat_add, clamp, vec_len.
  destruct (Z_le_gt_dec (Z.of_nat (length l)) o) as [Hge|Hlt].
  - rewrite !drop_ge by lia. by rewrite !take_nil.
  - rewrite (Z.min_l o) by lia.
    destruct (Z_le_gt_dec (o + n) (Z.of_nat (length l))).
    + f_equal. lia.
    + rewrite !take_ge by (rewrite length_drop; lia). done.
Qed.

Section Listings.
Context {W : Type} `{TokenLaws W} `{!RateOracle W, !RateOracleLaws W}.
Implicit Types s : State W.

(** The matches in state [st], in order of their ids. *)
Definition listing s (st : MatchState) : list Match :=
  omap (match_of s) (index_of s (MatchesByState st)).

(** What a consistent index says of the ids in it. *)
Definition indexed s (st : MatchState) (ids : list Z) : Prop :=
  Forall (fun i => exists m, match_of s i = Some m /\ state m = st) ids.

Lemma index_indexed me s st :
  reachable me not_deposit_batch s -> indexed s st (index_of s (MatchesByState st)).
Proof.
  intros Hr. destruct (reachable_index me s Hr) as (c & Hv & [h1 h2 h3]).
  apply Forall_forall. intros i Hi. rewrite (v_index _ _ Hv), h3 in Hi.
  destruct Hi as (m & Hm & Hst). exists m. split; [|done]. unfold match_of.
  by rewrite (v_match _ _ Hv).
Qed.

Lemma pick_indexed s st ids :
  indexed s st ids -> pick_matches s (in_state st) ids = omap (match_of s) ids.
Proof.
  induction 1 as [|i ids (m & Hm & Hst) _ IH]; [done|]. cbn [pick_matches].
  change (lookup_match s i) with (match_of s i). rewrite Hm, IH. unfold in_state at 1.
  rewrite bool_decide_true by done. cbn. by rewrite Hm.
Qed.

(** Every indexed id contributes one record, so pages of ids are pages of records. *)
Lemma omap_take s st ids n :
  indexed s st ids -> omap (match_of s) (take n ids) = take n (omap (match_of s) ids).
Proof.
  intros Hi. revert n. induction Hi as [|i ids (m & Hm & _) _ IH]; intros [|n]; [done..|].
  cbn. rewrite Hm. cbn. by rewrite IH.
Qed.
Lemma omap_drop s st ids n :
  indexed s st ids -> omap (match_of s) (drop n ids) = drop n (omap (match_of s) ids).
Proof.
  intros Hi. revert n. induction Hi as [|i ids (m & Hm & _) _ IH]; intros [|n]; [done|done|..].
  - done.
  - cbn. rewrite Hm. by rewrite IH.
Qed.
Lemma omap_length s st ids :
  indexed s st ids -> length (omap (match_of s) ids) = length ids.
Proof. induction 1 as [|i ids (m & Hm & _) _ IH]; [done|]. cbn. rewrite Hm. cbn. by rewrite IH. Qed.

(** In every state reached without [deposit_batch], a listing by state
    succeeds without effect and holds exactly the stored matches in that state,
    as long as there are at most 10000 of them. *)
Theorem listing_complete me s st env :
  reachable me not_deposit_batch s ->
  vec_len (index_of s (MatchesByState st)) <= MAX_UNBOUNDED_MATCH_RESULTS ->
  exists ms, collect_matches_by_state st env s = Ok ms s /\
    forall m, m ∈ ms <-> state m = st /\ exists i, match_of s i = Some m.
Proof.
  intros Hr Hle. pose proof (index_indexed me s st Hr) as Hi.
  destruct (reachable_index me s Hr) as (c & Hv & [h1 h2 h3]).
  exists (listing s st). unfold collect_matches_by_state. split.
  - unfold mbind, M_bind, p_get_or, gets. cbn.
    change (default [] (pers s (MatchesByState st))) with (index_of s (MatchesByState st)).
    rewrite take_ge by (unfold vec_len in Hle; lia). rewrite pick_indexed by done.
    destruct (Z.gtb_spec (vec_len (index_of s (MatchesByState st))) MAX_UNBOUNDED_MATCH_RESULTS);
      [lia|done].
  - intros m. unfold listing. rewrite list_elem_of_omap. split.
    + intros (i & Hin & Hm). split; [|by exists i]. unfold indexed in Hi. rewrite Forall_forall in Hi.
      destruct (Hi i Hin) as (m' & Hm' & Hst). congruence.
    + intros [Hst [i Hm]]. exists i. split; [|done]. rewrite (v_index _ _ Hv), h3.
      exists m. split; [|done]. by rewrite <- (v_match _ _ Hv).
Qed.

(** Page [k] of a listing by state is exactly the [k]-th block of [limit]
    matches of the full listing, so consecutive pages miss nothing and repeat
    nothing. *)
Theorem pages_partition me s st k limit env :
  reachable me not_deposit_batch s -> 0 < limit -> 0 <= k -> (k + 1) * limit <= u32_max ->
  collect_matches_by_state_paginated st (k * limit) limit env s =
  Ok (take (Z.to_nat limit) (drop (Z.to_nat (k * limit)) (listing s st))) s.
Proof.
  intros Hr Hl Hk Hb. pose proof (index_indexed me s st Hr) as Hi.
  unfold collect_matches_by_state_paginated, mbind, M_bind, p_get_or, gets.
  destruct (Z.eqb_spec limit 0); [lia|]. cbn.
  change (default [] (pers s (MatchesByState st))) with (index_of s (MatchesByState st)).
  unfold listing. set (ids := index_of s (MatchesByState st)) in *. f_equal.
  rewrite (slice_page ids (k * limit) limit) by nia.
  rewrite pick_indexed by (by apply Forall_take, Forall_drop).
  rewrite (omap_take s st) by (by apply Forall_drop). by rewrite (omap_drop s st).
Qed.
End Listings.
