(* ===== verification/Scenarios.v ===== *)
(** Concrete runs of the escrow on the ledger of [Ledger]: they show that the
    hypotheses of the run-level theorems can hold, and that the restrictions in
    them are needed. *)
From stdpp Require Import base list numbers strings relations.
From Stdlib Require Import ZArith Lia.
From S2P Require Import Prelude Soroban EscrowTypes Config Tokens Players MatchIndex Snapshots.
From S2P Require Import RateOracle Rotation Matches Settlement Refunds.
From S2P Require Import Disputes Governance Ledger Core Lifecycle Simulation Calls.
From S2P Require Import Solvency Invariants Effects DisputeEffects Authority Registry.
From S2P Require Import History Queries Footprint.

Abbreviation LState := (State Ledger).

(** ** Running a list of calls *)

Definition step1 (s : LState) (ec : Env * Call) : LState :=
  snd (invoke (exec (snd ec)) (fst ec) s).
Definition play (cs : list (Env * Call)) (s : LState) : LState := foldl step1 s cs.

(** What each call of the list replies. *)
Fixpoint replies (cs : list (Env * Call)) (s : LState) : list (reply Error unit) :=
  match cs with
  | [] => []
  | ec :: rest => fst (invoke (exec (snd ec)) (fst ec) s) :: replies rest (step1 s ec)
  end.

Lemma ran {A} (c : EM Ledger A) env s a :
  fst (invoke c env s) = Done a -> c env s = Ok a (snd (invoke c env s)).
Proof. unfold invoke. destruct (c env s); cbn; congruence. Qed.

Lemma play_reachable me ok cs s :
  reachable me ok s ->
  Forall (fun ec => self (fst ec) = me /\ authorized (fst ec) me = false /\ ok (snd ec)) cs ->
  reachable me ok (play cs s).
Proof.
  intros Hr Hcs. revert s Hr. induction Hcs as [|[env call] cs (h1 & h2 & h3) _ IH]; intros s Hr;
    [done|]. apply IH. by apply R_call.
Qed.

Lemma play_follows cs s : follows s (play cs s).
Proof.
  revert s. induction cs as [|[env call] cs IH]; intros s; [apply rtc_refl|].
  eapply rtc_l; [|apply IH]. by exists env, call.
Qed.

(** ** The runs *)

Definition fresh : LState := init_state (ledger0 1000).
Definition started : LState :=
  snd (invoke (initialize the_oracle the_admin) (at_ 1 10 [the_admin]) fresh).

(** Close [c env s = Ok tt s'] for [s'] defined as what the call leaves. *)
Ltac ran :=
  match goal with
  | |- _ = Ok tt ?s' => try unfold s';
      match goal with
      | |- ?c ?env ?s = _ => refine (ran c env s tt _); vm_compute; reflexivity
      end
  end.

Lemma started_reachable ok : reachable escrow ok started.
Proof.
  apply (R_init escrow ok (at_ 1 10 [the_admin]) (ledger0 1000) the_oracle the_admin).
  - reflexivity.
  - intros t. reflexivity.
  - ran.
Qed.

(** Two matches between the same players, both funded. *)
Definition funding : list (Env * Call) :=
  [(at_ 1 10 [alice], CreateMatch alice bob 50 xlm "abcd1234" Lichess);
   (at_ 1 10 [alice], CreateMatch alice bob 50 xlm "abcd1235" Lichess);
   (at_ 2 20 [alice], Deposit 0 alice);
   (at_ 2 20 [alice], Deposit 1 alice);
   (at_ 2 20 [bob], Deposit 1 bob);
   (at_ 3 30 [bob], Deposit 0 bob)].
Definition funded_s : LState := play funding started.

(** Alice won match 0, and match 1 is still being played. *)
Definition settle_call : Call := SubmitResult 0 WPlayer1 the_oracle None.
Definition oracle_env : Env := at_ 5 50 [the_oracle].
Definition won_s : LState := snd (invoke (exec settle_call) oracle_env funded_s).

Definition late : Env := at_ 100000 10000000 [alice].

Lemma won_reachable (ok : Call -> Prop) :
  ok settle_call ->
  Forall (fun ec => self (fst ec) = escrow /\ authorized (fst ec) escrow = false /\ ok (snd ec))
    funding ->
  reachable escrow ok won_s.
Proof.
  intros Hs Hf. apply R_call; [|reflexivity|reflexivity|exact Hs].
  apply play_reachable; [apply started_reachable|exact Hf].
Qed.


Lemma solvency_witness :
  reachable escrow allowed won_s /\ total_owed xlm (core_of won_s) = 200 /\
  total_owed xlm (core_of won_s) <= token_balance (world won_s) xlm escrow.
Proof.
  assert (reachable escrow allowed won_s) as Hr.
  { apply won_reachable; [exact I|repeat constructor]. }
  split; [exact Hr|]. split; [vm_compute; reflexivity|].
  apply (solvency escrow won_s xlm Hr).
Defined.

Definition match_at (s : LState) (i : Z) : option Match := pers s (KMatch i).

(** Any record stored at key [i], for stating a witness about it. *)
Definition the_match (s : LState) (i : Z) : Match :=
  match match_at s i with
  | Some m => m
  | None => new_match (mkMatchParams alice bob 0 xlm None None "" Lichess None None None None)
              0 0 0 None
  end.


Definition claim_call : Call := ClaimVestedPayout 0 alice.
Definition claimed_s : LState := snd (invoke (exec claim_call) late won_s).

Lemma terminal_absorbing_witness :
  is_terminal (state (the_match won_s 0)) = true /\
  exists m' : Match, pers claimed_s (KMatch 0) = Some m' /\ state m' = state (the_match won_s 0).
Proof.
  split; [vm_compute; reflexivity|].
  apply (terminal_absorbing claim_call late won_s claimed_s 0 (the_match won_s 0)).
  - ran.
  - vm_compute. reflexivity.
  - vm_compute. reflexivity.
Defined.

Lemma table_covers_edges_witness :
  edge Pending Active = true /\
  (is_valid_transition Pending Active = true \/ (Pending = Active /\ Active = Completed)).
Proof. split; [reflexivity|]. apply (table_covers_edges Pending Active). reflexivity. Defined.


Lemma claim_once_witness :
  claim_vested_payout 0 alice late won_s = Ok tt claimed_s /\
  forall s3, claim_vested_payout 0 alice late claimed_s <> Ok tt s3.
Proof.
  assert (claim_vested_payout 0 alice late won_s = Ok tt claimed_s) as Hc by ran.
  split; [exact Hc|].
  apply (claim_once 0 alice late won_s claimed_s late claimed_s Hc). apply rtc_refl.
Defined.

(** ** Why the solvency theorem excludes what it excludes *)

(** With a dispute period, the pot of a finalised match is paid twice: by
    [finalize_match], and again by [claim_vested_payout]. *)
Definition double_run : list (Env * Call) :=
  (at_ 1 10 [the_admin], SetDisputePeriod 10) :: funding ++
  [(oracle_env, settle_call); (at_ 20 200 [], FinalizeMatch 0); (late, ClaimVestedPayout 0 alice)].

(** A double payout. There is a run in which every call succeeds, the dispute
    period is set, and the winner of match 0 receives the pot twice: once from
    [finalize_match] and once from [claim_vested_payout]. The second payment is
    made of the stakes of match 1, which is still being played and stays owed. *)
Theorem dispute_period_double_payout :
  replies double_run started = replicate 10 (Done tt) /\
  let s := play double_run started in
  token_balance (world s) xlm alice = 1000 - 50 - 50 + 100 + 100 /\
  token_balance (world s) xlm escrow = 0 /\
  total_owed xlm (core_of s) = 100.
Proof. vm_compute. repeat split. Qed.

(** A two-token match: bob's stake is taken in [xlm]. *)
Definition two_token_run : list (Env * Call) :=
  [(at_ 1 10 [alice], CreateMatchWithConversion alice bob 50 xlm usdc 10000000 "abcd1234" Lichess);
   (at_ 2 20 [bob], Deposit 0 bob)].

(** Two-token refunds. In a two-token match the second player's stake is taken
    in the match's token, but every refund pays it out in the second token, of
    which the escrow was never given any: here the refund of an expired match
    cannot be made, although the escrow holds the stake. *)
Theorem two_token_refund_unfunded :
  replies two_token_run started = replicate 2 (Done tt) /\
  let s := play two_token_run started in
  token_balance (world s) xlm escrow = 50 /\
  token_balance (world s) usdc escrow = 0 /\
  fst (invoke (exec (CancelMatch 0 bob)) (at_ 3 30 [bob]) s) = Trapped /\
  fst (invoke (exec (ExpireMatch 0)) (at_ 4000000 40000000 []) s) = Trapped /\
  fst (invoke (exec (AdminRecoverMatch 0)) (at_ 4000000 40000000 [the_admin]) s) = Trapped.
Proof. vm_compute. repeat split. Qed.

(** ** Batches *)

(** Bob has 1000 open matches: a deposit that would activate one more is refused. *)
Definition crowded : LState :=
  with_pers (upd (DK (KPlayerActiveMatchCount bob)) (Some 1000)) (play
    [(at_ 1 10 [alice], CreateMatch alice bob 50 xlm "abcd1234" Lichess);
     (at_ 2 20 [alice], Deposit 0 alice)] started).

(** A failed deposit inside a batch is not undone. When the second deposit of a
    match fails because a player already has 1000 active matches, [deposit] alone
    reports the error and changes nothing; the same deposit through
    [deposit_batch] also reports it, but the stake has been taken, the match still
    counts as unfunded by that player, and the index lists it as active although
    its record is pending. *)
Theorem batch_deposit_not_atomic :
  invoke (deposit 0 bob) (at_ 3 30 [bob]) crowded = (Failed TooManyActiveMatches, crowded) /\
  exists s', deposit_batch [(0, bob)] (at_ 3 30 [bob]) crowded = Ok [Some TooManyActiveMatches] s' /\
    token_balance (world s') xlm bob = 950 /\ token_balance (world s') xlm escrow = 100 /\
    (exists m, match_at s' 0 = Some m /\ state m = Pending /\ player2_deposited m = false) /\
    index_of s' (MatchesByState Active) = [0] /\ index_of s' (MatchesByState Pending) = [].
Proof.
  split; [vm_compute; reflexivity|]. eexists. split; [vm_compute; reflexivity|].
  split; [vm_compute; reflexivity|]. split; [vm_compute; reflexivity|].
  split; [eexists; split; [vm_compute; reflexivity|split; reflexivity]|].
  split; vm_compute; reflexivity.
Qed.

(** A leftover deposit guard. Anyone can name a match that does not exist yet in a
    [deposit_batch]: the batch succeeds with a [MatchNotFound] entry and leaves
    the match's deposit guard set, so that once the match is created its players'
    deposits are refused with [InvalidState]. *)
Theorem batch_guard_left_set :
  let run := [(at_ 1 10 [carol], DepositBatch [(0, carol)]);
              (at_ 1 10 [alice], CreateMatch alice bob 50 xlm "abcd1234" Lichess);
              (at_ 2 20 [alice], Deposit 0 alice)] in
  replies run started = [Done tt; Done tt; Failed InvalidState].
Proof. vm_compute. reflexivity. Qed.

(** ** Oracle rotation *)

(** A second temporary rotation is lost. Rotating from the temporary oracle to a
    third one succeeds, but puts the original oracle back in charge: the third
    oracle never is. *)
Theorem chained_rotation_lost :
  let run := [(at_ 1 10 [the_admin], RotateOracleTemporary the_oracle carol 3600);
              (at_ 2 20 [the_admin], RotateOracleTemporary carol bob 3600)] in
  replies run started = [Done tt; Done tt] /\
  oracle_in_charge (at_ 2 20 []) (play (firstn 1 run) started) = Some carol /\
  oracle_in_charge (at_ 3 30 []) (play run started) = Some the_oracle.
Proof. vm_compute. repeat split. Qed.
