(* ===== verification/Witnesses.v ===== *)
(** The theorems about single calls, applied to concrete runs of [Scenarios]:
    each of them says something about at least one successful call. *)
From stdpp Require Import base list numbers strings relations.
From Stdlib Require Import ZArith Lia.
From S2P Require Import Prelude Soroban EscrowTypes Config Tokens Players MatchIndex Snapshots.
From S2P Require Import RateOracle Rotation Matches Settlement Refunds.
From S2P Require Import Disputes Governance Ledger Core Lifecycle Simulation Calls.
From S2P Require Import Solvency Invariants Effects DisputeEffects Authority Registry.
From S2P Require Import History Queries Scenarios Footprint.

(** The state a command leaves. *)
Definition after {A} (c : EM Ledger A) (env : Env) (s : LState) : LState := snd (invoke c env s).

(** Close [c env s = Ok a (after c env s)]. *)
Ltac runs :=
  match goal with
  | |- ?c ?env ?s = Ok ?a _ => refine (ran c env s a _); vm_compute; reflexivity
  end.
Ltac run_as H P := assert P as H by runs; split; [exact H|].

(** ** Creating and funding *)

Definition the_params : MatchParams :=
  mkMatchParams alice bob 50 xlm None None "abcd1234" Lichess None None None None.
Definition created_s : LState :=
  after (create_match_internal the_params) (at_ 1 10 [alice]) started.

Lemma create_effect_witness :
  create_match_internal the_params (at_ 1 10 [alice]) started = Ok 0 created_s /\
  mp_player1 the_params <> mp_player2 the_params /\
  match_of started 0 = None /\ inst created_s KMatchCount = Some 1 /\
  (exists rl, rewrites 0 (new_match the_params 0 1 10 rl) started created_s) /\
  pays [] started created_s.
Proof.
  run_as Hr (create_match_internal the_params (at_ 1 10 [alice]) started = Ok 0 created_s).
  pose proof (create_effect the_params (at_ 1 10 [alice]) started 0 created_s Hr) as He.
  split_and!; apply He.
Defined.

Definition half_s : LState := after (deposit 0 alice) (at_ 2 20 [alice]) created_s.
Definition both_s : LState := after (deposit 0 bob) (at_ 3 30 [bob]) half_s.

Lemma deposit_effect_witness :
  deposit 0 bob (at_ 3 30 [bob]) half_s = Ok tt both_s /\
  exists m, match_of half_s 0 = Some m /\ state m = Pending /\ player2_deposited m = false /\
    rewrites 0 (deposited (at_ 3 30 [bob]) bob m) half_s both_s /\
    pays [Pay (token m) bob escrow (stake_amount m)] half_s both_s.
Proof.
  run_as Hr (deposit 0 bob (at_ 3 30 [bob]) half_s = Ok tt both_s).
  destruct (deposit_effect 0 bob (at_ 3 30 [bob]) half_s both_s Hr)
    as (m & Hm & Hst & _ & Hp & Hw & Hpay).
  exists m. split_and!; try assumption.
  vm_compute in Hm. injection Hm as <-. reflexivity.
Defined.

(** ** Refunds *)

Definition expiry : Env := at_ 4000000 40000000 [the_admin].
Definition expired_s : LState := after (expire_match 0) expiry half_s.

Lemma expire_effect_witness :
  expire_match 0 expiry half_s = Ok tt expired_s /\
  exists m, match_of half_s 0 = Some m /\ state m = Pending /\
    timeout_ledgers (config_at expiry half_s) <= u32_sat_sub 4000000 (created_ledger m) /\
    rewrites 0 (cancelled expiry m) half_s expired_s /\ pays (full_refund escrow m) half_s expired_s.
Proof.
  run_as Hr (expire_match 0 expiry half_s = Ok tt expired_s).
  apply (expire_effect 0 expiry half_s expired_s Hr).
Defined.

Definition recovered_s : LState := after (admin_recover_match 0) expiry half_s.

Lemma recover_effect_witness :
  admin_recover_match 0 expiry half_s = Ok tt recovered_s /\
  exists m admin, match_of half_s 0 = Some m /\ state m = Pending /\
    inst half_s KAdmin = Some admin /\ authorized expiry admin = true /\
    timeout_ledgers (config_at expiry half_s) <= u32_sat_sub 4000000 (created_ledger m) /\
    rewrites 0 (cancelled expiry m) half_s recovered_s /\
    pays (full_refund escrow m) half_s recovered_s.
Proof.
  run_as Hr (admin_recover_match 0 expiry half_s = Ok tt recovered_s).
  apply (recover_effect 0 expiry half_s recovered_s Hr).
Defined.

Definition cancelled_s : LState := after (cancel_match 0 bob) (at_ 3 30 [bob]) half_s.

Lemma cancel_effect_witness :
  cancel_match 0 bob (at_ 3 30 [bob]) half_s = Ok tt cancelled_s /\
  exists m, match_of half_s 0 = Some m /\ state m = Pending /\
    authorized (at_ 3 30 [bob]) bob = true /\ (bob = player1 m \/ bob = player2 m) /\
    rewrites 0 (cancelled (at_ 3 30 [bob]) m) half_s cancelled_s /\
    pays (cancel_payments escrow (config_at (at_ 3 30 [bob]) half_s) m) half_s cancelled_s.
Proof.
  run_as Hr (cancel_match 0 bob (at_ 3 30 [bob]) half_s = Ok tt cancelled_s).
  apply (cancel_effect 0 bob (at_ 3 30 [bob]) half_s cancelled_s Hr).
Defined.

(** Both players consent to a rollback of match 0. *)
Definition one_vote_s : LState :=
  after (dispute_and_rollback_match 0 alice "stalled") (at_ 5 50 [alice]) both_s.
Definition rolled_back_s : LState :=
  after (dispute_and_rollback_match 0 bob "stalled") (at_ 6 60 [bob]) one_vote_s.

Lemma rollback_effect_witness :
  dispute_and_rollback_match 0 bob "stalled" (at_ 6 60 [bob]) one_vote_s = Ok tt rolled_back_s /\
  exists m, match_of one_vote_s 0 = Some m /\ state m = Active /\
    pays (full_refund escrow (rollback_voted bob m)) one_vote_s rolled_back_s.
Proof.
  run_as Hr (dispute_and_rollback_match 0 bob "stalled" (at_ 6 60 [bob]) one_vote_s
             = Ok tt rolled_back_s).
  destruct (rollback_effect 0 bob "stalled" (at_ 6 60 [bob]) one_vote_s rolled_back_s Hr)
    as (m & Hm & Hst & _ & _ & _ & Hbr).
  exists m. split_and!; [exact Hm|exact Hst|].
  vm_compute in Hm. injection Hm as <-. exact (proj2 Hbr).
Defined.

(** ** Results and payouts *)

Lemma submit_result_effect_witness :
  submit_result 0 WPlayer1 the_oracle None oracle_env funded_s = Ok tt won_s /\
  exists m, match_of funded_s 0 = Some m /\ playing m /\ WPlayer1 <> WNone /\
    oracle_in_charge oracle_env funded_s = Some the_oracle /\
    authorized oracle_env the_oracle = true /\
    rewrites 0 (reported oracle_env (dispute_period_of (core_of funded_s)) WPlayer1 m)
      funded_s won_s /\ pays [] funded_s won_s.
Proof.
  run_as Hr (submit_result 0 WPlayer1 the_oracle None oracle_env funded_s = Ok tt won_s).
  apply (submit_result_effect 0 WPlayer1 the_oracle None oracle_env funded_s won_s Hr).
Defined.


Definition stall_env : Env := at_ 200000 1000000 [the_admin].
Definition stall_s : LState :=
  after (admin_resolve_stalled_match 0 the_admin WDraw) stall_env funded_s.

Lemma stalled_effect_witness :
  admin_resolve_stalled_match 0 the_admin WDraw stall_env funded_s = Ok tt stall_s /\
  ADMIN_STALL_WINDOW_SECONDS < stalled_for stall_env (the_match funded_s 0) /\
  pays (pot_payments escrow WDraw (the_match funded_s 0)) funded_s stall_s.
Proof.
  run_as Hr (admin_resolve_stalled_match 0 the_admin WDraw stall_env funded_s = Ok tt stall_s).
  pose proof (stalled_effect 0 the_admin WDraw stall_env funded_s stall_s (the_match funded_s 0)
                Hr ltac:(vm_compute; reflexivity) ltac:(vm_compute; reflexivity)) as He.
  split_and!; apply He.
Defined.

(** ** Disputes *)

Definition evidence : string :=
  "aaaaaaaaaaaaaaaaaaaaaaaaaaaaaaaaaaaaaaaaaaaaaaaaaaaaaaaaaaaaaaaa".

(** With a dispute period of 300000 ledgers, alice's win is reported, bob
    disputes it, alice votes against the dispute, and the vote is closed. *)
Definition pending_s : LState :=
  play ((at_ 1 10 [the_admin], SetDisputePeriod 300000) :: funding ++ [(oracle_env, settle_call)])
    started.
Definition dispute_env : Env := at_ 250000 60 [bob].
Definition disputed_s : LState := after (dispute_oracle_result 0 bob evidence) dispute_env pending_s.
Definition vote_env : Env := at_ 250001 70 [alice].
Definition voted_s : LState := after (vote_on_dispute 0 alice false) vote_env disputed_s.
Definition resolve_env : Env := at_ 290000 80 [].
Definition resolved_s : LState := after (resolve_dispute_by_vote 0) resolve_env voted_s.

Lemma finalize_effect_witness :
  let env := at_ 400000 90 [] in
  let s' := after (finalize_match 0) env pending_s in
  finalize_match 0 env pending_s = Ok tt s' /\
  exists w deadline, state (the_match pending_s 0) = PendingResult /\
    pers pending_s (KResultDeadline 0) = Some deadline /\ deadline <= 400000 /\
    pers pending_s (KMatchDispute 0) = None /\ pers pending_s (KPendingWinner 0) = Some w /\
    w <> WNone /\ rewrites 0 (finalized env (the_match pending_s 0)) pending_s s' /\
    pays (pot_payments escrow w (the_match pending_s 0)) pending_s s'.
Proof.
  intros env s'. run_as Hr (finalize_match 0 env pending_s = Ok tt s').
  exact (finalize_effect 0 env pending_s s' (the_match pending_s 0) Hr
           ltac:(vm_compute; reflexivity) ltac:(vm_compute; reflexivity)).
Defined.

Lemma dispute_effect_witness :
  dispute_oracle_result 0 bob evidence dispute_env pending_s = Ok 0 disputed_s /\
  exists m x bond, match_of pending_s 0 = Some m /\ 1 <= bond /\
    pays [Pay (token m) bob escrow bond] pending_s disputed_s /\
    dispute_of disputed_s 0 = Some x /\ raised dispute_env 0 0 bob bond x.
Proof.
  run_as Hr (dispute_oracle_result 0 bob evidence dispute_env pending_s = Ok 0 disputed_s).
  destruct (dispute_effect 0 bob evidence dispute_env pending_s 0 disputed_s Hr)
    as (m & bps & deadline & x & Hm & _ & _ & _ & _ & _ & _ & _ & _ & Hp & _ & _ & Hx & Hra).
  exists m, x. eexists. split_and!; [exact Hm| |exact Hp|exact Hx|exact Hra]. lia.
Defined.

Lemma vote_effect_witness :
  vote_on_dispute 0 alice false vote_env disputed_s = Ok tt voted_s /\
  exists x weight, dispute_of disputed_s 0 = Some x /\ 0 < weight /\
    dispute_of voted_s 0 = Some (tallied false weight x) /\ pays [] disputed_s voted_s.
Proof.
  run_as Hr (vote_on_dispute 0 alice false vote_env disputed_s = Ok tt voted_s).
  destruct (vote_effect 0 alice false vote_env disputed_s voted_s Hr)
    as (x & weight & Hx & _ & _ & _ & _ & _ & Hw & Hx' & _ & _ & Hp).
  exact (ex_intro _ x (ex_intro _ weight (conj Hx (conj Hw (conj Hx' Hp))))).
Defined.

(** Any dispute stored at [d], for stating a witness about it. *)
Definition the_dispute (s : LState) (d : Z) : Dispute :=
  default {| d_id := 0; d_match_id := 0; disputer := bob; d_created_ledger := 0;
             voting_deadline := 0; d_state := DActive; evidence_hash := ""; uphold_votes := 0;
             overturn_votes := 0; yes_votes := 0; no_votes := 0; dispute_bond := 0;
             snapshot_ledger := 0; snapshot_total_weight := 0; quorum_threshold := 0 |}
    (dispute_of s d).

Lemma resolve_effect_witness :
  let x := the_dispute voted_s 0 in let m := the_match voted_s 0 in
  resolve_dispute_by_vote 0 resolve_env voted_s = Ok tt resolved_s /\
  exists w, pers voted_s (KPendingWinner 0) = Some w /\
    voting_deadline x <= 290000 /\
    pays (pot_payments escrow (verdict x w) m ++
          [Pay (token m) escrow
             (if overturned x then disputer x else treasury (config_at resolve_env voted_s))
             (dispute_bond x)]) voted_s resolved_s /\
    dispute_of resolved_s 0 = Some (resolved x).
Proof.
  intros x m. run_as Hr (resolve_dispute_by_vote 0 resolve_env voted_s = Ok tt resolved_s).
  destruct (resolve_effect 0 resolve_env voted_s resolved_s x m Hr
              ltac:(vm_compute; reflexivity) ltac:(vm_compute; reflexivity)
              ltac:(vm_compute; reflexivity)) as (w & Hw & _ & Hd & _ & _ & _ & Hp & Hx).
  exact (ex_intro _ w (conj Hw (conj Hd (conj Hp Hx)))).
Defined.

Lemma vote_once_witness :
  vote_on_dispute 0 alice false vote_env disputed_s = Ok tt voted_s /\
  forall s3, vote_on_dispute 0 alice true vote_env voted_s <> Ok tt s3.
Proof.
  run_as Hr (vote_on_dispute 0 alice false vote_env disputed_s = Ok tt voted_s).
  intros s3. apply (vote_once 0 alice false vote_env disputed_s voted_s true vote_env voted_s s3 Hr).
  apply rtc_refl.
Defined.

Lemma dispute_once_witness :
  dispute_oracle_result 0 bob evidence dispute_env pending_s = Ok 0 disputed_s /\
  (forall who2 ev2 env2 d2 s3, dispute_oracle_result 0 who2 ev2 env2 disputed_s <> Ok d2 s3) /\
  (forall env2 s3, finalize_match 0 env2 disputed_s <> Ok tt s3).
Proof.
  run_as Hr (dispute_oracle_result 0 bob evidence dispute_env pending_s = Ok 0 disputed_s).
  apply (dispute_once 0 bob evidence dispute_env pending_s 0 disputed_s disputed_s Hr).
  apply rtc_refl.
Defined.

(** ** Authority *)

Definition admin_env : Env := at_ 2 20 [the_admin].
Definition paused_s : LState := after (exec (Pause the_admin)) admin_env started.

Lemma settings_admin_only_witness :
  exec (Pause the_admin) admin_env started = Ok tt paused_s /\ admin_signed admin_env started.
Proof.
  run_as Hr (exec (Pause the_admin) admin_env started = Ok tt paused_s).
  apply (settings_admin_only (Pause the_admin) admin_env started paused_s (DK KPaused) Hr);
    [reflexivity|vm_compute; discriminate].
Defined.

Definition proposed_s : LState := after (exec (ProposeAdmin carol)) admin_env started.
Definition handed_s : LState := after (exec AcceptAdmin) (at_ 3 30 [carol]) proposed_s.

Lemma proposal_by_admin_witness :
  exec (ProposeAdmin carol) admin_env started = Ok tt proposed_s /\
  exists p, inst proposed_s KPendingAdmin = Some p /\ inst started KAdmin = Some (proposer p) /\
    authorized admin_env (proposer p) = true.
Proof.
  run_as Hr (exec (ProposeAdmin carol) admin_env started = Ok tt proposed_s).
  eexists. split; [vm_compute; reflexivity|].
  apply (proposal_by_admin (ProposeAdmin carol) admin_env started proposed_s _ Hr);
    [vm_compute; reflexivity|vm_compute; discriminate].
Defined.

Lemma admin_handover_witness :
  exec AcceptAdmin (at_ 3 30 [carol]) proposed_s = Ok tt handed_s /\
  exists p, inst proposed_s KPendingAdmin = Some p /\
    inst proposed_s KAdmin = Some (proposer p) /\ inst handed_s KAdmin = Some (pending_admin p) /\
    authorized (at_ 3 30 [carol]) (pending_admin p) = true.
Proof.
  run_as Hr (exec AcceptAdmin (at_ 3 30 [carol]) proposed_s = Ok tt handed_s).
  apply (admin_handover AcceptAdmin (at_ 3 30 [carol]) proposed_s handed_s Hr).
  vm_compute. discriminate.
Defined.

Lemma pause_blocks_witness :
  inst paused_s KPaused = Some true /\
  forall s', exec (CreateMatch alice bob 50 xlm "abcd1234" Lichess) (at_ 3 30 [alice]) paused_s
             <> Ok tt s'.
Proof.
  split; [vm_compute; reflexivity|]. intros s'.
  apply (pause_blocks (CreateMatch alice bob 50 xlm "abcd1234" Lichess) (at_ 3 30 [alice])
           paused_s s'); [vm_compute; reflexivity|reflexivity].
Defined.

Definition new_code : list Z := replicate 32 7.
Definition scheduled_s : LState := after (exec (ScheduleUpgrade new_code)) admin_env paused_s.
Definition confirmed_s : LState := after (exec (ConfirmUpgrade carol)) (at_ 3 30 [carol]) scheduled_s.
Definition upgrade_env : Env := at_ 200000 2000000 [the_admin].
Definition upgraded_s : LState := after execute_upgrade upgrade_env confirmed_s.

Lemma upgrade_effect_witness :
  execute_upgrade upgrade_env confirmed_s = Ok tt upgraded_s /\
  exists scheduled hash w, admin_signed upgrade_env confirmed_s /\
    inst confirmed_s KPaused = Some true /\
    inst confirmed_s KUpgradeScheduledAt = Some scheduled /\
    u32_sat_add scheduled UPGRADE_REVIEW_PERIOD_LEDGERS <= 200000 /\
    is_Some (inst confirmed_s ConfirmedBy) /\ inst confirmed_s KPendingUpgradeHash = Some hash /\
    update_wasm (world confirmed_s) escrow hash = Some w /\ world upgraded_s = w /\
    inst upgraded_s KUpgradeScheduledAt = None /\ inst upgraded_s KPendingUpgradeHash = None /\
    inst upgraded_s ConfirmedBy = None.
Proof.
  run_as Hr (execute_upgrade upgrade_env confirmed_s = Ok tt upgraded_s).
  exact (upgrade_effect upgrade_env confirmed_s upgraded_s Hr).
Defined.

Lemma schedule_stable_witness :
  exec (ConfirmUpgrade carol) (at_ 3 30 [carol]) scheduled_s = Ok tt confirmed_s /\
  inst confirmed_s KPendingUpgradeHash = inst scheduled_s KPendingUpgradeHash.
Proof.
  run_as Hr (exec (ConfirmUpgrade carol) (at_ 3 30 [carol]) scheduled_s = Ok tt confirmed_s).
  destruct (schedule_stable (ConfirmUpgrade carol) (at_ 3 30 [carol]) scheduled_s confirmed_s 2
              ltac:(vm_compute; reflexivity) Hr) as [[_ Hh]|[He _]];
    [exact Hh|discriminate He].
Defined.

(** ** Consensus *)

Definition quorum_run : list (Env * Call) :=
  (admin_env, AddApprovedOracle the_oracle) :: (admin_env, AddApprovedOracle carol) :: funding.
Definition electing_s : LState := play quorum_run started.
Definition one_confirm_s : LState :=
  after (submit_result_consensus 0 WPlayer1 the_oracle) oracle_env electing_s.
Definition carol_env : Env := at_ 6 60 [carol].
Definition elected_s : LState :=
  after (submit_result_consensus 0 WPlayer1 carol) carol_env one_confirm_s.

Lemma electing_reachable : reachable escrow (fun _ => True) electing_s.
Proof. apply play_reachable; [apply started_reachable|repeat constructor]. Qed.

Lemma one_confirm_reachable : reachable escrow (fun _ => True) one_confirm_s.
Proof.
  exact (R_call escrow _ oracle_env (SubmitResultConsensus 0 WPlayer1 the_oracle) electing_s
           electing_reachable eq_refl eq_refl I).
Qed.

Lemma consensus_vote_once_witness :
  submit_result_consensus 0 WPlayer1 the_oracle oracle_env electing_s = Ok tt one_confirm_s /\
  forall s3, submit_result_consensus 0 WPlayer2 the_oracle oracle_env one_confirm_s <> Ok tt s3.
Proof.
  run_as Hr (submit_result_consensus 0 WPlayer1 the_oracle oracle_env electing_s
             = Ok tt one_confirm_s).
  intros s3. apply (consensus_vote_once 0 WPlayer1 the_oracle oracle_env electing_s one_confirm_s
                      WPlayer2 oracle_env one_confirm_s s3 Hr). apply rtc_refl.
Defined.


Lemma deadlock_flag_iff_witness :
  vec_len (default [] (inst electing_s KApprovedOracles)) < 3 /\
  exists s', check_oracle_deadlock 0 1 3 oracle_env electing_s = Ok tt s' /\
    pers s' (OracleDeadlock 0) = Some true.
Proof.
  assert (vec_len (default [] (inst electing_s KApprovedOracles)) < 3) as Hlt
    by (vm_compute; reflexivity).
  split; [exact Hlt|].
  destruct (deadlock_flag_iff 0 1 3 oracle_env electing_s) as (s' & Hr & Hiff).
  - split; vm_compute; discriminate.
  - split; vm_compute; discriminate.
  - vm_compute. discriminate.
  - exact (ex_intro _ s' (conj Hr (proj2 Hiff (or_intror Hlt)))).
Defined.

(** ** Invariants *)

Definition listed_s : LState :=
  play [(admin_env, AddAllowedToken xlm); (admin_env, FreezePlayer carol "banned")] started.

Lemma registries_consistent_witness :
  inst listed_s KAllowedTokenCount = Some 1 /\ registries_ok listed_s.
Proof.
  split; [vm_compute; reflexivity|].
  apply (registries_consistent escrow listed_s).
  apply play_reachable; [apply started_reachable|repeat constructor].
Defined.

Lemma unique_game_ids_witness :
  game_id (the_match electing_s 1) <> game_id (the_match electing_s 0) /\
  match_of electing_s 1 = Some (the_match electing_s 1) /\ 1 = 1.
Proof.
  split; [vm_compute; discriminate|]. split; [vm_compute; reflexivity|].
  apply (unique_game_ids escrow electing_s 1 1 (the_match electing_s 1) (the_match electing_s 1)
           electing_reachable); vm_compute; reflexivity.
Defined.

Lemma snapshots_are_history_witness :
  pers electing_s (KPlayerBalanceSnapshotCount alice) = Some 2 /\
  exists h, ring electing_s alice h.
Proof.
  split; [vm_compute; reflexivity|].
  apply (snapshots_are_history escrow electing_s alice electing_reachable).
  vm_compute. discriminate.
Defined.

Lemma listing_complete_witness :
  exists ms, collect_matches_by_state Active admin_env funded_s = Ok ms funded_s /\
    forall m, m ∈ ms <-> state m = Active /\ exists i, match_of funded_s i = Some m.
Proof.
  apply (listing_complete escrow funded_s Active admin_env).
  - apply play_reachable; [apply started_reachable|repeat constructor].
  - vm_compute. discriminate.
Defined.

Lemma pages_partition_witness :
  vec_len (listing funded_s Active) = 2 /\
  collect_matches_by_state_paginated Active (1 * 1) 1 admin_env funded_s =
  Ok (take 1 (drop 1 (listing funded_s Active))) funded_s.
Proof.
  split; [vm_compute; reflexivity|].
  apply (pages_partition escrow funded_s Active 1 1 admin_env).
  - apply play_reachable; [apply started_reachable|repeat constructor].
  - reflexivity.
  - discriminate.
  - vm_compute. discriminate.
Defined.

(** ** Fees *)

Definition the_tiers : list FeeTier := [mkFeeTier 100 200; mkFeeTier 1000 100].
Definition tiered_s : LState := after (exec (SetFeeTiers the_tiers)) admin_env started.

Lemma tiered_fee_spec_witness :
  pers tiered_s KFeeTiers = Some the_tiers /\
  exists bps, compute_tiered_fee 50 admin_env tiered_s = Ok (2 * 50 * bps / 10000) tiered_s /\
    0 <= 2 * 50 * bps / 10000 <= 2 * 50.
Proof.
  assert (pers tiered_s KFeeTiers = Some the_tiers) as Ht by (vm_compute; reflexivity).
  split; [exact Ht|].
  destruct (tiered_fee_spec admin_env tiered_s 50 the_tiers 0 Ht) as (bps & Hr & Hb & _).
  - discriminate.
  - repeat constructor; cbn; lia.
  - repeat constructor; cbn; lia.
  - lia.
  - vm_compute. discriminate.
  - exact (ex_intro _ bps (conj Hr Hb)).
Defined.

(** A rate of 3% with a cap of 2. *)
Definition fee_config : ProtocolConfig :=
  mkProtocolConfig the_treasury (mkFeeConfig 300 the_treasury 100 (Some 2))
    (mkTimeoutConfig DEFAULT_MATCH_TIMEOUT_SECONDS DEFAULT_VESTING_SECONDS)
    (mkStakeConfig 1 None false []).
Definition fee_s : LState := after (exec (SetProtocolConfig fee_config)) admin_env started.

Lemma protocol_fee_bounds_witness :
  compute_protocol_fee 100 admin_env fee_s = Ok 2 fee_s /\ 0 <= 2 <= 100 /\
  (forall cap, max_protocol_fee (fees fee_config) = Some cap -> 2 <= cap).
Proof.
  assert (compute_protocol_fee 100 admin_env fee_s = Ok 2 fee_s) as Hr by (vm_compute; reflexivity).
  split; [exact Hr|].
  apply (protocol_fee_bounds admin_env fee_s fee_s 100 2 fee_config); [| | | |exact Hr].
  - vm_compute. reflexivity.
  - cbn. lia.
  - cbn. intros cap [= <-]. lia.
  - lia.
Defined.

(** ** Balance history *)

(** Alice's escrow balance, by the ledger it was recorded at. *)
Definition alice_history : list (Z * Z) := [(2, 50); (2, 100)].

Lemma balance_query_spec_witness :
  get_balance_at_timestamp alice 3 admin_env electing_s =
  Ok (balance_at alice_history 3) electing_s.
Proof.
  apply (balance_query_spec alice 3 admin_env electing_s alice_history). split.
  - vm_compute. reflexivity.
  - vm_compute. discriminate.
  - intros i e Hi _. destruct i as [|[|i]]; [| |discriminate Hi];
      injection Hi as <-; vm_compute; reflexivity.
Defined.

(** ** Refinement *)

