(* ===== verification/OracleCalls.v ===== *)
(** The oracle contract's interface as a whole: the type of calls, what a call
    executes, the reachable states, and the frame rules its invariants share. *)
From stdpp Require Import base list strings relations.
From Stdlib Require Import ZArith Lia.
From S2P Require Import Prelude Soroban OracleTypes OracleLimits OracleStakes OracleResults.

(** Every entry point that can change the state. *)
Inductive OCall :=
| OInitialize (admin : Address)
| OPause | OUnpause | OUpdateAdmin (a : Address) | OProposeAdmin (a : Address) | OAcceptAdmin
| OSetGracePeriod (x : Z) | OSetTreasury (a : Address) | OSetSlaThreshold (x : Z)
| OSetThreshold (x : Z) | OSetRateLimits (o : Address) (h d : Z)
| ODeactivate (o : Address)
| ORegister (o : Address) (x : Z) (t : Address)
| OSlash (o : Address) (mid x : Z) | OFinalizeSlash (o : Address) (mid : Z)
| OCancelSlash (o : Address) (mid : Z)
| OSubmit (mid : Z) (g : string) (pl : Platform) (r : Winner) (ms : Z) (conf : option Z)
| OSubmitBatch (es : list BatchResultEntry)
| OVote (o : Address) (mid : Z) (g : string) (pl : Platform) (r : Winner) (ms : Z)
| OResolve (mid : Z) (g : string) (pl : Platform) (r : Winner)
| ODelete (mid : Z)
| OGetCached (g : string) (pl : Platform) | OInvalidate (g : string) (pl : Platform)
| OSetRate (a b : Address) (r : Z)
| OSwap (caller tin tout : Address) (ain min_out : Z) (to : Address).

Section OExec.
Context {W : Type} `{Host W}.

Definition drop_result {A} (c : OM W A) : OM W unit := c ≫= fun _ => mret tt.

Definition oexec (c : OCall) : OM W unit :=
  match c with
  | OInitialize a => initialize a
  | OPause => pause | OUnpause => unpause | OUpdateAdmin a => update_admin a
  | OProposeAdmin a => propose_admin a | OAcceptAdmin => accept_admin
  | OSetGracePeriod x => set_slashing_grace_period x | OSetTreasury a => set_treasury a
  | OSetSlaThreshold x => set_sla_threshold x | OSetThreshold x => set_consensus_threshold x
  | OSetRateLimits o h d => set_oracle_rate_limits o h d
  | ODeactivate o => deactivate_slow_oracle o
  | ORegister o x t => register_oracle_with_stake o x t
  | OSlash o mid x => slash_oracle o mid x | OFinalizeSlash o mid => finalize_slash o mid
  | OCancelSlash o mid => admin_cancel_slash o mid
  | OSubmit mid g pl r ms conf => submit_result mid g pl r ms conf
  | OSubmitBatch es => submit_batch_results es
  | OVote o mid g pl r ms => submit_oracle_result o mid g pl r ms
  | OResolve mid g pl r => resolve_disputed_match mid g pl r
  | ODelete mid => delete_result mid
  | OGetCached g pl => drop_result (get_cached_result g pl)
  | OInvalidate g pl => invalidate_cache g pl
  | OSetRate a b r => set_rate a b r
  | OSwap c tin tout ain mo to => swap c tin tout ain mo to
  end.

(** What the contract at [me] may rely on in a call: it is the callee, and it has
    not signed the call itself. *)
Definition called (me : Address) (env : Env) : Prop :=
  self env = me /\ authorized env me = false.

(** The states the contract at [me] can be in, when every call satisfies [ok]. *)
Inductive oreachable (me : Address) (ok : OCall -> Prop) : OState W -> Prop :=
| OR_init w :
    (forall t, 0 <= token_balance w t me) -> oreachable me ok (init_oracle w)
| OR_call env call s :
    oreachable me ok s -> called me env -> ok call ->
    oreachable me ok (snd (invoke (oexec call) env s))
| OR_outside w s :
    oreachable me ok s -> (forall t, token_balance (world s) t me <= token_balance w t me) ->
    oreachable me ok (with_world w s).

(** Rule induction for an invariant that says nothing about the other contracts'
    balances except through [oreachable]'s own conditions. *)
Lemma oreachable_ind' me ok (I : OState W -> Prop) :
  (forall w, (forall t, 0 <= token_balance w t me) -> I (init_oracle w)) ->
  (forall call, ok call -> keeps (called me) I (oexec call)) ->
  (forall w s, (forall t, token_balance (world s) t me <= token_balance w t me) -> I s ->
     I (with_world w s)) ->
  forall s, oreachable me ok s -> I s.
Proof.
  intros Hi Hc Ho s. induction 1 as [w Hw|env call s _ IH He Hk|w s _ IH Hw]; auto.
  unfold invoke. destruct (oexec call env s) as [[] s'|e s'|] eqn:Hrun; cbn; [|done..].
  by eapply Hc.
Qed.
End OExec.

(** ** Frames

    [spares pi pp wl]: the instance entries in [pi], the persistent entries in
    [pp] and (when [wl]) the rest of the ledger are left alone. *)
Section Spares.
Context {W : Type}.
Implicit Types (s : OState W) (pi pp : DataKey -> bool) (wl : bool).

Record spares pi pp wl s s' : Prop := {
  sp_inst k : pi k = true -> inst s' k = inst s k;
  sp_pers k : pp k = true -> pers s' k = pers s k;
  sp_world : wl = true -> world s' = world s
}.

#[export] Instance spares_preorder pi pp wl : PreOrder (spares pi pp wl).
Proof.
  split; [by split|]. intros s1 s2 s3 [i1 p1 w1] [i2 p2 w2].
  split; [intros k Hk; by rewrite i2, i1|intros k Hk; by rewrite p2, p1|].
  intros Hw. by rewrite w2, w1.
Qed.

Lemma spares_p_set pi pp wl (k : DataKey) v : pp k = false -> rel (spares pi pp wl) (p_set k v).
Proof.
  intros Hk. apply rel_p_set. intros s. split; [done| |done]; cbn.
  intros k' Hk'. rewrite upd_ne; [done|congruence].
Qed.
Lemma spares_p_remove pi pp wl (k : DataKey) : pp k = false -> rel (spares pi pp wl) (p_remove k).
Proof.
  intros Hk. apply rel_p_remove. intros s. split; [done| |done]; cbn.
  intros k' Hk'. rewrite upd_ne; [done|congruence].
Qed.
Lemma spares_i_set pi pp wl (k : DataKey) v : pi k = false -> rel (spares pi pp wl) (i_set k v).
Proof.
  intros Hk. apply rel_i_set. intros s. split; [|done..]; cbn.
  intros k' Hk'. rewrite upd_ne; [done|congruence].
Qed.
Lemma spares_i_remove pi pp wl (k : DataKey) : pi k = false -> rel (spares pi pp wl) (i_remove k).
Proof.
  intros Hk. apply rel_i_remove. intros s. split; [|done..]; cbn.
  intros k' Hk'. rewrite upd_ne; [done|congruence].
Qed.
Lemma spares_publish pi pp wl t1 t2 vs : rel (E:=Error) (spares pi pp wl) (publish t1 t2 vs).
Proof. by apply rel_publish. Qed.
Lemma spares_transfer `{Host W} pi pp t a b x :
  rel (E:=Error) (spares pi pp false) (transfer t a b x).
Proof. by apply rel_call_out. Qed.
Lemma spares_check_batch pi pp wl es : rel (spares pi pp wl) (check_batch es).
Proof. induction es as [|e es IH]; cbn [check_batch]; frame. Qed.
End Spares.

#[export] Hint Resolve spares_publish spares_transfer spares_check_batch : frame.
#[export] Hint Extern 1 (rel (spares _ _ _) (Soroban.p_set _ _)) =>
  (apply spares_p_set; solve [reflexivity | assumption | cbn; rewrite Z.eqb_refl; reflexivity]) : frame.
#[export] Hint Extern 1 (rel (spares _ _ _) (Soroban.p_remove _)) =>
  (apply spares_p_remove; solve [reflexivity | assumption | cbn; rewrite Z.eqb_refl; reflexivity]) : frame.
#[export] Hint Extern 1 (rel (spares _ _ _) (Soroban.i_set _ _)) =>
  (apply spares_i_set; solve [reflexivity | assumption | cbn; rewrite Z.eqb_refl; reflexivity]) : frame.
#[export] Hint Extern 1 (rel (spares _ _ _) (Soroban.i_remove _)) =>
  (apply spares_i_remove; solve [reflexivity | assumption | cbn; rewrite Z.eqb_refl; reflexivity]) : frame.
