(* ===== verification/OracleLedger.v ===== *)
(** What the stake-moving operations of the oracle contract do: registration,
    finalised slashes and automatic slashes, each as a change of one registration,
    of the eligibility version, and of the token ledger.  The registry invariant
    (the set of oracles lists exactly the registered ones, stakes are not
    negative, staged slashes name registered oracles) holds in every reachable
    state. *)
From stdpp Require Import base list strings relations.
From Stdlib Require Import ZArith Lia.
From S2P Require Import Prelude Soroban OracleTypes OracleLimits OracleStakes OracleResults.
From S2P Require Import OracleCalls.

Section OracleLedger.
Context {W : Type} `{Host W}.
Implicit Types s : OState W.

Definition registration s (o : Address) : option OracleRegistration :=
  inst s (DOracleRegistration o).
Definition oracle_set s : list Address := default [] (inst s DOracleSet).
Definition version s : Z := default 0 (inst s DOracleEligibilityVersion).

(** The registration of [o] becomes [r'], the eligibility version is bumped or
    not, and of the rest of the instance storage only entries in [x] change. *)
Record restaked (x : DataKey -> bool) (o : Address) (r' : OracleRegistration) (bump : bool) s s'
    : Prop := {
  rs_reg : registration s' o = Some r';
  rs_version : version s' = if bump then u32_sat_add (version s) 1 else version s;
  rs_inst k : k <> DOracleRegistration o -> k <> DOracleEligibilityVersion -> x k = false ->
    inst s' k = inst s k;
  rs_pers k : pers s' k = pers s k
}.

Lemma restaked_other x o r' b s s' c :
  restaked x o r' b s s' -> c <> o -> x (DOracleRegistration c) = false ->
  registration s' c = registration s c.
Proof. intros Hr Hne Hx. refine (rs_inst _ _ _ _ _ _ Hr (DOracleRegistration c) _ _ _); [congruence|done|done]. Qed.

Definition with_stake (r : OracleRegistration) (x : Z) : OracleRegistration :=
  mkOracleRegistration (oracle_address r) x (reg_token r).

(** Where a slash goes: to the admin, when there is one. *)
Definition paid_to_admin (env : Env) (t : Address) (a : Z) s s' : Prop :=
  match inst s DAdmin with
  | Some admin => token_transfer (world s) t (self env) admin a = Some (world s')
  | None => world s' = world s
  end.

(** Storing a registration and bumping the version if needed. *)
Lemma restake_run o r' (bump : bool) env s u1 s1 u s' :
  i_set (DOracleRegistration o) r' env s = Ok u1 s1 ->
  (if bump then bump_oracle_eligibility_version else mret tt) env s1 = Ok u s' ->
  restaked (fun _ => false) o r' bump s s' /\ world s' = world s.
Proof.
  unfold bump_oracle_eligibility_version. intros [= _ <-] Hb. destruct bump; minv.
  all: split; [|done]; split; unfold registration, version; cbn.
  all: repeat first [rewrite upd_eq | rewrite upd_ne by congruence | done
                    | progress (intros; cbn)].
Qed.

Lemma restaked_widen x o r' b s s1 s' :
  restaked (fun _ => false) o r' b s s1 ->
  (forall k, x k = false -> inst s' k = inst s1 k) -> (forall k, pers s' k = pers s1 k) ->
  x (DOracleRegistration o) = false -> x DOracleEligibilityVersion = false ->
  restaked x o r' b s s'.
Proof.
  intros [h1 h2 h3 h4] Hi Hp Hx1 Hx2. split; unfold registration, version in *.
  - by rewrite Hi.
  - by rewrite Hi.
  - intros k Hk1 Hk2 Hk. rewrite Hi by done. by apply h3.
  - intros k. by rewrite Hp.
Qed.

Lemma slash_bps_spec o bps env s a s' :
  slash_bps o bps env s = Ok a s' ->
  (a = 0 /\ s' = s) \/
  exists r, registration s o = Some r /\ 0 < a <= oracle_stake r /\
    a = clamp 0 (oracle_stake r) (Z.quot (oracle_stake r * bps) 10000) /\
    restaked (fun _ => false) o (with_stake r (oracle_stake r - a)) (oracle_stake r - a =? 0) s s' /\
    paid_to_admin env (reg_token r) a s s'.
Proof.
  unfold slash_bps. intros Hr. apply bind_Ok in Hr as (reg & s1 & [= <- <-] & Hr).
  destruct (inst s (DOracleRegistration o)) as [r|] eqn:Hreg; [|minv; auto].
  destruct (Z.leb_spec (oracle_stake r) 0); [minv; auto|].
  apply bind_Ok in Hr as (prod & s1 & Hu & Hr). apply unwrap_Ok in Hu as [Hc <-].
  apply checked_Some in Hc as [<- _]. cbv zeta in Hr.
  set (x := clamp 0 (oracle_stake r) (Z.quot (oracle_stake r * bps) 10000)) in *.
  destruct (Z.eqb_spec x 0); [minv; auto|].
  assert (0 < x <= oracle_stake r) as Hx by (unfold x, clamp in *; lia).
  right. exists r. split; [done|].
  apply bind_Ok in Hr as (left & s1 & Hu & Hr). apply unwrap_Ok in Hu as [Hc <-].
  apply checked_Some in Hc as [<- _].
  apply bind_Ok in Hr as (u1 & s1 & Hset & Hr). apply bind_Ok in Hr as (u & s2 & Hb & Hr).
  destruct (restake_run _ _ _ _ _ _ _ _ _ Hset Hb) as [Hrs Hw].
  assert (inst s2 DAdmin = inst s DAdmin) as Had by (by apply (rs_inst _ _ _ _ _ _ Hrs)).
  unfold transfer in Hr. apply bind_Ok in Hr as (adm & s3 & [= <- <-] & Hr).
  apply bind_Ok in Hr as (me & s3 & [= <- <-] & Hr).
  apply bind_Ok in Hr as (v & s3 & Ht & [= <- <-]). unfold paid_to_admin. rewrite <- Had.
  destruct (inst s2 DAdmin) as [admin|].
  - apply call_out_Ok in Ht as (w & Htr & ->). split_and!; try done; [lia|lia| |by rewrite <- Hw].
    by eapply restaked_widen; [exact Hrs|..].
  - apply ret_Ok in Ht as [_ <-]. split_and!; try done; lia.
Qed.

(** ** Registration *)

Definition is_set_key (k : DataKey) : bool := match k with DOracleSet => true | _ => false end.

(** What [register_oracle_with_stake] requires of an earlier registration, and the
    stake it leaves. *)
Lemma register_spec o x t env s s' :
  register_oracle_with_stake o x t env s = Ok tt s' ->
  authorized env o = true /\ 0 < x /\
  (forall r, registration s o = Some r -> reg_token r = t) /\
  token_transfer (world s) t o (self env) x = Some (world s') /\
  restaked is_set_key o
    (mkOracleRegistration o (i128_sat_add (stake_of (registration s o)) x) t)
    (negb (opt_test (fun r => oracle_stake r >? 0) (registration s o))) s s' /\
  oracle_set s' = (if contains (oracle_set s) o then oracle_set s else oracle_set s ++ [o]).
Proof.
  unfold register_oracle_with_stake. intros Hr.
  apply bind_Ok in Hr as (? & s1 & Ha & Hr). apply require_auth_Ok in Ha as [Ha <-].
  apply bind_Ok in Hr as (? & s1 & Hx & Hr). apply fail_if_Ok in Hx as [Hx <-].
  apply bind_Ok in Hr as (ex & s1 & [= <- <-] & Hr). cbv zeta in Hr.
  apply bind_Ok in Hr as (? & s1 & Ht & Hr). apply fail_if_Ok in Ht as [Ht <-].
  apply bind_Ok in Hr as (me & s1 & [= <- <-] & Hr).
  apply bind_Ok in Hr as (? & s1 & Htr & Hr). apply transfer_Ok in Htr as (w & Htr & ->).
  apply bind_Ok in Hr as (? & s2 & Hset & Hr). apply bind_Ok in Hr as (? & s3 & Hb & Hr).
  destruct (restake_run _ _ _ _ _ _ _ _ _ Hset Hb) as [Hrs Hw].
  apply bind_Ok in Hr as (os & s4 & [= <- <-] & Hr).
  apply bind_Ok in Hr as (? & s4 & Hs & [= <-]).
  assert (inst s3 DOracleSet = inst s DOracleSet) as Hos by (by apply (rs_inst _ _ _ _ _ _ Hrs)).
  fold (oracle_set s3) in Hs. assert (oracle_set s3 = oracle_set s) as Ho.
  { unfold oracle_set. by rewrite Hos. }
  rewrite Ho in Hs. fold (registration s o) in *.
  assert (restaked (fun _ => false) o
    (mkOracleRegistration o (i128_sat_add (stake_of (registration s o)) x) t)
    (negb (opt_test (fun r => oracle_stake r >? 0) (registration s o))) s s3) as Hrs'.
  { destruct Hrs as [h1 h2 h3 h4]. by split. }
  zbool. split_and!; [done|lia| | | |].
  - intros r Hreg. rewrite Hreg in Ht. cbn in Ht. zbool. done.
  - destruct (contains (oracle_set s) o); cbn in Hs; injection Hs as _ <-; cbn; by rewrite Hw.
  - destruct (contains (oracle_set s) o); cbn in Hs; injection Hs as _ <-;
      (eapply restaked_widen; [exact Hrs'|intros k Hk; cbn|done..]); [done|].
    rewrite upd_ne; [done|by intros <-].
  - destruct (contains (oracle_set s) o); cbn in Hs; injection Hs as _ <-; unfold oracle_set at 1; cbn.
    + exact Ho.
    + by rewrite upd_eq.
Qed.

(** ** Finalised slashes *)

(** The entries a staged slash of [o] lives in. *)
Definition is_slash_key (o : Address) (mid : Z) (k : DataKey) : bool :=
  match k with
  | DPendingSlash o' i => (o =a o') && (mid =? i)
  | DPendingSlashList o' => o =a o'
  | _ => false
  end.

Lemma unlist_slash o mid env s u s' :
  remove_pending_slash_match o mid env s = Ok u s' ->
  (forall k, k <> DPendingSlashList o -> inst s' k = inst s k) /\
  default [] (inst s' (DPendingSlashList o)) =
    List.filter (fun i => negb (i =? mid)) (default [] (inst s (DPendingSlashList o))) /\
  (forall k, pers s' k = pers s k) /\ world s' = world s.
Proof.
  unfold remove_pending_slash_match. intros Hr.
  apply bind_Ok in Hr as (l & s1 & [= <- <-] & Hr).
  destruct (List.filter _ _) as [|i l] eqn:Hl; cbn in Hr; injection Hr as <- <-; cbn.
  all: split_and!; try done; [intros k Hk; rewrite upd_ne by congruence; done|by rewrite upd_eq].
Qed.

Lemma finalize_slash_spec o mid env s s' :
  finalize_slash o mid env s = Ok tt s' ->
  exists admin p r, inst s DAdmin = Some admin /\ inst s (DPendingSlash o mid) = Some p /\
    registration s o = Some r /\ eligible_ledger p <= sequence env /\
    let a := Z.min (slash_amount p) (oracle_stake r) in
    restaked (is_slash_key o mid) o (with_stake r (oracle_stake r - a))
      ((oracle_stake r >? 0) && (oracle_stake r - a =? 0)) s s' /\
    inst s' (DPendingSlash o mid) = None /\
    default [] (inst s' (DPendingSlashList o)) =
      List.filter (fun i => negb (i =? mid)) (default [] (inst s (DPendingSlashList o))) /\
    (forall i, i <> mid -> inst s' (DPendingSlash o i) = inst s (DPendingSlash o i)) /\
    if a >? 0 then token_transfer (world s) (sl_token p) (self env) admin a = Some (world s')
    else world s' = world s.
Proof.
  unfold finalize_slash. intros Hr.
  apply bind_Ok in Hr as (admin & s1 & Ha & Hr).
  assert (s1 = s /\ inst s DAdmin = Some admin) as [-> Had].
  { unfold load_admin in Ha. by minv. }
  clear Ha. do 7 peel Hr. rename s0 into s, a into p, a1 into r.
  apply checked_Some in H3 as [<- _]. set (x := Z.min (slash_amount p) (oracle_stake r)) in *.
  apply bind_Ok in Hr as (? & s1 & Hset & Hr). apply bind_Ok in Hr as (? & s2 & Hb & Hr).
  destruct (restake_run _ _ _ _ _ _ _ _ _ Hset Hb) as [Hrs Hw]. clear Hset Hb.
  apply bind_Ok in Hr as (? & s3 & Hrm & Hr).
  assert (s3 = with_inst (upd (DPendingSlash o mid) None) s2) as -> by (by injection Hrm).
  apply bind_Ok in Hr as (? & s4 & Hu & Hr). apply unlist_slash in Hu as (Hi & Hl & Hp & Hw4).
  apply bind_Ok in Hr as (me & s5 & [= <- <-] & Hr).
  apply bind_Ok in Hr as (? & s5 & Ht & [= <-]).
  assert (inst s5 = inst s4 /\ pers s5 = pers s4 /\
          if x >? 0 then token_transfer (world s) (sl_token p) (self env) admin x = Some (world s5)
          else world s5 = world s) as (Ei & Ep & Ew).
  { destruct (x >? 0).
    - apply transfer_Ok in Ht as (w & Ht & ->). cbn in *. rewrite <- Hw. by rewrite Hw4 in Ht.
    - apply ret_Ok in Ht as [_ <-]. split_and!; [done..|]. rewrite Hw4. cbn. exact Hw. }
  cbn in *.
  assert (forall k, is_slash_key o mid k = false -> inst s5 k = inst s2 k) as Hother.
  { intros k Hk. rewrite Ei, Hi, upd_ne; [done|intros <-|intros ->]; cbn in Hk.
    - by rewrite bool_decide_true, Z.eqb_refl in Hk by done.
    - by rewrite bool_decide_true in Hk by done. }
  exists admin, p, r. split_and!; [done..|zbool; lia| | | | |done].
  - eapply restaked_widen; [exact Hrs|exact Hother| |done|done]. intros k. cbn. by rewrite Ep, Hp.
  - by rewrite Ei, Hi, upd_eq.
  - rewrite Ei, Hl, upd_ne by done. by rewrite (rs_inst _ _ _ _ _ _ Hrs).
  - intros i Hne. rewrite Ei, Hi, upd_ne by congruence. by rewrite (rs_inst _ _ _ _ _ _ Hrs).
Qed.

(** ** The registry *)

Definition staged s (o : Address) (mid : Z) : option PendingSlash := inst s (DPendingSlash o mid).
Definition staged_list s (o : Address) : list Z := default [] (inst s (DPendingSlashList o)).

(** The set of oracles lists exactly the registered addresses, stakes are
    non-negative, and the list of staged slashes of an oracle names exactly the
    slashes staged for it, each of a positive amount of the token it staked. *)
Record registry_ok s : Prop := {
  ro_nodup : NoDup (oracle_set s);
  ro_set o : o ∈ oracle_set s <-> is_Some (registration s o);
  ro_stake o r : registration s o = Some r -> 0 <= oracle_stake r;
  ro_staged o mid p : staged s o mid = Some p ->
    0 < slash_amount p /\ exists r, registration s o = Some r /\ reg_token r = sl_token p;
  ro_list o : NoDup (staged_list s o);
  ro_listed o mid : mid ∈ staged_list s o <-> is_Some (staged s o mid)
}.

Definition stake_key (k : DataKey) : bool :=
  match k with
  | DOracleRegistration _ | DOracleSet | DPendingSlash _ _ | DPendingSlashList _ => true
  | _ => false
  end.

Lemma registry_frame pp wl s s' :
  spares stake_key pp wl s s' -> registry_ok s -> registry_ok s'.
Proof.
  intros [Hi _ _] [h1 h2 h3 h4 h5 h6].
  unfold oracle_set, registration, staged, staged_list in *.
  split; unfold oracle_set, registration, staged, staged_list; intros *; rewrite ?Hi by done; eauto.
Qed.

(** A changed stake of a registered oracle. *)
Lemma registry_restaked x o r r' b s s' :
  restaked x o r' b s s' -> (forall k, stake_key k = true -> x k = false) ->
  registration s o = Some r -> reg_token r' = reg_token r -> 0 <= oracle_stake r' ->
  registry_ok s -> registry_ok s'.
Proof.
  intros [h1 _ hi _] Hx Hr Ht Hst [g1 g2 g3 g4 g5 g6].
  assert (forall k, stake_key k = true -> k <> DOracleRegistration o -> inst s' k = inst s k) as Hk.
  { intros k Hk Hne. apply hi; [done|by intros ->|by apply Hx]. }
  assert (oracle_set s' = oracle_set s) as Hset by (unfold oracle_set; by rewrite Hk).
  assert (forall a, registration s' a = if a =a o then Some r' else registration s a) as Hreg.
  { intros a. case_bool_decide as E; [by subst a|]. unfold registration. rewrite Hk; [done|done|congruence]. }
  split.
  - by rewrite Hset.
  - intros a. rewrite Hset, g2, Hreg. case_bool_decide; [|done]. subst a. by rewrite Hr.
  - intros a ra. rewrite Hreg. case_bool_decide; [by intros [= <-]|apply g3].
  - intros a mid p. unfold staged. rewrite Hk by done. intros Hp.
    destruct (g4 a mid p Hp) as (Hpos & ra & Hra & Hta). split; [done|].
    rewrite Hreg. case_bool_decide; [|by exists ra]. subst a. exists r'. split; [done|]. congruence.
  - intros a. unfold staged_list. rewrite Hk by done. apply g5.
  - intros a mid. unfold staged_list, staged. rewrite !Hk by done. apply g6.
Qed.

Lemma keeps_slash_bps ok o bps : keeps ok registry_ok (slash_bps o bps).
Proof.
  intros env s a s' _ Hok Hr.
  destruct (slash_bps_spec _ _ _ _ _ _ Hr) as [[_ ->]|(r & Hreg & Ha & _ & Hrs & _)]; [done|].
  eapply registry_restaked; [exact Hrs|done|exact Hreg|done|cbn; lia|done].
Qed.
End OracleLedger.

(** [kwalk frame] proves [keeps ok I c] by going through the code: the hints of
    [keeps] handle the code that touches what [I] is about, [frame] the code that
    spares it. *)
Create HintDb keeps discriminated.
Ltac kwalk frame_lemma :=
  repeat first
    [ apply keeps_for_each; intros ?
    | solve [auto 2 with keeps]
    | solve [eapply keeps_rel; [|exact frame_lemma]; walk]
    | apply keeps_bind; [|intros ?]
    | match goal with
      | |- keeps _ _ (if ?b then _ else _) => destruct b
      | |- keeps _ _ (match ?x with _ => _ end) => destruct x
      | |- keeps _ _ ?c => let h := head_of c in unfold h
      end ].

Section Registry.
Context {W : Type} `{Host W}.
Implicit Types s : OState W.

Definition signed_by_admin (env : Env) s : Prop :=
  exists admin, inst s DAdmin = Some admin /\ authorized env admin = true.

Lemma require_admin_run env s a s' :
  require_admin env s = Ok a s' ->
  s' = s /\ inst s DAdmin = Some a /\ authorized env a = true.
Proof. unfold require_admin, load_admin. intros Hr. by minv. Qed.

(** ** Staging and cancelling *)

Lemma slash_oracle_spec o mid x env s s' :
  slash_oracle o mid x env s = Ok tt s' ->
  signed_by_admin env s /\
  exists r, registration s o = Some r /\ staged s o mid = None /\ 0 < x <= oracle_stake r /\
    staged s' o mid = Some (mkPendingSlash o mid x (reg_token r) (sequence env)
      (u32_sat_add (sequence env) (default 0 (inst s DSlashingGracePeriodLedgers)))) /\
    staged_list s' o = staged_list s o ++ [mid] /\
    (forall k, is_slash_key o mid k = false -> inst s' k = inst s k) /\
    (forall k, pers s' k = pers s k) /\ world s' = world s.
Proof.
  unfold slash_oracle, get_slashing_grace_period. intros Hr.
  apply bind_Ok in Hr as (admin & s1 & Ha & Hr).
  apply require_admin_run in Ha as (-> & Had & Hau). split; [by exists admin|].
  do 7 peel Hr. minv. zbool. exists a. unfold staged, staged_list; cbn.
  split_and!; try done; try lia.
  all: rewrite ?upd_eq; rewrite ?upd_ne by congruence; rewrite ?upd_eq; try done.
  - by destruct (inst s0 (DPendingSlash o mid)).
  - intros k Hk. rewrite !upd_ne; [done|intros <-|intros <-]; cbn in Hk.
    + by rewrite bool_decide_true, Z.eqb_refl in Hk by done.
    + by rewrite bool_decide_true in Hk by done.
Qed.

Lemma cancel_slash_spec o mid env s s' :
  admin_cancel_slash o mid env s = Ok tt s' ->
  signed_by_admin env s /\ is_Some (staged s o mid) /\ staged s' o mid = None /\
  staged_list s' o = List.filter (fun i => negb (i =? mid)) (staged_list s o) /\
  (forall k, is_slash_key o mid k = false -> inst s' k = inst s k) /\
  (forall k, pers s' k = pers s k) /\ world s' = world s.
Proof.
  unfold admin_cancel_slash. intros Hr.
  apply bind_Ok in Hr as (admin & s1 & Ha & Hr).
  apply require_admin_run in Ha as (-> & Had & Hau). split; [by exists admin|].
  do 3 peel Hr. apply bind_Ok in Hr as (? & s4 & Hu & [= <-]).
  apply unlist_slash in Hu as (Hi & Hl & Hp & Hw). cbn in *.
  unfold staged, staged_list in *. cbn. split_and!; try done.
  - by destruct (inst s (DPendingSlash o mid)).
  - by rewrite Hi, upd_eq.
  - intros k Hk. rewrite Hi, upd_ne; [done|intros <-|intros ->]; cbn in Hk.
    + by rewrite bool_decide_true, Z.eqb_refl in Hk by done.
    + by rewrite bool_decide_true in Hk by done.
Qed.

(** ** The registry invariant is kept *)

Lemma filter_other_in (l : list Z) mid i :
  i ∈ List.filter (fun i => negb (i =? mid)) l <-> i ∈ l /\ i <> mid.
Proof.
  by rewrite !list_elem_of_In, List.filter_In, negb_true_iff, Z.eqb_neq.
Qed.

(** Only the slash of [o] for [mid] and [o]'s list of slashes change. *)
Lemma registry_slashes o mid s s' :
  (forall k, is_slash_key o mid k = false -> stake_key k = true -> inst s' k = inst s k) ->
  (forall p, staged s' o mid = Some p ->
     0 < slash_amount p /\ exists r, registration s o = Some r /\ reg_token r = sl_token p) ->
  NoDup (staged_list s' o) ->
  (forall i, i ∈ staged_list s' o <-> if i =? mid then is_Some (staged s' o mid) else i ∈ staged_list s o) ->
  registry_ok s -> registry_ok s'.
Proof.
  intros Hk Hst Hnd Hin [g1 g2 g3 g4 g5 g6].
  assert (forall a i, (a, i) <> (o, mid) -> staged s' a i = staged s a i) as Hs.
  { intros a i Hne. refine (Hk (DPendingSlash a i) _ _); [|done]. cbn. case_bool_decide; [|done]. cbn. apply Z.eqb_neq. congruence. }
  assert (forall a, a <> o -> staged_list s' a = staged_list s a) as Hl.
  { intros a Hne. unfold staged_list. rewrite Hk; [done| |done]. cbn. by case_bool_decide. }
  assert (forall a, registration s' a = registration s a) as Hr by (intros a; by apply (Hk (DOracleRegistration a))).
  assert (oracle_set s' = oracle_set s) as Ho by (unfold oracle_set; by rewrite Hk).
  split.
  - by rewrite Ho.
  - intros a. by rewrite Ho, Hr.
  - intros a r. rewrite Hr. apply g3.
  - intros a i p. rewrite Hr. destruct (decide ((a, i) = (o, mid))) as [[= -> ->]|Hne]; [auto|].
    rewrite Hs by done. apply g4.
  - intros a. destruct (decide (a = o)) as [->|Hne]; [done|]. by rewrite Hl.
  - intros a i. destruct (decide (a = o)) as [->|Hne].
    + rewrite Hin. destruct (Z.eqb_spec i mid) as [->|Hne]; [done|].
      rewrite g6, Hs by congruence. done.
    + rewrite Hl, g6, Hs by congruence. done.
Qed.

Lemma keeps_slash_oracle ok o mid x : keeps ok (registry_ok (W:=W)) (slash_oracle o mid x).
Proof.
  intros env s [] s' _ Hok Hr.
  apply slash_oracle_spec in Hr as (_ & r & Hr & Hst & Hx & Hst' & Hl & Hk & _).
  assert (mid ∉ staged_list s o) as Hni by (rewrite (ro_listed s Hok), Hst; by intros [??]).
  apply (registry_slashes o mid s); [by intros; apply Hk|..|done].
  - intros p. rewrite Hst'. intros [= <-]. cbn. eauto with lia.
  - rewrite Hl. apply NoDup_app. split_and!; [apply ro_list, Hok| |apply NoDup_singleton].
    intros i Hi ->%list_elem_of_singleton. done.
  - intros i. rewrite Hl, elem_of_app, list_elem_of_singleton, Hst'.
    destruct (Z.eqb_spec i mid); naive_solver.
Qed.

(** Dropping a staged slash from the list. *)
Lemma registry_unstaged o mid s s' :
  (forall k, is_slash_key o mid k = false -> stake_key k = true -> inst s' k = inst s k) ->
  staged s' o mid = None ->
  staged_list s' o = List.filter (fun i => negb (i =? mid)) (staged_list s o) ->
  registry_ok s -> registry_ok s'.
Proof.
  intros Hk Hst Hl Hok. apply (registry_slashes o mid s); [done|..|done].
  - by rewrite Hst.
  - rewrite Hl. apply NoDup_ListNoDup, List.NoDup_filter, NoDup_ListNoDup, ro_list, Hok.
  - intros i. rewrite Hl, filter_other_in, Hst. destruct (Z.eqb_spec i mid); [|naive_solver].
    split; [naive_solver|by intros [??]].
Qed.

Lemma keeps_cancel_slash ok o mid : keeps ok (registry_ok (W:=W)) (admin_cancel_slash o mid).
Proof.
  intros env s [] s' _ Hok (_ & _ & Hst & Hl & Hk & _)%cancel_slash_spec.
  apply (registry_unstaged o mid s); [by intros; apply Hk|done..].
Qed.

Lemma keeps_finalize_slash ok o mid : keeps ok registry_ok (finalize_slash o mid).
Proof.
  intros env s [] s' _ Hok (admin & p & r & Had & Hp & Hr & Hle & Hrs & Hst & Hl & Hother & _)%finalize_slash_spec.
  pose proof (ro_stake s Hok o r Hr) as Hpos.
  destruct (ro_staged s Hok o mid p Hp) as (Hsp & _).
  (* first the slash is dropped, then the stake is reduced *)
  set (s1 := with_inst (fun st => upd (DPendingSlash o mid) None
               (upd (DPendingSlashList o) (inst s' (DPendingSlashList o)) st)) s).
  assert (registry_ok s1) as Hok1.
  { eapply (registry_unstaged o mid s); [|unfold staged; cbn; by rewrite upd_eq| |done].
    - intros k Hk _. cbn. rewrite !upd_ne; [done|intros <-|intros <-]; cbn in Hk.
      + by rewrite bool_decide_true in Hk.
      + by rewrite bool_decide_true, Z.eqb_refl in Hk.
    - unfold staged_list. cbn. rewrite upd_ne by done. by rewrite upd_eq. }
  eapply (registry_restaked (fun k => negb (stake_key k)) o r _ _ s1 s'); [|intros []; done|..|done].
  - destruct Hrs as [h1 h2 h3 h4]. split; [exact h1|exact h2| |exact h4].
    intros k Hk1 Hk2 Hx. cbn.
    destruct (decide (DPendingSlash o mid = k)) as [<-|Hn1]; [by rewrite upd_eq|].
    rewrite (upd_ne (DPendingSlash o mid)) by done.
    destruct (decide (DPendingSlashList o = k)) as [<-|Hn2]; [by rewrite upd_eq|].
    rewrite upd_ne by done. apply h3; [done..|].
    destruct k; cbn in Hx |- *; try done; apply andb_false_iff || idtac;
      repeat case_bool_decide; subst; try done; auto. right. apply Z.eqb_neq. congruence.
  - exact Hr.
  - done.
  - cbn. lia.
Qed.

Lemma keeps_register ok o x t : keeps ok registry_ok (register_oracle_with_stake o x t).
Proof.
  intros env s [] s' _ Hok (_ & Hx & Htok & _ & Hrs & Hset)%register_spec.
  destruct Hrs as [h1 _ hi _], Hok as [g1 g2 g3 g4 g5 g6].
  assert (forall k, is_set_key k = false -> stake_key k = true -> k <> DOracleRegistration o ->
            inst s' k = inst s k) as Hk.
  { intros k Hk1 Hk2 Hne. apply hi; [done|by intros ->|done]. }
  assert (forall a, a <> o -> registration s' a = registration s a) as Hreg.
  { intros a Hne. apply (Hk (DOracleRegistration a)); [done..|congruence]. }
  assert (0 <= i128_sat_add (stake_of (registration s o)) x) as Hge.
  { assert (0 <= stake_of (registration s o)).
    { destruct (registration s o) as [r|] eqn:Hr; cbn; [by apply g3 in Hr|done]. }
    unfold_ints. lia. }
  assert (contains (oracle_set s) o = true <-> o ∈ oracle_set s) as Hc by apply contains_spec.
  split.
  - rewrite Hset. destruct (contains (oracle_set s) o) eqn:E; [done|].
    apply NoDup_app. split_and!; [done| |apply NoDup_singleton].
    intros a Ha ->%list_elem_of_singleton. by rewrite <- Hc in Ha.
  - intros a. destruct (decide (a = o)) as [->|Hne].
    + rewrite h1, Hset. split; [done|intros _].
      destruct (contains (oracle_set s) o); [by apply Hc|]. apply elem_of_app. right. by left.
    + rewrite (Hreg a Hne), <- g2, Hset. destruct (contains _ _); [done|].
      rewrite elem_of_app, list_elem_of_singleton. naive_solver.
  - intros a r. destruct (decide (a = o)) as [->|Hne]; [rewrite h1; by intros [= <-]|].
    rewrite Hreg by done. apply g3.
  - intros a mid p. unfold staged. rewrite Hk by done. intros Hp.
    destruct (g4 a mid p Hp) as (Hpos & r & Hr & Htk). split; [done|].
    destruct (decide (a = o)) as [->|Hne]; [|rewrite Hreg by done; eauto].
    rewrite h1. eexists. split; [done|]. cbn. rewrite <- Htk. symmetry. by apply Htok.
  - intros a. unfold staged_list. rewrite Hk by done. apply g5.
  - intros a mid. unfold staged_list, staged. rewrite !Hk by done. apply g6.
Qed.

Lemma registry_ok_init (w : W) : registry_ok (init_oracle w).
Proof.
  split; unfold oracle_set, registration, staged, staged_list; cbn; try done; try constructor.
  - by intros ?%elem_of_nil.
  - by intros [??].
  - by intros ?%elem_of_nil.
  - by intros [??].
Qed.

#[local] Hint Resolve keeps_slash_bps : keeps.

Lemma keeps_registry ok call : keeps ok registry_ok (oexec call).
Proof.
  destruct call; cbn [oexec];
    first [ apply keeps_register | apply keeps_slash_oracle | apply keeps_finalize_slash
          | apply keeps_cancel_slash | idtac ].
  all: kwalk (registry_frame (W:=W) (fun _ => false) false).
Qed.

Lemma reachable_registry me ok s : oreachable me ok s -> registry_ok s.
Proof.
  apply oreachable_ind'; [intros w _; apply registry_ok_init|intros; apply keeps_registry|].
  intros w s1 _. apply (registry_frame (W:=W) (fun _ => false) false). by split.
Qed.

(** C8: In every reachable state of the oracle contract the registry is
    consistent: the listed oracles are the registered addresses, without
    repetition, so that [get_registered_oracle_count] counts registrations; no
    stake is negative; and [get_pending_slashes] returns exactly the slashes
    staged for the oracle, one per match, each of a positive amount in the token
    the oracle staked. *)
Theorem registry_consistent me ok env s o :
  oreachable me ok s ->
  registry_ok s /\
  get_registered_oracle_count env s = Ok (vec_len (oracle_set s)) s /\
  exists l, get_pending_slashes o env s = Ok l s /\
    length l = length (staged_list s o) /\
    forall p, p ∈ l <-> exists mid, staged s o mid = Some p.
Proof.
  intros Hr%reachable_registry. split_and!; [done|done|].
  exists (staged_slashes s o (staged_list s o)). split; [done|]. split.
  - unfold staged_slashes. assert (forall i, i ∈ staged_list s o -> is_Some (staged s o i)) as Hall
      by (intros i; apply ro_listed, Hr).
    induction (staged_list s o) as [|i l IH]; [done|]. cbn. change (inst s (DPendingSlash o i)) with (staged s o i).
    destruct (Hall i) as [p ->]; [by left|]. cbn. f_equal. apply IH. intros j Hj. apply Hall. by right.
  - intros p. unfold staged_slashes. rewrite list_elem_of_omap. unfold staged. split.
    + intros (i & _ & Hi). eauto.
    + intros (i & Hi). exists i. split; [|done]. apply (ro_listed s Hr). unfold staged. eauto.
Qed.
End Registry.
