(* ===== verification/OracleBacking.v ===== *)
(** The stakes are backed: as long as nobody swaps, the oracle contract holds, in
    every token, at least the sum of the stakes registered in it. *)
From stdpp Require Import base list strings relations.
From Stdlib Require Import ZArith Lia.
From S2P Require Import Prelude Soroban OracleTypes OracleLimits OracleStakes OracleResults.
From S2P Require Import OracleCalls OracleLedger.

(** No call of the run is a swap. *)
Definition no_swap (call : OCall) : Prop :=
  match call with OSwap _ _ _ _ _ _ => False | _ => True end.

Section Backing.
Context {W : Type} `{Host W} `{!TokenLaws W} (me : Address).
Implicit Types s : OState W.

Definition stake_in (t : Address) (r : option OracleRegistration) : Z :=
  match r with Some r => if reg_token r =a t then oracle_stake r else 0 | None => 0 end.

(** The stakes registered in token [t]. *)
Definition total_stake s (t : Address) : Z :=
  sum_list_with (fun o => stake_in t (registration s o)) (oracle_set s).

Definition holdings s (t : Address) : Z := token_balance (world s) t me.

Record backed s : Prop := {
  bk_registry : registry_ok s;
  bk_covered t : total_stake s t <= holdings s t
}.

Lemma stake_in_nonneg s t o : registry_ok s -> 0 <= stake_in t (registration s o).
Proof.
  intros Hok. destruct (registration s o) as [r|] eqn:Hr; cbn; [|done].
  case_bool_decide; [by eapply ro_stake|done].
Qed.

(** Changing the registration of one listed oracle. *)
Lemma total_stake_update s s' o t :
  registry_ok s -> oracle_set s' = oracle_set s -> o ∈ oracle_set s ->
  (forall a, a <> o -> registration s' a = registration s a) ->
  total_stake s' t = total_stake s t + (stake_in t (registration s' o) - stake_in t (registration s o)).
Proof.
  intros Hok Hset Ho Hreg. unfold total_stake. rewrite Hset.
  apply (sum_list_with_update (fun o => stake_in t (registration s o))
           (fun o => stake_in t (registration s' o)) _ o); [apply Hok|done|].
  intros a Ha. by rewrite Hreg.
Qed.

(** What a payment out of the contract costs it. *)
Lemma paid_out w t to x w' t' :
  token_transfer w t me to x = Some w' ->
  token_balance w t' me - (if t =a t' then x else 0) <= token_balance w' t' me.
Proof.
  intros Ht. pose proof (transfer_nonneg _ _ _ _ _ _ Ht).
  rewrite (transfer_moves _ _ _ _ _ _ Ht t' me). unfold delta.
  repeat case_bool_decide; subst; cbn; try congruence; lia.
Qed.

Lemma paid_in w t from x w' t' :
  token_transfer w t from me x = Some w' -> from <> me ->
  token_balance w' t' me = token_balance w t' me + (if t =a t' then x else 0).
Proof.
  intros Ht Hne. rewrite (transfer_moves _ _ _ _ _ _ Ht t' me). unfold delta.
  repeat case_bool_decide; subst; cbn; try congruence; lia.
Qed.

Lemma backed_frame pp s s' : spares stake_key pp true s s' -> backed s -> backed s'.
Proof.
  intros Hs [Hok Hc]. split; [by eapply registry_frame|]. intros t.
  destruct Hs as [Hi _ Hw]. unfold total_stake, holdings, registration, oracle_set in *.
  rewrite Hw, Hi by done. erewrite sum_list_with_ext; [apply Hc|].
  intros o _. cbn. by rewrite Hi.
Qed.

(** A stake reduced by [a], which leaves the contract in the staked token. *)
Lemma backed_slashed x o r b a s s' :
  restaked x o (with_stake r (oracle_stake r - a)) b s s' ->
  x DOracleSet = false -> (forall c, x (DOracleRegistration c) = false) ->
  registration s o = Some r -> registry_ok s ->
  (forall t, holdings s t - (if reg_token r =a t then a else 0) <= holdings s' t) ->
  (forall t, total_stake s t <= holdings s t) -> forall t, total_stake s' t <= holdings s' t.
Proof.
  intros Hrs Hx1 Hx2 Hr Hok Hh Hc t.
  rewrite (total_stake_update s s' o t Hok).
  - rewrite (rs_reg _ _ _ _ _ _ Hrs), Hr. cbn. specialize (Hh t). specialize (Hc t). case_bool_decide; lia.
  - unfold oracle_set. by rewrite (rs_inst _ _ _ _ _ _ Hrs).
  - apply (ro_set s Hok). by rewrite Hr.
  - intros c Hne. by eapply restaked_other.
Qed.

Lemma keeps_backed_slash o bps : keeps (called me) backed (slash_bps o bps).
Proof.
  intros env s a s' [Hme _] [Hok Hc] Hr. split; [by eapply (keeps_slash_bps (fun _ => True))|].
  destruct (slash_bps_spec _ _ _ _ _ _ Hr) as [[_ ->]|(r & Hreg & Ha & _ & Hrs & Hpay)]; [done|].
  eapply backed_slashed; [exact Hrs|done|done|done|done| |done].
  intros t. unfold paid_to_admin in Hpay. rewrite Hme in Hpay. unfold holdings.
  destruct (inst s DAdmin) as [admin|]; [by eapply paid_out|].
  rewrite Hpay. case_bool_decide; lia.
Qed.

Lemma keeps_backed_finalize o mid : keeps (called me) backed (finalize_slash o mid).
Proof.
  intros env s [] s' [Hme _] [Hok Hc] Hr. split; [by eapply (keeps_finalize_slash (fun _ => True))|].
  apply finalize_slash_spec in Hr as (admin & p & r & Had & Hp & Hreg & _ & Hrs & _ & _ & _ & Hpay).
  destruct (ro_staged s Hok o mid p Hp) as (Hpos & r0 & Hr0 & Htk). replace r0 with r in * by congruence.
  pose proof (ro_stake s Hok o r Hreg).
  eapply backed_slashed; [exact Hrs|done|done|done|done| |done].
  intros t. rewrite Hme in Hpay. unfold holdings. rewrite Htk.
  destruct (Z.gtb_spec (Z.min (slash_amount p) (oracle_stake r)) 0); [by eapply paid_out|].
  rewrite Hpay. case_bool_decide; lia.
Qed.

Lemma keeps_backed_register o x t : keeps (called me) backed (register_oracle_with_stake o x t).
Proof.
  intros env s [] s' [Hme Hna] [Hok Hc] Hr. split; [by eapply (keeps_register (fun _ => True))|].
  apply register_spec in Hr as (Hau & Hx & Htok & Htr & Hrs & Hset).
  intros t'. rewrite Hme in Htr.
  assert (o <> me) as Hne by congruence. unfold holdings. rewrite (paid_in _ _ _ _ _ t' Htr Hne).
  specialize (Hc t'). unfold holdings in Hc.
  pose proof (rs_reg _ _ _ _ _ _ Hrs) as h1.
  assert (forall a, a <> o -> registration s' a = registration s a) as Hreg.
  { intros a Ha. by eapply restaked_other. }
  assert (stake_in t' (registration s' o) <=
          stake_in t' (registration s o) + (if t =a t' then x else 0)) as Hstk.
  { rewrite h1. cbn. destruct (registration s o) as [r|] eqn:Hro; cbn.
    - rewrite (Htok r) by done. pose proof (ro_stake s Hok o r Hro).
      case_bool_decide; unfold_ints; lia.
    - case_bool_decide; unfold_ints; lia. }
  destruct (contains (oracle_set s) o) eqn:Hin.
  - apply contains_spec in Hin. rewrite (total_stake_update s s' o t' Hok Hset Hin Hreg). lia.
  - assert (o ∉ oracle_set s) as Hni by (by rewrite <- contains_spec, Hin).
    assert (registration s o = None) as Hno.
    { destruct (registration s o) eqn:E; [|done]. destruct Hni. apply (ro_set s Hok). by rewrite E. }
    unfold total_stake in *. rewrite Hset, sum_list_with_app.
    rewrite (sum_list_with_ext _ (fun o => stake_in t' (registration s o))).
    + cbn. rewrite Hno in Hstk. cbn in *. lia.
    + intros a Ha. rewrite Hreg; [done|]. by intros ->.
Qed.

(** Staging and cancelling a slash. *)
Lemma backed_staging o mid s s' :
  registry_ok s' -> (forall k, is_slash_key o mid k = false -> inst s' k = inst s k) ->
  world s' = world s -> backed s -> backed s'.
Proof.
  intros Hok' Hk Hw [_ Hc]. split; [done|]. intros t.
  unfold total_stake, holdings, oracle_set, registration in *. rewrite Hw, Hk by done.
  erewrite sum_list_with_ext; [apply Hc|]. intros a _. cbn. by rewrite Hk.
Qed.

#[local] Hint Resolve keeps_backed_slash : keeps.

Lemma keeps_backed call : no_swap call -> keeps (called me) backed (oexec call).
Proof.
  destruct call; intros Hns; cbn [oexec];
    first [ apply keeps_backed_register | apply keeps_backed_finalize | done | idtac ].
  all: try solve [kwalk (backed_frame (fun _ => false))].
  - intros env s [] s' _ Hb Hr. eapply (backed_staging o mid); [..|exact Hb].
    + by eapply (keeps_slash_oracle (fun _ => True)); [done|apply Hb|].
    + by apply slash_oracle_spec in Hr as (_ & r & _ & _ & _ & _ & _ & Hk & _).
    + by apply slash_oracle_spec in Hr as (_ & r & _ & _ & _ & _ & _ & _ & _ & Hw).
  - intros env s [] s' _ Hb Hr. eapply (backed_staging o mid); [..|exact Hb].
    + by eapply (keeps_cancel_slash (fun _ => True)); [done|apply Hb|].
    + by apply cancel_slash_spec in Hr as (_ & _ & _ & _ & Hk & _).
    + by apply cancel_slash_spec in Hr as (_ & _ & _ & _ & _ & _ & Hw).
Qed.

(** C5: In every state reachable without a swap the oracle contract holds, in
    every token, at least the sum of the stakes registered in that token: the
    slashes it has paid out (staged ones, equivocations, minority votes) were
    covered by the stake they reduced, and what is left can be slashed or
    returned in full. *)
Theorem stakes_backed s t :
  oreachable me no_swap s -> total_stake s t <= token_balance (world s) t me.
Proof.
  intros Hr. cut (backed s); [by intros [_ Hc]; apply Hc|]. revert s Hr.
  apply oreachable_ind'; [|apply keeps_backed|].
  - intros w Hw. split; [apply registry_ok_init|apply Hw].
  - intros w s Hw [Hok Hc]. split; [by apply (registry_frame (fun _ => false) false s)|].
    intros t'. specialize (Hc t'). specialize (Hw t').
    change (total_stake s t' <= token_balance w t' me). unfold holdings in Hc. lia.
Qed.
End Backing.
