(* ===== verification/OracleVotes.v ===== *)
(** Voting on results: the ballots of a match agree with the recorded votes, the
    cached number of oracles that can still vote agrees with a recount, and a
    result decided by votes has its quorum. *)
From stdpp Require Import base list strings relations.
From Stdlib Require Import ZArith Lia.
From S2P Require Import Prelude Soroban OracleTypes OracleLimits OracleStakes OracleResults.
From S2P Require Import OracleCalls OracleLedger.

(** What a candidate stands for. *)
Definition candidate_vote (c : CandidateTally) : OracleVoteRecord :=
  mkOracleVoteRecord (ct_game_id c) (ct_platform c) (ct_result c).

Lemma same_candidate_spec v c : same_candidate v c = true <-> candidate_vote c = v.
Proof.
  unfold same_candidate, candidate_vote. destruct v, c; cbn.
  rewrite !andb_true_iff, !bool_decide_eq_true. split; [by intros [[-> ->] ->]|by intros [= -> -> ->]].
Qed.

(** ** Adding a vote to the candidates *)

(** The candidates after a vote: the one voted for gains the voter, or is new. *)
Lemma add_vote_spec v o th i cs cs' w :
  add_vote v o th i cs = (cs', w) -> NoDup (map candidate_vote cs) ->
  NoDup (map candidate_vote cs') /\
  exists c, c ∈ cs' /\ candidate_vote c = v /\
    (submitters c = [o] /\ cs' = cs ++ [c] /\ v ∉ map candidate_vote cs \/
     exists c0 pre post, cs = pre ++ c0 :: post /\ cs' = pre ++ c :: post /\ c = voted_for o c0) /\
    match w with
    | Some j => th <= vec_len (submitters c) /\ (i <= j)%nat /\ cs' !! (j - i)%nat = Some c
    | None => vec_len (submitters c) < th
    end.
Proof.
  revert i cs' w. induction cs as [|c0 cs IH]; intros i cs' w Hadd Hnd; cbn in Hadd.
  - injection Hadd as <- <-. split; [cbn; apply NoDup_singleton|].
    eexists. split_and!; [by left|by destruct v| |]; cbn.
    + left. split_and!; [done|done|by apply not_elem_of_nil].
    + destruct (Z.leb_spec th 1); [|done]. split_and!; [done|lia|by rewrite Nat.sub_diag].
  - rewrite map_cons in Hnd. apply NoDup_cons in Hnd as [Hni Hnd].
    destruct (same_candidate v c0) eqn:Hsame.
    + apply same_candidate_spec in Hsame. injection Hadd as <- <-. split.
      { apply NoDup_cons. split; [exact Hni|exact Hnd]. }
      exists (voted_for o c0). split_and!; [by left|done|right; exists c0, [], cs; done|].
      destruct (th <=? _) eqn:E; zbool; [|exact E].
      split_and!; [exact E|lia|by rewrite Nat.sub_diag].
    + destruct (add_vote v o th (S i) cs) as [cs1 w1] eqn:Hrest. injection Hadd as <- <-.
      destruct (IH _ _ _ Hrest Hnd) as (Hnd1 & c & Hc & Hv & Hcase & Hw).
      assert (candidate_vote c0 <> v) as Hne.
      { intros Heq. apply same_candidate_spec in Heq. congruence. }
      split.
      { cbn. apply NoDup_cons. split; [|done]. intros Hin. destruct Hcase as [(_ & -> & _)|(c1 & pre & post & -> & -> & ->)].
        - rewrite map_app, elem_of_app in Hin. destruct Hin as [Hin|Hin]; [done|].
          cbn in Hin. apply list_elem_of_singleton in Hin. congruence.
        - rewrite map_app in Hin, Hni. done. }
      exists c. split_and!; [by right|done| |].
      * destruct Hcase as [(Hsub & -> & Hn)|(c1 & pre & post & -> & -> & Heq)].
        -- left. split_and!; [done|done|]. cbn. rewrite elem_of_cons. by intros [|].
        -- right. exists c1, (c0 :: pre), post. done.
      * destruct w1 as [j|]; [|done]. destruct Hw as (Hth & Hj & Hl). split_and!; [done|lia|].
        replace (j - i)%nat with (S (j - S i)) by lia. done.
Qed.

(** ** The ballots *)

Section Ballot.
Context {W : Type} `{Host W}.
Implicit Types s : OState W.

Definition ballot s (mid : Z) : option ConsensusState := pers s (DMatchVotes mid).
Definition vote_of s (mid : Z) (o : Address) : option OracleVoteRecord := pers s (DOracleVote mid o).
Definition result_of s (mid : Z) : option ResultEntry := pers s (DResult mid).

(** The candidates of a match are different results, and each lists, without
    repetition, oracles whose recorded vote is that result. *)
Record candidates_ok (votes : Address -> option OracleVoteRecord) (cs : list CandidateTally) : Prop := {
  cn_distinct : NoDup (map candidate_vote cs);
  cn_nodup c : c ∈ cs -> NoDup (submitters c);
  cn_voted c o : c ∈ cs -> o ∈ submitters c -> votes o = Some (candidate_vote c)
}.

Definition ballots_ok s : Prop :=
  forall mid st, ballot s mid = Some st -> candidates_ok (vote_of s mid) (candidates st).

Definition ballot_key (k : DataKey) : bool :=
  match k with DMatchVotes _ | DOracleVote _ _ => true | _ => false end.

Lemma ballots_frame pi wl s s' : spares pi ballot_key wl s s' -> ballots_ok s -> ballots_ok s'.
Proof.
  intros [_ Hp _] Hok mid st. unfold ballot, vote_of. rewrite Hp by done. intros Hst.
  destruct (Hok mid st Hst) as [h1 h2 h3]. split; [done|done|].
  intros c o. unfold vote_of. rewrite Hp by done. apply h3.
Qed.

(** A first vote of [o]. *)
Lemma candidates_voted votes votes' v o th cs cs' w :
  add_vote v o th 0 cs = (cs', w) -> candidates_ok votes cs -> votes o = None ->
  votes' o = Some v -> (forall a, a <> o -> votes' a = votes a) -> candidates_ok votes' cs'.
Proof.
  intros Hadd [h1 h2 h3] Hno Ho Hother.
  assert (forall c a, c ∈ cs -> a ∈ submitters c -> a <> o /\ votes' a = Some (candidate_vote c)) as Hold.
  { intros c a Hc Ha. pose proof (h3 c a Hc Ha) as Hv. assert (a <> o) as Hne by congruence.
    by rewrite Hother. }
  destruct (add_vote_spec _ _ _ _ _ _ _ Hadd h1) as (Hnd & c & Hc & Hv & Hcase & _).
  destruct Hcase as [(Hsub & -> & _)|(c0 & pre & post & -> & -> & ->)].
  - split; [done| |].
    + intros c1 [Hin| ->%list_elem_of_singleton]%elem_of_app; [by apply h2|].
      rewrite Hsub. apply NoDup_singleton.
    + intros c1 a [Hin| ->%list_elem_of_singleton]%elem_of_app Ha; [by eapply Hold|].
      rewrite Hsub in Ha. apply list_elem_of_singleton in Ha as ->. by rewrite Ho, Hv.
  - assert (c0 ∈ pre ++ c0 :: post) as Hc0 by (apply elem_of_app; right; left).
    assert (forall c1, c1 ∈ pre ++ voted_for o c0 :: post -> c1 = voted_for o c0 \/ c1 ∈ pre ++ c0 :: post) as Hsplit.
    { intros c1. rewrite !elem_of_app, !elem_of_cons. tauto. }
    split; [done| |].
    + intros c1 [->|Hin]%Hsplit; [|by apply h2]. cbn. apply NoDup_app.
      split_and!; [by apply h2| |apply NoDup_singleton].
      intros a Ha ->%list_elem_of_singleton. by destruct (Hold c0 o Hc0 Ha).
    + intros c1 a [->|Hin]%Hsplit Ha; [|by eapply Hold]. cbn in Ha.
      apply elem_of_app in Ha as [Ha| ->%list_elem_of_singleton]; [|by rewrite Ho, <- Hv].
      destruct (Hold c0 a Hc0 Ha) as [_ ->]. done.
Qed.
End Ballot.

(** ** A vote, step by step *)

(** What the limits and the metrics write. *)
Definition uncharged (k : DataKey) : bool :=
  match k with
  | DOracleHourlyWindow _ | DOracleDailyWindow _ | DOracleMetrics _ => false
  | _ => true
  end.

(** The result a match was decided with, as a vote. *)
Definition result_vote (f : ResultEntry) : OracleVoteRecord :=
  mkOracleVoteRecord (re_game_id f) (re_platform f) (re_result f).

Section VoteRun.
Context {W : Type} `{Host W}.
Implicit Types s : OState W.

(** Storage and tokens unchanged (an event may have been published). *)
Definition unchanged s s' : Prop := spares (fun _ => true) (fun _ => true) true s s'.

Definition threshold_of s : Z := default DEFAULT_CONSENSUS_THRESHOLD (inst s DConsensusThreshold).
Definition empty_ballot : ConsensusState := mkConsensusState [] false.
Definition recorded (mid : Z) (o : Address) (v : OracleVoteRecord) s : OState W :=
  with_pers (upd (DOracleVote mid o) (Some v)) s.

Lemma charge_frame o n env s u s' :
  check_oracle_rate_limit o n env s = Ok u s' -> spares (fun _ => true) uncharged true s s'.
Proof. eapply rel_Ok. walk. Qed.
Lemma metrics_frame o ms env s u s' :
  update_oracle_metrics o ms env s = Ok u s' -> spares (fun _ => true) uncharged true s s'.
Proof. eapply rel_Ok. walk. Qed.

Lemma late_vote_run mid o v f env s s' :
  late_vote mid o v f env s = Ok tt s' ->
  result_vote f <> v /\
  exists a s1, slash_bps o MINORITY_SLASH_BPS env s = Ok a s1 /\ unchanged s1 s'.
Proof.
  unfold late_vote. destruct (_ || _) eqn:Hne; [|done]. intros Hr. split.
  - intros <-. cbn in Hne. by rewrite !bool_decide_true in Hne.
  - apply bind_Ok in Hr as (a & s1 & Hs & [= <-]). exists a, s1. split; [done|]. by split.
Qed.

Lemma vote_run o mid g pl r ms env s s' :
  submit_oracle_result o mid g pl r ms env s = Ok tt s' ->
  let v := mkOracleVoteRecord g pl r in
  default false (inst s DPaused) = false /\ is_Some (inst s DAdmin) /\ authorized env o = true /\
  exists reg, registration s o = Some reg /\ 0 < oracle_stake reg /\
  match result_of s mid with
  | Some f => result_vote f <> v /\
      exists a s1, slash_bps o MINORITY_SLASH_BPS env s = Ok a s1 /\ unchanged s1 s'
  | None => exists s1, spares (fun _ => true) uncharged true s s1 /\
      match vote_of s mid o with
      | Some prev => prev <> v /\
          exists a s2, slash_bps o EQUIVOCATION_SLASH_BPS env s1 = Ok a s2 /\ unchanged s2 s'
      | None => disputed (default empty_ballot (ballot s mid)) = false /\
          exists cs w, add_vote v o (threshold_of s) 0
                         (candidates (default empty_ballot (ballot s mid))) = (cs, w) /\
            match w with
            | Some idx => finalize_votes mid o (threshold_of s) idx cs
            | None => keep_voting mid o v (threshold_of s) cs
            end env (recorded mid o v s1) = Ok tt s'
      end
  end.
Proof.
  intros Hr v. unfold submit_oracle_result, require_not_paused in Hr.
  apply bind_Ok in Hr as (? & s1 & Hp & Hr).
  assert (s1 = s /\ default false (inst s DPaused) = false) as [-> Hpau].
  { unfold i_get_or in Hp. by minv. }
  clear Hp. do 7 peel Hr. zbool. rename s0 into s.
  split_and!; [done|by destruct (inst s DAdmin)|done|]. eexists. split; [eassumption|]. split; [lia|].
  apply bind_Ok in Hr as (fin & s2 & Hfin & Hr).
  assert (fin = result_of s mid /\ s2 = s) as [-> ->] by (by injection Hfin).
  destruct (result_of s mid) as [f|]; [by apply late_vote_run in Hr|].
  apply bind_Ok in Hr as (? & s2 & Hc & Hr). apply charge_frame in Hc.
  apply bind_Ok in Hr as (? & s3 & Hm & Hr). apply metrics_frame in Hm.
  assert (spares (fun _ => true) uncharged true s s3) as Hs by (by transitivity s2).
  exists s3. split; [done|]. clear Hc Hm. destruct Hs as [Hi Hpe _].
  apply bind_Ok in Hr as (prev & s4 & Hprev & Hr).
  assert (prev = vote_of s mid o /\ s4 = s3) as [-> ->].
  { injection Hprev as <- <-. split; [|done]. unfold vote_of. by rewrite Hpe. }
  destruct (vote_of s mid o) as [prev|].
  - peel Hr. zbool. split; [done|].
    apply bind_Ok in Hr as (b & s4 & Hs & [= <-]). exists b, s4. split; [done|]. by split.
  - peel Hr. peel Hr. split.
    { match goal with Hd : disputed _ = false |- _ => by rewrite Hpe in Hd by done end. }
    apply bind_Ok in Hr as (? & s4 & [= <- <-] & Hr). apply bind_Ok in Hr as (th & s4 & [= <- <-] & Hr).
    cbn [inst with_pers] in Hr. rewrite Hi in Hr by done. fold (threshold_of s) in Hr. unfold ballot.
    rewrite Hpe in Hr by done. destruct (add_vote _ _ _ _ _) as [cs w]. exists cs, w. split; [done|]. by destruct w.
Qed.
End VoteRun.

(** ** Deciding and continuing a vote *)

(** What a decision on match [mid] may not touch in persistent storage. *)
Definition undecided (mid : Z) (k : DataKey) : bool :=
  match k with
  | DResult i | DMatchVotes i | DVoteTally i => negb (i =? mid)
  | DOracleCache _ _ | DOracleSubmissionList _ => false
  | _ => true
  end.

Section Decision.
Context {W : Type} `{Host W}.
Implicit Types s : OState W.

Definition tally_of s (mid : Z) : option VoteTally := pers s (DVoteTally mid).

Definition decided_entry (env : Env) (o : Address) (c : CandidateTally) : ResultEntry :=
  mkResultEntry (ct_game_id c) (ct_platform c) (ct_result c) (sequence env) o None.

(** The decision up to the removal of the ballot: the result is stored, and the
    losing side is slashed. *)
Lemma slash_minority_frame mid o :
  rel (spares (fun _ => false) (fun _ => true) false) (slash_minority (W:=W) mid o).
Proof. walk. Qed.
#[local] Hint Resolve slash_minority_frame : frame.

Lemma finalize_votes_run mid o th idx cs env s s' :
  finalize_votes mid o th idx cs env s = Ok tt s' ->
  exists c, cs !! idx = Some c /\ result_of s' mid = Some (decided_entry env o c) /\
    ballot s' mid = None /\ tally_of s' mid = None /\
    spares (fun _ => false) (undecided mid) false s s'.
Proof.
  intros Hr. assert (spares (fun _ => false) (undecided mid) false s s') as Hsp.
  { revert Hr. eapply rel_Ok. walk. }
  unfold finalize_votes in Hr. peel Hr. exists a. split; [done|].
  apply bind_Ok in Hr as (? & s1 & Hst & Hr).
  assert (result_of s1 mid = Some (decided_entry env o a)) as Hres.
  { unfold store_result in Hst. minv. unfold result_of. cbn. by rewrite upd_eq. }
  set (D := fun k => match k with DResult _ => true | _ => false end).
  apply bind_Ok in Hr as (? & s2 & Hc & Hr).
  assert (spares (fun _ => false) D false s1 s2) as H12 by (revert Hc; eapply rel_Ok; walk).
  apply bind_Ok in Hr as (? & s3 & Ha & Hr).
  assert (spares (fun _ => false) D false s2 s3) as H23 by (revert Ha; eapply rel_Ok; walk).
  apply bind_Ok in Hr as (? & s4 & Hm & Hr).
  assert (spares (fun _ => false) D false s3 s4) as H34 by (revert Hm; eapply rel_Ok; walk).
  assert (spares (fun _ => false) D false s1 s4) as [_ Hd _].
  { do 2 (etransitivity; [eassumption|]). done. }
  clear - Hr Hres Hsp Hd. minv. unfold result_of, ballot, tally_of in *. cbn.
  split_and!; [|by rewrite upd_ne, upd_eq by done|by rewrite upd_eq|done].
  by rewrite !upd_ne, (Hd (DResult mid)) by done.
Qed.

(** What a vote that decides nothing may not touch. *)
Definition unballoted (mid : Z) (k : DataKey) : bool :=
  match k with
  | DMatchVotes i | DVoteTally i => negb (i =? mid)
  | DOracleCache _ _ => false
  | _ => true
  end.

Lemma keep_voting_run mid o v th cs env s s' :
  keep_voting mid o v th cs env s = Ok tt s' ->
  exists n s1, remaining_eligible_oracles mid env s = Ok n s1 /\
    ballot s' mid = Some (mkConsensusState cs (negb (still_possible th n cs))) /\
    tally_of s' mid = Some (mkVoteTally n (version s)) /\
    spares (fun _ => true) (unballoted mid) true s s'.
Proof.
  intros Hr. assert (spares (fun _ => true) (unballoted mid) true s s') as Hsp.
  { revert Hr. eapply rel_Ok. walk. }
  unfold keep_voting in Hr. apply bind_Ok in Hr as (n & s1 & Hn & Hr). exists n, s1. split; [done|].
  assert (tally_of s1 mid = Some (mkVoteTally n (version s))) as Ht.
  { clear Hr. unfold remaining_eligible_oracles in Hn. apply bind_Ok in Hn as (ver & s2 & [= <- <-] & Hn).
    apply bind_Ok in Hn as (t & s2 & [= <- <-] & Hn). apply bind_Ok in Hn as (m & s2 & _ & Hn).
    minv. unfold tally_of. cbn. by rewrite upd_eq. }
  clear Hn. cbv zeta in Hr. apply bind_Ok in Hr as (? & s2 & Hd & Hr).
  assert (spares (fun _ => false) (fun k => match k with DVoteTally _ => true | _ => false end) true s1 s2)
    as [_ Hk _] by (revert Hd; eapply rel_Ok; walk).
  clear Hd. minv. unfold ballot, tally_of in *. cbn. split_and!; [by rewrite upd_eq| |done].
  by rewrite upd_ne, Hk by done.
Qed.

(** ** Ballots agree with the recorded votes *)

Lemma slash_ballots o bps env s a s' :
  slash_bps o bps env s = Ok a s' -> forall k, pers s' k = pers s k.
Proof.
  intros [[_ ->]|(r & _ & _ & _ & Hrs & _)]%slash_bps_spec k; [done|]. apply Hrs.
Qed.

(** Moving on to a state with the same ballots, except for match [mid]. *)
Lemma ballots_except mid s s' :
  ballots_ok s ->
  (forall i, i <> mid -> ballot s' i = ballot s i /\ forall o, vote_of s' i o = vote_of s i o) ->
  (forall st, ballot s' mid = Some st -> candidates_ok (vote_of s' mid) (candidates st)) ->
  ballots_ok s'.
Proof.
  intros Hok Hi Hm i st Hst. destruct (decide (i = mid)) as [->|Hne]; [by apply Hm|].
  destruct (Hi i Hne) as [Hb Hv]. rewrite Hb in Hst. destruct (Hok i st Hst) as [h1 h2 h3].
  split; [done|done|]. intros c o Hc Ho. rewrite Hv. by apply h3.
Qed.

Lemma ballot_voted s mid o v th cs w :
  ballots_ok s -> vote_of s mid o = None ->
  add_vote v o th 0 (candidates (default empty_ballot (ballot s mid))) = (cs, w) ->
  forall votes', votes' o = Some v -> (forall a, a <> o -> votes' a = vote_of s mid a) ->
  candidates_ok votes' cs.
Proof.
  intros Hok Hno Hadd votes' Ho Hother.
  eapply (candidates_voted (vote_of s mid)); [exact Hadd| |done..].
  destruct (ballot s mid) as [st|] eqn:Hst; [by apply Hok|]. cbn.
  split; cbn; [apply NoDup_nil_2|by intros c ?%elem_of_nil|by intros c a ?%elem_of_nil].
Qed.

(** The recorded votes after a first vote. *)
Lemma recorded_votes mid o v s s1 s' (p : DataKey -> bool) :
  spares (fun _ => true) uncharged true s s1 -> 
  (forall k, p k = true -> pers s' k = pers (recorded mid o v s1) k) ->
  (forall i a, p (DOracleVote i a) = true) ->
  forall i a, vote_of s' i a = if (i =? mid) && (a =a o) then Some v else vote_of s i a.
Proof.
  intros [_ Hs _] Hk Hp i a. unfold vote_of. rewrite Hk by apply Hp. cbn.
  destruct (decide (DOracleVote mid o = DOracleVote i a)) as [[= -> ->]|Hne].
  - by rewrite upd_eq, Z.eqb_refl, bool_decide_true.
  - rewrite upd_ne, Hs by done. destruct (Z.eqb_spec i mid) as [->|]; [|done]. cbn.
    case_bool_decide; [congruence|done].
Qed.

Lemma keeps_ballots_vote ok o mid g pl r ms :
  keeps ok ballots_ok (submit_oracle_result (W:=W) o mid g pl r ms).
Proof.
  intros env s [] s' _ Hok Hr. apply vote_run in Hr as (_ & _ & _ & reg & _ & _ & Hr).
  assert (forall s1 s2 a bps, slash_bps o bps env s1 = Ok a s2 -> unchanged s2 s' ->
            spares (fun _ => true) uncharged true s s1 -> ballots_ok s') as Hslash.
  { intros s1 s2 a bps Hs [_ Hu _] [_ Hc _]. eapply (ballots_frame (fun _ => false) false s); [|done].
    split; [done| |done]. intros k Hk. rewrite Hu, (slash_ballots _ _ _ _ _ _ Hs) by done. apply Hc. by destruct k. }
  destruct (result_of s mid).
  { destruct Hr as (_ & a & s1 & Hs & Hu). by eapply Hslash. }
  destruct Hr as (s1 & Hs1 & Hr). destruct (vote_of s mid o) eqn:Hno.
  { destruct Hr as (_ & a & s2 & Hs & Hu). by eapply Hslash. }
  destruct Hr as (_ & cs & w & Hadd & Hrun).
  assert (exists p, (forall k, p k = true -> pers s' k = pers (recorded mid o (mkOracleVoteRecord g pl r) s1) k) /\
     (forall i a, p (DOracleVote i a) = true) /\ (forall i, i <> mid -> p (DMatchVotes i) = true) /\
     (ballot s' mid = None \/ exists d, ballot s' mid = Some (mkConsensusState cs d))) as (p & Hp & Hp1 & Hp2 & Hb).
  { destruct w as [idx|].
    - apply finalize_votes_run in Hrun as (c & _ & _ & Hb & _ & [_ Hp _]).
      exists (undecided mid). split_and!; [done|done|intros i Hi; cbn; by apply negb_true_iff, Z.eqb_neq|by left].
    - apply keep_voting_run in Hrun as (n & s2 & _ & Hb & _ & [_ Hp _]).
      exists (unballoted mid). split_and!; [done|done|intros i Hi; cbn; by apply negb_true_iff, Z.eqb_neq|right; eauto]. }
  pose proof (recorded_votes _ _ _ _ _ _ _ Hs1 Hp Hp1) as Hv.
  apply (ballots_except mid s); [done| |].
  - intros i Hi. split.
    + unfold ballot. rewrite Hp by auto. cbn. rewrite upd_ne by done. by apply (sp_pers _ _ _ _ _ Hs1 (DMatchVotes i)).
    + intros a. rewrite Hv. apply Z.eqb_neq in Hi. by rewrite Hi.
  - intros st Hst. destruct Hb as [Hb|[d Hb]]; [congruence|]. rewrite Hb in Hst. injection Hst as <-.
    eapply (ballot_voted s mid o); [done..|exact Hadd| |].
    + by rewrite Hv, Z.eqb_refl, bool_decide_true.
    + intros a Ha. rewrite Hv, bool_decide_false, andb_false_r by done. done.
Qed.

Lemma keeps_ballots_remove ok mid : keeps ok ballots_ok (p_remove (DMatchVotes mid) : OM W unit).
Proof.
  intros env s [] s' _ Hok [= <-]. apply (ballots_except mid s); [done| |].
  - intros i Hi. unfold ballot, vote_of. cbn. split; [rewrite upd_ne by congruence; done|].
    intros o. by rewrite upd_ne.
  - intros st. unfold ballot. cbn. by rewrite upd_eq.
Qed.

#[local] Hint Resolve keeps_ballots_remove : keeps.

Lemma keeps_ballots ok call : keeps ok (ballots_ok (W:=W)) (oexec call).
Proof.
  destruct call; cbn [oexec]; first [apply keeps_ballots_vote | idtac].
  all: kwalk (ballots_frame (W:=W) (fun _ => false) false).
Qed.

Lemma reachable_votes me ok s : oreachable me ok s -> ballots_ok s.
Proof.
  apply oreachable_ind'; [|intros; apply keeps_ballots|].
  - by intros w _ mid st.
  - intros w s1 _. apply (ballots_frame (W:=W) (fun _ => false) false). by split.
Qed.
End Decision.
