(* ===== verification/OracleTally.v ===== *)
(** The cached number of oracles that can still vote on a match.

    [remaining_eligible_oracles] keeps, per match, the number it last returned and
    the eligibility version it was counted at; at the same version it subtracts
    one instead of counting again.  Every change of an oracle's eligibility bumps
    the version, so that in every reachable state the cache of the current version
    is what a recount would give. *)
From stdpp Require Import base list strings relations.
From Stdlib Require Import ZArith Lia.
From S2P Require Import Prelude Soroban OracleTypes OracleLimits OracleStakes OracleResults.
From S2P Require Import OracleCalls OracleLedger OracleVotes.

(** Dropping one element from a selection. *)
Lemma filter_drop_one {A} (p q : A -> bool) l x :
  NoDup l -> x ∈ l -> p x = true -> q x = false -> (forall y, y <> x -> q y = p y) ->
  vec_len (List.filter q l) = vec_len (List.filter p l) - 1.
Proof.
  unfold vec_len. intros Hnd Hx Hp Hq Hother.
  induction Hnd as [|y l Hy Hnd IH]; [by apply elem_of_nil in Hx|]. cbn.
  apply elem_of_cons in Hx as [->|Hx].
  - rewrite Hp, Hq. cbn. assert (List.filter q l = List.filter p l) as ->; [|lia].
    apply List.filter_ext_in. intros z Hz. apply Hother. intros ->. by apply list_elem_of_In in Hz.
  - rewrite Hother by (by intros ->). specialize (IH Hx). destruct (p y); cbn; lia.
Qed.

Section Tally.
Context {W : Type} `{Host W}.
Implicit Types s : OState W.

(** The reference: the count over the registry. *)
Definition recount s (mid : Z) : Z :=
  vec_len (List.filter (fun a => negb (has_voted s mid a) && eligible s a) (oracle_set s)).

Lemma count_remaining_recount mid env s :
  count_remaining_eligible_oracles mid env s = Ok (recount s mid) s.
Proof. done. Qed.

Lemma recount_ext s s' mid :
  oracle_set s' = oracle_set s -> (forall o, eligible s' o = eligible s o) ->
  (forall o, vote_of s' mid o = vote_of s mid o) -> recount s' mid = recount s mid.
Proof.
  intros Ho He Hv. unfold recount. rewrite Ho. f_equal. apply List.filter_ext. intros a.
  rewrite He. unfold has_voted. fold (vote_of s' mid a). fold (vote_of s mid a). by rewrite Hv.
Qed.

Lemma recount_range s mid : 0 <= recount s mid <= vec_len (oracle_set s).
Proof.
  unfold recount, vec_len. pose proof (List.filter_length_le
    (fun a => negb (has_voted s mid a) && eligible s a) (oracle_set s)). lia.
Qed.

(** A vote of an oracle that could vote. *)
Lemma recount_voted s s' mid o v :
  registry_ok s -> eligible s o = true -> vote_of s mid o = None ->
  oracle_set s' = oracle_set s -> (forall a, eligible s' a = eligible s a) ->
  (forall a, vote_of s' mid a = if a =a o then Some v else vote_of s mid a) ->
  recount s' mid = recount s mid - 1.
Proof.
  intros Hok He Hno Ho Hel Hv. unfold recount. rewrite Ho. eapply (filter_drop_one _ _ _ o).
  - apply Hok.
  - apply (ro_set s Hok). unfold eligible in He. unfold registration.
    by destruct (inst s (DOracleRegistration o)).
  - unfold has_voted. fold (vote_of s mid o). by rewrite Hno, He.
  - unfold has_voted. fold (vote_of s' mid o). by rewrite Hv, bool_decide_true.
  - intros a Ha. rewrite Hel. unfold has_voted. fold (vote_of s' mid a). fold (vote_of s mid a).
    by rewrite Hv, bool_decide_false.
Qed.

(** ** The invariant

    It may be suspended for one match ([skip]) while a vote on it is processed.
    The version saturates at [u32_max]; below it, it bounds the number of
    oracles. *)
Record tallies_ok (skip : option Z) s : Prop := {
  tl_registry : registry_ok s;
  tl_version : 0 <= version s <= u32_max;
  tl_length : version s < u32_max -> vec_len (oracle_set s) <= version s;
  tl_stale mid t : tally_of s mid = Some t -> eligibility_version t <= version s;
  tl_exact mid t : skip <> Some mid -> version s < u32_max -> tally_of s mid = Some t ->
    eligibility_version t = version s -> remaining_eligible t = recount s mid
}.

(** A step that leaves tallies and votes alone, and either bumps the version or
    changes no eligibility. *)
Lemma tallies_move skip s s' :
  registry_ok s' ->
  (forall mid, tally_of s' mid = tally_of s mid) ->
  (forall mid o, vote_of s' mid o = vote_of s mid o) ->
  (version s' = u32_sat_add (version s) 1 /\ vec_len (oracle_set s') <= vec_len (oracle_set s) + 1 \/
   version s' = version s /\ oracle_set s' = oracle_set s /\ forall o, eligible s' o = eligible s o) ->
  tallies_ok skip s -> tallies_ok skip s'.
Proof.
  intros Hok Ht Hv Hcase [_ g2 g3 g4 g5]. destruct Hcase as [[Hver Hlen]|(Hver & Hset & Hel)].
  - assert (version s' < u32_max -> version s' = version s + 1) as Hbump by (unfold_ints; lia).
    split; [done|unfold_ints; lia|unfold_ints; lia| |].
    + intros mid t. rewrite Ht. intros Htl%g4. unfold_ints. lia.
    + intros mid t Hs Hlt. rewrite Ht. intros Htl%g4. specialize (Hbump Hlt). lia.
  - split; [done|by rewrite Hver|by rewrite Hver, Hset| |].
    + intros mid t. rewrite Ht, Hver. apply g4.
    + intros mid t Hs. rewrite Hver, Ht, (recount_ext s s'); auto.
Qed.

Definition eligibility_key (k : DataKey) : bool :=
  match k with DOracleEligibilityVersion => true | _ => stake_key k end.
Definition tally_key (k : DataKey) : bool :=
  match k with DVoteTally _ | DOracleVote _ _ => true | _ => false end.

Lemma tallies_frame wl skip s s' :
  spares eligibility_key tally_key wl s s' -> tallies_ok skip s -> tallies_ok skip s'.
Proof.
  intros [Hi Hp _] Hok. assert (registry_ok s') as Hr.
  { eapply (registry_frame tally_key false); [|apply Hok]. split; [|done..].
    intros k Hk. apply Hi. by destruct k. }
  eapply tallies_move; [done|..|done].
  - intros mid. by apply (Hp (DVoteTally mid)).
  - intros mid o. by apply (Hp (DOracleVote mid o)).
  - right. unfold version, oracle_set, eligible. rewrite !Hi by done. split_and!; [done..|].
    intros o. by rewrite Hi.
Qed.

(** A registration that changes, with the version bumped if its eligibility does. *)
Lemma tallies_restaked x skip o r' b s s' :
  restaked x o r' b s s' -> registry_ok s' ->
  (forall a, x (DOracleRegistration a) = false) ->
  (if b then vec_len (oracle_set s') <= vec_len (oracle_set s) + 1
   else oracle_set s' = oracle_set s /\ (oracle_stake r' >? 0) = eligible s o) ->
  tallies_ok skip s -> tallies_ok skip s'.
Proof.
  intros Hrs Hok Hx Hb. destruct Hrs as [h1 h2 h3 h4] eqn:E. apply tallies_move; [done|..].
  - intros mid. apply (h4 (DVoteTally mid)).
  - intros mid a. apply (h4 (DOracleVote mid a)).
  - destruct b; [left; done|right]. destruct Hb as [Hset Hel]. split_and!; [done..|].
    intros a. destruct (decide (a = o)) as [->|Hne].
    + unfold eligible at 1. fold (registration s' o). by rewrite h1.
    + unfold eligible. fold (registration s' a). fold (registration s a).
      by rewrite (restaked_other _ _ _ _ _ _ a Hrs).
Qed.

Lemma keeps_tallies_slash ok skip o bps : keeps ok (tallies_ok skip) (slash_bps o bps).
Proof.
  intros env s a s' _ Hok Hr. pose proof (keeps_slash_bps ok) as Hk.
  pose proof (keeps_slash_bps (fun _ => True) o bps env s a s' Logic.I (tl_registry _ _ Hok) Hr) as Hreg'.
  destruct (slash_bps_spec _ _ _ _ _ _ Hr) as [[_ ->]|(r & Hreg & Ha & _ & Hrs & _)]; [done|].
  eapply tallies_restaked; [exact Hrs|done|done| |done].
  assert (oracle_set s' = oracle_set s) as Hset.
  { unfold oracle_set. by rewrite (rs_inst _ _ _ _ _ _ Hrs). }
  destruct (Z.eqb_spec (oracle_stake r - a) 0); [rewrite Hset; lia|]. split; [done|]. cbn.
  unfold eligible. fold (registration s o). rewrite Hreg. cbn.
  rewrite !Z.gtb_ltb. transitivity true; [|symmetry]; apply Z.ltb_lt; lia.
Qed.

Lemma keeps_tallies_finalize ok skip o mid : keeps ok (tallies_ok skip) (finalize_slash o mid).
Proof.
  intros env s [] s' _ Hok Hr.
  pose proof (keeps_finalize_slash (fun _ => True) o mid env s tt s' Logic.I (tl_registry _ _ Hok) Hr) as Hreg'.
  apply finalize_slash_spec in Hr as (admin & p & r & _ & Hp & Hreg & _ & Hrs & _).
  destruct (ro_staged s (tl_registry _ _ Hok) o mid p Hp) as (Hpos & _).
  pose proof (ro_stake s (tl_registry _ _ Hok) o r Hreg) as Hge.
  eapply tallies_restaked; [exact Hrs|done|done| |done].
  assert (oracle_set s' = oracle_set s) as Hset.
  { unfold oracle_set. by rewrite (rs_inst _ _ _ _ _ _ Hrs). }
  unfold eligible. fold (registration s o). rewrite Hreg, !Z.gtb_ltb. cbn. rewrite ?Z.gtb_ltb.
  set (x := Z.min (slash_amount p) (oracle_stake r)).
  destruct (Z.ltb_spec 0 (oracle_stake r)), (Z.eqb_spec (oracle_stake r - x) 0); cbn.
  all: try (rewrite Hset; lia). all: split; [done|].
  - apply Z.ltb_lt. lia.
  - apply Z.ltb_ge. lia.
Qed.

Lemma keeps_tallies_register ok skip o x t :
  keeps ok (tallies_ok skip) (register_oracle_with_stake o x t).
Proof.
  intros env s [] s' _ Hok Hr.
  pose proof (keeps_register (fun _ => True) o x t env s tt s' Logic.I (tl_registry _ _ Hok) Hr) as Hreg'.
  apply register_spec in Hr as (_ & Hx & _ & _ & Hrs & Hset).
  eapply tallies_restaked; [exact Hrs|done|done| |done].
  destruct (opt_test _ (registration s o)) eqn:Hel; cbn.
  - assert (o ∈ oracle_set s) as Hin.
    { apply (ro_set s (tl_registry _ _ Hok)). by destruct (registration s o). }
    apply contains_spec in Hin. rewrite Hset, Hin. split; [done|].
    unfold eligible. fold (registration s o). rewrite Hel. destruct (registration s o) as [r|]; [|done].
    cbn in *. rewrite !Z.gtb_ltb in *. apply Z.ltb_lt in Hel. apply Z.ltb_lt. unfold_ints. lia.
  - rewrite Hset. unfold vec_len. destruct (contains _ _); [lia|]. rewrite length_app. cbn. lia.
Qed.

(** Staging and cancelling leave everything here alone. *)
Lemma tallies_staging skip o mid s s' :
  registry_ok s' -> (forall k, is_slash_key o mid k = false -> inst s' k = inst s k) ->
  (forall k, pers s' k = pers s k) -> tallies_ok skip s -> tallies_ok skip s'.
Proof.
  intros Hok Hk Hp. apply tallies_move; [done|..].
  - intros i. apply (Hp (DVoteTally i)).
  - intros i a. apply (Hp (DOracleVote i a)).
  - right. unfold version, oracle_set, eligible. rewrite !Hk by done. split_and!; [done..|].
    intros a. by rewrite Hk.
Qed.

Lemma keeps_tallies_remove ok skip mid : keeps ok (tallies_ok skip) (p_remove (DVoteTally mid) : OM W unit).
Proof.
  intros env s [] s' _ [g1 g2 g3 g4 g5] [= <-].
  assert (forall i t, tally_of (with_pers (upd (DVoteTally mid) None) s) i = Some t -> tally_of s i = Some t) as Ht.
  { intros i t. unfold tally_of. cbn. destruct (decide (DVoteTally mid = DVoteTally i)) as [e|n].
    - injection e as <-. by rewrite upd_eq.
    - by rewrite upd_ne. }
  split; [by apply (registry_frame (fun _ => false) false s)|done|done| |].
  - intros i t Hi%Ht. by eapply g4.
  - intros i t Hs Hlt Hi%Ht Heq. by rewrite (g5 i t).
Qed.

(** ** A vote *)

Lemma recorded_vote_of mid o v s i a :
  vote_of (recorded mid o v s) i a = if (i =? mid) && (a =a o) then Some v else vote_of s i a.
Proof.
  apply (recorded_votes mid o v s s (recorded mid o v s) (fun _ => true)); [|done|done].
  split; [done| |done]. by intros k.
Qed.

Lemma recorded_recount mid o v s :
  registry_ok s -> eligible s o = true -> vote_of s mid o = None ->
  recount (recorded mid o v s) mid = recount s mid - 1.
Proof.
  intros Hok He Hno. eapply (recount_voted _ _ _ o v); try done.
  intros a. by rewrite recorded_vote_of, Z.eqb_refl.
Qed.

(** The cached count is the recount, and is stored. *)
Lemma remaining_exact mid o v env s :
  tallies_ok None s -> version s < u32_max -> eligible s o = true -> vote_of s mid o = None ->
  let s2 := recorded mid o v s in
  remaining_eligible_oracles mid env s2 =
    Ok (recount s2 mid)
       (with_pers (upd (DVoteTally mid) (Some (mkVoteTally (recount s2 mid) (version s2)))) s2).
Proof.
  intros [g1 g2 g3 g4 g5] Hlt He Hno s2.
  unfold remaining_eligible_oracles. erewrite bind_run by reflexivity. erewrite bind_run by reflexivity.
  change (pers s2 (DVoteTally mid)) with (tally_of s mid).
  change (default 0 (inst s2 DOracleEligibilityVersion)) with (version s).
  change (version s2) with (version s).
  erewrite (bind_run _ _ _ _ (recount s2 mid) s2); [done|].
  destruct (tally_of s mid) as [t|] eqn:Ht; [|apply count_remaining_recount].
  destruct (Z.eqb_spec (eligibility_version t) (version s)) as [Heq|]; [|apply count_remaining_recount].
  pose proof (recorded_recount mid o v s g1 He Hno) as Hrec. fold s2 in Hrec.
  pose proof (recount_range s mid). pose proof (recount_range s2 mid).
  rewrite Hrec, (g5 mid t) by done. unfold mret, M_ret. do 2 f_equal. unfold_ints. lia.
Qed.

Lemma tallies_recorded mid o v s : tallies_ok None s -> tallies_ok (Some mid) (recorded mid o v s).
Proof.
  intros [g1 g2 g3 g4 g5].
  split; [by apply (registry_frame (fun _ => false) false s)|done|done|exact g4|].
  intros i t Hi Hlt Ht Heq. assert (i <> mid) as Hne by congruence.
  rewrite (recount_ext s); [by apply g5|done|done|]. intros a. rewrite recorded_vote_of.
  apply Z.eqb_neq in Hne. by rewrite Hne.
Qed.

(** The suspended match is back in order. *)
Lemma tallies_resume mid s :
  tallies_ok (Some mid) s ->
  (forall t, version s < u32_max -> tally_of s mid = Some t -> eligibility_version t = version s ->
     remaining_eligible t = recount s mid) ->
  tallies_ok None s.
Proof.
  intros [g1 g2 g3 g4 g5] Hm. split; [done..|]. intros i t _. 
  destruct (decide (i = mid)) as [->|Hne]; [apply Hm|]. apply g5. congruence.
Qed.

#[local] Hint Resolve keeps_tallies_slash keeps_tallies_remove : keeps.

Lemma keeps_tallies_finalize_votes ok skip mid o th idx cs :
  keeps ok (tallies_ok skip) (finalize_votes mid o th idx cs).
Proof. kwalk (tallies_frame false skip). Qed.

Lemma keeps_tallies_vote ok o mid g pl r ms :
  keeps ok (tallies_ok None) (submit_oracle_result o mid g pl r ms).
Proof.
  intros env s [] s' _ Hok Hr. apply vote_run in Hr as (_ & _ & _ & reg & Hreg & Hpos & Hr).
  assert (forall s1, spares (fun _ => true) uncharged true s s1 -> tallies_ok None s1) as Hch.
  { intros s1 [Hi Hp _]. apply (tallies_frame false None s); [|done].
    split; [by intros; apply Hi| |done]. intros k Hk. apply Hp. by destruct k. }
  assert (forall s1 s2 a bps, slash_bps o bps env s1 = Ok a s2 -> unchanged s2 s' ->
            spares (fun _ => true) uncharged true s s1 -> tallies_ok None s') as Hslash.
  { intros s1 s2 a bps Hs [Hu1 Hu2 _] Hc. apply (tallies_frame false None s2); [by split; auto|].
    eapply (keeps_tallies_slash (fun _ => True)); [done| |exact Hs]. by apply Hch. }
  destruct (result_of s mid); [destruct Hr as (_ & a & s1 & Hs & Hu); by eapply Hslash|].
  destruct Hr as (s1 & Hs1 & Hr). destruct (vote_of s mid o) eqn:Hno.
  { destruct Hr as (_ & a & s2 & Hs & Hu). by eapply Hslash. }
  destruct Hr as (_ & cs & w & _ & Hrun). pose proof (Hch s1 Hs1) as Hok1.
  set (v := mkOracleVoteRecord g pl r) in *.
  pose proof (tallies_recorded mid o v s1 Hok1) as Hok2.
  destruct w as [idx|].
  - apply (tallies_resume mid).
    + eapply (keeps_tallies_finalize_votes (fun _ => True)); [done|exact Hok2|exact Hrun].
    + intros t _ Ht. apply finalize_votes_run in Hrun as (c & _ & _ & _ & Hn & _). congruence.
  - apply keep_voting_run in Hrun as (n & s2 & Hn & _ & Ht & Hsp).
    destruct Hsp as [Hi Hp _].
    assert (version s' = version s1) as Hver by (unfold version; by rewrite Hi).
    assert (oracle_set s' = oracle_set s1) as Hset by (unfold oracle_set; by rewrite Hi).
    assert (forall a, eligible s' a = eligible s1 a) as Hel by (intros a; unfold eligible; by rewrite Hi).
    assert (forall i a, vote_of s' i a = vote_of (recorded mid o v s1) i a) as Hvo.
    { intros i a. by apply (Hp (DOracleVote i a)). }
    assert (registry_ok s') as Hreg'.
    { apply (registry_frame (fun _ => false) false s1); [|apply Hok1]. split; [|done..]. by intros; apply Hi. }
    destruct Hok2 as [_ g2 g3 g4 g5]. split; [done|by rewrite Hver|by rewrite Hver, Hset| |].
    + intros i t Hti. rewrite Hver. destruct (decide (i = mid)) as [->|Hne].
      * rewrite Ht in Hti. by injection Hti as <-.
      * apply (g4 i). unfold tally_of in *. rewrite Hp in Hti; [done|]. cbn. by apply negb_true_iff, Z.eqb_neq.
    + intros i t _ Hlt Hti Heq. rewrite (recount_ext (recorded mid o v s1)) by done.
      rewrite Hver in Hlt, Heq. destruct (decide (i = mid)) as [->|Hne].
      * rewrite Ht in Hti. injection Hti as <-. cbn.
        assert (eligible s1 o = true) as He.
        { destruct Hs1 as [Hi1 _ _]. unfold eligible, registration in *. rewrite Hi1, Hreg by done. cbn.
          rewrite Z.gtb_ltb. by apply Z.ltb_lt. }
        assert (vote_of s1 mid o = None) as Hno1 by (rewrite <- Hno; by apply (sp_pers _ _ _ _ _ Hs1 (DOracleVote mid o))).
        rewrite (remaining_exact mid o v env s1 Hok1 Hlt He Hno1) in Hn. by injection Hn as <-.
      * apply g5; [congruence|done| |done]. unfold tally_of in *. rewrite Hp in Hti; [done|].
        cbn. by apply negb_true_iff, Z.eqb_neq.
Qed.

Lemma keeps_tallies ok call : keeps ok (tallies_ok None) (oexec call).
Proof.
  destruct call; cbn [oexec];
    first [ apply keeps_tallies_vote | apply keeps_tallies_register | apply keeps_tallies_finalize | idtac ].
  all: try solve [kwalk (tallies_frame false None)].
  - intros env s [] s' _ Hok Hr. eapply (tallies_staging None o mid s); [| | |done].
    + by eapply (keeps_slash_oracle (fun _ => True)); [done|apply Hok|].
    + by apply slash_oracle_spec in Hr as (_ & r & _ & _ & _ & _ & _ & Hk & _).
    + by apply slash_oracle_spec in Hr as (_ & r & _ & _ & _ & _ & _ & _ & Hp & _).
  - intros env s [] s' _ Hok Hr. eapply (tallies_staging None o mid s); [| | |done].
    + by eapply (keeps_cancel_slash (fun _ => True)); [done|apply Hok|].
    + by apply cancel_slash_spec in Hr as (_ & _ & _ & _ & Hk & _).
    + by apply cancel_slash_spec in Hr as (_ & _ & _ & _ & _ & Hp & _).
Qed.

Lemma reachable_tallies me ok s : oreachable me ok s -> tallies_ok None s.
Proof.
  apply oreachable_ind'; [|intros; apply keeps_tallies|].
  - intros w _. split; [apply registry_ok_init|done..].
  - intros w s1 _. apply (tallies_frame false). by split.
Qed.

Lemma still_possible_spec th n cs :
  th <= u32_max -> 0 <= n ->
  still_possible th n cs = true <-> exists c, c ∈ cs /\ th <= vec_len (submitters c) + n.
Proof.
  intros Hth Hn. unfold still_possible. rewrite existsb_exists.
  assert (forall c, (th <=? u32_sat_add (vec_len (submitters c)) n) = true <->
                    th <= vec_len (submitters c) + n) as Heq.
  { intros c. rewrite Z.leb_le. unfold vec_len. unfold_ints. lia. }
  split; intros (c & Hc & Hle); exists c; (split; [by apply list_elem_of_In|by apply Heq]).
Qed.

(** The cached count is exact: in every reachable state in which the
    eligibility version has not saturated, once an oracle that could vote has
    voted, [remaining_eligible_oracles] (which subtracts one from a cached
    number when it can) returns the number that counting over the whole registry
    returns, and caches it under the current version. *)
Theorem remaining_count_exact me ok s mid o v env :
  oreachable me ok s -> version s < u32_max -> eligible s o = true -> vote_of s mid o = None ->
  exists n s', remaining_eligible_oracles mid env (recorded mid o v s) = Ok n s' /\
    count_remaining_eligible_oracles mid env (recorded mid o v s) = Ok n (recorded mid o v s) /\
    tally_of s' mid = Some (mkVoteTally n (version s)).
Proof.
  intros Hr%reachable_tallies Hlt He Hno. eexists _, _.
  split; [by apply remaining_exact|]. split; [done|]. unfold tally_of. cbn. by rewrite upd_eq.
Qed.

End Tally.
