(* ===== verification/OracleOutcomes.v ===== *)
(** Results: how each entry point stores, keeps or deletes them, which of them a
    vote has to back, and what a decision costs the losing side. *)
From stdpp Require Import base list strings relations.
From Stdlib Require Import ZArith Lia.
From S2P Require Import Prelude Soroban OracleTypes OracleLimits OracleStakes OracleResults.
From S2P Require Import OracleCalls OracleLedger OracleVotes.

(** Persistent entries other than the result of [mid]. *)
Definition is_result_but (mid : Z) (k : DataKey) : bool :=
  match k with DResult i => negb (i =? mid) | _ => false end.
Definition is_result (k : DataKey) : bool := match k with DResult _ => true | _ => false end.

Section Outcomes.
Context {W : Type} `{Host W}.
Implicit Types s : OState W.

Definition running s : Prop := default false (inst s DPaused) = false.
(** A registered admin must have stake left to submit. *)
Definition admin_in_good_standing s (admin : Address) : Prop :=
  forall r, registration s admin = Some r -> 0 < oracle_stake r.

Lemma require_not_paused_run env s u s' :
  require_not_paused env s = Ok u s' -> s' = s /\ running s.
Proof. unfold require_not_paused, running. intros Hr. by minv. Qed.

Lemma require_admin_stake_run admin env s u s' :
  require_admin_stake admin env s = Ok u s' -> s' = s /\ admin_in_good_standing s admin.
Proof.
  unfold require_admin_stake. intros Hr. minv. split; [done|]. intros r Hr. unfold registration in Hr.
  match goal with Ht : opt_test _ _ = false |- _ => rewrite Hr in Ht; cbn in Ht end. zbool. lia.
Qed.

(** What [check_oracle_rate_limit] and [update_oracle_metrics] leave of the results. *)
Lemma result_spared pi wl p s s' mid :
  spares pi p wl s s' -> p (DResult mid) = true -> result_of s' mid = result_of s mid.
Proof. intros [_ Hp _]. apply (Hp (DResult mid)). Qed.

Lemma store_result_run mid g pl r o conf env s u s' :
  store_result mid g pl r o conf env s = Ok u s' ->
  result_of s' mid = Some (mkResultEntry g pl r (sequence env) o conf).
Proof. unfold store_result. intros Hr. minv. unfold result_of. cbn. by rewrite upd_eq. Qed.

(** ** Results from the admin *)

Lemma submit_run mid g pl r ms conf env s s' :
  submit_result mid g pl r ms conf env s = Ok tt s' ->
  running s /\ str_len g <> 0 /\ result_of s mid = None /\
  (forall i, i <> mid -> result_of s' i = result_of s i) /\
  exists admin, inst s DAdmin = Some admin /\ authorized env admin = true /\
    admin_in_good_standing s admin /\
    result_of s' mid = Some (mkResultEntry g pl r (sequence env) admin conf).
Proof.
  intros Hr. assert (spares (fun _ => false) (is_result_but mid) false s s') as Hsp.
  { revert Hr. eapply rel_Ok. walk. }
  unfold submit_result in Hr.
  apply bind_Ok in Hr as (? & s1 & Hp & Hr). apply require_not_paused_run in Hp as [-> Hp].
  apply bind_Ok in Hr as (admin & s1 & Ha & Hr). apply require_admin_run in Ha as (-> & Ha & Hau).
  apply bind_Ok in Hr as (? & s1 & Hst & Hr). apply require_admin_stake_run in Hst as [-> Hst].
  apply bind_Ok in Hr as (? & s1 & Hc & Hr). apply charge_frame in Hc.
  apply bind_Ok in Hr as (? & s2 & Hm & Hr). apply metrics_frame in Hm.
  do 3 peel Hr. zbool.
  assert (result_of s mid = None) as Hno.
  { rewrite <- (result_spared _ _ _ _ _ mid Hc), <- (result_spared _ _ _ _ _ mid Hm) by done.
    unfold result_of. by destruct (pers _ (DResult mid)). }
  split_and!; [done|done|done| |].
  - intros i Hi. apply (result_spared _ _ _ _ _ i Hsp). cbn. by apply negb_true_iff, Z.eqb_neq.
  - exists admin. split_and!; [done..|]. clear - Hr.
    apply bind_Ok in Hr as (? & s9 & Hs & Hr).
    apply store_result_run in Hs. rewrite <- Hs.
    eapply (result_spared (fun _ => false) false is_result); [|done]. revert Hr. eapply rel_Ok. walk.
Qed.

(** The validation loop of a batch. *)
Lemma check_batch_run es env s u s' :
  check_batch es env s = Ok u s' ->
  s' = s /\ NoDup (map be_match_id es) /\
  forall e, e ∈ es -> str_len (be_game_id e) <> 0 /\ result_of s (be_match_id e) = None.
Proof.
  revert s u s'. induction es as [|e es IH]; intros s u s' Hr; cbn in Hr.
  - apply ret_Ok in Hr as [_ <-]. split_and!; [done|apply NoDup_nil_2|by intros e ?%elem_of_nil].
  - do 4 peel Hr. zbool. apply IH in Hr as (-> & Hnd & Hall). split_and!; [done| |].
    + rewrite map_cons. apply NoDup_cons. split; [|done]. intros Hin%list_elem_of_In.
      apply in_map_iff in Hin as (e' & He & Hin).
      match goal with Hx : existsb _ _ = false |- _ => apply not_true_iff_false in Hx; apply Hx end.
      apply existsb_exists. exists e'. split; [done|]. by apply Z.eqb_eq.
    + intros e' [->|Hin]%elem_of_cons; [|by apply Hall]. split; [done|]. unfold result_of.
      by destruct (pers _ (DResult (be_match_id e))).
Qed.

Definition batch_entry (env : Env) (admin : Address) (e : BatchResultEntry) : ResultEntry :=
  mkResultEntry (be_game_id e) (be_platform e) (be_result e) (sequence env) admin (be_confidence e).
Definition batch_submission (env : Env) (e : BatchResultEntry) : OracleSubmissionEntry :=
  mkOracleSubmissionEntry (be_match_id e) (be_game_id e) (be_platform e) (be_result e) (sequence env).
Definition submissions s (o : Address) : list OracleSubmissionEntry :=
  default [] (pers s (DOracleSubmissionList o)).

Lemma commit_entry_run admin e env s u s' :
  commit_entry admin e env s = Ok u s' ->
  result_of s' (be_match_id e) = Some (batch_entry env admin e) /\
  (forall i, i <> be_match_id e -> result_of s' i = result_of s i) /\
  submissions s' admin = submissions s admin ++ [batch_submission env e].
Proof.
  unfold commit_entry, store_result, cache_result, append_oracle_submission. intros Hr. minv.
  unfold result_of, submissions. cbn. split_and!.
  - rewrite !upd_ne by done. by rewrite upd_eq.
  - intros i Hi. by rewrite !upd_ne by congruence.
  - rewrite upd_eq. cbn. by rewrite !upd_ne.
Qed.

Lemma commit_batch_run admin es env s u s' :
  for_each (commit_entry admin) es env s = Ok u s' -> NoDup (map be_match_id es) ->
  (forall e, e ∈ es -> result_of s' (be_match_id e) = Some (batch_entry env admin e)) /\
  (forall i, i ∉ map be_match_id es -> result_of s' i = result_of s i) /\
  submissions s' admin = submissions s admin ++ map (batch_submission env) es.
Proof.
  revert s u s'. induction es as [|e es IH]; intros s u s' Hr Hnd; cbn in Hr.
  - apply ret_Ok in Hr as [_ <-]. split_and!; [by intros e ?%elem_of_nil|done|by rewrite app_nil_r].
  - apply bind_Ok in Hr as (? & s1 & He & Hr). apply commit_entry_run in He as (H1 & H2 & H3).
    rewrite map_cons in Hnd. apply NoDup_cons in Hnd as [Hni Hnd].
    apply IH in Hr as (G1 & G2 & G3); [|done]. split_and!.
    + intros e' [->|Hin]%elem_of_cons; [by rewrite G2|by apply G1].
    + intros i Hi. rewrite map_cons, elem_of_cons in Hi. rewrite G2, H2; [done|tauto|tauto].
    + rewrite G3, H3, map_cons, <- app_assoc. done.
Qed.

Lemma batch_run es env s s' :
  submit_batch_results es env s = Ok tt s' ->
  running s /\ vec_len es <= MAX_BATCH_SIZE /\ NoDup (map be_match_id es) /\
  (forall e, e ∈ es -> str_len (be_game_id e) <> 0 /\ result_of s (be_match_id e) = None) /\
  (forall i, i ∉ map be_match_id es -> result_of s' i = result_of s i) /\
  exists admin, inst s DAdmin = Some admin /\ authorized env admin = true /\
    admin_in_good_standing s admin /\
    (forall e, e ∈ es -> result_of s' (be_match_id e) = Some (batch_entry env admin e)) /\
    submissions s' admin = submissions s admin ++ map (batch_submission env) es.
Proof.
  unfold submit_batch_results. intros Hr.
  apply bind_Ok in Hr as (? & s1 & Hp & Hr). apply require_not_paused_run in Hp as [-> Hp].
  apply bind_Ok in Hr as (admin & s1 & Ha & Hr). apply require_admin_run in Ha as (-> & Ha & Hau).
  apply bind_Ok in Hr as (? & s1 & Hst & Hr). apply require_admin_stake_run in Hst as [-> Hst].
  peel Hr. zbool.
  apply bind_Ok in Hr as (? & s1 & Hc & Hr). apply charge_frame in Hc.
  apply bind_Ok in Hr as (? & s2 & Hk & Hr). apply check_batch_run in Hk as (-> & Hnd & Hall).
  apply bind_Ok in Hr as (? & s3 & Hcm & [= <-]).
  apply commit_batch_run in Hcm as (H1 & H2 & H3); [|done].
  assert (forall i, result_of s1 i = result_of s0 i) as Hres by (intros i; by eapply result_spared).
  assert (submissions s1 admin = submissions s0 admin) as Hsub.
  { unfold submissions. by rewrite (sp_pers _ _ _ _ _ Hc). }
  split_and!; [done|lia|done| | |].
  - intros e He. destruct (Hall e He) as [? Hn]. by rewrite Hres in Hn.
  - intros i Hi. rewrite <- Hres. by apply H2.
  - exists admin. split_and!; [done..|]. rewrite <- Hsub. exact H3.
Qed.

Lemma resolve_run mid g pl r env s s' :
  resolve_disputed_match mid g pl r env s = Ok tt s' ->
  signed_by_admin env s /\ result_of s mid = None /\
  (exists st, ballot s mid = Some st /\ disputed st = true) /\
  (forall i, i <> mid -> result_of s' i = result_of s i) /\ is_Some (result_of s' mid).
Proof.
  intros Hr. assert (spares (fun _ => false) (is_result_but mid) false s s') as Hsp.
  { revert Hr. eapply rel_Ok. walk. }
  unfold resolve_disputed_match in Hr.
  apply bind_Ok in Hr as (admin & s1 & Ha & Hr). apply require_admin_run in Ha as (-> & Ha & Hau).
  do 5 peel Hr. zbool. split_and!; [by exists admin| | | |].
  - unfold result_of. by destruct (pers _ (DResult mid)).
  - eauto.
  - intros i Hi. apply (result_spared _ _ _ _ _ i Hsp). cbn. by apply negb_true_iff, Z.eqb_neq.
  - clear Hsp. apply bind_Ok in Hr as (? & s1 & _ & Hr). apply bind_Ok in Hr as (? & s2 & Hs & Hr).
    apply store_result_run in Hs.
    assert (spares (fun _ => false) is_result false s2 s') as Hsp.
    { revert Hr. eapply rel_Ok. walk. }
    rewrite (result_spared _ _ _ _ _ mid Hsp), Hs by done. eauto.
Qed.

Lemma delete_run mid env s s' :
  delete_result mid env s = Ok tt s' ->
  running s /\ signed_by_admin env s /\ is_Some (result_of s mid) /\ result_of s' mid = None /\
  (forall i, i <> mid -> result_of s' i = result_of s i) /\
  (forall i o, vote_of s' i o = vote_of s i o).
Proof.
  unfold delete_result. intros Hr.
  apply bind_Ok in Hr as (? & s1 & Hp & Hr). apply require_not_paused_run in Hp as [-> Hp].
  apply bind_Ok in Hr as (admin & s1 & Ha & Hr). apply require_admin_run in Ha as (-> & Ha & Hau).
  minv. unfold result_of, vote_of. cbn. split_and!; [done|by exists admin|by eauto|by rewrite upd_eq|..].
  - intros i Hi. by rewrite !upd_ne by congruence.
  - intros i o. by rewrite !upd_ne.
Qed.

(** The calls that can touch a result. *)
Definition writes_results (call : OCall) : bool :=
  match call with
  | OSubmit _ _ _ _ _ _ | OSubmitBatch _ | OVote _ _ _ _ _ _ | OResolve _ _ _ _ | ODelete _ => true
  | _ => false
  end.

Lemma results_frame call :
  writes_results call = false -> rel (spares (fun _ => false) is_result false) (oexec (W:=W) call).
Proof. destruct call; intros Hw; try discriminate Hw; cbn [oexec]; walk. Qed.

(** A vote leaves the results of other matches, and a result that is there. *)
Lemma vote_results o mid g pl r ms env s s' :
  submit_oracle_result o mid g pl r ms env s = Ok tt s' ->
  forall i, (i <> mid \/ is_Some (result_of s i)) -> result_of s' i = result_of s i.
Proof.
  intros Hr i Hi. destruct (decide (i = mid)) as [->|Hne].
  - destruct Hi as [|[f Hf]]; [done|]. apply vote_run in Hr as (_ & _ & _ & reg & _ & _ & Hr).
    rewrite Hf in Hr. destruct Hr as (_ & a & s1 & Hs & Hu).
    rewrite (result_spared _ _ _ _ _ mid Hu) by done. exact (slash_ballots _ _ _ _ _ _ Hs (DResult mid)).
  - assert (spares (fun _ => false) (is_result_but mid) false s s') as Hsp.
    { revert Hr. eapply rel_Ok. walk. }
    apply (result_spared _ _ _ _ _ i Hsp). cbn. by apply negb_true_iff, Z.eqb_neq.
Qed.

(** A vote that decides a match: the run of the decision, and the candidate that won. *)
Lemma vote_decided o mid g pl r ms env s s' f :
  ballots_ok s -> submit_oracle_result o mid g pl r ms env s = Ok tt s' ->
  result_of s mid = None -> result_of s' mid = Some f ->
  authorized env o = true /\
  exists s1 cs idx c, spares (fun _ => true) uncharged true s s1 /\
    add_vote (mkOracleVoteRecord g pl r) o (threshold_of s) 0
      (candidates (default empty_ballot (ballot s mid))) = (cs, Some idx) /\
    finalize_votes mid o (threshold_of s) idx cs env
      (recorded mid o (mkOracleVoteRecord g pl r) s1) = Ok tt s' /\
    cs !! idx = Some c /\ candidates_ok (vote_of s' mid) cs /\
    f = decided_entry env o c /\ candidate_vote c = mkOracleVoteRecord g pl r /\
    o ∈ submitters c /\ threshold_of s <= vec_len (submitters c).
Proof.
  intros Hb Hr Hno Hf. apply vote_run in Hr as (_ & _ & Hau & reg & _ & _ & Hr). rewrite Hno in Hr.
  split; [done|]. destruct Hr as (s1 & Hs1 & Hr). destruct (vote_of s mid o) as [prev|] eqn:Hvo.
  { destruct Hr as (_ & a & s2 & Hs & Hu). rewrite (result_spared _ _ _ _ _ mid Hu) in Hf by done.
    unfold result_of in *. rewrite (slash_ballots _ _ _ _ _ _ Hs), (sp_pers _ _ _ _ _ Hs1) in Hf by done.
    congruence. }
  destruct Hr as (_ & cs & w & Hadd & Hrun). set (v := mkOracleVoteRecord g pl r) in *.
  destruct w as [idx|].
  2:{ apply keep_voting_run in Hrun as (n & s2 & _ & _ & _ & Hsp).
      rewrite (result_spared _ _ _ _ _ mid Hsp) in Hf by done. unfold result_of in *.
      cbn in Hf. rewrite upd_ne, (sp_pers _ _ _ _ _ Hs1) in Hf by done. congruence. }
  pose proof (finalize_votes_run _ _ _ _ _ _ _ _ Hrun) as (c & Hc & Hres & _ & _ & [_ Hp _]).
  rewrite Hres in Hf. injection Hf as <-.
  pose proof (recorded_votes mid o v s s1 s' _ Hs1 Hp ltac:(done)) as Hv.
  assert (candidates_ok (vote_of s' mid) cs) as Hok.
  { eapply (ballot_voted s mid o); [done..|exact Hadd| |].
    - by rewrite Hv, Z.eqb_refl, bool_decide_true.
    - intros a Ha. by rewrite Hv, bool_decide_false, andb_false_r. }
  pose proof Hadd as Hsp. eapply add_vote_spec in Hsp as (_ & c' & Hc' & Hcv & Hcase & Hth & _ & Hidx).
  2:{ destruct (ballot s mid) as [st|] eqn:Hst; [apply (Hb mid st Hst)|apply NoDup_nil_2]. }
  rewrite Nat.sub_0_r in Hidx. replace c' with c in * by congruence.
  exists s1, cs, idx, c. split_and!; try done.
  destruct Hcase as [(-> & _)|(c0 & pre & post & _ & _ & ->)]; [by left|].
  cbn. apply elem_of_app. right. by left.
Qed.

(** A stored result is final: whatever call succeeds, by whomever, in whatever
    state, the result of a match stays what it is, unless the call is the admin's
    own [delete_result] for that match while the contract is not paused. *)
Theorem result_stable call env s s' mid f :
  oexec call env s = Ok tt s' -> result_of s mid = Some f ->
  result_of s' mid = Some f \/
  call = ODelete mid /\ signed_by_admin env s /\ running s /\ result_of s' mid = None.
Proof.
  intros Hr Hf.
  destruct (writes_results call) eqn:Hw.
  2:{ left. rewrite (result_spared _ _ _ _ _ mid (rel_Ok _ _ _ _ _ _ (results_frame call Hw) Hr)); done. }
  destruct call; try discriminate Hw; cbn [oexec] in Hr.
  - apply submit_run in Hr as (_ & _ & Hno & Hother & _). left. rewrite Hother; [done|congruence].
  - apply batch_run in Hr as (_ & _ & _ & Hall & Hother & _). left. rewrite Hother; [done|].
    intros (e & -> & He)%list_elem_of_fmap. destruct (Hall e He). congruence.
  - left. rewrite (vote_results _ _ _ _ _ _ _ _ _ Hr); eauto.
  - apply resolve_run in Hr as (_ & Hno & _ & Hother & _). left. rewrite Hother; [done|congruence].
  - apply delete_run in Hr as (Hp & Ha & _ & Hn & Hother & _).
    destruct (decide (mid0 = mid)) as [->|Hne]; [right; done|]. left. rewrite Hother; [done|congruence].
Qed.

(** C6: Where a result comes from: if a call in a reachable state gives a match a
    result it did not have, then either the admin signed the call (a submission,
    a batch, or the resolution of a disputed match), or the call is an oracle's
    vote for exactly that result, and at least the consensus threshold of
    different oracles have recorded votes for it. *)
Theorem result_provenance me ok call env s s' mid f :
  oreachable me ok s -> oexec call env s = Ok tt s' -> result_of s mid = None ->
  result_of s' mid = Some f ->
  signed_by_admin env s \/
  exists o g pl r ms voters, call = OVote o mid g pl r ms /\
    result_vote f = mkOracleVoteRecord g pl r /\ re_submitter f = o /\ authorized env o = true /\
    NoDup voters /\ o ∈ voters /\ threshold_of s <= vec_len voters /\
    forall a, a ∈ voters -> vote_of s' mid a = Some (result_vote f).
Proof.
  intros Hreach Hr Hno Hf.
  destruct (writes_results call) eqn:Hw.
  2:{ rewrite (result_spared _ _ _ _ _ mid (rel_Ok _ _ _ _ _ _ (results_frame call Hw) Hr)) in Hf; [congruence|done]. }
  destruct call; try discriminate Hw; cbn [oexec] in Hr.
  - left. apply submit_run in Hr as (_ & _ & _ & _ & admin & Ha & Hau & _). by exists admin.
  - left. apply batch_run in Hr as (_ & _ & _ & _ & _ & admin & Ha & Hau & _). by exists admin.
  - right. destruct (decide (mid0 = mid)) as [->|Hne].
    2:{ rewrite (vote_results _ _ _ _ _ _ _ _ _ Hr mid) in Hf by (left; congruence). congruence. }
    destruct (vote_decided _ _ _ _ _ _ _ _ _ f (reachable_votes _ _ _ Hreach) Hr Hno Hf)
      as (Hau & s1 & cs & idx & c & Hs1 & Hadd & Hrun & Hidx & Hok & -> & Hcv & Hin & Hth).
    assert (c ∈ cs) as Hc by (by eapply list_elem_of_lookup_2).
    exists o, g, pl, r, ms, (submitters c). split_and!; try done.
    + exact (cn_nodup _ _ Hok c Hc).
    + intros a Ha. by rewrite (cn_voted _ _ Hok c a Hc Ha).
  - left. by apply resolve_run in Hr as (Ha & _).
  - apply delete_run in Hr as (_ & Ha & _). by left.
Qed.

(** A batch is all or nothing: when [submit_batch_results] succeeds, the
    contract is not paused, the admin signed and has not lost its stake, the
    batch is at most [MAX_BATCH_SIZE] long, its matches are different from each
    other, none had a result and no game id is empty; every match of the batch
    has its result now, no other match's result changed, and the admin's list of
    submissions grew by the batch, in order. *)
Theorem batch_effect es env s s' :
  submit_batch_results es env s = Ok tt s' ->
  running s /\ vec_len es <= MAX_BATCH_SIZE /\ NoDup (map be_match_id es) /\
  (forall e, e ∈ es -> str_len (be_game_id e) <> 0 /\ result_of s (be_match_id e) = None) /\
  (forall i, i ∉ map be_match_id es -> result_of s' i = result_of s i) /\
  exists admin, inst s DAdmin = Some admin /\ authorized env admin = true /\
    admin_in_good_standing s admin /\
    (forall e, e ∈ es -> result_of s' (be_match_id e) = Some (batch_entry env admin e)) /\
    submissions s' admin = submissions s admin ++ map (batch_submission env) es.
Proof. apply batch_run. Qed.
End Outcomes.
