(* ===== verification/OraclePenalties.v ===== *)
(** What misbehaviour costs an oracle: staged slashes, equivocation, votes against
    the decision. *)
From stdpp Require Import base list strings relations.
From Stdlib Require Import ZArith Lia.
From S2P Require Import Prelude Soroban OracleTypes OracleLimits OracleStakes OracleResults.
From S2P Require Import OracleCalls OracleLedger OracleVotes OracleOutcomes.

(** The part of a stake that [bps] basis points are, and a registration without it. *)
Definition cut (stake bps : Z) : Z := clamp 0 stake (Z.quot (stake * bps) 10000).
Definition slashed (bps : Z) (r : OracleRegistration) : OracleRegistration :=
  if oracle_stake r <=? 0 then r else with_stake r (oracle_stake r - cut (oracle_stake r) bps).

Lemma cut_all stake : 0 <= stake -> cut stake EQUIVOCATION_SLASH_BPS = stake.
Proof.
  intros Hs. unfold cut, EQUIVOCATION_SLASH_BPS. rewrite Z.quot_mul by done. unfold clamp. lia.
Qed.
Lemma cut_minority stake : 0 <= stake -> cut stake MINORITY_SLASH_BPS = Z.quot stake 10.
Proof.
  intros Hs. unfold cut, MINORITY_SLASH_BPS.
  replace (Z.quot (stake * 1000) 10000) with (Z.quot stake 10).
  - pose proof (quot_bounds stake 1 10 ltac:(lia) ltac:(lia) Hs) as Hb. rewrite Z.mul_1_r in Hb.
    by rewrite clamp_id.
  - rewrite !Z.quot_div_nonneg by lia. replace (stake * 1000) with (1000 * stake) by lia.
    replace 10000 with (1000 * 10) by lia. by rewrite Z.div_mul_cancel_l.
Qed.

Section Penalties.
Context {W : Type} `{Host W}.
Implicit Types s : OState W.

(** An automatic slash changes one registration. *)
Lemma slash_bps_registration o bps env s a s' :
  slash_bps o bps env s = Ok a s' ->
  forall c, registration s' c = if c =a o then slashed bps <$> registration s o else registration s c.
Proof.
  intros Hr c. unfold slash_bps in Hr. pose proof Hr as Hspec. apply slash_bps_spec in Hspec.
  destruct Hspec as [[-> ->]|(r & Hreg & Ha & Hcut & Hrs & _)].
  - case_bool_decide; [subst c|done]. apply bind_Ok in Hr as (ex & s1 & [= <- <-] & Hr).
    fold (registration s o) in Hr. destruct (registration s o) as [r|]; [|done]. cbn. f_equal.
    unfold slashed. destruct (oracle_stake r <=? 0); [done|]. peel Hr.
    match goal with Hc : i128_checked_mul _ _ = Some _ |- _ => apply checked_Some in Hc as [<- _] end.
    fold (cut (oracle_stake r) bps) in Hr. destruct (Z.eqb_spec (cut (oracle_stake r) bps) 0) as [->|Hne].
    + destruct r; cbn. by rewrite Z.sub_0_r.
    + exfalso. repeat (apply bind_Ok in Hr as (? & ? & _ & Hr)). by apply ret_Ok in Hr as [? _].
  - case_bool_decide; [subst c|by eapply restaked_other].
    rewrite (rs_reg _ _ _ _ _ _ Hrs), Hreg. cbn. unfold slashed, cut. rewrite <- Hcut.
    destruct (Z.leb_spec (oracle_stake r) 0); [lia|done].
Qed.

(** The slashes of a list of different oracles. *)
Lemma slash_all_registration mid l env s u s' :
  for_each (slash_minority mid) l env s = Ok u s' -> NoDup l ->
  forall a, registration s' a =
    if bool_decide (a ∈ l) then slashed MINORITY_SLASH_BPS <$> registration s a else registration s a.
Proof.
  revert s u. induction l as [|o l IH]; intros s u Hr Hnd a; cbn in Hr.
  - apply ret_Ok in Hr as [_ <-]. by rewrite bool_decide_false by apply not_elem_of_nil.
  - apply NoDup_cons in Hnd as [Hni Hnd]. apply bind_Ok in Hr as (? & s1 & Hs & Hr).
    unfold slash_minority in Hs. apply bind_Ok in Hs as (amt & s2 & Hs & Hev).
    assert (forall b, registration s1 b = registration s2 b) as E by (by injection Hev as _ <-).
    rewrite (IH _ _ Hr Hnd). pose proof (slash_bps_registration _ _ _ _ _ _ Hs) as Hreg.
    rewrite E, Hreg.
    destruct (decide (a = o)) as [->|Hne].
    + rewrite (bool_decide_false (o ∈ l)) by done. by rewrite !bool_decide_true by (done || by left).
    + rewrite (bool_decide_false (a = o)) by done.
      assert (bool_decide (a ∈ o :: l) = bool_decide (a ∈ l)) as ->; [|done].
      apply bool_decide_ext. rewrite elem_of_cons. tauto.
Qed.

(** An oracle is listed once over all candidates of a match. *)
Lemma submitters_NoDup votes cs :
  candidates_ok votes cs -> NoDup (concat (map submitters cs)).
Proof.
  intros [h1 h2 h3]. induction cs as [|c cs IH]; [apply NoDup_nil_2|].
  rewrite map_cons in h1 |- *. apply NoDup_cons in h1 as [Hni h1]. cbn. apply NoDup_app. split_and!.
  - apply h2. by left.
  - intros a Ha Hin. rewrite list_elem_of_In in Hin. apply in_concat in Hin as (l & Hl & Hal).
    apply in_map_iff in Hl as (c' & <- & Hc'). apply list_elem_of_In in Hc', Hal.
    pose proof (h3 c a ltac:(by left) Ha) as E1. pose proof (h3 c' a ltac:(by right) Hal) as E2.
    destruct Hni. apply list_elem_of_fmap. exists c'. split; [congruence|done].
  - apply IH; [done| |]; intros; [apply h2|eapply h3]; try done; by right.
Qed.

Lemma losing_delete idx cs : losing idx cs = delete idx cs.
Proof. unfold losing. by rewrite delete_take_drop. Qed.

Lemma candidates_losing votes idx c cs :
  cs !! idx = Some c -> candidates_ok votes cs -> candidates_ok votes (losing idx cs).
Proof.
  intros Hidx [h1 h2 h3]. pose proof (delete_Permutation cs idx c Hidx) as Hperm.
  rewrite losing_delete. assert (forall c', c' ∈ delete idx cs -> c' ∈ cs) as Hsub.
  { intros c' Hc'. rewrite Hperm. by right. }
  split; [|by intros; apply h2, Hsub|by intros; eapply h3; [apply Hsub|]].
  assert (map candidate_vote cs ≡ₚ candidate_vote c :: map candidate_vote (delete idx cs)) as Hp
    by exact (Permutation_map candidate_vote Hperm).
  rewrite Hp in h1. by apply NoDup_cons in h1 as [_ h1].
Qed.

(** The registrations after a decision. *)
Lemma finalize_votes_registration votes mid o th idx cs env s s' :
  finalize_votes mid o th idx cs env s = Ok tt s' -> candidates_ok votes cs ->
  forall a, registration s' a =
    if bool_decide (a ∈ concat (map submitters (losing idx cs)))
    then slashed MINORITY_SLASH_BPS <$> registration s a else registration s a.
Proof.
  unfold finalize_votes. intros Hr Hok a. peel Hr. rename s0 into s.
  apply bind_Ok in Hr as (? & s1 & H1 & Hr). apply bind_Ok in Hr as (? & s2 & H2 & Hr).
  apply bind_Ok in Hr as (? & s3 & H3 & Hr). apply bind_Ok in Hr as (? & s4 & H4 & Hr).
  assert (forall a, registration s3 a = registration s a) as Hbefore.
  { intros b. assert (spares stake_key (fun _ => false) false s s1) as [E1 _ _] by (revert H1; eapply rel_Ok; walk).
    assert (spares stake_key (fun _ => false) false s1 s2) as [E2 _ _] by (revert H2; eapply rel_Ok; walk).
    assert (spares stake_key (fun _ => false) false s2 s3) as [E3 _ _] by (revert H3; eapply rel_Ok; walk).
    unfold registration. by rewrite E3, E2, E1. }
  assert (forall a, registration s' a = registration s4 a) as Hafter.
  { intros b. assert (spares stake_key (fun _ => false) false s4 s') as [E1 _ _] by (revert Hr; eapply rel_Ok; walk).
    unfold registration. by rewrite E1. }
  rewrite for_each_concat in H4. rewrite Hafter, <- Hbefore.
  eapply slash_all_registration; [exact H4|]. eapply submitters_NoDup, candidates_losing; eauto.
Qed.

(** The candidates that lose are those that stand for another result. *)
Lemma losing_elem v o th cs0 cs idx c c' :
  add_vote v o th 0 cs0 = (cs, Some idx) -> NoDup (map candidate_vote cs0) ->
  cs !! idx = Some c -> candidate_vote c = v ->
  c' ∈ losing idx cs <-> c' ∈ cs0 /\ candidate_vote c' <> v.
Proof.
  intros Hadd Hnd0 Hidx Hv. destruct (add_vote_spec _ _ _ _ _ _ _ Hadd Hnd0) as (Hnd & c1 & Hc1 & Hv1 & Hcase & _).
  pose proof (delete_Permutation cs idx c Hidx) as Hperm. rewrite losing_delete.
  pose proof (Permutation_map candidate_vote Hperm) as Hp. rewrite Hp in Hnd.
  apply NoDup_cons in Hnd as [Hni _].
  assert (c' ∈ delete idx cs <-> c' ∈ cs /\ candidate_vote c' <> v) as ->.
  { assert (c' ∈ cs <-> c' ∈ c :: delete idx cs) as -> by (split; intros E; [by rewrite Hperm in E|by rewrite Hperm]).
    rewrite elem_of_cons. split.
    - intros Hin. split; [by right|]. intros Heq. apply Hni. apply list_elem_of_fmap. exists c'. split; congruence.
    - intros [[->|Hin] Hne]; [done|exact Hin]. }
  destruct Hcase as [(_ & -> & _)|(c0 & pre & post & -> & -> & ->)].
  - rewrite elem_of_app, list_elem_of_singleton. split; intros [Hin Hne]; [|by eauto].
    split; [|done]. destruct Hin as [Hin|Hin]; [done|congruence].
  - assert (candidate_vote c0 = v) as Hv0 by done.
    rewrite !elem_of_app, !elem_of_cons. split; intros [Hin Hne]; (split; [|done]);
      destruct Hin as [Hin|[Hin|Hin]]; subst; auto; done.
Qed.

(** C9: A decision punishes exactly the losing side: when an oracle's vote decides
    a match in a reachable state, every oracle on the ballot of another result
    loses a tenth of its stake ([slashed MINORITY_SLASH_BPS]), once, and every
    other registration, the winners' and bystanders' alike, stays as it is. *)
Theorem decision_slashes_losers me ok s o mid g pl r ms env s' f :
  oreachable me ok s ->
  submit_oracle_result o mid g pl r ms env s = Ok tt s' ->
  result_of s mid = None -> result_of s' mid = Some f ->
  let old := candidates (default empty_ballot (ballot s mid)) in
  let lost a := exists c, c ∈ old /\ candidate_vote c <> mkOracleVoteRecord g pl r /\ a ∈ submitters c in
  (forall a, lost a -> registration s' a = slashed MINORITY_SLASH_BPS <$> registration s a) /\
  (forall a, ~ lost a -> registration s' a = registration s a).
Proof.
  intros Hreach Hr Hno Hf old lost. pose proof (reachable_votes _ _ _ Hreach) as Hb.
  destruct (vote_decided _ _ _ _ _ _ _ _ _ f Hb Hr Hno Hf)
    as (_ & s1 & cs & idx & c & Hs1 & Hadd & Hrun & Hidx & Hok & _ & Hcv & _).
  assert (NoDup (map candidate_vote old)) as Hnd.
  { unfold old. destruct (ballot s mid) as [st|] eqn:Hst; [apply (Hb mid st Hst)|apply NoDup_nil_2]. }
  pose proof (finalize_votes_registration _ _ _ _ _ _ _ _ _ Hrun Hok) as Hreg.
  assert (forall a, a ∈ concat (map submitters (losing idx cs)) <-> lost a) as Hlost.
  { intros a. rewrite list_elem_of_In, in_concat. setoid_rewrite in_map_iff. unfold lost. split.
    - intros (l & (c' & <- & Hc') & Ha). apply list_elem_of_In in Hc', Ha.
      apply (losing_elem _ _ _ _ _ _ _ c' Hadd Hnd Hidx Hcv) in Hc' as [Hin Hne]. eauto.
    - intros (c' & Hin & Hne & Ha). exists (submitters c'). rewrite <- list_elem_of_In. split; [|done].
      exists c'. split; [done|]. apply list_elem_of_In.
      by apply (losing_elem _ _ _ _ _ _ _ c' Hadd Hnd Hidx Hcv). }
  assert (forall a, registration (recorded mid o (mkOracleVoteRecord g pl r) s1) a = registration s a) as Hsame.
  { intros a. by apply (sp_inst _ _ _ _ _ Hs1 (DOracleRegistration a)). }
  split; intros a Ha; rewrite Hreg, Hsame.
  - rewrite bool_decide_true; [done|by apply Hlost].
  - rewrite bool_decide_false; [done|by rewrite Hlost].
Qed.

(** What an automatic slash takes goes to the admin, in the staked token. *)
Definition taken (env : Env) (r : OracleRegistration) (x : Z) s s' : Prop :=
  (x = 0 -> world s' = world s) /\ (0 < x -> paid_to_admin env (reg_token r) x s s').

Lemma slash_bps_taken o bps env s a s' r :
  slash_bps o bps env s = Ok a s' -> registration s o = Some r -> 0 < oracle_stake r ->
  registration s' o = Some (with_stake r (oracle_stake r - cut (oracle_stake r) bps)) /\
  taken env r (cut (oracle_stake r) bps) s s'.
Proof.
  intros Hr Hreg Hpos. pose proof (slash_bps_registration _ _ _ _ _ _ Hr o) as Ho.
  rewrite bool_decide_true, Hreg in Ho by done. cbn in Ho. unfold slashed in Ho.
  destruct (Z.leb_spec (oracle_stake r) 0); [lia|]. split; [done|].
  destruct (slash_bps_spec _ _ _ _ _ _ Hr) as [[-> ->]|(r0 & Hr0 & Ha & Hcut & _ & Hpay)].
  - split; [done|]. intros Hx. rewrite Hreg in Ho. injection Ho as Ho.
    apply (f_equal oracle_stake) in Ho. cbn in Ho. lia.
  - replace r0 with r in * by congruence. fold (cut (oracle_stake r) bps) in Hcut. subst a.
    split; [lia|done].
Qed.

(** What a bad vote costs.  An oracle that votes differently on a match it has
    already voted on forfeits its whole stake to the admin; one that votes against
    a stored result forfeits a tenth of it.  Neither vote is counted: ballots,
    recorded votes and results stay as they are. *)
Theorem bad_vote_penalty o mid g pl r ms env s s' :
  submit_oracle_result o mid g pl r ms env s = Ok tt s' ->
  (is_Some (result_of s mid) \/ is_Some (vote_of s mid o)) ->
  (forall k, ballot_key k || is_result k = true -> pers s' k = pers s k) /\
  exists reg, registration s o = Some reg /\ 0 < oracle_stake reg /\
  match result_of s mid, vote_of s mid o with
  | Some f, _ => result_vote f <> mkOracleVoteRecord g pl r /\
      registration s' o = Some (with_stake reg (oracle_stake reg - Z.quot (oracle_stake reg) 10)) /\
      taken env reg (Z.quot (oracle_stake reg) 10) s s'
  | None, Some prev => prev <> mkOracleVoteRecord g pl r /\
      registration s' o = Some (with_stake reg 0) /\ taken env reg (oracle_stake reg) s s'
  | None, None => False
  end.
Proof.
  intros Hr Hbad. apply vote_run in Hr as (_ & _ & _ & reg & Hreg & Hpos & Hr).
  assert (forall s1 bps a s2, spares (fun _ => true) uncharged true s s1 ->
    slash_bps o bps env s1 = Ok a s2 -> unchanged s2 s' ->
    (forall k, ballot_key k || is_result k = true -> pers s' k = pers s k) /\
    registration s' o = Some (with_stake reg (oracle_stake reg - cut (oracle_stake reg) bps)) /\
    taken env reg (cut (oracle_stake reg) bps) s s') as Hslash.
  { intros s1 bps a s2 [Hi Hp Hw] Hs [Hi2 Hp2 Hw2].
    assert (registration s1 o = Some reg) as Hreg1 by (by rewrite <- Hreg; apply (Hi (DOracleRegistration o))).
    destruct (slash_bps_taken _ _ _ _ _ _ reg Hs Hreg1 Hpos) as [H1 H2]. split_and!.
    - intros k Hk. rewrite Hp2, (slash_ballots _ _ _ _ _ _ Hs), Hp; [done|by destruct k|done].
    - rewrite <- H1. by apply (Hi2 (DOracleRegistration o)).
    - unfold taken, paid_to_admin in *. rewrite Hw2 by done. rewrite (Hw eq_refl) in H2.
      by rewrite Hi in H2. }
  destruct (result_of s mid) as [f|].
  - destruct Hr as (Hne & a & s1 & Hs & Hu). destruct (Hslash _ _ _ _ ltac:(done) Hs Hu) as (Hk & H1 & H2).
    rewrite cut_minority in H1, H2 by lia. split; [done|]. exists reg. done.
  - destruct Hr as (s1 & Hs1 & Hr). destruct (vote_of s mid o) as [prev|].
    + destruct Hr as (Hne & a & s2 & Hs & Hu). destruct (Hslash _ _ _ _ Hs1 Hs Hu) as (Hk & H1 & H2).
      rewrite cut_all in H1, H2 by lia. rewrite Z.sub_diag in H1. split; [done|]. exists reg. done.
    + destruct Hbad as [[? ?]|[? ?]]; done.
Qed.

(** Executing a staged slash: anyone may, but only once the slash is staged and
    its grace period over; it takes the staged amount, or what is left of the
    stake, gives it to the admin, and the slash is staged no more. *)
Theorem finalize_slash_effect o mid env s s' :
  finalize_slash o mid env s = Ok tt s' ->
  exists admin p r, inst s DAdmin = Some admin /\ staged s o mid = Some p /\
    registration s o = Some r /\ eligible_ledger p <= sequence env /\
    let x := Z.min (slash_amount p) (oracle_stake r) in
    registration s' o = Some (with_stake r (oracle_stake r - x)) /\
    (forall a, a <> o -> registration s' a = registration s a) /\
    staged s' o mid = None /\ (forall i, i <> mid -> staged s' o i = staged s o i) /\
    (if x >? 0 then token_transfer (world s) (sl_token p) (self env) admin x = Some (world s')
     else world s' = world s).
Proof.
  intros (admin & p & r & Had & Hp & Hr & Hle & Hrs & Hn & _ & Hother & Hpay)%finalize_slash_spec.
  exists admin, p, r. split_and!; [done..|]. cbv zeta. split_and!; try done.
  - apply Hrs.
  - intros a Ha. by eapply restaked_other.
Qed.

(** The grace period is respected: once the admin has staged a slash at some
    ledger, executing it fails with [SlashGracePeriodNotElapsed], changing
    nothing, at every ledger before that one plus the grace period. *)
Theorem slash_grace_respected o mid x env s s' env' :
  slash_oracle o mid x env s = Ok tt s' ->
  sequence env' < u32_sat_add (sequence env) (default 0 (inst s DSlashingGracePeriodLedgers)) ->
  invoke (finalize_slash o mid) env' s' = (Failed SlashGracePeriodNotElapsed, s').
Proof.
  intros ((admin & Ha & _) & r & _ & _ & _ & Hst & _ & Hk & _)%slash_oracle_spec Hlt.
  unfold invoke, finalize_slash, load_admin.
  assert (inst s' DAdmin = Some admin) as Ha' by (by rewrite Hk).
  unfold mbind, M_bind. cbn -[u32_sat_add]. rewrite Ha'. cbn -[u32_sat_add]. unfold staged in Hst.
  rewrite Hst. cbn -[u32_sat_add]. by destruct (Z.ltb_spec (sequence env') (u32_sat_add (sequence env) (default 0 (inst s DSlashingGracePeriodLedgers)))); [|lia].
Qed.
End Penalties.
