(* ===== verification/OracleBounds.v ===== *)
(** The oracle's counters: submission limits over sliding windows, and the
    response-time metrics. *)
From stdpp Require Import base list strings relations.
From Stdlib Require Import ZArith Lia.
From S2P Require Import Prelude Soroban OracleTypes OracleLimits OracleStakes OracleResults.
From S2P Require Import OracleCalls OracleLedger.

(** ** Windows *)

(** Rolling twice at the same time is rolling once, also after counting. *)
Lemma rolled_counted w now secs n :
  0 < secs < 86401 -> rolled (Some (counted (rolled w now secs) n)) now secs = counted (rolled w now secs) n.
Proof.
  intros Hs. unfold rolled at 1. unfold default, id. cbn [from_option counted window_start current_count previous_count].
  set (e := u64_sat_sub now (window_start (rolled w now secs))).
  assert (e < secs) as He.
  { unfold e, rolled. set (w0 := default _ w). destruct (Z.leb_spec (secs * 2) (u64_sat_sub now (window_start w0))).
    - cbn. unfold_ints. lia.
    - destruct (Z.leb_spec secs (u64_sat_sub now (window_start w0))); cbn; unfold_ints; lia. }
  destruct (Z.leb_spec (secs * 2) e); [lia|]. destruct (Z.leb_spec secs e); [lia|reflexivity].
Qed.

Lemma rolled_current_nonneg w now secs :
  (forall w0, w = Some w0 -> 0 <= current_count w0) -> 0 <= current_count (rolled w now secs).
Proof.
  intros Hw. unfold rolled. destruct w as [w0|]; cbn.
  - specialize (Hw w0 eq_refl). destruct (_ <=? _); [done|]. by destruct (_ <=? _).
  - destruct (_ <=? _); [done|]. by destruct (_ <=? _).
Qed.

(** Counting [n] more raises the estimate by [n], when that stays in range. *)
Lemma estimate_counted now w secs n :
  0 <= current_count w -> 0 <= n -> estimated_window_count now w secs + n <= u32_max ->
  estimated_window_count now (counted w n) secs = estimated_window_count now w secs + n.
Proof.
  unfold estimated_window_count. cbn [counted window_start current_count previous_count].
  set (p := as_u32 _). assert (0 <= p) by (unfold p, as_u32; apply Z.mod_pos_bound; lia).
  intros. unfold_ints. lia.
Qed.

Section Bounds.
Context {W : Type} `{Host W}.
Implicit Types s : OState W.

Definition hourly_window s (o : Address) : option RateWindow := pers s (DOracleHourlyWindow o).
Definition daily_window s (o : Address) : option RateWindow := pers s (DOracleDailyWindow o).

(** The windows of every oracle hold counts that are not negative. *)
Definition windows_ok s : Prop :=
  (forall o w, hourly_window s o = Some w -> 0 <= current_count w) /\
  (forall o w, daily_window s o = Some w -> 0 <= current_count w).

Definition window_key (k : DataKey) : bool :=
  match k with DOracleHourlyWindow _ | DOracleDailyWindow _ => true | _ => false end.

Lemma windows_frame pi wl s s' : spares pi window_key wl s s' -> windows_ok s -> windows_ok s'.
Proof.
  intros [_ Hp _] [H1 H2]. unfold windows_ok, hourly_window, daily_window in *.
  split; intros o w; rewrite Hp by done; eauto.
Qed.

(** What a successful check reads and writes. *)
Lemma rate_limit_run o n env s s' :
  check_oracle_rate_limit o n env s = Ok tt s' ->
  let config := default default_limits (inst s (DOracleRateLimit o)) in
  let now := timestamp env in
  let hw := rolled (hourly_window s o) now HOURLY_WINDOW_SECS in
  let dw := rolled (daily_window s o) now DAILY_WINDOW_SECS in
  estimated_window_count now hw HOURLY_WINDOW_SECS + n <= Z.min u32_max (hourly_limit config) /\
  estimated_window_count now dw DAILY_WINDOW_SECS + n <= Z.min u32_max (daily_limit config) /\
  hourly_window s' o = Some (counted hw n) /\ daily_window s' o = Some (counted dw n) /\
  (forall a, a <> o -> hourly_window s' a = hourly_window s a /\ daily_window s' a = daily_window s a) /\
  (forall k, inst s' k = inst s k).
Proof.
  intros Hr config now hw dw. unfold check_oracle_rate_limit, rate_limit_config, load_hourly, load_daily in Hr.
  apply bind_Ok in Hr as (cfg & s1 & [= <- <-] & Hr). apply bind_Ok in Hr as (t & s1 & [= <- <-] & Hr).
  apply bind_Ok in Hr as (w1 & s1 & [= <- <-] & Hr). cbv zeta in Hr. peel Hr.
  apply bind_Ok in Hr as (w2 & s1 & [= <- <-] & Hr). cbv zeta in Hr. peel Hr.
  apply bind_Ok in Hr as (? & s1 & [= <- <-] & Hr). apply bind_Ok in Hr as (? & s2 & [= <- <-] & Hr).
  fold now hw dw config in Hr.
  match goal with Ha : (_ >? hourly_limit _) = false, Hb : (_ >? daily_limit _) = false |- _ =>
    rename Ha into Hh, Hb into Hd end.
  peel Hr.
  match goal with Hc : u32_checked_add _ n = Some _ |- _ => apply checked_Some in Hc as [<- Hhr] end.
  apply bind_Ok in Hr as (? & s3 & Hal1 & Hr).
  assert (spares (fun _ => true) (fun _ => true) true
            (with_pers (upd (DOracleDailyWindow o) (Some (counted dw n)))
               (with_pers (upd (DOracleHourlyWindow o) (Some (counted hw n))) s)) s3) as Hs3.
  { revert Hal1. eapply rel_Ok. walk. }
  apply bind_Ok in Hr as (? & s4 & Hu & Hr). apply unwrap_Ok in Hu as [Hc <-].
  apply checked_Some in Hc as [<- Hdr].
  assert (spares (fun _ => true) (fun _ => true) true s3 s') as Hs4.
  { revert Hr. eapply rel_Ok. walk. }
  destruct (PreOrder_Transitive _ _ _ Hs3 Hs4) as [Hi Hp _]. clear Hs3 Hs4 Hr Hal1.
  unfold hourly_window, daily_window in *. rewrite !Hp by done. cbn.
  split_and!.
  - clear - Hh Hhr. zbool. unfold_ints. fold now hw config in Hh, Hhr. lia.
  - clear - Hd Hdr. zbool. unfold_ints. fold now dw config in Hd, Hdr. lia.
  - by rewrite upd_ne, upd_eq.
  - by rewrite upd_eq.
  - intros c Hc. rewrite !Hp by done. cbn. by rewrite !upd_ne by congruence.
  - intros k. by rewrite Hi.
Qed.

Lemma keeps_windows_check ok o n : 0 <= n -> keeps ok windows_ok (check_oracle_rate_limit (W:=W) o n).
Proof.
  intros Hn env s [] s' _ [Hh Hd] (_ & _ & E1 & E2 & Hother & _)%rate_limit_run.
  assert (forall w, 0 <= current_count w -> 0 <= current_count (counted w n)) as Hc.
  { intros w Hw. cbn. unfold_ints. lia. }
  split; intros a w.
  - destruct (decide (a = o)) as [->|Hne]; [|destruct (Hother a Hne) as [-> _]; apply Hh].
    rewrite E1. intros [= <-]. apply Hc, rolled_current_nonneg, Hh.
  - destruct (decide (a = o)) as [->|Hne]; [|destruct (Hother a Hne) as [_ ->]; apply Hd].
    rewrite E2. intros [= <-]. apply Hc, rolled_current_nonneg, Hd.
Qed.

Lemma keeps_windows ok call : keeps ok windows_ok (oexec call).
Proof.
  assert (forall {A} (l : list A), 0 <= vec_len l) as Hv by (intros; unfold vec_len; lia).
  destruct call; cbn [oexec];
    repeat first
      [ solve [apply keeps_windows_check; auto with zarith]
      | solve [eapply keeps_rel; [|exact (windows_frame (fun _ => false) false)]; walk]
      | apply keeps_bind; [|intros ?]
      | match goal with
        | |- keeps _ _ (match ?x with _ => _ end) => destruct x
        | |- keeps _ _ ?c => let h := head_of c in unfold h
        end ].
Qed.

Lemma reachable_windows me ok s : oreachable me ok s -> windows_ok s.
Proof.
  apply oreachable_ind'; [|intros; apply keeps_windows|].
  - intros w _. split; done.
  - intros w s1 _. apply (windows_frame (fun _ => false) false). by split.
Qed.

(** The status is read from the windows rolled to the current time. *)
Definition status_of s (o : Address) (now : Z) : RateLimitStatus :=
  let config := default default_limits (inst s (DOracleRateLimit o)) in
  let h := estimated_window_count now (rolled (hourly_window s o) now HOURLY_WINDOW_SECS) HOURLY_WINDOW_SECS in
  let d := estimated_window_count now (rolled (daily_window s o) now DAILY_WINDOW_SECS) DAILY_WINDOW_SECS in
  mkRateLimitStatus h (hourly_limit config) (u32_sat_sub (hourly_limit config) h)
    d (daily_limit config) (u32_sat_sub (daily_limit config) d).

Lemma status_run o env s :
  get_oracle_rate_limit_status o env s = Ok (status_of s o (timestamp env)) s.
Proof. reflexivity. Qed.

(** Submission limits are exact at the moment of a submission: in a reachable
    state, if [check_oracle_rate_limit] admits [n] more submissions of an oracle,
    the status it reports right after shows [n] more used, in both windows, than
    right before, and both are within the configured limits. *)
Theorem rate_limit_effect me ok o n env s s' :
  oreachable me ok s -> 0 <= n -> check_oracle_rate_limit o n env s = Ok tt s' ->
  exists st st', get_oracle_rate_limit_status o env s = Ok st s /\
    get_oracle_rate_limit_status o env s' = Ok st' s' /\
    hourly_used st' = hourly_used st + n /\ daily_used st' = daily_used st + n /\
    hourly_used st' <= st_hourly_limit st /\ daily_used st' <= st_daily_limit st /\
    st_hourly_limit st' = st_hourly_limit st /\ st_daily_limit st' = st_daily_limit st.
Proof.
  intros [Hh Hd]%reachable_windows Hn (H1 & H2 & E1 & E2 & _ & Hi)%rate_limit_run.
  exists (status_of s o (timestamp env)), (status_of s' o (timestamp env)).
  split; [apply status_run|]. split; [apply status_run|]. unfold status_of.
  cbn [hourly_used daily_used st_hourly_limit st_daily_limit].
  rewrite E1, E2, Hi, !rolled_counted by (unfold HOURLY_WINDOW_SECS, DAILY_WINDOW_SECS; lia).
  rewrite !estimate_counted; try (apply rolled_current_nonneg; eauto); lia.
Qed.

(** ** Metrics *)

(** The figures of an oracle are consistent: no more successes than submissions,
    and the reported uptime is the share of successes in percent. *)
Definition metrics_ok (m : OracleMetrics) : Prop :=
  0 <= successful_submissions m <= total_submissions m /\ total_submissions m <= u32_max /\
  uptime_percentage m =
    (if total_submissions m =? 0 then 100 else successful_submissions m * 100 / total_submissions m) /\
  0 <= uptime_percentage m <= 100.

Lemma metrics_fresh : metrics_ok fresh_metrics.
Proof. unfold metrics_ok. cbn. unfold_ints. lia. Qed.

Lemma metrics_measured m ms : metrics_ok m -> metrics_ok (measured m ms).
Proof.
  intros (H1 & H2 & _ & _). unfold metrics_ok, measured. cbn.
  set (t := u32_sat_add (total_submissions m) 1).
  set (n := if ms <=? _ then _ else _).
  assert (1 <= t <= u32_max /\ 0 <= n <= t) as [Ht Hnt].
  { unfold t, n. destruct (ms <=? _); unfold_ints; lia. }
  assert (0 <= n * 100 / t <= 100) as Hb.
  { split; [apply Z.div_pos; lia|]. apply Z.div_le_upper_bound; lia. }
  destruct (Z.eqb_spec t 0); [lia|]. unfold as_u32. rewrite Z.mod_small by lia.
  split_and!; lia.
Qed.

Definition all_metrics_ok s : Prop := forall o m, pers s (DOracleMetrics o) = Some m -> metrics_ok m.
Definition metrics_key (k : DataKey) : bool := match k with DOracleMetrics _ => true | _ => false end.

Lemma all_metrics_frame pi wl s s' : spares pi metrics_key wl s s' -> all_metrics_ok s -> all_metrics_ok s'.
Proof. intros [_ Hp _] Hok o m. rewrite Hp by done. apply Hok. Qed.

Lemma all_metrics_set o m s :
  metrics_ok m -> all_metrics_ok s -> all_metrics_ok (with_pers (upd (DOracleMetrics o) (Some m)) s).
Proof.
  intros Hm Hok a ma. cbn. destruct (decide (DOracleMetrics o = DOracleMetrics a)) as [e|Hne].
  - injection e as <-. rewrite upd_eq. by intros [= <-].
  - rewrite upd_ne by done. apply Hok.
Qed.

Lemma keeps_metrics_update ok o ms : keeps ok all_metrics_ok (update_oracle_metrics (W:=W) o ms).
Proof.
  intros env s [] s' _ Hok Hr. unfold update_oracle_metrics in Hr. minv. apply all_metrics_set; [|done].
  apply metrics_measured. destruct (pers _ (DOracleMetrics o)) as [m|] eqn:E; [by eapply Hok|apply metrics_fresh].
Qed.

Lemma keeps_metrics_deactivate ok o : keeps ok all_metrics_ok (deactivate_slow_oracle (W:=W) o).
Proof.
  intros env s [] s' _ Hok Hr. unfold deactivate_slow_oracle in Hr.
  apply bind_Ok in Hr as (adm & s1 & Ha & Hr). apply require_admin_run in Ha as (-> & _ & _).
  apply bind_Ok in Hr as (mo & s1 & [= <- <-] & Hr).
  apply bind_Ok in Hr as (m & s1 & Hm & Hr). apply ok_or_Ok in Hm as [Hm <-].
  apply bind_Ok in Hr as (th & s1 & [= <- <-] & Hr).
  apply bind_Ok in Hr as (? & s1 & Hf & Hr). apply fail_if_Ok in Hf as [_ <-].
  apply bind_Ok in Hr as (? & s1 & [= <- <-] & [= <-]).
  apply (all_metrics_set o (mkOracleMetrics _ _ _ _ _ _) s); [|done]. exact (Hok o m Hm).
Qed.

#[local] Hint Resolve keeps_metrics_update keeps_metrics_deactivate : keeps.

Lemma keeps_metrics ok call : keeps ok all_metrics_ok (oexec call).
Proof. destruct call; cbn [oexec]; kwalk (all_metrics_frame (fun _ => false) false). Qed.

(** In every reachable state the performance figures of every oracle that
    [get_oracle_metrics] reports are consistent: successes do not exceed
    submissions, the count stays in its 32 bits, and the uptime is the percentage
    of successes (100 before the first submission), between 0 and 100. *)
Theorem metrics_consistent me ok env s o :
  oreachable me ok s -> exists m, get_oracle_metrics o env s = Ok m s /\ metrics_ok m.
Proof.
  intros Hr. eexists. split; [reflexivity|]. cut (all_metrics_ok s).
  { intros Hok. destruct (pers s (DOracleMetrics o)) as [m|] eqn:E; [by eapply Hok|apply metrics_fresh]. }
  revert s Hr. apply oreachable_ind'; [by intros w _ a m|intros; apply keeps_metrics|].
  intros w s1 _. apply (all_metrics_frame (fun _ => false) false). by split.
Qed.
End Bounds.
