(* ===== verification/OracleNet.v ===== *)
(** The two contracts together.

    [Net W] is a ledger [W] on which oracle contracts are deployed: the state of
    each, by address.  The escrow's calls [get_rate] and [swap] run the oracle
    contract's own code ([OracleRates]) on that state, in the callee's
    environment.  The interface the escrow's theorems are stated against
    ([RateOracleLaws]) holds of it. *)
From stdpp Require Import base list strings.
From Stdlib Require Import ZArith Lia.
From S2P Require Import RateOracle Governance.
From S2P Require Import Prelude Soroban OracleTypes OracleLimits OracleStakes.

Section Net.
Context {W : Type} `{Host W}.

Record Net := mkNet {
  ground : W;                             (** token balances and the rest of the ledger *)
  oracle_at : Address -> option (OState W)  (** the deployed oracle contracts *)
}.

Definition with_ground (n : Net) (w : W) : Net := mkNet w (oracle_at n).

#[export] Instance Net_host : Host Net := {
  token_transfer n t from to x :=
    match token_transfer (ground n) t from to x with
    | Some w => Some (with_ground n w)
    | None => None
    end;
  token_balance n := token_balance (ground n);
  token_symbol n := token_symbol (ground n);
  prng_gen n := let '(b, w) := prng_gen (ground n) in (b, with_ground n w);
  sha256 := sha256
}.

#[export] Instance Net_laws `{!TokenLaws W} : TokenLaws Net.
Proof.
  split; cbn.
  - intros n t from to x n'. destruct (token_transfer _ _ _ _ _) as [w|] eqn:Ht; [|done].
    intros [= <-] t' a. cbn. by apply transfer_moves.
  - intros n t from to x n'. destruct (token_transfer _ _ _ _ _) as [w|] eqn:Ht; [|done].
    intros _. by eapply transfer_nonneg.
  - intros n t a. pose proof (prng_moves_nothing (ground n) t a) as Hp.
    by destruct (prng_gen (ground n)).
Qed.

(** The environment of a call the contract of [env] makes to [callee]: the caller
    itself counts as having signed. *)
Definition callee_env (env : Env) (callee : Address) : Env :=
  mkEnv callee (sequence env) (timestamp env) (fun a => authorized env a || (a =a self env)).

(** Run an entry point of the oracle deployed at [oracle]; [None] when there is none
    or the call does not succeed. *)
Definition call_oracle {A} (env : Env) (n : Net) (oracle : Address) (c : OM W A) : option (A * Net) :=
  match oracle_at n oracle with
  | None => None
  | Some st =>
      match c (callee_env env oracle) (with_world (ground n) st) with
      | Ok a st' =>
          Some (a, mkNet (world st') (fun x => if x =a oracle then Some st' else oracle_at n x))
      | _ => None
      end
  end.

#[export] Instance Net_rates : RateOracle Net := {
  call_get_rate env n oracle ta tb := fst <$> call_oracle env n oracle (get_rate ta tb);
  call_swap env n oracle caller tin tout ain min_out recipient :=
    snd <$> call_oracle env n oracle (swap caller tin tout ain min_out recipient)
}.

(** Replacing the code of a contract is an operation of the ledger below. *)
#[export] Instance Net_deployer `{!Deployer W} : Deployer Net := {
  update_wasm n c h := with_ground n <$> update_wasm (ground n) c h
}.

(** ** What a swap does *)

(** The output of a swap at a rate stored for the pair, or for the reversed pair. *)
Definition swap_output (s : OState W) (tin tout : Address) (ain : Z) : option (Z * RateEntry) :=
  match pers s (DRate tin tout) with
  | Some e => Some (Z.quot (ain * rate e) 10000000, e)
  | None =>
      match pers s (DRate tout tin) with
      | Some e => Some (Z.quot (ain * 10000000) (rate e), e)
      | None => None
      end
  end.

Lemma priced_run a b c m env (s : OState W) x s' :
  priced a b c m env s = Ok x s' -> s' = s /\ x = Z.quot (a * b) c /\ m <= x /\ c <> 0.
Proof.
  unfold priced. intros Hr. minv. zbool.
  match goal with Hm : i128_checked_mul _ _ = Some _ |- _ => apply checked_Some in Hm as [<- _] end.
  match goal with Hd : i128_checked_div _ _ = Some _ |- _ => unfold i128_checked_div in Hd end.
  destruct (Z.eqb_spec c 0); [done|].
  match goal with Hd : checked _ _ _ = Some _ |- _ => apply checked_Some in Hd as [<- _] end.
  split_and!; try done; lia.
Qed.

Lemma swap_run caller tin tout ain min_out to env (s s' : OState W) :
  swap caller tin tout ain min_out to env s = Ok tt s' ->
  authorized env caller = true /\ 0 < ain /\
  (exists out e, swap_output s tin tout ain = Some (out, e) /\ min_out <= out /\
    sequence env - updated_ledger e <= MAX_RATE_AGE_LEDGERS /\
    exists w, token_transfer (world s) tin caller (self env) ain = Some w /\
      token_transfer w tout (self env) to out = Some (world s')) /\
  (forall k, inst s' k = inst s k) /\ (forall k, pers s' k = pers s k).
Proof.
  unfold swap. intros Hr. do 2 peel Hr.
  apply bind_Ok in Hr as (fw & s1 & [= <- <-] & Hr). apply bind_Ok in Hr as (bw & s1 & [= <- <-] & Hr).
  apply bind_Ok in Hr as (out & s1 & Hout & Hr).
  assert (s1 = s /\ exists e, swap_output s tin tout ain = Some (out, e) /\ min_out <= out /\
            sequence env - updated_ledger e <= MAX_RATE_AGE_LEDGERS) as [-> Hprice].
  { clear Hr. unfold swap_output, require_fresh in *.
    destruct (pers s (DRate tin tout)) as [e|].
    2: destruct (pers s (DRate tout tin)) as [e|]; [|done].
    all: apply bind_Ok in Hout as (? & s2 & Hf & Hout); apply bind_Ok in Hf as (sq & s3 & [= <- <-] & Hf);
      apply fail_if_Ok in Hf as [Hf <-]; apply priced_run in Hout as (-> & -> & Hm & _); zbool;
      (split; [done|]); exists e; (split_and!; [done|done|unfold MAX_RATE_AGE_LEDGERS in *; unfold_ints; lia]). }
  clear Hout. do 2 peel Hr.
  match goal with Ht : token_transfer _ tin _ _ _ = Some _ |- _ => rename Ht into Htr end.
  apply transfer_Ok in Hr as (w' & Hw' & ->). destruct Hprice as (e & Hso & Hmin & Hage). cbn in *.
  zbool. split; [done|]. split; [lia|]. split; [|done]. exists out, e. eauto 8.
Qed.

(** The balances after a swap. *)
Lemma swap_balances `{!TokenLaws W} caller tin tout ain min_out to env (s s' : OState W) :
  swap caller tin tout ain min_out to env s = Ok tt s' ->
  0 < ain /\ exists out, min_out <= out /\ 0 <= out /\
  forall t a, token_balance (world s') t a =
    token_balance (world s) t a
    - delta ((t =a tin) && (a =a caller)) ain + delta ((t =a tin) && (a =a self env)) ain
    - delta ((t =a tout) && (a =a self env)) out + delta ((t =a tout) && (a =a to)) out.
Proof.
  intros (_ & Hain & (out & e & _ & Hmin & _ & w & Hin & Hout) & _)%swap_run.
  split; [done|]. exists out. split_and!; [done|exact (transfer_nonneg _ _ _ _ _ _ Hout)|].
  intros t a. rewrite (transfer_moves _ _ _ _ _ _ Hout), (transfer_moves _ _ _ _ _ _ Hin). lia.
Qed.

(** The oracle contract implements the interface the escrow relies on. *)
Lemma Net_swap_moves `{!TokenLaws W} env (n : Net) oracle caller tin tout ain min_out to n' :
  call_swap env n oracle caller tin tout ain min_out to = Some n' ->
  0 < ain /\ exists out, min_out <= out /\ 0 <= out /\
  forall t a, token_balance n' t a =
    token_balance n t a
    - delta ((t =a tin) && (a =a caller)) ain + delta ((t =a tin) && (a =a oracle)) ain
    - delta ((t =a tout) && (a =a oracle)) out + delta ((t =a tout) && (a =a to)) out.
Proof.
  cbn. unfold call_oracle. destruct (oracle_at n oracle) as [st|]; [|done].
  destruct (swap _ _ _ _ _ _ _ _) as [[] st'|e st'|] eqn:Hs; [|done..]. cbn. intros [= <-].
  by apply swap_balances in Hs.
Qed.

(** What a swap does: the caller has signed and pays a positive amount of the
    input token into the oracle contract; the recipient gets, out of the oracle
    contract's own balance, that amount times the stored rate (divided by the rate
    when only the reversed pair is stored), rounded towards zero, which is at
    least the minimum asked for; the rate used is at most [MAX_RATE_AGE_LEDGERS]
    old; the contract's storage does not change. *)
Theorem swap_effect caller tin tout ain min_out to env (s s' : OState W) :
  swap caller tin tout ain min_out to env s = Ok tt s' ->
  authorized env caller = true /\ 0 < ain /\
  (exists out e, swap_output s tin tout ain = Some (out, e) /\ min_out <= out /\
    sequence env - updated_ledger e <= MAX_RATE_AGE_LEDGERS /\
    exists w, token_transfer (world s) tin caller (self env) ain = Some w /\
      token_transfer w tout (self env) to out = Some (world s')) /\
  (forall k, inst s' k = inst s k) /\ (forall k, pers s' k = pers s k).
Proof. apply swap_run. Qed.

(** C10: The oracle contract implements the interface the escrow's theorems assume:
    on a ledger where the escrow's calls [get_rate] and [swap] run the oracle
    contract's code, a successful swap takes exactly the input amount from the
    caller, pays the recipient at least the minimum out of the oracle's balance,
    and moves no other balance. *)
Theorem oracle_implements_rates `{!TokenLaws W} : RateOracleLaws Net.
Proof. split. intros *. apply Net_swap_moves. Qed.

#[export] Instance Net_rate_laws `{!TokenLaws W} : RateOracleLaws Net.
Proof. split. intros *. apply Net_swap_moves. Qed.
End Net.
Arguments Net W : clear implicits.
