(* ===== verification/OracleWitnesses.v ===== *)
(** Concrete runs of the oracle contract on the ledger of [Ledger]: the theorems
    about it applied to reachable states, and runs that show defects. *)
From stdpp Require Import base list numbers strings relations.
From Stdlib Require Import ZArith Lia.
From S2P Require Import Ledger.
From S2P Require Import Prelude Soroban OracleTypes OracleLimits OracleStakes OracleResults.
From S2P Require Import OracleCalls OracleLedger OracleBacking OracleVotes OracleTally.
From S2P Require Import OracleOutcomes OraclePenalties OracleBounds OracleNet.

Abbreviation OLState := (OState Ledger).

Definition oat (seq time : Z) (signers : list Address) : Env :=
  mkEnv the_oracle seq time (fun a => existsb (fun x => x =a a) signers).

Definition ostep (s : OLState) (ec : Env * OCall) : OLState :=
  snd (invoke (oexec (snd ec)) (fst ec) s).
Definition oplay (cs : list (Env * OCall)) (s : OLState) : OLState := foldl ostep s cs.

Fixpoint oreplies (cs : list (Env * OCall)) (s : OLState) : list (reply Error unit) :=
  match cs with
  | [] => []
  | ec :: rest => fst (invoke (oexec (snd ec)) (fst ec) s) :: oreplies rest (ostep s ec)
  end.

Lemma oran {A} (c : OM Ledger A) env s a :
  fst (invoke c env s) = Done a -> c env s = Ok a (snd (invoke c env s)).
Proof. unfold invoke. destruct (c env s); cbn; congruence. Qed.

Lemma Ok_value {E S A} (a b : A) (s s' : S) : @Ok E S A a s = Ok b s' -> a = b.
Proof. congruence. Qed.

(** Close [c env s = Ok a s'] for [s'] defined as what the call leaves. *)
Ltac oruns :=
  match goal with
  | |- ?c ?env ?s = Ok ?a _ => refine (oran c env s a _); vm_compute; reflexivity
  end.

Lemma oplay_reachable ok cs s :
  oreachable the_oracle ok s ->
  Forall (fun ec => called the_oracle (fst ec) /\ ok (snd ec)) cs ->
  oreachable the_oracle ok (oplay cs s).
Proof.
  intros Hr Hcs. revert s Hr. induction Hcs as [|[env call] cs [h1 h2] _ IH]; intros s Hr; [done|].
  apply IH. by apply OR_call.
Qed.

(** Everyone but the oracle contract starts with 1000 of each token. *)
Definition oledger0 : Ledger :=
  mkLedger (fun _ a => if a =a the_oracle then 0 else 1000) 0 (fun _ _ => None) (fun _ => []).
Definition ofresh : OLState := init_oracle oledger0.

(** Three oracles with a stake of 100 each, and a threshold of two votes. *)
Definition setup : list (Env * OCall) :=
  [(oat 1 10 [the_admin], OInitialize the_admin);
   (oat 2 20 [alice], ORegister alice 100 xlm);
   (oat 2 20 [bob], ORegister bob 100 xlm);
   (oat 2 20 [carol], ORegister carol 100 xlm);
   (oat 3 30 [the_admin], OSetThreshold 2);
   (oat 3 30 [the_admin], OSetGracePeriod 10)].
Definition ready_s : OLState := oplay setup ofresh.

Lemma setup_done : oreplies setup ofresh = replicate 6 (Done tt).
Proof. vm_compute. reflexivity. Qed.

Lemma ready_reachable : oreachable the_oracle no_swap ready_s.
Proof.
  apply oplay_reachable; [|repeat constructor].
  apply OR_init. intros t. reflexivity.
Qed.

(** Bob votes for player 1, then Alice for player 2. *)
Definition bob_vote : Env * OCall := (oat 5 50 [bob], OVote bob 7 "abcd1234" Lichess Player1 100).
Definition alice_vote : Env * OCall := (oat 6 60 [alice], OVote alice 7 "abcd1234" Lichess Player2 100).
Definition one_vote_s : OLState := ostep ready_s bob_vote.
Definition split_s : OLState := ostep one_vote_s alice_vote.
(** Carol decides for player 2. *)
Definition carol_vote : Env * OCall := (oat 7 70 [carol], OVote carol 7 "abcd1234" Lichess Player2 100).
Definition decided_s : OLState := ostep split_s carol_vote.

Lemma one_vote_reachable : oreachable the_oracle no_swap one_vote_s.
Proof. apply OR_call; [apply ready_reachable|by split|exact I]. Qed.
Lemma split_reachable : oreachable the_oracle no_swap split_s.
Proof. apply OR_call; [apply one_vote_reachable|by split|exact I]. Qed.
Lemma decided_reachable : oreachable the_oracle no_swap decided_s.
Proof. apply OR_call; [apply split_reachable|by split|exact I]. Qed.

(** ** The registry and the stakes *)

Definition staged_call : Env * OCall := (oat 8 80 [the_admin], OSlash alice 3 40).
Definition staged_s : OLState := ostep decided_s staged_call.
Lemma staged_reachable : oreachable the_oracle no_swap staged_s.
Proof. apply OR_call; [apply decided_reachable|by split|exact I]. Qed.

Lemma registry_consistent_witness :
  oracle_set staged_s = [alice; bob; carol] /\
  exists l, get_pending_slashes alice (oat 9 90 []) staged_s = Ok l staged_s /\ length l = 1%nat.
Proof.
  split; [vm_compute; reflexivity|].
  destruct (registry_consistent the_oracle no_swap (oat 9 90 []) staged_s alice staged_reachable)
    as (_ & _ & l & Hl & Hlen & _).
  exists l. split; [exact Hl|]. rewrite Hlen. vm_compute. reflexivity.
Defined.

Lemma stakes_backed_witness :
  oreachable the_oracle no_swap staged_s /\ total_stake staged_s xlm = 290 /\
  total_stake staged_s xlm <= token_balance (world staged_s) xlm the_oracle.
Proof.
  split; [exact staged_reachable|]. split; [vm_compute; reflexivity|].
  apply (stakes_backed the_oracle staged_s xlm staged_reachable).
Defined.

(** ** Votes *)

Lemma remaining_count_exact_witness :
  exists n s', remaining_eligible_oracles 7 (oat 6 60 [alice])
      (recorded 7 alice (mkOracleVoteRecord "abcd1234" Lichess Player2) one_vote_s) = Ok n s' /\ n = 1.
Proof.
  destruct (remaining_count_exact the_oracle no_swap one_vote_s 7 alice
              (mkOracleVoteRecord "abcd1234" Lichess Player2) (oat 6 60 [alice]) one_vote_reachable)
    as (n & s' & Hn & Hc & _).
  - vm_compute. reflexivity.
  - vm_compute. reflexivity.
  - vm_compute. reflexivity.
  - exists n, s'. split; [exact Hn|]. rewrite count_remaining_recount in Hc.
    apply Ok_value in Hc as <-. vm_compute. reflexivity.
Defined.


Definition the_result : ResultEntry := mkResultEntry "abcd1234" Lichess Player2 7 carol None.

Lemma result_provenance_witness :
  result_of split_s 7 = None /\ result_of decided_s 7 = Some the_result /\
  exists voters, NoDup voters /\ threshold_of split_s <= vec_len voters /\
    forall a, a ∈ voters -> vote_of decided_s 7 a = Some (result_vote the_result).
Proof.
  assert (oexec (snd carol_vote) (fst carol_vote) split_s = Ok tt decided_s) as Hr by oruns.
  assert (result_of split_s 7 = None) as H0 by (vm_compute; reflexivity).
  assert (result_of decided_s 7 = Some the_result) as H1 by (vm_compute; reflexivity).
  split; [exact H0|]. split; [exact H1|].
  destruct (result_provenance the_oracle no_swap (snd carol_vote) (fst carol_vote) split_s decided_s 7 the_result
              split_reachable Hr H0 H1) as [Hadm|Hvote].
  - exfalso. destruct Hadm as (admin & Ha & Hau). vm_compute in Ha. injection Ha as <-.
    vm_compute in Hau. discriminate Hau.
  - destruct Hvote as (o & g & pl & r & ms & voters & _ & _ & _ & _ & Hnd & _ & Hth & Hall).
    exists voters. split; [exact Hnd|]. split; [exact Hth|exact Hall].
Defined.

Definition late_s : OLState := ostep decided_s bob_vote.

Lemma result_stable_witness :
  result_of decided_s 7 = Some the_result /\
  (result_of late_s 7 = Some the_result \/
   snd bob_vote = ODelete 7 /\ signed_by_admin (fst bob_vote) decided_s /\ running decided_s /\
   result_of late_s 7 = None).
Proof.
  assert (oexec (snd bob_vote) (fst bob_vote) decided_s = Ok tt late_s) as Hr by oruns.
  assert (result_of decided_s 7 = Some the_result) as H1 by (vm_compute; reflexivity).
  split; [exact H1|].
  exact (result_stable (snd bob_vote) (fst bob_vote) decided_s late_s 7 the_result Hr H1).
Defined.

Lemma decision_slashes_losers_witness :
  submit_oracle_result carol 7 "abcd1234" Lichess Player2 100 (fst carol_vote) split_s = Ok tt decided_s /\
  registration decided_s bob = Some (mkOracleRegistration bob 90 xlm) /\
  registration decided_s alice = registration split_s alice.
Proof.
  assert (submit_oracle_result carol 7 "abcd1234" Lichess Player2 100 (fst carol_vote) split_s
          = Ok tt decided_s) as Hr by oruns.
  split; [exact Hr|].
  destruct (decision_slashes_losers the_oracle no_swap split_s carol 7 "abcd1234" Lichess Player2 100
              (fst carol_vote) decided_s the_result split_reachable Hr) as [Hlost Hkept].
  - vm_compute. reflexivity.
  - vm_compute. reflexivity.
  - assert (candidates (default empty_ballot (ballot split_s 7)) =
            [mkCandidateTally "abcd1234" Lichess Player1 [bob];
             mkCandidateTally "abcd1234" Lichess Player2 [alice]]) as Hold by (vm_compute; reflexivity).
    cbv zeta in Hlost, Hkept. rewrite Hold in Hlost, Hkept. split.
    + rewrite Hlost; [vm_compute; reflexivity|].
      exists (mkCandidateTally "abcd1234" Lichess Player1 [bob]).
      split; [left|split; [discriminate|left]].
    + apply Hkept. intros (c & Hc & Hne & Ha).
      apply elem_of_cons in Hc as [->|Hc].
      * cbn in Ha. apply list_elem_of_singleton in Ha. discriminate Ha.
      * apply list_elem_of_singleton in Hc as ->. apply Hne. reflexivity.
Defined.

(** Bob changes his mind, on a match where his vote is recorded. *)
Definition bob_again : Env * OCall := (oat 6 60 [bob], OVote bob 7 "abcd1234" Lichess Draw 100).
Definition equivocated_s : OLState := ostep one_vote_s bob_again.

Lemma bad_vote_penalty_witness :
  submit_oracle_result bob 7 "abcd1234" Lichess Draw 100 (fst bob_again) one_vote_s = Ok tt equivocated_s /\
  registration equivocated_s bob = Some (mkOracleRegistration bob 0 xlm).
Proof.
  assert (submit_oracle_result bob 7 "abcd1234" Lichess Draw 100 (fst bob_again) one_vote_s
          = Ok tt equivocated_s) as Hr by oruns.
  split; [exact Hr|].
  destruct (bad_vote_penalty bob 7 "abcd1234" Lichess Draw 100 (fst bob_again) one_vote_s equivocated_s Hr)
    as (_ & reg & Hreg & _ & Hcase).
  - right. vm_compute. exists (mkOracleVoteRecord "abcd1234" Lichess Player1). reflexivity.
  - assert (result_of one_vote_s 7 = None) as H0 by (vm_compute; reflexivity).
    assert (vote_of one_vote_s 7 bob = Some (mkOracleVoteRecord "abcd1234" Lichess Player1)) as H1
      by (vm_compute; reflexivity).
    rewrite H0, H1 in Hcase. destruct Hcase as (_ & Hreg' & _). rewrite Hreg'.
    vm_compute in Hreg. injection Hreg as <-. reflexivity.
Defined.

(** ** Results in batches, staged slashes, limits, metrics *)

Definition the_batch : list BatchResultEntry :=
  [mkBatchResultEntry 20 "game0001" Lichess Player1 None; mkBatchResultEntry 21 "game0002" Lichess Draw None].
Definition batched_s : OLState := ostep ready_s (oat 5 50 [the_admin], OSubmitBatch the_batch).

Lemma batch_effect_witness :
  submit_batch_results the_batch (oat 5 50 [the_admin]) ready_s = Ok tt batched_s /\
  exists admin, inst ready_s DAdmin = Some admin /\
    submissions batched_s admin = submissions ready_s admin ++ map (batch_submission (oat 5 50 [the_admin])) the_batch.
Proof.
  assert (submit_batch_results the_batch (oat 5 50 [the_admin]) ready_s = Ok tt batched_s) as Hr by oruns.
  split; [exact Hr|].
  destruct (batch_effect the_batch (oat 5 50 [the_admin]) ready_s batched_s Hr)
    as (_ & _ & _ & _ & _ & admin & Ha & _ & _ & _ & Hs).
  exists admin. split; [exact Ha|exact Hs].
Defined.

Lemma slash_grace_respected_witness :
  slash_oracle alice 3 40 (oat 8 80 [the_admin]) decided_s = Ok tt staged_s /\
  invoke (finalize_slash alice 3) (oat 17 170 []) staged_s = (Failed SlashGracePeriodNotElapsed, staged_s).
Proof.
  assert (slash_oracle alice 3 40 (oat 8 80 [the_admin]) decided_s = Ok tt staged_s) as Hr by oruns.
  split; [exact Hr|].
  apply (slash_grace_respected alice 3 40 (oat 8 80 [the_admin]) decided_s staged_s (oat 17 170 []) Hr).
  vm_compute. reflexivity.
Defined.

Definition taken_s : OLState := ostep staged_s (oat 18 180 [], OFinalizeSlash alice 3).

Lemma finalize_slash_effect_witness :
  finalize_slash alice 3 (oat 18 180 []) staged_s = Ok tt taken_s /\
  exists r, registration staged_s alice = Some r /\ registration taken_s alice = Some (with_stake r 60).
Proof.
  assert (finalize_slash alice 3 (oat 18 180 []) staged_s = Ok tt taken_s) as Hr by oruns.
  split; [exact Hr|].
  destruct (finalize_slash_effect alice 3 (oat 18 180 []) staged_s taken_s Hr)
    as (admin & p & r & _ & Hp & Hreg & _ & Hreg' & _).
  exists r. split; [exact Hreg|]. rewrite Hreg'. vm_compute in Hp, Hreg.
  injection Hp as <-. injection Hreg as <-. reflexivity.
Defined.

Definition limited_s : OLState := snd (invoke (check_oracle_rate_limit alice 3) (oat 9 90 []) staged_s).

Lemma rate_limit_effect_witness :
  check_oracle_rate_limit alice 3 (oat 9 90 []) staged_s = Ok tt limited_s /\
  exists st st', get_oracle_rate_limit_status alice (oat 9 90 []) staged_s = Ok st staged_s /\
    get_oracle_rate_limit_status alice (oat 9 90 []) limited_s = Ok st' limited_s /\
    hourly_used st' = hourly_used st + 3.
Proof.
  assert (check_oracle_rate_limit alice 3 (oat 9 90 []) staged_s = Ok tt limited_s) as Hr by oruns.
  split; [exact Hr|].
  destruct (rate_limit_effect the_oracle no_swap alice 3 (oat 9 90 []) staged_s limited_s staged_reachable
              ltac:(lia) Hr) as (st & st' & H1 & H2 & H3 & _).
  exists st, st'. split; [exact H1|]. split; [exact H2|exact H3].
Defined.

Lemma metrics_consistent_witness :
  exists m, get_oracle_metrics bob (oat 9 90 []) staged_s = Ok m staged_s /\ total_submissions m = 1 /\ metrics_ok m.
Proof.
  destruct (metrics_consistent the_oracle no_swap (oat 9 90 []) staged_s bob staged_reachable) as (m & Hm & Hok).
  exists m. split; [exact Hm|]. split; [|exact Hok]. unfold get_oracle_metrics, Soroban.p_get_or in Hm. apply Ok_value in Hm as <-.
  vm_compute. reflexivity.
Defined.

(** ** Swaps *)

(** A rate of one for one, and enough of the output token in the contract. *)
Definition rates : list (Env * OCall) :=
  [(oat 9 90 [the_admin], OSetRate usdc xlm 10000000)].
Definition rated_s : OLState := oplay rates staged_s.
Definition swap_env : Env := oat 10 100 [the_treasury].
Definition swapped_s : OLState := ostep rated_s (swap_env, OSwap the_treasury usdc xlm 200 200 the_treasury).

Lemma swap_effect_witness :
  swap the_treasury usdc xlm 200 200 the_treasury swap_env rated_s = Ok tt swapped_s /\
  exists out e, swap_output rated_s usdc xlm 200 = Some (out, e) /\ 200 <= out.
Proof.
  assert (swap the_treasury usdc xlm 200 200 the_treasury swap_env rated_s = Ok tt swapped_s) as Hr by oruns.
  split; [exact Hr|].
  destruct (swap_effect the_treasury usdc xlm 200 200 the_treasury swap_env rated_s swapped_s Hr)
    as (_ & _ & (out & e & Ho & Hm & _) & _).
  exists out, e. split; [exact Ho|exact Hm].
Defined.

Lemma oracle_implements_rates_witness : RateOracle.RateOracleLaws (Net Ledger).
Proof. exact (oracle_implements_rates (W:=Ledger)). Defined.

(** ** Runs that show defects *)

(** A swap pays out of the stakes: the oracle contract keeps the oracles'
    stakes and the swap reserves in one balance.  In this run three oracles have
    staked (290 left after a slash); a stranger swaps 200 of another token, which
    empties the contract down to 90, and the slash of 40 plus the equivocation of
    the three oracles can no longer all be paid. *)
Theorem swap_drains_stakes :
  oreplies (rates ++ [(swap_env, OSwap the_treasury usdc xlm 200 200 the_treasury)]) staged_s
    = [Done tt; Done tt] /\
  total_stake swapped_s xlm = 290 /\ token_balance (world swapped_s) xlm the_oracle = 90.
Proof. vm_compute. split; [reflexivity|]. split; reflexivity. Qed.

(** A deleted result cannot be corrected by its own voters: after the admin
    deletes a wrong result, an oracle that votes for the right one is still held
    to its first vote and loses its whole stake for equivocation. *)
Theorem correction_slashed :
  let s := ostep decided_s (oat 8 80 [the_admin], ODelete 7) in
  let s' := ostep s (oat 9 90 [carol], OVote carol 7 "abcd1234" Lichess Player1 100) in
  oreplies [(oat 8 80 [the_admin], ODelete 7);
            (oat 9 90 [carol], OVote carol 7 "abcd1234" Lichess Player1 100)] decided_s
    = [Done tt; Done tt] /\
  registration s carol = Some (mkOracleRegistration carol 100 xlm) /\
  registration s' carol = Some (mkOracleRegistration carol 0 xlm) /\ result_of s' 7 = None.
Proof. vm_compute. repeat split. Qed.
