(* ===== verification/Composition.v ===== *)
(** The escrow and the oracle contract running together on one ledger ([Net]): a
    two-token match whose winner is paid by the oracle contract's [swap]. *)
From stdpp Require Import base list numbers strings relations.
From Stdlib Require Import ZArith Lia.
From S2P Require Import OracleTypes OracleLimits OracleStakes OracleResults OracleCalls.
From S2P Require Import OracleNet OracleWitnesses.
From S2P Require Import Prelude Soroban EscrowTypes Config Tokens Players MatchIndex Snapshots.
From S2P Require Import RateOracle Rotation Matches Settlement Refunds.
From S2P Require Import Disputes Governance Ledger Core Lifecycle Simulation Calls.
From S2P Require Import Solvency Invariants Footprint.

Abbreviation NState := (State (Net Ledger)).

(** The oracle contract, initialised, with a stake of 500 of the second token and a
    rate of two for one. *)
Definition deployed : OState Ledger :=
  oplay [(oat 1 10 [the_admin], OInitialize the_admin);
         (oat 1 10 [carol], ORegister carol 500 usdc);
         (oat 1 10 [the_admin], OSetRate xlm usdc 20000000)] ofresh.

Definition net0 : Net Ledger :=
  mkNet (mkLedger (fun t a => if a =a escrow then 0 else bal (world deployed) t a) 0
           (fun _ _ => None) (fun _ => []))
        (fun a => if a =a the_oracle then Some deployed else None).

Definition nstep (s : NState) (ec : Env * Call) : NState :=
  snd (invoke (exec (snd ec)) (fst ec) s).
Fixpoint nreplies (cs : list (Env * Call)) (s : NState) : list (reply Error unit) :=
  match cs with
  | [] => []
  | ec :: rest => fst (invoke (exec (snd ec)) (fst ec) s) :: nreplies rest (nstep s ec)
  end.
Definition nplay (cs : list (Env * Call)) (s : NState) : NState := foldl nstep s cs.

Definition nstarted : NState :=
  snd (invoke (initialize the_oracle the_admin) (at_ 1 10 [the_admin]) (init_state net0)).

Definition two_token_match : list (Env * Call) :=
  [(at_ 1 10 [alice], CreateMatchWithConversion alice bob 50 xlm usdc 20000000 "abcd1234" Lichess);
   (at_ 2 20 [alice], Deposit 0 alice);
   (at_ 2 20 [bob], Deposit 0 bob);
   (at_ 3 30 [bob], SetPreferredPayoutToken bob (Some usdc));
   (at_ 4 40 [the_oracle], SubmitResult 0 WPlayer2 the_oracle None);
   (at_ 500 1000000 [bob], ClaimVestedPayout 0 bob)].

