(* ===== verification/Text.v ===== *)
(** Text as the services read it: the Rust string functions their code calls, on
    strings of the bytes of their UTF-8 encoding.  The character classes are the ASCII
    ones the code asks for; [str::trim] strips the white space of Unicode.  Module
    [TxHash] is [contracts/common/src/tx_hash.rs]. *)
From stdpp Require Import base list strings.
From Stdlib Require Import ZArith Lia Ascii.
From S2P Require Import Prelude.

Local Open Scope Z_scope.

Definition code (c : ascii) : Z := Z.of_nat (nat_of_ascii c).

Definition is_ascii_digit (c : ascii) : bool := (48 <=? code c) && (code c <=? 57).
Definition is_ascii_uppercase (c : ascii) : bool := (65 <=? code c) && (code c <=? 90).
Definition is_ascii_lowercase (c : ascii) : bool := (97 <=? code c) && (code c <=? 122).
Definition is_ascii_alphanumeric (c : ascii) : bool :=
  is_ascii_digit c || is_ascii_uppercase c || is_ascii_lowercase c.
Definition is_ascii_hexdigit (c : ascii) : bool :=
  is_ascii_digit c || ((65 <=? code c) && (code c <=? 70))
  || ((97 <=? code c) && (code c <=? 102)).
Definition is_whitespace (c : ascii) : bool :=
  ((9 <=? code c) && (code c <=? 13)) || (code c =? 32).

Definition to_ascii_lowercase (c : ascii) : ascii :=
  if is_ascii_uppercase c then ascii_of_nat (nat_of_ascii c + 32) else c.

Notation chars := String.list_ascii_of_string.
Notation of_chars := String.string_of_list_ascii.

Definition QUOTE : ascii := ascii_of_nat 34.
Definition NEWLINE : ascii := ascii_of_nat 10.

Definition all_chars (p : ascii -> bool) (s : string) : bool := forallb p (chars s).
Definition map_chars (f : ascii -> ascii) (s : string) : string := of_chars (map f (chars s)).

(** [str::parse] of an unsigned integer type with maximum [max]: an optional plus
    sign, then at least one digit, within the range. *)
Fixpoint parse_digits (max acc : Z) (l : list ascii) : option Z :=
  match l with
  | [] => Some acc
  | c :: rest =>
      if is_ascii_digit c then
        let acc := acc * 10 + (code c - 48) in
        if acc <=? max then parse_digits max acc rest else None
      else None
  end.
Definition parse_uint (max : Z) (s : string) : option Z :=
  match chars s with
  | [] => None
  | c :: rest =>
      if bool_decide (c = "+"%char)
      then match rest with [] => None | _ => parse_digits max 0 rest end
      else parse_digits max 0 (c :: rest)
  end.
Definition parse_u64 : string -> option Z := parse_uint u64_max.
Definition parse_u8 : string -> option Z := parse_uint u8_max.


Definition i64_min : Z := -9223372036854775808.
Definition i64_max : Z := 9223372036854775807.

(** The text of the [ParseIntError] of a string that is not an unsigned integer. *)
Fixpoint digits_error (max acc : Z) (l : list ascii) : string :=
  match l with
  | [] => ""
  | c :: l =>
      if negb (is_ascii_digit c) then "invalid digit found in string"
      else if max <? acc * 10 + (code c - 48) then "number too large to fit in target type"
      else digits_error max (acc * 10 + (code c - 48)) l
  end.
Definition parse_error (max : Z) (s : string) : string :=
  match chars s with
  | [] => "cannot parse integer from empty string"
  | [c] => if bool_decide (c = "+"%char) then "invalid digit found in string"
           else digits_error max 0 [c]
  | c :: l => digits_error max 0 (if bool_decide (c = "+"%char) then l else c :: l)
  end.

(** [str::parse::<i64>]: a sign of either kind, then at least one digit. *)
Definition parse_i64 (s : string) : option Z :=
  match chars s with
  | c :: rest =>
      if bool_decide (c = "-"%char)
      then match rest with [] => None | _ => Z.opp <$> parse_digits (i64_max + 1) 0 rest end
      else parse_uint i64_max s
  | [] => None
  end.

(** [str::starts_with] and [str::contains] of a text. *)
Fixpoint starts_with (l m : list ascii) : bool :=
  match m, l with
  | [], _ => true
  | _, [] => false
  | y :: m, x :: l => bool_decide (x = y) && starts_with l m
  end.
Fixpoint contains_chars (l m : list ascii) : bool :=
  starts_with l m || match l with [] => false | _ :: rest => contains_chars rest m end.
Definition contains_text (s m : string) : bool := contains_chars (chars s) (chars m).

(** A string literal pattern with alternatives. *)
Definition one_of (s : string) (names : list string) : bool := existsb (String.eqb s) names.

(** The other white space of Unicode, by its UTF-8 encoding of two or three bytes. *)
Definition is_whitespace2 (c d : ascii) : bool :=
  (code c =? 194) && ((code d =? 133) || (code d =? 160)).
Definition is_whitespace3 (c d e : ascii) : bool :=
  match code c, code d with
  | 225, 154 => code e =? 128
  | 226, 128 => ((128 <=? code e) && (code e <=? 138)) || (code e =? 168) || (code e =? 169)
                || (code e =? 175)
  | 226, 129 => code e =? 159
  | 227, 128 => code e =? 128
  | _, _ => false
  end.

Fixpoint trim_start (l : list ascii) : list ascii :=
  match l with
  | [] => []
  | c :: l1 =>
      if is_whitespace c then trim_start l1
      else match l1 with
      | [] => l
      | d :: l2 =>
          if is_whitespace2 c d then trim_start l2
          else match l2 with
          | [] => l
          | e :: l3 => if is_whitespace3 c d e then trim_start l3 else l
          end
      end
  end.

(** The same from the end, on the reversed text. *)
Fixpoint trim_reversed (l : list ascii) : list ascii :=
  match l with
  | [] => []
  | c :: l1 =>
      if is_whitespace c then trim_reversed l1
      else match l1 with
      | [] => l
      | d :: l2 =>
          if is_whitespace2 d c then trim_reversed l2
          else match l2 with
          | [] => l
          | e :: l3 => if is_whitespace3 e d c then trim_reversed l3 else l
          end
      end
  end.
Definition trim (s : string) : string :=
  of_chars (rev (trim_reversed (rev (trim_start (chars s))))).

(** [str::split(sep)]: the pieces between separators; always at least one. *)
Fixpoint split_chars (sep : ascii) (l : list ascii) : list (list ascii) :=
  match l with
  | [] => [[]]
  | c :: rest =>
      if bool_decide (c = sep) then [] :: split_chars sep rest
      else match split_chars sep rest with
           | [] => [[c]]
           | piece :: pieces => (c :: piece) :: pieces
           end
  end.
Definition split (sep : ascii) (s : string) : list string :=
  map (fun l => of_chars l) (split_chars sep (chars s)).

(** [str::split_once(sep)]: before and after the first separator. *)
Fixpoint split_once_chars (sep : ascii) (l : list ascii) : option (list ascii * list ascii) :=
  match l with
  | [] => None
  | c :: rest =>
      if bool_decide (c = sep) then Some ([], rest)
      else match split_once_chars sep rest with
           | Some (a, b) => Some (c :: a, b)
           | None => None
           end
  end.
Definition split_once (sep : ascii) (s : string) : option (string * string) :=
  match split_once_chars sep (chars s) with
  | Some (a, b) => Some (of_chars a, of_chars b)
  | None => None
  end.

(** [String::from_utf8_lossy]: every maximal piece that is not UTF-8 becomes the
    replacement character. *)
Definition replacement : list ascii := [ascii_of_nat 239; ascii_of_nat 191; ascii_of_nat 189].

Definition is_continuation (c : ascii) : bool := (128 <=? code c) && (code c <=? 191).

(** The second byte that may follow a leading byte of three, and of four. *)
Definition second_of_three (c d : ascii) : bool :=
  ((code c =? 224) && (160 <=? code d) && (code d <=? 191))
  || ((225 <=? code c) && (code c <=? 236) && is_continuation d)
  || ((code c =? 237) && (128 <=? code d) && (code d <=? 159))
  || ((238 <=? code c) && (code c <=? 239) && is_continuation d).
Definition second_of_four (c d : ascii) : bool :=
  ((code c =? 240) && (144 <=? code d) && (code d <=? 191))
  || ((241 <=? code c) && (code c <=? 243) && is_continuation d)
  || ((code c =? 244) && (128 <=? code d) && (code d <=? 143)).

Definition utf8_char_width (c : ascii) : Z :=
  if code c <? 128 then 1
  else if (194 <=? code c) && (code c <=? 223) then 2
  else if (224 <=? code c) && (code c <=? 239) then 3
  else if (240 <=? code c) && (code c <=? 244) then 4
  else 0.

Fixpoint utf8_lossy (l : list ascii) : list ascii :=
  match l with
  | [] => []
  | c :: l1 =>
      match utf8_char_width c with
      | 1 => c :: utf8_lossy l1
      | 2 =>
          match l1 with
          | d :: l2 =>
              if is_continuation d then c :: d :: utf8_lossy l2 else replacement ++ utf8_lossy l1
          | [] => replacement
          end
      | 3 =>
          match l1 with
          | d :: l2 =>
              if second_of_three c d then
                match l2 with
                | e :: l3 =>
                    if is_continuation e then c :: d :: e :: utf8_lossy l3
                    else replacement ++ utf8_lossy l2
                | [] => replacement
                end
              else replacement ++ utf8_lossy l1
          | [] => replacement
          end
      | 4 =>
          match l1 with
          | d :: l2 =>
              if second_of_four c d then
                match l2 with
                | e :: l3 =>
                    if is_continuation e then
                      match l3 with
                      | f :: l4 =>
                          if is_continuation f then c :: d :: e :: f :: utf8_lossy l4
                          else replacement ++ utf8_lossy l3
                      | [] => replacement
                      end
                    else replacement ++ utf8_lossy l2
                | [] => replacement
                end
              else replacement ++ utf8_lossy l1
          | [] => replacement
          end
      | _ => replacement ++ utf8_lossy l1
      end
  end.
Definition from_utf8_lossy (l : list ascii) : string := of_chars (utf8_lossy l).

(** ** Lemmas *)

Lemma code_range c : 0 <= code c < 256.
Proof. unfold code. pose proof (nat_ascii_bounded c). lia. Qed.

Lemma code_ascii n : (n < 256)%nat -> code (ascii_of_nat n) = Z.of_nat n.
Proof. intros Hn. unfold code. by rewrite nat_ascii_embedding. Qed.

Lemma code_lowercase c :
  code (to_ascii_lowercase c) = if is_ascii_uppercase c then code c + 32 else code c.
Proof.
  unfold to_ascii_lowercase. destruct (is_ascii_uppercase c) eqn:E; [|done].
  unfold is_ascii_uppercase in E. zbool. unfold code in *. rewrite nat_ascii_embedding; lia.
Qed.

Lemma lowercase_idem c : to_ascii_lowercase (to_ascii_lowercase c) = to_ascii_lowercase c.
Proof.
  unfold to_ascii_lowercase at 1. destruct (is_ascii_uppercase _) eqn:E; [|done].
  exfalso. unfold is_ascii_uppercase in E at 1. rewrite code_lowercase in E.
  destruct (is_ascii_uppercase c) eqn:Ec; unfold is_ascii_uppercase in *; zbool; [lia|].
  apply andb_false_iff in Ec as [Ec|Ec]; zbool; lia.
Qed.

Lemma hexdigit_lowercase c :
  is_ascii_hexdigit (to_ascii_lowercase c) = is_ascii_hexdigit c.
Proof.
  unfold is_ascii_hexdigit, is_ascii_digit. rewrite code_lowercase.
  destruct (is_ascii_uppercase c) eqn:E; [|done]. unfold is_ascii_uppercase in E. zbool.
  apply eq_bool_prop_intro. rewrite !orb_True, !andb_True, !Is_true_true, !Z.leb_le. lia.
Qed.

Lemma parse_digits_range max acc l n :
  0 <= acc <= max -> parse_digits max acc l = Some n -> 0 <= n <= max.
Proof.
  revert acc. induction l as [|c l IH]; intros acc Ha; cbn; [intros [= <-]; done|].
  destruct (is_ascii_digit c) eqn:Ed; [|done]. unfold is_ascii_digit in Ed. zbool.
  case_match eqn:E; [|done]. zbool. apply IH. lia.
Qed.

Lemma starts_with_spec l m : starts_with l m = true <-> exists b, l = m ++ b.
Proof.
  revert l. induction m as [|y m IH]; intros [|x l]; cbn.
  - split; [by exists []|done].
  - split; [intros _; by exists (x :: l)|done].
  - split; [done|intros [b [=]]].
  - rewrite andb_true_iff, IH, bool_decide_eq_true. split.
    + intros [-> [b ->]]. by exists b.
    + intros [b [= -> ->]]. split; [done|by exists b].
Qed.

Lemma contains_text_spec l m : contains_chars l m = true <-> exists a b, l = a ++ m ++ b.
Proof.
  induction l as [|x l IH]; cbn [contains_chars]; rewrite orb_true_iff, starts_with_spec.
  - split; [intros [[b ->]|]; [by exists [], b|done]|].
    intros (a & b & E). left. destruct a as [|? ?]; [|done]. by exists b.
  - rewrite IH. split.
    + intros [[b ->]|(a & b & ->)]; [by exists [], b|by exists (x :: a), b].
    + intros ([|y a] & b & E); [left; by exists b|right]. injection E as -> ->. by exists a, b.
Qed.

Lemma parse_uint_range max x n : 0 <= max -> parse_uint max x = Some n -> 0 <= n <= max.
Proof.
  intros Hm. unfold parse_uint. destruct (chars x) as [|c l]; [done|].
  case_match; [destruct l; [done|]|]; apply parse_digits_range; lia.
Qed.

Lemma chars_map_chars f s : chars (map_chars f s) = map f (chars s).
Proof. unfold map_chars. apply String.list_ascii_of_string_of_list_ascii. Qed.

Lemma map_chars_length f s : String.length (map_chars f s) = String.length s.
Proof. unfold map_chars. induction s as [|c s IH]; cbn; [done|]. f_equal. apply IH. Qed.

Lemma map_chars_idem f s :
  (forall c, f (f c) = f c) -> map_chars f (map_chars f s) = map_chars f s.
Proof.
  intros Hf. unfold map_chars at 1. rewrite chars_map_chars, map_map. unfold map_chars.
  f_equal. apply map_ext. done.
Qed.

Lemma split_once_cons sep l rest :
  ~ In sep l -> split_once_chars sep (l ++ sep :: rest) = Some (l, rest).
Proof.
  induction l as [|c l IH]; cbn; intros H.
  - by rewrite bool_decide_true.
  - rewrite bool_decide_false by (intros ->; auto). by rewrite IH by auto.
Qed.

Lemma split_once_some sep (l : list ascii) : forall a b,
  split_once_chars sep l = Some (a, b) -> l = (a ++ sep :: b)%list /\ ~ In sep a.
Proof.
  induction l as [|c l IH]; intros a b; cbn [split_once_chars]; [done|].
  case_bool_decide as Hc; [intros [= <- <-]; subst; by split; [|intros []]|].
  destruct (split_once_chars sep l) as [[a0 b0]|]; [|done]. intros [= <- <-].
  destruct (IH a0 b0 eq_refl) as [-> Hn]. split; [done|]. by intros [|].
Qed.

(** ** JSON values *)

Inductive Value :=
  | VNull
  | VBool (b : bool)
  | VNumber (n : Z)
  | VFloat
  | VString (s : string)
  | VArray (l : list Value)
  | VObject (fields : list (string * Value)).

Definition get_field (key : string) (v : Value) : option Value :=
  match v with
  | VObject fields => snd <$> find (fun kv => String.eqb kv.1 key) fields
  | _ => None
  end.
Definition as_u64_value (v : Value) : option Z :=
  match v with VNumber n => if in_range 0 u64_max n then Some n else None | _ => None end.
Definition as_i64_value (v : Value) : option Z :=
  match v with VNumber n => if in_range i64_min i64_max n then Some n else None | _ => None end.
Definition as_str (v : Value) : option string :=
  match v with VString s => Some s | _ => None end.
Definition as_array (v : Value) : option (list Value) :=
  match v with VArray l => Some l | _ => None end.

Module TxHash.

Definition TX_HASH_LEN : nat := 64.

Inductive TxHashError := Empty | InvalidLength | InvalidCharacter.

(** [to_lowercase] only meets ASCII here. *)
Definition validate_tx_hash (hash : string) : TxHashError + string :=
  if String.eqb hash "" then inl Empty
  else if negb (Nat.eqb (String.length hash) TX_HASH_LEN) then inl InvalidLength
  else if negb (all_chars is_ascii_hexdigit hash) then inl InvalidCharacter
  else inr (map_chars to_ascii_lowercase hash).

Lemma all_chars_map p f s : (forall c, p (f c) = p c) ->
  all_chars p (map_chars f s) = all_chars p s.
Proof.
  intros Hf. unfold all_chars. rewrite chars_map_chars. induction (chars s) as [|c l IH]; cbn;
    [done|]. by rewrite Hf, IH.
Qed.

Lemma empty_length s : String.eqb s "" = Nat.eqb (String.length s) 0.
Proof. by destruct s. Qed.

(** Validation depends on a hash only up to the case of its letters. *)
Lemma validate_lowercase h :
  validate_tx_hash (map_chars to_ascii_lowercase h) = validate_tx_hash h.
Proof.
  unfold validate_tx_hash. rewrite !empty_length, map_chars_length.
  rewrite (all_chars_map _ _ _ hexdigit_lowercase).
  by rewrite (map_chars_idem _ _ lowercase_idem).
Qed.

Lemma validate_ok h r :
  validate_tx_hash h = inr r <->
  String.length h = TX_HASH_LEN /\ all_chars is_ascii_hexdigit h = true /\
  r = map_chars to_ascii_lowercase h.
Proof.
  unfold validate_tx_hash. rewrite empty_length.
  destruct (Nat.eqb_spec (String.length h) 0) as [E|E]; [split; [done|intros [E' _]; by rewrite E in E']|].
  destruct (Nat.eqb_spec (String.length h) TX_HASH_LEN) as [E1|E1]; cbn; [|split; [done|by intros [? _]]].
  destruct (all_chars is_ascii_hexdigit h); cbn; [|split; [done|by intros (_ & ? & _)]].
  split; [intros [= <-]|intros (_ & _ & ->)]; done.
Qed.

(** a hash is accepted exactly when it has 64 hexadecimal characters, in either
    case; what is returned is its lowercase form, which validates to itself, and two
    hashes get the same canonical form exactly when they differ in case only. *)
Theorem tx_hash_canonical h :
  ((exists r, validate_tx_hash h = inr r) <->
     String.length h = TX_HASH_LEN /\ all_chars is_ascii_hexdigit h = true) /\
  (forall r, validate_tx_hash h = inr r -> validate_tx_hash r = inr r) /\
  (forall r h2, validate_tx_hash h = inr r ->
     validate_tx_hash h2 = inr r <->
     map_chars to_ascii_lowercase h2 = map_chars to_ascii_lowercase h).
Proof.
  split_and!.
  - setoid_rewrite validate_ok. naive_solver.
  - intros r Hr. pose proof (proj1 (validate_ok _ _) Hr) as (_ & _ & ->).
    by rewrite validate_lowercase.
  - intros r h2 Hr. pose proof (proj1 (validate_ok _ _) Hr) as (_ & _ & ->). split.
    + intros H2. by apply validate_ok in H2 as (_ & _ & ->).
    + intros Heq. by rewrite <-validate_lowercase, Heq, validate_lowercase.
Qed.

End TxHash.
