(* ===== verification/F64.v ===== *)
(** Rust's [f64] and the conversions the services use: [std::time::Duration] to and
    from seconds, [f64::min], [f64::max], [ceil], [as u64].  The operations are those
    of the Standard Library's specification of binary floating point at 53 bits; the
    lemmas say which results are well formed, how the order of floats follows the order
    of their values, and that rounding never crosses a representable number. *)
From stdpp Require Import base tactics.
From Stdlib Require Import ZArith Lia Bool SpecFloat.
From S2P Require Import Prelude.

Local Open Scope Z_scope.

(** ** Operations *)

Abbreviation f64 := spec_float.

Definition f64_of (z : Z) : f64 := binary_normalize 53 1024 z 0 false.
Definition f64_add : f64 -> f64 -> f64 := SFadd 53 1024.
Definition f64_sub : f64 -> f64 -> f64 := SFsub 53 1024.
Definition f64_mul : f64 -> f64 -> f64 := SFmul 53 1024.
Definition f64_div : f64 -> f64 -> f64 := SFdiv 53 1024.

Definition is_nan (x : f64) : bool := match x with S754_nan => true | _ => false end.

(** [f64::min] and [f64::max] ignore a NaN. *)
Definition f64_min (a b : f64) : f64 :=
  if is_nan a then b else if is_nan b then a else if SFltb b a then b else a.
Definition f64_max (a b : f64) : f64 :=
  if is_nan a then b else if is_nan b then a else if SFltb a b then b else a.

(** [m * 2 ^ e] rounded down and up. *)
Definition floor_of (m e : Z) : Z := if 0 <=? e then m * 2 ^ e else m / 2 ^ (- e).
Definition ceil_of (m e : Z) : Z := - floor_of (- m) e.

(** [x as u64]: towards zero, saturating, NaN to 0. *)
Definition as_u64 (x : f64) : Z :=
  match x with
  | S754_finite false m e => Z.min u64_max (floor_of (Zpos m) e)
  | S754_infinity false => u64_max
  | _ => 0
  end.

(** [x.ceil() as u64]. *)
Definition ceil_as_u64 (x : f64) : Z :=
  match x with
  | S754_finite false m e => Z.min u64_max (ceil_of (Zpos m) e)
  | S754_infinity false => u64_max
  | _ => 0
  end.

(** ** Durations, in nanoseconds *)

Definition NANOS_PER_SEC : Z := 1000000000.

(** [Duration::as_secs_f64]. *)
Definition as_secs_f64 (d : Z) : f64 :=
  f64_add (f64_of (d / NANOS_PER_SEC))
          (f64_div (f64_of (d mod NANOS_PER_SEC)) (f64_of NANOS_PER_SEC)).

(** The nearest integer to [n / d], halves to even. *)
Definition nearest_even (n d : Z) : Z :=
  let q := n / d in
  match 2 * (n mod d) ?= d with
  | Lt => q
  | Gt => q + 1
  | Eq => if Z.even q then q else q + 1
  end.

(** [Duration::from_secs_f64]: to the nearest nanosecond; [None] when it panics
    (negative, too large or not finite). *)
Definition from_secs_f64 (x : f64) : option Z :=
  match x with
  | S754_zero _ => Some 0
  | S754_finite false m e =>
      let nanos := Zpos m * NANOS_PER_SEC in
      let d := if 0 <=? e then nanos * 2 ^ e else nearest_even nanos (2 ^ (- e)) in
      if d / NANOS_PER_SEC <=? u64_max then Some d else None
  | _ => None
  end.

(** ** Digits, shifts and rounding *)

Abbreviation fexp := (fexp 53 1024).
Abbreviation canonical m e := (canonical_mantissa 53 1024 m e = true).
Abbreviation valid x := (valid_binary 53 1024 x = true).

Lemma digits_log2 p : Zpos (digits2_pos p) = Z.log2 (Zpos p) + 1.
Proof.
  induction p as [p IH|p IH|]; [..|done]; cbn [digits2_pos]; rewrite Pos2Z.inj_succ, IH.
  - by rewrite (Pos2Z.inj_xI p), Z.log2_succ_double by done.
  - by rewrite (Pos2Z.inj_xO p), Z.log2_double by done.
Qed.

Lemma Zdigits2_log2 m : 0 < m -> Zdigits2 m = Z.log2 m + 1.
Proof. destruct m as [|p|p]; [done| |done]. intros _. apply digits_log2. Qed.

Lemma canonical_spec m e : canonical m e <-> e = fexp (Z.log2 (Zpos m) + 1 + e).
Proof. unfold canonical_mantissa. rewrite Z.eqb_eq, digits_log2. lia. Qed.

Lemma canonical_emin m e : canonical m e -> -1074 <= e.
Proof. rewrite canonical_spec. unfold SpecFloat.fexp, emin. lia. Qed.

Lemma shr_1_half r : 0 <= shr_m r -> shr_m (shr_1 r) = shr_m r / 2.
Proof.
  destruct r as [m a b]; cbn [shr_m]. intros Hm.
  destruct m as [|[p|p|]|p]; cbn [shr_1 shr_m]; try done.
  - by rewrite Pos2Z.inj_xI, (Z.mul_comm 2), Z.div_add_l, Z.add_0_r by done.
  - rewrite Pos2Z.inj_xO. by rewrite (Z.mul_comm 2), Z.div_mul.
Qed.

Lemma iter_shr n r : 0 <= shr_m r -> shr_m (iter_pos shr_1 n r) = shr_m r / 2 ^ Zpos n.
Proof.
  revert r. assert (Hd : forall r p, 0 <= shr_m r -> 0 <= shr_m r / 2 ^ Zpos p)
    by (intros; apply Z.div_pos; [done|apply Z.pow_pos_nonneg; lia]).
  assert (Hc : forall r p q, shr_m r / 2 ^ Zpos p / 2 ^ Zpos q = shr_m r / 2 ^ (Zpos p + Zpos q))
    by (intros; rewrite Z.div_div by (apply Z.pow_nonzero || apply Z.pow_pos_nonneg; lia);
        by rewrite <- Z.pow_add_r by lia).
  induction n as [n IH|n IH|]; intros r Hr; cbn [iter_pos]; [..|by apply shr_1_half].
  - assert (H1 : 0 <= shr_m (shr_1 r)) by (rewrite shr_1_half by done; apply Z.div_pos; lia).
    assert (H2 := H1). apply (Hd _ n) in H2. rewrite <- IH in H2 by done.
    rewrite IH, IH, Hc, shr_1_half by done.
    change 2 with (2 ^ 1) at 1. rewrite Z.div_div, <- Z.pow_add_r by (apply Z.pow_nonzero || apply Z.pow_pos_nonneg || lia; lia).
    f_equal. f_equal. lia.
  - assert (H2 := Hr). apply (Hd _ n) in H2. rewrite <- IH in H2 by done.
    rewrite IH, IH, Hc by done. f_equal. f_equal. lia.
Qed.

(** The shift [shr_fexp] makes. *)
Definition shift_of (m e : Z) : Z := Z.max 0 (fexp (Zdigits2 m + e) - e).

Lemma shr_fexp_spec m e l :
  0 <= m ->
  shr_m (fst (shr_fexp 53 1024 m e l)) = m / 2 ^ shift_of m e /\
  snd (shr_fexp 53 1024 m e l) = e + shift_of m e.
Proof.
  intros Hm. unfold shr_fexp, shr, shift_of.
  assert (Hl : shr_m (shr_record_of_loc m l) = m) by (by destruct l as [|[]]).
  destruct (fexp (Zdigits2 m + e) - e) as [|p|p] eqn:E; cbn [fst snd].
  - rewrite Hl, Z.div_1_r. lia.
  - rewrite iter_shr, Hl by (by rewrite Hl). split; [done|lia].
  - rewrite Hl, Z.div_1_r. lia.
Qed.

(** Truncating keeps a number above a representable one. *)
Lemma truncate_ge m e mc ec k :
  0 < m -> canonical mc ec -> 0 <= e + k -> 0 <= ec + k ->
  Zpos mc * 2 ^ (ec + k) <= m * 2 ^ (e + k) ->
  Zpos mc * 2 ^ (ec + k) <= m / 2 ^ shift_of m e * 2 ^ (e + shift_of m e + k).
Proof.
  intros Hm Hc He Hec Hle. apply canonical_spec in Hc.
  set (n := shift_of m e). assert (Hn : 0 <= n) by (unfold n, shift_of; lia).
  assert (P : 0 < 2 ^ n) by (by apply Z.pow_pos_nonneg).
  destruct (Z.le_gt_cases (e + n) ec) as [Hcase|Hcase].
  - replace (ec + k) with (ec - (e + n) + (e + n + k)) in * by lia.
    rewrite Z.pow_add_r, Z.mul_assoc in * by lia. apply Z.mul_le_mono_nonneg_r; [lia|].
    apply Z.div_le_lower_bound; [done|].
    replace (e + n + k) with (n + (e + k)) in Hle by lia. rewrite (Z.pow_add_r 2 n) in Hle by lia.
    apply (Z.mul_le_mono_pos_r _ _ (2 ^ (e + k))); [apply Z.pow_pos_nonneg; lia|]. nia.
  - destruct (Z.eq_dec n 0) as [->|Hn0]; [by rewrite Z.div_1_r, Z.add_0_r|].
    assert (En : e + n = fexp (Z.log2 m + 1 + e))
      by (revert Hn0; unfold n, shift_of; rewrite Zdigits2_log2 by done; lia).
    assert (Hlog : Z.log2 (Zpos mc) + 1 + ec <= Z.log2 m + e /\ n <= Z.log2 m)
      by (revert Hcase En; rewrite Hc at 1; unfold SpecFloat.fexp, emin; lia).
    destruct Hlog as [Hlog Hnm].
    assert (Hmc := Z.log2_spec (Zpos mc) ltac:(lia)). assert (Hms := Z.log2_spec m Hm).
    assert (Hlm := Z.log2_nonneg (Zpos mc)).
    transitivity (2 ^ (Z.log2 (Zpos mc) + 1 + ec + k)).
    { replace (Z.log2 (Zpos mc) + 1 + ec + k) with (Z.succ (Z.log2 (Zpos mc)) + (ec + k)) by lia.
      rewrite (Z.pow_add_r 2 (Z.succ _)) by lia. apply Z.mul_le_mono_nonneg_r; [|lia].
      apply Z.pow_nonneg; lia. }
    transitivity (2 ^ (Z.log2 m - n) * 2 ^ (e + n + k)).
    { rewrite <- Z.pow_add_r by lia. apply Z.pow_le_mono_r; lia. }
    apply Z.mul_le_mono_nonneg_r; [apply Z.pow_nonneg; lia|].
    apply Z.div_le_lower_bound; [done|]. rewrite <- Z.pow_add_r by lia.
    replace (n + (Z.log2 m - n)) with (Z.log2 m) by lia. apply Hms.
Qed.

(** One step of rounding at a canonical exponent: what is left is canonical too. *)
Lemma truncate_canonical m e p :
  0 < m -> e <= fexp (Z.log2 m + 1 + e) -> m / 2 ^ shift_of m e = Zpos p ->
  canonical p (e + shift_of m e).
Proof.
  intros Hm He Hp. apply canonical_spec. unfold shift_of in *.
  rewrite Zdigits2_log2 in * by done. rewrite Z.max_r in * by lia.
  set (n := fexp (Z.log2 m + 1 + e) - e) in *.
  assert (Hlog : Z.log2 (Zpos p) = Z.log2 m - n /\ n <= Z.log2 m).
  { rewrite <- Hp, <- Z.shiftr_div_pow2 by lia. rewrite Z.log2_shiftr by done.
    assert (~ Z.log2 m < n); [|lia]. intros Hlt.
    rewrite Z.div_small in Hp; [done|]. split; [lia|].
    apply Z.log2_lt_pow2; lia. }
  replace (Z.log2 (Zpos p) + 1 + (e + n)) with (Z.log2 m + 1 + e) by lia. lia.
Qed.

Lemma round_even_ge m l : 0 <= m -> m <= round_nearest_even m l <= m + 1.
Proof. intros Hm. destruct l as [|[]]; cbn; try lia. destruct (Z.even m); lia. Qed.

(** The truncated mantissa, rounded up or not, is at or below its exponent again. *)
Lemma second_round m e m2 :
  0 <= m -> e <= fexp (Zdigits2 m + e) ->
  m / 2 ^ shift_of m e <= m2 <= m / 2 ^ shift_of m e + 1 -> 0 < m2 ->
  e + shift_of m e <= fexp (Z.log2 m2 + 1 + (e + shift_of m e)).
Proof.
  intros Hm He Hm2 Hpos. destruct (m / 2 ^ shift_of m e) as [|p|p] eqn:E; [| |lia].
  - assert (m2 = 1) as -> by lia. cbn [Z.log2].
    destruct (Z.eq_dec m 0) as [->|Hm0].
    { unfold shift_of. cbn [Zdigits2] in *. unfold SpecFloat.fexp, emin in *. lia. }
    apply Z.div_small_iff in E; [|apply Z.pow_nonzero; unfold shift_of; lia].
    destruct E as [[_ E]|E]; [|lia]. apply Z.log2_lt_pow2 in E; [|lia].
    revert E. unfold shift_of. rewrite Zdigits2_log2 in * by lia.
    unfold SpecFloat.fexp, emin in *. lia.
  - assert (Hm0 : 0 < m) by (destruct (Z.eq_dec m 0) as [->|]; [by rewrite Z.div_0_l in E by
      (apply Z.pow_nonzero; unfold shift_of; lia)|lia]).
    rewrite Zdigits2_log2 in He by done.
    assert (Hc := truncate_canonical _ _ _ Hm0 He E). apply canonical_spec in Hc.
    assert (Z.log2 (Zpos p) <= Z.log2 m2) by (apply Z.log2_le_mono; lia).
    rewrite Hc at 1. unfold SpecFloat.fexp, emin. lia.
Qed.

(** What rounding returns: the mantissa and exponent after both steps. *)
Definition rounded (m e : Z) (l : location) : Z * Z :=
  let m1 := m / 2 ^ shift_of m e in
  let e1 := e + shift_of m e in
  let m2 := round_nearest_even m1 (loc_of_shr_record (fst (shr_fexp 53 1024 m e l))) in
  (m2 / 2 ^ shift_of m2 e1, e1 + shift_of m2 e1).

Lemma div_pow2_nonneg m n : 0 <= m -> 0 <= n -> 0 <= m / 2 ^ n.
Proof. intros. apply Z.div_pos; [done|by apply Z.pow_pos_nonneg]. Qed.

Lemma round_aux_eq sx m e l :
  0 <= m ->
  binary_round_aux 53 1024 sx m e l =
  match rounded m e l with
  | (Z0, _) => S754_zero sx
  | (Zpos p, e') => if e' <=? 971 then S754_finite sx p e' else S754_infinity sx
  | _ => S754_nan
  end /\ 0 <= fst (rounded m e l).
Proof.
  intros Hm. unfold binary_round_aux, rounded.
  destruct (shr_fexp_spec m e l Hm) as [H1 H2].
  assert (Hs : forall m e, 0 <= shift_of m e) by (unfold shift_of; lia).
  destruct (shr_fexp 53 1024 m e l) as [r e1]; cbn [fst snd] in *; subst e1.
  rewrite <- H1. assert (Hr : 0 <= shr_m r) by (rewrite H1; by apply div_pow2_nonneg).
  set (m2 := round_nearest_even _ _).
  assert (Hm2 : 0 <= m2) by (pose proof (round_even_ge (shr_m r) (loc_of_shr_record r) Hr); unfold m2; lia).
  destruct (shr_fexp_spec m2 (e + shift_of m e) loc_Exact Hm2) as [H3 H4].
  destruct (shr_fexp _ _ m2 _ _) as [r2 e2]; cbn [fst snd] in *; subst e2.
  rewrite <- H3. split; [done|]. rewrite H3. by apply div_pow2_nonneg.
Qed.

Lemma rounded_canonical m e l p e' :
  0 <= m -> e <= fexp (Zdigits2 m + e) -> rounded m e l = (Zpos p, e') -> canonical p e'.
Proof.
  intros Hm He [= Hp <-].
  assert (Hm1 : 0 <= m / 2 ^ shift_of m e) by (apply div_pow2_nonneg; unfold shift_of; lia).
  set (l' := loc_of_shr_record _) in *.
  pose proof (round_even_ge _ l' Hm1) as Hm2. set (m2 := round_nearest_even _ _) in *.
  assert (0 < m2) by (destruct (Z.eq_dec m2 0) as [E|]; [rewrite E in Hp; by rewrite Z.div_0_l in Hp by
    (apply Z.pow_nonzero; unfold shift_of; lia)|lia]).
  apply truncate_canonical; [done| |done]. by apply second_round.
Qed.

(** Rounding does not cross a representable number. *)
Lemma rounded_ge m e l mc ec k :
  0 <= m -> canonical mc ec -> 0 <= e + k -> 0 <= ec + k ->
  Zpos mc * 2 ^ (ec + k) <= m * 2 ^ (e + k) ->
  Zpos mc * 2 ^ (ec + k) <= fst (rounded m e l) * 2 ^ (snd (rounded m e l) + k).
Proof.
  intros Hm Hc He Hec Hle. cbn [rounded fst snd].
  assert (Hpc : 0 < Zpos mc * 2 ^ (ec + k)) by (apply Z.mul_pos_pos; [done|by apply Z.pow_pos_nonneg]).
  assert (Hm0 : 0 < m) by nia.
  pose proof (truncate_ge _ _ _ _ _ Hm0 Hc He Hec Hle) as Ht.
  set (n := shift_of m e) in *. assert (Hn : 0 <= n) by (unfold n, shift_of; lia).
  assert (Hm1 : 0 <= m / 2 ^ n) by (apply div_pow2_nonneg; lia).
  set (l' := loc_of_shr_record _). pose proof (round_even_ge _ l' Hm1) as Hm2.
  set (m2 := round_nearest_even _ _) in *.
  assert (P : 0 < 2 ^ (e + n + k)) by (apply Z.pow_pos_nonneg; lia).
  apply truncate_ge; [nia|done|lia|done|]. nia.
Qed.

(** ** Values and bounds *)

(** The value of a number that is not negative, scaled by [2 ^ SCALE]: an integer, as
    is the exact product of two numbers. *)
Definition SCALE : Z := 2200.

Definition value (x : f64) : Z :=
  match x with S754_finite false m e => Zpos m * 2 ^ (e + SCALE) | _ => 0 end.

Definition nonneg (x : f64) : bool :=
  match x with
  | S754_zero _ | S754_infinity false | S754_finite false _ _ => true
  | _ => false
  end.

(** [x] is NaN, or well formed and at least [c] (which is scaled). *)
Definition atleast (c : Z) (x : f64) : Prop :=
  is_nan x = true \/
  (valid x /\ nonneg x = true /\ (x = S754_infinity false \/ c <= value x)).

Definition representable (c : Z) : Prop :=
  c <= 0 \/ exists m e, canonical m e /\ c = Zpos m * 2 ^ (e + SCALE).

Lemma atleast_mono c c' x : c' <= c -> atleast c x -> atleast c' x.
Proof. intros Hc [?|(? & ? & [?|?])]; [by left|right..]; split_and!; auto. right; lia. Qed.

Lemma value_nonneg x : 0 <= value x.
Proof. destruct x as [| | |[] m e]; cbn [value]; [done..|].
  apply Z.mul_nonneg_nonneg; [done|by apply Z.pow_nonneg].
Qed.

Lemma atleast_0 x : valid x -> nonneg x = true -> atleast 0 x.
Proof. intros. right. split_and!; auto using value_nonneg. Qed.

Lemma atleast_value x : valid x -> nonneg x = true -> atleast (value x) x.
Proof. intros. right. split_and!; auto with lia. Qed.

Lemma round_aux_atleast c m e l :
  0 <= m -> e <= fexp (Zdigits2 m + e) ->
  (c <= 0 \/ - SCALE <= e /\ representable c /\ c <= m * 2 ^ (e + SCALE)) ->
  atleast c (binary_round_aux 53 1024 false m e l).
Proof.
  intros Hm He Hc. destruct (round_aux_eq false m e l Hm) as [-> Hr].
  assert (Hge : c <= 0 \/ 0 < c <= fst (rounded m e l) * 2 ^ (snd (rounded m e l) + SCALE)).
  { destruct Hc as [Hc|(Hs & [Hc|(mc & ec & Hcan & ->)] & Hle)]; [by left..|right].
    assert (Hec := canonical_emin _ _ Hcan). unfold SCALE in *.
    split; [apply Z.mul_pos_pos; [done|apply Z.pow_pos_nonneg; lia]|].
    apply rounded_ge; [done..|lia|lia|done]. }
  destruct (rounded m e l) as [[|p|p] e'] eqn:E; cbn [fst snd] in *; [| |lia].
  - destruct Hge; [|lia]. right. split_and!; [done..|right; cbn; lia].
  - destruct (Z.leb_spec e' 971) as [Hle|Hle]; [|by right; split_and!; auto].
    right. split_and!; [|done|].
    + cbn. unfold bounded. rewrite (rounded_canonical _ _ _ _ _ Hm He E). by apply Z.leb_le.
    + right. cbn. destruct Hge; [|lia].
      transitivity 0; [done|]. apply Z.mul_nonneg_nonneg; [lia|apply Z.pow_nonneg; lia].
Qed.

Lemma iter_xO m d : Zpos (Pos.iter xO m d) = Zpos m * 2 ^ Zpos d.
Proof.
  induction d as [|d IH] using Pos.peano_ind; [cbn; lia|].
  rewrite Pos.iter_succ, Pos2Z.inj_xO, IH, Pos2Z.inj_succ, Z.pow_succ_r by lia. lia.
Qed.

Lemma shl_align_spec m e e' :
  snd (shl_align m e e') = Z.min e e' /\
  Zpos (fst (shl_align m e e')) = Zpos m * 2 ^ (e - Z.min e e').
Proof.
  unfold shl_align. destruct (e' - e) as [|p|p] eqn:E; cbn [fst snd].
  - rewrite Z.min_l, Z.sub_diag by lia. split; [lia|cbn; lia].
  - rewrite Z.min_l, Z.sub_diag by lia. split; [lia|cbn; lia].
  - rewrite iter_xO, Z.min_r by lia. replace (e - e') with (Zpos p) by lia. done.
Qed.

(** Aligning to the canonical exponent keeps the value. *)
Lemma align_fexp m e :
  let a := shl_align m e (fexp (Zpos (digits2_pos m) + e)) in
  snd a <= fexp (Zdigits2 (Zpos (fst a)) + snd a) /\
  (-1074 <= e -> - SCALE <= snd a /\
   Zpos (fst a) * 2 ^ (snd a + SCALE) = Zpos m * 2 ^ (e + SCALE)).
Proof.
  cbv zeta. set (e' := fexp _). assert (He' : -1074 <= e') by (unfold e', SpecFloat.fexp, emin; lia).
  destruct (shl_align_spec m e e') as [-> Hf]. rewrite Hf. split.
  - rewrite Zdigits2_log2 by (rewrite <- Hf; done). subst e'. rewrite digits_log2 in *.
    destruct (Z.le_ge_cases e (fexp (Z.log2 (Zpos m) + 1 + e))).
    + rewrite Z.min_l, Z.sub_diag, Z.mul_1_r by lia. lia.
    + rewrite Z.min_r by done. rewrite Z.log2_mul_pow2 by lia.
      set (f := fexp (Z.log2 (Zpos m) + 1 + e)) in *.
      replace (e - f + Z.log2 (Zpos m) + 1 + f) with (Z.log2 (Zpos m) + 1 + e) by lia. done.
  - intros He. unfold SCALE in *. split; [lia|].
    rewrite <- Z.mul_assoc, <- Z.pow_add_r by lia. f_equal. f_equal. lia.
Qed.

Lemma round_atleast c m e :
  (c <= 0 \/ -1074 <= e /\ representable c /\ c <= Zpos m * 2 ^ (e + SCALE)) ->
  atleast c (binary_round 53 1024 false m e).
Proof.
  intros Hc. unfold binary_round. destruct (align_fexp m e) as [Ha Hv].
  destruct (shl_align m e _) as [mz ez]; cbn [fst snd] in *.
  apply round_aux_atleast; [done..|].
  destruct Hc as [Hc|(He & Hr & Hle)]; [by left|right].
  destruct (Hv He) as [? E]. rewrite E. done.
Qed.

Lemma normalize_atleast c m e :
  0 <= m -> (c <= 0 \/ -1074 <= e /\ representable c /\ c <= m * 2 ^ (e + SCALE)) ->
  atleast c (binary_normalize 53 1024 m e false).
Proof.
  destruct m as [|m|m]; [|intros _; apply round_atleast|lia]. intros _ Hc.
  right. split_and!; [done..|right; cbn; lia].
Qed.

(** ** The operations *)

Lemma valid_finite s m e : valid (S754_finite s m e) -> canonical m e.
Proof. cbn. unfold bounded. by intros [? _]%andb_prop. Qed.

Lemma sum_scaled m e ez : ez <= e -> -1074 <= ez ->
  Zpos m * 2 ^ (e - ez) * 2 ^ (ez + SCALE) = Zpos m * 2 ^ (e + SCALE).
Proof.
  intros H1 H2. unfold SCALE. rewrite <- Z.mul_assoc, <- Z.pow_add_r by lia.
  f_equal. f_equal. lia.
Qed.

Lemma add_atleast cx cy c x y :
  0 <= cx -> 0 <= cy -> atleast cx x -> atleast cy y -> representable c -> c <= cx + cy ->
  atleast c (f64_add x y).
Proof.
  intros Hcx Hcy Hx Hy Hr Hc.
  destruct Hx as [Hx|(Vx & Nx & Hx)]; [destruct x; try done; by left|].
  destruct Hy as [Hy|(Vy & Ny & Hy)]; [destruct y, x as [|[]| |]; try done; by left|].
  destruct x as [sx|[]| |[] mx ex]; try done; destruct y as [sy|[]| |[] my ey]; try done;
    cbn [value] in Hx, Hy.
  - destruct Hx, Hy; try done. right. destruct sx, sy; (split_and!; [done..|right; cbn; lia]).
  - right. by split_and!; auto.
  - destruct Hx, Hy; try done. right. cbn [f64_add SFadd]. split_and!; [done..|right; cbn [value]; lia].
  - right. by split_and!; auto.
  - right. by split_and!; auto.
  - right. by split_and!; auto.
  - destruct Hx, Hy; try done. right. cbn [f64_add SFadd]. split_and!; [done..|right; cbn [value]; lia].
  - right. by split_and!; auto.
  - destruct Hx, Hy; try done.
    assert (Hex := canonical_emin _ _ (valid_finite _ _ _ Vx)).
    assert (Hey := canonical_emin _ _ (valid_finite _ _ _ Vy)).
    unfold f64_add, SFadd. cbn [cond_Zopp].
    destruct (shl_align_spec mx ex (Z.min ex ey)) as [_ ->].
    destruct (shl_align_spec my ey (Z.min ex ey)) as [_ ->].
    replace (Z.min ex (Z.min ex ey)) with (Z.min ex ey) by lia.
    replace (Z.min ey (Z.min ex ey)) with (Z.min ex ey) by lia.
    apply normalize_atleast.
    + apply Z.add_nonneg_nonneg; apply Z.mul_nonneg_nonneg; try done; apply Z.pow_nonneg; lia.
    + right. split_and!; [lia|done|]. rewrite Z.mul_add_distr_r, !sum_scaled by lia. lia.
Qed.

Lemma mul_digits a b : 0 < a -> 0 < b -> Z.log2 a + Z.log2 b <= Z.log2 (a * b).
Proof. intros. apply Z.log2_mul_below; lia. Qed.

(** The exact product, scaled. *)
Lemma mul_scaled mx ex my ey :
  -1074 <= ex -> -1074 <= ey ->
  Zpos (mx * my) * 2 ^ (ex + ey + SCALE) * 2 ^ SCALE =
  value (S754_finite false mx ex) * value (S754_finite false my ey).
Proof.
  intros Hx Hy. cbn [value]. rewrite Pos2Z.inj_mul.
  replace (ex + ey + SCALE) with (ex + SCALE + (ey + SCALE) - SCALE) by lia.
  rewrite <- (Z.mul_assoc _ (2 ^ _) (2 ^ SCALE)), <- Z.pow_add_r by (unfold SCALE; lia).
  replace (ex + SCALE + (ey + SCALE) - SCALE + SCALE) with (ex + SCALE + (ey + SCALE)) by lia.
  rewrite (Z.pow_add_r 2 (ex + SCALE)) by (unfold SCALE; lia). ring.
Qed.

Lemma mul_atleast cx cy c x y :
  0 <= cx -> 0 <= cy -> atleast cx x -> atleast cy y -> representable c ->
  c * 2 ^ SCALE <= cx * cy ->
  atleast c (f64_mul x y).
Proof.
  intros Hcx Hcy Hx Hy Hr Hc.
  destruct Hx as [Hx|(Vx & Nx & Hx)]; [destruct x; try done; by left|].
  destruct Hy as [Hy|(Vy & Ny & Hy)]; [destruct y, x as [|[]| |]; try done; by left|].
  assert (P : 0 < 2 ^ SCALE) by done.
  assert (Hz : forall s, cx * cy = 0 -> atleast c (S754_zero s)).
  { intros s E. right. split_and!; [done..|right]. cbn [value]. nia. }
  destruct x as [sx|[]| |[] mx ex]; try done; destruct y as [sy|[]| |[] my ey]; try done;
    cbn [value] in Hx, Hy; unfold f64_mul, SFmul; cbn [xorb];
    try (right; by split_and!; auto); try (by left);
    try (apply Hz; destruct Hx, Hy; try done; nia).
  destruct Hx, Hy; try done.
  assert (Cx := valid_finite _ _ _ Vx). assert (Cy := valid_finite _ _ _ Vy).
  assert (Hex := canonical_emin _ _ Cx). assert (Hey := canonical_emin _ _ Cy).
  apply canonical_spec in Cx, Cy.
  apply round_aux_atleast; [done|..].
  - rewrite Zdigits2_log2, Pos2Z.inj_mul by done.
    pose proof (mul_digits (Zpos mx) (Zpos my) ltac:(done) ltac:(done)).
    pose proof (Z.log2_nonneg (Zpos mx)). pose proof (Z.log2_nonneg (Zpos my)).
    unfold SpecFloat.fexp, emin in *. lia.
  - right. split_and!; [unfold SCALE; lia|done|].
    apply (Z.mul_le_mono_pos_r _ _ (2 ^ SCALE)); [done|]. etransitivity; [exact Hc|].
    rewrite mul_scaled by lia. by apply Z.mul_le_mono_nonneg.
Qed.

Lemma quotient_digits a b : 0 < b -> 0 < a / b -> Z.log2 a - Z.log2 b <= Z.log2 (a / b) + 1.
Proof.
  intros Hb Hq. assert (Ha : 0 < a) by (destruct (Z.le_gt_cases a 0); [|done];
    pose proof (Z.div_le_upper_bound a b 0 Hb ltac:(lia)); lia).
  pose proof (Z.log2_spec a Ha). pose proof (Z.log2_spec b Hb).
  pose proof (Z.log2_spec _ Hq). pose proof (Z.log2_nonneg b). pose proof (Z.log2_nonneg (a / b)).
  assert (a < 2 ^ (Z.succ (Z.log2 (a / b)) + Z.succ (Z.log2 b))).
  { rewrite Z.pow_add_r by lia. pose proof (Z.mod_pos_bound a b Hb).
    rewrite (Z.div_mod a b) at 1 by lia. nia. }
  assert (Z.log2 a < Z.succ (Z.log2 (a / b)) + Z.succ (Z.log2 b)) by (apply Z.log2_lt_pow2; lia).
  lia.
Qed.

(** Dividing by a positive number. *)
Lemma div_atleast_0 x my ey :
  atleast 0 x -> valid (S754_finite false my ey) -> atleast 0 (f64_div x (S754_finite false my ey)).
Proof.
  intros [Hx|(Vx & Nx & _)] Vy; [destruct x; try done; by left|].
  destruct x as [sx|[]| |[] mx ex]; try done; unfold f64_div, SFdiv; cbn [xorb];
    try (by apply atleast_0).
  unfold SFdiv_core_binary. cbn [Zdigits2]. rewrite !digits_log2.
  set (e' := Z.min _ (ex - ey)). set (s := ex - ey - e').
  assert (Hs : 0 <= s) by (unfold s, e'; lia).
  assert (Hm : match s with Z0 => Zpos mx | Zpos _ => Z.shiftl (Zpos mx) s | Zneg _ => 0 end
               = Zpos mx * 2 ^ s).
  { destruct s as [|p|p] eqn:E; [lia|by rewrite Z.shiftl_mul_pow2|lia]. }
  rewrite Hm. assert (P : 0 < 2 ^ s) by (by apply Z.pow_pos_nonneg).
  assert (Ediv : Z.div_eucl (Zpos mx * 2 ^ s) (Zpos my) =
    (Zpos mx * 2 ^ s / Zpos my, (Zpos mx * 2 ^ s) mod Zpos my))
    by (unfold Z.div, Z.modulo; by destruct (Z.div_eucl _ _)).
  rewrite Ediv. set (q := _ / _).
  assert (Hq : 0 <= q) by (apply Z.div_pos; lia).
  apply round_aux_atleast; [done| |by left].
  pose proof (Z.log2_mul_pow2 (Zpos mx) s ltac:(done) Hs) as Hl.
  destruct (Z.eq_dec q 0) as [Eq|Hq0].
  - rewrite Eq. apply Z.div_small_iff in Eq; [|done]. destruct Eq as [[_ Hlt]|?]; [|lia].
    assert (Z.log2 (Zpos mx * 2 ^ s) <= Z.log2 (Zpos my)) by (apply Z.log2_le_mono; lia).
    cbn [Zdigits2]. unfold s, e' in *. unfold SpecFloat.fexp, emin in *. lia.
  - rewrite Zdigits2_log2 by lia.
    pose proof (quotient_digits (Zpos mx * 2 ^ s) (Zpos my) ltac:(done) ltac:(fold q; lia)).
    fold q in H. unfold s, e' in *. unfold SpecFloat.fexp, emin in *. lia.
Qed.

(** ** Order *)

Lemma pow2_scaled_lt m1 e1 m2 e2 :
  canonical m1 e1 -> canonical m2 e2 -> e1 < e2 ->
  Zpos m1 * 2 ^ (e1 + SCALE) < Zpos m2 * 2 ^ (e2 + SCALE).
Proof.
  intros C1 C2 He. assert (H1 := canonical_emin _ _ C1). assert (H2 := canonical_emin _ _ C2).
  apply canonical_spec in C1, C2.
  pose proof (Z.log2_spec (Zpos m1) ltac:(done)). pose proof (Z.log2_spec (Zpos m2) ltac:(done)).
  pose proof (Z.log2_nonneg (Zpos m1)). pose proof (Z.log2_nonneg (Zpos m2)).
  assert (Hl : Z.log2 (Zpos m1) + 1 + e1 <= Z.log2 (Zpos m2) + e2)
    by (unfold SpecFloat.fexp, emin in *; lia).
  apply Z.lt_le_trans with (2 ^ (Z.succ (Z.log2 (Zpos m1)) + (e1 + SCALE))).
  - rewrite (Z.pow_add_r 2 (Z.succ _)) by (unfold SCALE; lia).
    apply Z.mul_lt_mono_pos_r; [apply Z.pow_pos_nonneg; unfold SCALE; lia|lia].
  - transitivity (2 ^ (Z.log2 (Zpos m2) + (e2 + SCALE))).
    + apply Z.pow_le_mono_r; lia.
    + rewrite (Z.pow_add_r 2 (Z.log2 _)) by (unfold SCALE; lia).
      apply Z.mul_le_mono_nonneg_r; [apply Z.pow_nonneg; lia|lia].
Qed.

Lemma compare_value m1 e1 m2 e2 :
  valid (S754_finite false m1 e1) -> valid (S754_finite false m2 e2) ->
  SFcompare (S754_finite false m1 e1) (S754_finite false m2 e2) =
  Some (value (S754_finite false m1 e1) ?= value (S754_finite false m2 e2)).
Proof.
  intros V1%valid_finite V2%valid_finite. cbn [SFcompare value]. f_equal.
  destruct (Z.compare_spec e1 e2) as [->|He|He].
  - change (Pos.compare_cont Eq m1 m2) with (Zpos m1 ?= Zpos m2).
    apply Zmult_compare_compat_r, Z.lt_gt, Z.pow_pos_nonneg; [done|].
    pose proof (canonical_emin _ _ V2). unfold SCALE. lia.
  - symmetry. apply Z.compare_lt_iff. by apply pow2_scaled_lt.
  - symmetry. apply Z.compare_gt_iff. by apply pow2_scaled_lt.
Qed.

Lemma value_inj m1 e1 m2 e2 :
  canonical m1 e1 -> canonical m2 e2 ->
  value (S754_finite false m1 e1) = value (S754_finite false m2 e2) -> m1 = m2 /\ e1 = e2.
Proof.
  intros C1 C2. cbn [value]. intros E. destruct (Z.lt_total e1 e2) as [H|[->|H]].
  - pose proof (pow2_scaled_lt _ _ _ _ C1 C2 H). lia.
  - split; [|done]. apply Z.mul_reg_r in E; [by injection E|].
    apply Z.pow_nonzero; [done|]. pose proof (canonical_emin _ _ C2). unfold SCALE. lia.
  - pose proof (pow2_scaled_lt _ _ _ _ C2 C1 H). lia.
Qed.

(** A number of the range [0, cap]. *)
Definition within (cap x : f64) : Prop :=
  valid x /\ nonneg x = true /\ x <> S754_infinity false /\ value x <= value cap.

(** The least of a number and the cap is the cap from there on. *)
Lemma min_cap m e t :
  valid (S754_finite false m e) -> atleast (value (S754_finite false m e)) t ->
  f64_min t (S754_finite false m e) = S754_finite false m e.
Proof.
  intros V [Ht|(Vt & Nt & Ht)]; unfold f64_min; [by rewrite Ht|].
  assert (Hp : 0 < value (S754_finite false m e)).
  { apply Z.mul_pos_pos; [done|]. apply Z.pow_pos_nonneg; [done|].
    pose proof (canonical_emin _ _ (valid_finite _ _ _ V)). unfold SCALE; lia. }
  destruct t as [s|[]| |[] mt et]; try done; cbn [is_nan].
  - destruct Ht as [?|Ht]; [done|]. change (value (S754_zero s)) with 0 in Ht. lia.
  - destruct Ht as [?|Ht]; [done|]. unfold SFltb. rewrite compare_value by done.
    destruct (Z.compare_spec (value (S754_finite false m e)) (value (S754_finite false mt et)))
      as [E|?|?]; [|done|lia].
    apply value_inj in E as [-> ->]; [done|by eapply valid_finite..].
Qed.

(** It is always in range. *)
Lemma min_within m e t :
  valid (S754_finite false m e) -> atleast 0 t ->
  within (S754_finite false m e) (f64_min t (S754_finite false m e)).
Proof.
  intros V Ht. assert (Hcap : within (S754_finite false m e) (S754_finite false m e))
    by (by split_and!).
  destruct Ht as [Ht|(Vt & Nt & Ht)]; unfold f64_min; [by rewrite Ht|].
  destruct t as [s|[]| |[] mt et]; try done; cbn [is_nan].
  - split_and!; [done..|apply value_nonneg].
  - unfold SFltb. rewrite compare_value by done.
    destruct (Z.compare_spec (value (S754_finite false m e)) (value (S754_finite false mt et)));
      [split_and!; try done; lia|done|split_and!; try done; lia].
Qed.

(** ** Rounding from below *)

Lemma iter_exact n k :
  0 <= k -> iter_pos shr_1 n (Build_shr_record (k * 2 ^ Zpos n) false false)
            = Build_shr_record k false false.
Proof.
  assert (H1 : forall j, 0 <= j -> shr_1 (Build_shr_record (j * 2) false false)
                                   = Build_shr_record j false false)
    by (intros [|p|p] Hj; [done| |lia]; by rewrite Z.mul_comm).
  revert k. induction n as [n IH|n IH|]; intros k Hk; cbn [iter_pos].
  - replace (2 ^ Zpos n~1) with (2 ^ Zpos n * 2 ^ Zpos n * 2)
      by (rewrite <- Z.pow_add_r, Z.mul_comm, <- Z.pow_succ_r by lia; f_equal; lia).
    rewrite !Z.mul_assoc.
    assert (0 <= k * 2 ^ Zpos n) by (apply Z.mul_nonneg_nonneg; [done|apply Z.pow_nonneg; lia]).
    rewrite H1, !IH; [done..|]. apply Z.mul_nonneg_nonneg; [done|apply Z.pow_nonneg; lia].
  - replace (2 ^ Zpos n~0) with (2 ^ Zpos n * 2 ^ Zpos n)
      by (rewrite <- Z.pow_add_r by lia; f_equal; lia).
    rewrite Z.mul_assoc.
    rewrite !IH; [done..|]. apply Z.mul_nonneg_nonneg; [done|apply Z.pow_nonneg; lia].
  - by apply H1.
Qed.

Lemma exact_shift m e :
  0 <= m -> m = m / 2 ^ shift_of m e * 2 ^ shift_of m e ->
  loc_of_shr_record (fst (shr_fexp 53 1024 m e loc_Exact)) = loc_Exact.
Proof.
  intros Hm Hdiv. unfold shr_fexp, shr, shift_of in *. cbn [shr_record_of_loc].
  destruct (fexp (Zdigits2 m + e) - e) as [|p|p]; try done. cbn [fst Z.max] in *.
  change (Z.max 0 (Zpos p)) with (Zpos p) in Hdiv.
  rewrite Hdiv, iter_exact; [done|]. apply div_pow2_nonneg; [done|lia].
Qed.

Lemma round_up_le m e mc ec k :
  0 < m -> canonical mc ec -> 0 <= e + k -> 0 <= ec + k ->
  m * 2 ^ (e + k) <= Zpos mc * 2 ^ (ec + k) ->
  round_nearest_even (m / 2 ^ shift_of m e)
    (loc_of_shr_record (fst (shr_fexp 53 1024 m e loc_Exact))) * 2 ^ (e + shift_of m e + k)
  <= Zpos mc * 2 ^ (ec + k).
Proof.
  intros Hm Hc He Hec Hle. apply canonical_spec in Hc.
  set (n := shift_of m e). assert (Hn : 0 <= n) by (unfold n, shift_of; lia).
  assert (P : 0 < 2 ^ n) by (by apply Z.pow_pos_nonneg).
  assert (Q : 0 < 2 ^ (e + k)) by (by apply Z.pow_pos_nonneg).
  assert (Hm1 : 0 <= m / 2 ^ n) by (by apply div_pow2_nonneg; lia).
  assert (Hfl : m / 2 ^ n * 2 ^ n <= m) by (rewrite Z.mul_comm; by apply Z.mul_div_le).
  assert (Epow : 2 ^ (e + n + k) = 2 ^ n * 2 ^ (e + k))
    by (rewrite <- Z.pow_add_r by lia; f_equal; lia).
  destruct (Z.eq_dec (m / 2 ^ n * 2 ^ n) m) as [Ex|Hne].
  { rewrite exact_shift by (unfold n in *; lia). cbn [round_nearest_even].
    rewrite Epow. fold n. nia. }
  pose proof (round_even_ge _ (loc_of_shr_record (fst (shr_fexp 53 1024 m e loc_Exact))) Hm1) as Hr.
  set (m2 := round_nearest_even _ _) in *. transitivity ((m / 2 ^ n + 1) * 2 ^ (e + n + k)).
  { apply Z.mul_le_mono_nonneg_r; [apply Z.pow_nonneg; lia|lia]. }
  destruct (Z.le_gt_cases (e + n) ec) as [Hcase|Hcase].
  - replace (ec + k) with (ec - (e + n) + (e + n + k)) in * by lia.
    rewrite (Z.pow_add_r 2 (ec - (e + n))), Z.mul_assoc in * by lia.
    apply Z.mul_le_mono_nonneg_r; [apply Z.pow_nonneg; lia|]. rewrite Epow in Hle. nia.
  - exfalso. assert (Hn0 : n <> 0) by (intros E; rewrite E, Z.div_1_r in Hne; lia).
    assert (En : e + n = fexp (Z.log2 m + 1 + e))
      by (revert Hn0; unfold n, shift_of; rewrite Zdigits2_log2 by done; lia).
    assert (Hlog : Z.log2 (Zpos mc) + 1 + ec <= Z.log2 m + e)
      by (revert Hcase En; rewrite Hc at 1; unfold SpecFloat.fexp, emin; lia).
    pose proof (Z.log2_spec (Zpos mc) ltac:(done)). pose proof (Z.log2_spec m Hm).
    pose proof (Z.log2_nonneg (Zpos mc)). pose proof (Z.log2_nonneg m).
    assert (Zpos mc * 2 ^ (ec + k) < 2 ^ (Z.succ (Z.log2 (Zpos mc)) + (ec + k))).
    { rewrite (Z.pow_add_r 2 (Z.succ _)) by lia.
      apply Z.mul_lt_mono_pos_r; [by apply Z.pow_pos_nonneg|lia]. }
    assert (2 ^ (Z.succ (Z.log2 (Zpos mc)) + (ec + k)) <= 2 ^ (Z.log2 m + (e + k)))
      by (apply Z.pow_le_mono_r; lia).
    assert (2 ^ (Z.log2 m + (e + k)) <= m * 2 ^ (e + k))
      by (rewrite Z.pow_add_r by lia; apply Z.mul_le_mono_nonneg_r; lia).
    lia.
Qed.

Lemma round_aux_within m e mc ec :
  0 < m -> e <= fexp (Zdigits2 m + e) -> - SCALE <= e ->
  valid (S754_finite false mc ec) -> m * 2 ^ (e + SCALE) <= value (S754_finite false mc ec) ->
  within (S754_finite false mc ec) (binary_round_aux 53 1024 false m e loc_Exact).
Proof.
  intros Hm Hf He V Hle. assert (Hc := valid_finite _ _ _ V). cbn [value] in Hle.
  assert (Hec := canonical_emin _ _ Hc).
  assert (Hup := round_up_le m e mc ec SCALE Hm Hc ltac:(lia) ltac:(unfold SCALE; lia) Hle).
  assert (Hr : fst (rounded m e loc_Exact) * 2 ^ (snd (rounded m e loc_Exact) + SCALE)
               <= Zpos mc * 2 ^ (ec + SCALE)).
  { etransitivity; [|exact Hup]. cbn [rounded fst snd].
    set (m2 := round_nearest_even _ _). set (e1 := e + shift_of m e). set (n2 := shift_of m2 e1).
    assert (0 <= n2) by (unfold n2, shift_of; lia).
    assert (0 <= e1 + SCALE) by (unfold e1, shift_of; lia).
    replace (e1 + n2 + SCALE) with (n2 + (e1 + SCALE)) by lia. rewrite (Z.pow_add_r 2 n2) by lia.
    rewrite Z.mul_assoc. apply Z.mul_le_mono_nonneg_r; [by apply Z.pow_nonneg|].
    rewrite Z.mul_comm. apply Z.mul_div_le. by apply Z.pow_pos_nonneg. }
  destruct (round_aux_eq false m e loc_Exact ltac:(lia)) as [-> Hpos].
  destruct (rounded m e loc_Exact) as [[|p|p] e'] eqn:E; cbn [fst snd] in *; [| |lia].
  - split_and!; [done..|apply value_nonneg].
  - assert (Cp := rounded_canonical m e loc_Exact p e' ltac:(lia) Hf E).
    assert (Hb : ec <= 971) by (cbn in V; unfold bounded in V; by apply andb_prop in V as [_ ?%Z.leb_le]).
    destruct (Z.leb_spec e' 971) as [Hle'|Hgt].
    + split_and!; [|done..]. cbn. unfold bounded. rewrite Cp. by apply Z.leb_le.
    + pose proof (pow2_scaled_lt _ _ _ _ Hc Cp ltac:(lia)). lia.
Qed.

Lemma normalize_within m e mc ec :
  0 <= m -> -1074 <= e ->
  valid (S754_finite false mc ec) -> m * 2 ^ (e + SCALE) <= value (S754_finite false mc ec) ->
  within (S754_finite false mc ec) (binary_normalize 53 1024 m e false).
Proof.
  intros Hm He V Hle. destruct m as [|m|m]; [split_and!; [done..|apply value_nonneg]| |lia].
  cbn [binary_normalize]. unfold binary_round. destruct (align_fexp m e) as [Ha Hv].
  destruct (Hv He) as [? E]. destruct (shl_align m e _) as [mz ez]; cbn [fst snd] in *.
  apply round_aux_within; [done..|]. by rewrite E.
Qed.

(** Taking away a positive number that is there stays in range. *)
Lemma sub_within mc ec x my ey :
  valid (S754_finite false mc ec) -> valid (S754_finite false my ey) ->
  within (S754_finite false mc ec) x -> SFleb (S754_finite false my ey) x = true ->
  within (S754_finite false mc ec) (f64_sub x (S754_finite false my ey)).
Proof.
  intros V Vy (Vx & Nx & Hinf & Hle) Hy.
  destruct x as [s|[]| |[] mx ex]; try done. unfold SFleb in Hy. rewrite compare_value in Hy by done.
  assert (Hxy : value (S754_finite false my ey) <= value (S754_finite false mx ex)).
  { destruct (Z.compare_spec (value (S754_finite false my ey)) (value (S754_finite false mx ex)));
      [lia..|done]. }
  assert (Hex := canonical_emin _ _ (valid_finite _ _ _ Vx)).
  assert (Hey := canonical_emin _ _ (valid_finite _ _ _ Vy)).
  unfold f64_sub, SFsub. cbn [cond_Zopp].
  destruct (shl_align_spec mx ex (Z.min ex ey)) as [_ ->].
  destruct (shl_align_spec my ey (Z.min ex ey)) as [_ ->].
  replace (Z.min ex (Z.min ex ey)) with (Z.min ex ey) by lia.
  replace (Z.min ey (Z.min ex ey)) with (Z.min ex ey) by lia.
  set (ez := Z.min ex ey). assert (-1074 <= ez) by (unfold ez; lia).
  assert (E : (Zpos mx * 2 ^ (ex - ez) - Zpos my * 2 ^ (ey - ez)) * 2 ^ (ez + SCALE)
              = value (S754_finite false mx ex) - value (S754_finite false my ey)).
  { rewrite Z.mul_sub_distr_r, !sum_scaled by (unfold ez; lia). done. }
  assert (P : 0 < 2 ^ (ez + SCALE)) by (apply Z.pow_pos_nonneg; [done|unfold SCALE; lia]).
  pose proof (value_nonneg (S754_finite false my ey)).
  apply normalize_within; [nia|done..|]. rewrite E. lia.
Qed.

Lemma representable_value x : valid x -> representable (value x).
Proof.
  destruct x as [| | |[] m e]; intros V; try (by left). right. exists m, e.
  split; [by eapply valid_finite|done].
Qed.

Lemma f64_of_atleast c z : 0 <= z -> representable c -> c <= z * 2 ^ SCALE -> atleast c (f64_of z).
Proof. intros. apply normalize_atleast; [done|]. right. split_and!; [lia|done..]. Qed.

(** A duration of at least [n] seconds. *)
Lemma as_secs_atleast d n :
  0 <= n -> representable (n * 2 ^ SCALE) -> n * NANOS_PER_SEC <= d ->
  atleast (n * 2 ^ SCALE) (as_secs_f64 d).
Proof.
  intros Hn Hr Hd. unfold as_secs_f64.
  assert (Hq : n <= d / NANOS_PER_SEC) by (apply Z.div_le_lower_bound; unfold NANOS_PER_SEC in *; lia).
  assert (Hm := Z.mod_pos_bound d NANOS_PER_SEC ltac:(done)).
  apply (add_atleast (n * 2 ^ SCALE) 0); [| |apply f64_of_atleast| |done|lia].
  - apply Z.mul_nonneg_nonneg; [done|by apply Z.pow_nonneg].
  - lia.
  - lia.
  - done.
  - apply Z.mul_le_mono_nonneg_r; [by apply Z.pow_nonneg|done].
  - change (f64_of NANOS_PER_SEC) with (S754_finite false 8388608000000000 (-23)).
    apply div_atleast_0; [|done]. apply f64_of_atleast; [lia|by left|].
    apply Z.mul_nonneg_nonneg; [lia|by apply Z.pow_nonneg].
Qed.

Lemma as_secs_nonneg d : 0 <= d -> atleast 0 (as_secs_f64 d).
Proof. intros. by apply (as_secs_atleast d 0); [done|left|]. Qed.

(** ** Integers *)

Lemma normalize_exact m e mc ec :
  0 < m -> -1074 <= e -> valid (S754_finite false mc ec) ->
  m * 2 ^ (e + SCALE) = value (S754_finite false mc ec) ->
  binary_normalize 53 1024 m e false = S754_finite false mc ec.
Proof.
  intros Hm He V E.
  destruct (normalize_within m e mc ec ltac:(lia) He V ltac:(lia)) as (Vr & Nr & Hinf & Hle).
  assert (Hge : atleast (value (S754_finite false mc ec)) (binary_normalize 53 1024 m e false)).
  { apply normalize_atleast; [lia|]. right. split_and!; [done|by apply representable_value|lia]. }
  assert (P : 0 < value (S754_finite false mc ec)).
  { rewrite <- E. apply Z.mul_pos_pos; [done|]. apply Z.pow_pos_nonneg; [done|unfold SCALE; lia]. }
  destruct Hge as [Hn|(_ & _ & [?|Hge])]; [by destruct (binary_normalize _ _ _ _ _)|done|].
  destruct (binary_normalize 53 1024 m e false) as [s|[]| |[] mr er]; try done;
    [cbn [value] in *; lia|].
  destruct (value_inj mr er mc ec) as [-> ->]; [by eapply valid_finite..|lia|done].
Qed.

(** The float of a positive integer of 53 bits is that integer. *)
Lemma f64_of_exact n :
  0 < n < 2 ^ 53 ->
  exists m e, f64_of n = S754_finite false m e /\ valid (S754_finite false m e) /\
              value (f64_of n) = n * 2 ^ SCALE.
Proof.
  intros Hn. assert (Hl : 0 <= Z.log2 n <= 52).
  { split; [apply Z.log2_nonneg|]. enough (Z.log2 n < 53) by lia. apply Z.log2_lt_pow2; lia. }
  set (e := Z.log2 n - 52).
  assert (Hp : 0 < n * 2 ^ (- e)) by (apply Z.mul_pos_pos; [lia|apply Z.pow_pos_nonneg; lia]).
  destruct (n * 2 ^ (- e)) as [|m|m] eqn:Em; [done| |done].
  assert (V : valid (S754_finite false m e)).
  { cbn. unfold bounded. apply andb_true_intro. split; [|apply Z.leb_le; lia].
    apply canonical_spec. rewrite <- Em, Z.log2_mul_pow2 by lia. unfold SpecFloat.fexp, emin. lia. }
  assert (Ev : value (S754_finite false m e) = n * 2 ^ SCALE).
  { cbn [value]. rewrite <- Em, <- Z.mul_assoc, <- Z.pow_add_r by (unfold SCALE; lia).
    f_equal. f_equal. lia. }
  assert (E : f64_of n = S754_finite false m e) by (apply normalize_exact; [lia..|done|by rewrite Ev]).
  exists m, e. by rewrite E, Ev.
Qed.

Lemma f64_of_within n c : 0 <= n <= c -> c < 2 ^ 53 -> within (f64_of c) (f64_of n).
Proof.
  intros Hn Hc. destruct (Z.eq_dec n 0) as [->|Hn0]; [split_and!; [done..|apply value_nonneg]|].
  destruct (f64_of_exact n ltac:(lia)) as (m & e & E & V & Ev).
  destruct (f64_of_exact c ltac:(lia)) as (m' & e' & E' & V' & Ev').
  split_and!; [by rewrite E|by rewrite E|by rewrite E|]. rewrite Ev, Ev'.
  apply Z.mul_le_mono_nonneg_r; [by apply Z.pow_nonneg|lia].
Qed.

Lemma one_exact : f64_of 1 = S754_finite false 4503599627370496 (-52).
Proof. done. Qed.

Lemma f64_of_has_one n : 0 < n < 2 ^ 53 -> SFleb (f64_of 1) (f64_of n) = true.
Proof.
  intros Hn. destruct (f64_of_exact n Hn) as (m & e & E & V & Ev). rewrite E in *.
  rewrite one_exact. unfold SFleb. rewrite compare_value by done.
  rewrite <- one_exact, Ev. change (value (f64_of 1)) with (1 * 2 ^ SCALE).
  destruct (Z.compare_spec (1 * 2 ^ SCALE) (n * 2 ^ SCALE)) as [| |H]; [done..|].
  apply Z.mul_lt_mono_pos_r in H; [lia|by apply Z.pow_pos_nonneg].
Qed.

Lemma f64_sub_one n : 0 < n < 2 ^ 53 -> f64_sub (f64_of n) (f64_of 1) = f64_of (n - 1).
Proof.
  intros Hn. destruct (Z.eq_dec n 1) as [->|Hn1]; [done|].
  destruct (f64_of_exact n Hn) as (m & e & E & V & Ev).
  destruct (f64_of_exact (n - 1) ltac:(lia)) as (m' & e' & E' & V' & Ev').
  rewrite E, E', one_exact in *. assert (He := canonical_emin _ _ (valid_finite _ _ _ V)).
  unfold f64_sub, SFsub. cbn [cond_Zopp]. set (ez := Z.min e (-52)).
  destruct (shl_align_spec m e ez) as [_ ->].
  destruct (shl_align_spec 4503599627370496 (-52) ez) as [_ ->].
  replace (Z.min e ez) with ez by lia. replace (Z.min (-52) ez) with ez by lia.
  assert (Es : (Zpos m * 2 ^ (e - ez) - 4503599627370496 * 2 ^ (-52 - ez)) * 2 ^ (ez + SCALE)
               = (n - 1) * 2 ^ SCALE).
  { rewrite Z.mul_sub_distr_r, !sum_scaled by (unfold ez; lia).
    change (Zpos m * 2 ^ (e + SCALE)) with (value (S754_finite false m e)). rewrite Ev.
    change (4503599627370496 * 2 ^ (-52 + SCALE)) with (1 * 2 ^ SCALE). ring. }
  apply normalize_exact; [|lia|done|by rewrite Es, Ev'].
  assert (P : 0 < 2 ^ (ez + SCALE)) by (apply Z.pow_pos_nonneg; [done|unfold SCALE; lia]).
  assert (0 < (n - 1) * 2 ^ SCALE) by (apply Z.mul_pos_pos; [lia|by apply Z.pow_pos_nonneg]). nia.
Qed.

(** A number already in range is left alone by the cap. *)
Lemma min_id m e x :
  valid (S754_finite false m e) -> within (S754_finite false m e) x ->
  f64_min x (S754_finite false m e) = x.
Proof.
  intros V (Vx & Nx & Hinf & Hle). unfold f64_min.
  destruct x as [s|[]| |[] mx ex]; try done; cbn [is_nan].
  unfold SFltb. rewrite compare_value by done.
  by destruct (Z.compare_spec (value (S754_finite false m e)) (value (S754_finite false mx ex)));
    [|lia|].
Qed.

(** No time, no refill. *)
Lemma no_refill n m e : 0 <= n < 2 ^ 53 ->
  f64_add (f64_of n) (f64_mul (as_secs_f64 0) (S754_finite false m e)) = f64_of n.
Proof.
  intros Hn. change (as_secs_f64 0) with (S754_zero false). cbn [f64_mul SFmul xorb].
  destruct (Z.eq_dec n 0) as [->|]; [done|].
  destruct (f64_of_exact n ltac:(lia)) as (? & ? & -> & _). done.
Qed.

(** Products of integers within 53 bits are exact. *)
Lemma f64_mul_exact a b : 0 <= a -> 0 < b -> a * b < 2 ^ 53 -> b < 2 ^ 53 ->
  f64_mul (f64_of a) (f64_of b) = f64_of (a * b).
Proof.
  intros Ha Hb Hab Hb53. destruct (f64_of_exact b ltac:(lia)) as (mb & eb & Eb & Vb & Evb).
  destruct (Z.eq_dec a 0) as [->|Ha0]; [by rewrite Eb|].
  destruct (f64_of_exact a ltac:(nia)) as (ma & ea & Ea & Va & Eva).
  destruct (f64_of_exact (a * b) ltac:(nia)) as (mc & ec & Ec & Vc & Evc).
  assert (Hge : atleast (value (f64_of (a * b))) (f64_mul (f64_of a) (f64_of b))).
  { apply (mul_atleast (value (f64_of a)) (value (f64_of b))); try apply value_nonneg.
    - apply atleast_value; by rewrite Ea.
    - apply atleast_value; by rewrite Eb.
    - apply representable_value; by rewrite Ec.
    - rewrite Evc, Eva, Evb. lia. }
  assert (Hle : within (f64_of (a * b)) (f64_mul (f64_of a) (f64_of b))).
  { rewrite Ea, Eb, Ec in *. unfold f64_mul, SFmul. cbn [xorb].
    assert (Ca := valid_finite _ _ _ Va). assert (Cb := valid_finite _ _ _ Vb).
    assert (Hea := canonical_emin _ _ Ca). assert (Heb := canonical_emin _ _ Cb).
    apply canonical_spec in Ca, Cb.
    apply round_aux_within; [done| |unfold SCALE; lia|done|].
    - rewrite Zdigits2_log2, Pos2Z.inj_mul by done.
      pose proof (mul_digits (Zpos ma) (Zpos mb) ltac:(done) ltac:(done)).
      pose proof (Z.log2_nonneg (Zpos ma)). pose proof (Z.log2_nonneg (Zpos mb)).
      unfold SpecFloat.fexp, emin in *. lia.
    - apply (Z.mul_le_mono_pos_r _ _ (2 ^ SCALE)); [by apply Z.pow_pos_nonneg|].
      rewrite mul_scaled, Eva, Evb, Evc by done. lia. }
  destruct Hle as (V & N & Hi & Hle). destruct Hge as [Hn|(_ & _ & [?|Hge])]; [by destruct (f64_mul _ _)|done|].
  assert (0 < value (f64_of (a * b))) by (rewrite Evc; apply Z.mul_pos_pos; [nia|by apply Z.pow_pos_nonneg]).
  destruct (f64_mul (f64_of a) (f64_of b)) as [s|[]| |[] mr er]; try done; [cbn [value] in *; lia|].
  rewrite Ec in *. destruct (value_inj mr er mc ec) as [-> ->]; [by eapply valid_finite..|lia|done].
Qed.
