(* ===== verification/SelfCheck.v ===== *)
(** What the contract carries beside its entry points: the state machine of
    [state_machine.rs], which no entry point calls, and the verification harness of
    [formal_verification.rs], its invariant checks, vulnerability probes, state-space
    explorer and JSON report; then what both say about the contract that [Calls] models.

    Sums of amounts are checked [i128] additions ([None]: the harness panics).  A
    report's time stamp is the constant the source has. *)
From stdpp Require Import base tactics list gmap strings pretty.
From Stdlib Require Import ZArith Lia Ascii.
From S2P Require Import Prelude Text Soroban EscrowTypes Config Tokens Players MatchIndex.
From S2P Require Import Snapshots RateOracle Rotation Matches Settlement Refunds.
From S2P Require Import Disputes Governance Ledger Core Lifecycle Simulation Calls.
From S2P Require Import Footprint Solvency Invariants Effects Registry Scenarios.

Local Open Scope Z_scope.

Module StateMachine.

(** ** The state machine

    [paused_at_ledger] is optional in [types.rs] and a number here: 0 stands for a match
    that is not paused. *)

Definition transition (m : Match) (to : MatchState) : Match + StateTransitionError :=
  match validate_transition (state m) to with
  | inr e => inr e
  | inl _ =>
      let m := m <| state := to |> in
      inl (if bool_decide (state m = Paused) then m else m <| paused_at_ledger := Some 0 |>)
  end.

Definition activate (m : Match) := transition m Active.
Definition submit_result (m : Match) := transition m PendingResult.
Definition complete (m : Match) := transition m Completed.
Definition cancel (m : Match) := transition m Cancelled.

Definition pause (env : Env) (m : Match) : Match + StateTransitionError :=
  match transition m Paused with
  | inl m => inl (m <| paused_at_ledger := Some (sequence env) |>)
  | inr e => inr e
  end.

Definition enforce_max_pause_duration (env : Env) (m : Match) (max_pause_ledgers : Z)
    : unit + StateTransitionError :=
  if bool_decide (state m = Paused) then
    let elapsed := u32_sat_sub (sequence env) (default 0 (paused_at_ledger m)) in
    if elapsed >? max_pause_ledgers then inr PauseDurationExceeded else inl tt
  else inl tt.

Definition resume (env : Env) (m : Match) (max_pause_ledgers : Z) : Match + StateTransitionError :=
  match enforce_max_pause_duration env m max_pause_ledgers with
  | inl _ => transition m Active
  | inr e => inr e
  end.

End StateMachine.

Module Harness.

(** ** Reports *)

Inductive ViolationSeverity := Critical | High | Medium | Low.

Record Violation := mkViolation {
  invariant_id : string;
  invariant_name : string;
  severity : ViolationSeverity;
  description : string;
  state_path : list string;
  trigger_operation : string;
  evidence : string
}.

Record FormalVerificationReport := mkReport {
  violations : list Violation;
  states_explored : Z;
  transitions_tested : Z;
  invariants_checked : Z;
  report_timestamp : string          (** [timestamp] *)
}.

Definition new_report : FormalVerificationReport :=
  mkReport [] 0 0 20 "2026-07-17T15:42:51.694+00:00".

(** [{:?}] of a severity. *)
Definition severity_text (s : ViolationSeverity) : string :=
  match s with Critical => "Critical" | High => "High" | Medium => "Medium" | Low => "Low" end.

Definition BACKSLASH : ascii := ascii_of_nat 92.
Definition RETURN : ascii := ascii_of_nat 13.
Definition TAB : ascii := ascii_of_nat 9.

(** [s.replace(c, by)]. *)
Definition replace (c : ascii) (by_ : list ascii) (s : list ascii) : list ascii :=
  flat_map (fun d => if bool_decide (d = c) then by_ else [d]) s.

Definition escape_json_string (s : string) : list ascii :=
  replace TAB [BACKSLASH; "t"%char]
    (replace RETURN [BACKSLASH; "r"%char]
      (replace NEWLINE [BACKSLASH; "n"%char]
        (replace QUOTE [BACKSLASH; QUOTE]
          (replace BACKSLASH [BACKSLASH; BACKSLASH] (chars s))))).

(** ["indent\"name\": value"] and a quoted value. *)
Definition quoted (s : list ascii) : list ascii := QUOTE :: s ++ [QUOTE].
Definition entry (indent name : string) (v : list ascii) : list ascii :=
  chars indent ++ quoted (chars name) ++ chars ": " ++ v.

(** The body of a loop over the items of a list: each on its line(s), a comma after
    all but the last. *)
Fixpoint items {A} (print : A -> list ascii) (l : list A) : list ascii :=
  match l with
  | [] => []
  | [x] => print x ++ [NEWLINE]
  | x :: rest => print x ++ chars "," ++ NEWLINE :: items print rest
  end.

Definition violation_json (v : Violation) : list ascii :=
  concat [
    chars "      {"; [NEWLINE];
    entry "        " "invariant_id" (quoted (chars (invariant_id v))); chars ","; [NEWLINE];
    entry "        " "invariant_name" (quoted (chars (invariant_name v))); chars ","; [NEWLINE];
    entry "        " "severity" (quoted (chars (severity_text (severity v)))); chars ","; [NEWLINE];
    entry "        " "description" (quoted (escape_json_string (description v))); chars ","; [NEWLINE];
    entry "        " "trigger_operation" (quoted (chars (trigger_operation v))); chars ","; [NEWLINE];
    entry "        " "evidence" (quoted (escape_json_string (evidence v))); chars ","; [NEWLINE];
    entry "        " "state_path" (chars "["); [NEWLINE];
    items (fun s => chars "          " ++ quoted (chars s)) (state_path v);
    chars "        ]"; [NEWLINE];
    chars "      }"].

Definition to_json (r : FormalVerificationReport) : list ascii :=
  concat [
    chars "{"; [NEWLINE];
    entry "  " "formal_verification_report" (chars "{"); [NEWLINE];
    entry "    " "timestamp" (quoted (chars (report_timestamp r))); chars ","; [NEWLINE];
    entry "    " "summary" (chars "{"); [NEWLINE];
    entry "      " "violations_found" (chars (pretty (Z.of_nat (length (violations r)))));
      chars ","; [NEWLINE];
    entry "      " "states_explored" (chars (pretty (states_explored r))); chars ","; [NEWLINE];
    entry "      " "transitions_tested" (chars (pretty (transitions_tested r))); chars ","; [NEWLINE];
    entry "      " "invariants_checked" (chars (pretty (invariants_checked r))); [NEWLINE];
    chars "    }"; chars ","; [NEWLINE];
    entry "    " "violations" (chars "["); [NEWLINE];
    items violation_json (violations r);
    chars "    ]"; [NEWLINE];
    chars "  }"; [NEWLINE];
    chars "}"; [NEWLINE]].

(** ** Contexts *)

Record StateTransitionTrace := mkTrace {
  from_state : MatchState;
  to_state : MatchState;
  operation : string;
  trace_timestamp : Z                (** [timestamp] *)
}.

Record FormalVerificationContext := mkContext {
  current_state : MatchState;
  visited_states : gset string;
  transitions : list StateTransitionTrace;
  match_id : Z;
  stake_amount : Z;
  player1_deposited : bool;
  player2_deposited : bool;
  winner : option Winner;
  player1_claimed : bool;
  player2_claimed : bool;
  is_paused : bool
}.

(** The name of a state, which is also its [{:?}] text. *)
Definition name_of (s : MatchState) : string :=
  match s with
  | Pending => "Pending" | Active => "Active" | PendingResult => "PendingResult"
  | Completed => "Completed" | Cancelled => "Cancelled" | Paused => "Paused"
  end.

Definition new_context (match_id : Z) : FormalVerificationContext :=
  mkContext Pending {["Pending"]} [] match_id 100 false false None false false false.

Definition state_name (c : FormalVerificationContext) : string := name_of (current_state c).

Definition transition_to (new_state : MatchState) (operation : string)
    (c : FormalVerificationContext) : FormalVerificationContext :=
  mkContext new_state ({[name_of new_state]} ∪ visited_states c)
    (transitions c ++ [mkTrace (current_state c) new_state operation 0])
    (match_id c) (stake_amount c) (player1_deposited c) (player2_deposited c) (winner c)
    (player1_claimed c) (player2_claimed c) (is_paused c).

(** ** Invariant checks *)

(** INV-1; the entry of a completed match is created by the look-up. *)
Definition check_no_double_payout (c : FormalVerificationContext) (payout_count : gmap Z Z)
    : bool * gmap Z Z :=
  if bool_decide (current_state c = Completed) then
    let count := default 0 (payout_count !! match_id c) in
    (negb (count >? 1), <[match_id c := count]> payout_count)
  else (true, payout_count).

(** INV-2 *)
Definition check_no_fund_loss (_ : FormalVerificationContext) (total_escrowed contract_balance : Z)
    : bool := total_escrowed <=? contract_balance.

Definition escrow_balance (c : FormalVerificationContext) : option Z :=
  i128_checked_add (if player1_deposited c then stake_amount c else 0)
    (if player2_deposited c then stake_amount c else 0).

(** INV-3 *)
Definition check_no_unreachable_states (c : FormalVerificationContext) : option bool :=
  b ← escrow_balance c;
  Some (if b >? 0
        then match current_state c with
             | Pending | Active | PendingResult | Paused => true
             | Completed | Cancelled => false
             end
        else true).

Definition check_both_deposits_required (c : FormalVerificationContext) : bool :=
  if bool_decide (current_state c = Active) then player1_deposited c && player2_deposited c
  else true.

(** INV-4 *)
Definition check_monotonic_progression (from to : MatchState) : bool :=
  match from, to with
  | Pending, Active => true
  | Pending, Cancelled => true
  | Active, PendingResult => true
  | Active, Completed => true
  | Active, Paused => true
  | Paused, Active => true
  | PendingResult, Completed => true
  | Completed, Completed => true
  | Cancelled, Cancelled => true
  | _, _ => false
  end.

(** INV-5 to INV-9 *)
Definition check_deposit_idempotency (_player_num : Z) (already_deposited : bool) : bool :=
  negb already_deposited.
Definition check_authorization (caller required_caller : string) : bool :=
  String.eqb caller required_caller.
Definition check_winner_uniqueness (w : option Winner) : bool := opt_is_some w.
Definition check_escrow_conservation (stake payout_amount : Z) : option bool :=
  pot ← i128_checked_mul stake 2; Some (payout_amount =? pot).
Definition check_oracle_integrity (winner_in_pending : option Winner) : bool :=
  opt_is_some winner_in_pending.

(** INV-10 to INV-17 *)
Definition check_dispute_period (current_ledger deadline : Z) : bool := deadline <=? current_ledger.
Definition check_single_vote (votes : gmap string Z) : bool :=
  forallb (fun v => v.2 <=? 1) (map_to_list votes).
Definition check_tier_stake_bounds (stake _completed_matches : Z) : bool := 0 <? stake.
Definition check_token_allowlist (allowlist_enforced is_allowed : bool) : bool :=
  negb allowlist_enforced || is_allowed.
Definition check_match_id_uniqueness (ids : gset Z) (new_id : Z) : bool :=
  negb (bool_decide (new_id ∈ ids)).
Definition check_game_id_uniqueness (ids : gset string) (game_id : string) : bool :=
  negb (bool_decide (game_id ∈ ids)).
Definition check_player_identity (player1 player2 : string) : bool :=
  negb (String.eqb player1 player2) && negb (String.eqb player2 EmptyString).
Definition check_positive_stake (stake : Z) : bool := 0 <? stake.

(** INV-18 to INV-20 *)
Definition check_valid_state (_state : MatchState) : bool := true.
Definition check_timeout_bounds (timeout : Z) : bool :=
  (17280 <=? timeout) && (timeout <=? 1555200).
Definition check_pause_blocks_mutations (is_paused : bool) (operation : string) : bool :=
  if is_paused then negb (one_of operation ["create_match"; "deposit"; "submit_result"]) else true.

(** ** Probes *)

(** The [{:?}] texts of the states a context went through. *)
Definition path_of (c : FormalVerificationContext) : list string :=
  map (fun t => name_of (from_state t)) (transitions c).

Definition probe_double_payout (c : FormalVerificationContext) : list Violation :=
  if bool_decide (current_state c = Completed) && opt_is_some (winner c) then
    if player1_claimed c || player2_claimed c then
      [mkViolation "INV-1" "No Double Payout" Critical
         "Payout attempted after match already completed" (path_of c)
         "submit_result -> finalize_match (double payout)"
         "Match in Completed state with winner already set"]
    else []
  else [].

Definition probe_missing_refunds (c : FormalVerificationContext) : option (list Violation) :=
  if bool_decide (current_state c = Cancelled) then
    b ← escrow_balance c;
    Some (if b >? 0 then
            [mkViolation "INV-2" "No Fund Loss" High "Funds remaining after cancellation"
               (path_of c) "cancel_match" ("Escrow balance not cleared: " +:+ pretty b)]
          else [])
  else Some [].

Definition probe_unreachable_funds (c : FormalVerificationContext) : option (list Violation) :=
  b ← escrow_balance c;
  if b >? 0 then
    ok ← check_no_unreachable_states c;
    Some (if negb ok then
            [mkViolation "INV-3" "No Unreachable-But-Fundable States" High
               "Funded match stuck in non-terminal state" (path_of c) "state_transition"
               ("State " +:+ state_name c +:+ " has " +:+ pretty b +:+ " tokens but no valid exit")]
          else [])
  else Some [].

Definition probe_unauthorized_mutations (caller expected_caller operation : string)
    : list Violation :=
  if negb (String.eqb caller expected_caller) && negb (String.eqb expected_caller EmptyString) then
    [mkViolation "INV-6" "Authorization Boundaries" Critical
       ("Unauthorized caller for " +:+ operation +:+ ": expected " +:+ expected_caller +:+
        ", got " +:+ caller)
       [] operation "Authorization check failed"]
  else [].

(** ** The explorer *)

Record StateSpaceExplorer := mkExplorer {
  explored_states : gset string;
  valid_transitions : list (string * string);
  invalid_transitions : list (string * string * string)
}.

Definition new_explorer : StateSpaceExplorer := mkExplorer ∅ [] [].

Definition all_states : list MatchState :=
  [Pending; Active; PendingResult; Completed; Cancelled; Paused].

(** One turn of the inner loop, and of the outer one. *)
Definition try_transition (state : MatchState) (e : StateSpaceExplorer) (target : MatchState)
    : StateSpaceExplorer :=
  if check_monotonic_progression state target
  then mkExplorer (explored_states e)
         (valid_transitions e ++ [(name_of state, name_of target)]) (invalid_transitions e)
  else mkExplorer (explored_states e) (valid_transitions e)
         (invalid_transitions e ++ [(name_of state, name_of target, "Invalid state transition")]).

Definition explore_state (e : StateSpaceExplorer) (state : MatchState) : StateSpaceExplorer :=
  fold_left (try_transition state) all_states
    (mkExplorer ({[name_of state]} ∪ explored_states e) (valid_transitions e)
       (invalid_transitions e)).

Definition in_state (state : MatchState) : FormalVerificationContext :=
  let c := new_context 1 in
  mkContext state (visited_states c) (transitions c) (match_id c) (stake_amount c)
    (player1_deposited c) (player2_deposited c) (winner c) (player1_claimed c)
    (player2_claimed c) (is_paused c).

Definition explore_all_paths (e : StateSpaceExplorer)
    : StateSpaceExplorer * list FormalVerificationContext :=
  (fold_left explore_state all_states e, map in_state all_states).

(** One turn of the loop over the contexts. *)
Definition check_context (c : FormalVerificationContext) (payout_count : gmap Z Z)
    : option (list Violation * gmap Z Z) :=
  let (once, counts) := check_no_double_payout c payout_count in
  reachable ← check_no_unreachable_states c;
  Some
    ((if negb once then
        [mkViolation "INV-1" "No Double Payout" Critical "Double payout detected" (path_of c)
           "payout_execution" ("Payout count for match " +:+ pretty (match_id c) +:+ ": > 1")]
      else []) ++
     (if negb reachable then
        [mkViolation "INV-3" "No Unreachable-But-Fundable States" High
           "Unreachable funded state detected" (path_of c) "state_check"
           ("State " +:+ state_name c +:+ " has funds but no exit")]
      else []) ++
     (if negb (check_positive_stake (stake_amount c)) then
        [mkViolation "INV-17" "Positive Stake Amount" High "Non-positive stake amount" []
           "create_match" ("Stake amount: " +:+ pretty (stake_amount c))]
      else []) ++
     (if negb (check_valid_state (current_state c)) then
        [mkViolation "INV-18" "Valid Match State Enum" Critical "Invalid match state" []
           "state_transition" ("Invalid state: " +:+ state_name c)]
      else []), counts).

Fixpoint check_contexts (cs : list FormalVerificationContext) (payout_count : gmap Z Z)
    : option (list Violation) :=
  match cs with
  | [] => Some []
  | c :: cs =>
      '(found, counts) ← check_context c payout_count;
      rest ← check_contexts cs counts;
      Some (found ++ rest)
  end.

Definition check_all_invariants (e : StateSpaceExplorer) (cs : list FormalVerificationContext)
    : option FormalVerificationReport :=
  found ← check_contexts cs ∅;
  Some (mkReport (violations new_report ++ found) (Z.of_nat (size (explored_states e)))
          (Z.of_nat (length (valid_transitions e)) + Z.of_nat (length (invalid_transitions e)))
          (invariants_checked new_report) (report_timestamp new_report)).

End Harness.

(** ** The state machine *)

(** A pause and the resumption after it: within the allowed number of ledgers the match
    is as it was before, after them it cannot be resumed any more. *)
Lemma pause_then_resume env env' (m : Match) max :
  0 <= max -> state m = Active -> 0 <= sequence env -> sequence env' <= u32_max ->
  exists p, StateMachine.pause env m = inl p /\ state p = Paused /\
    StateMachine.resume env' p max =
      if sequence env' - sequence env >? max then inr PauseDurationExceeded
      else inl (m <| paused_at_ledger := Some 0 |>).
Proof.
  intros Hmax Ha Hs Hs'. unfold StateMachine.pause, StateMachine.transition, validate_transition.
  rewrite Ha. cbn. eexists. split; [done|]. split; [done|].
  unfold StateMachine.resume, StateMachine.enforce_max_pause_duration. cbn.
  unfold u32_sat_sub, clamp, u32_max in *. rewrite !Z.gtb_ltb.
  rewrite Z.min_r by lia. destruct (Z.max_spec 0 (sequence env' - sequence env)) as [[? ->]|[? ->]].
  - destruct (max <? sequence env' - sequence env); [done|]. cbn. f_equal. by destruct m; cbn in *; subst.
  - rewrite (proj2 (Z.ltb_ge max 0)), (proj2 (Z.ltb_ge max (sequence env' - sequence env))) by lia.
    f_equal. by destruct m; cbn in *; subst.
Qed.

(** A completed or cancelled match can be moved by none of its operations. *)
Lemma terminal_refused env (m : Match) max :
  is_terminal (state m) = true ->
  Forall (fun r => r = inr InvalidTransition)
    [StateMachine.activate m; StateMachine.submit_result m; StateMachine.complete m;
     StateMachine.cancel m; StateMachine.pause env m; StateMachine.resume env m max].
Proof.
  intros Ht. unfold StateMachine.resume, StateMachine.enforce_max_pause_duration,
    StateMachine.pause, StateMachine.activate, StateMachine.submit_result,
    StateMachine.complete, StateMachine.cancel, StateMachine.transition, validate_transition.
  destruct (state m); try discriminate Ht; repeat constructor.
Qed.

(** ** The report is JSON *)

Definition blank (l : list ascii) : bool := forallb is_whitespace l.

(** Reading the inside of a JSON string (RFC 8259, without unicode escapes). *)
Definition unescape (e : ascii) : option ascii :=
  if bool_decide (e = QUOTE) then Some QUOTE
  else if bool_decide (e = Harness.BACKSLASH) then Some Harness.BACKSLASH
  else if bool_decide (e = "/"%char) then Some "/"%char
  else if bool_decide (e = "n"%char) then Some NEWLINE
  else if bool_decide (e = "r"%char) then Some Harness.RETURN
  else if bool_decide (e = "t"%char) then Some Harness.TAB
  else if bool_decide (e = "b"%char) then Some (ascii_of_nat 8)
  else if bool_decide (e = "f"%char) then Some (ascii_of_nat 12)
  else None.

Fixpoint read_text (l : list ascii) : option (list ascii) :=
  match l with
  | [] => Some []
  | c :: l =>
      if bool_decide (c = Harness.BACKSLASH) then
        match l with
        | e :: l => c ← unescape e; s ← read_text l; Some (c :: s)
        | [] => None
        end
      else if bool_decide (c = QUOTE) || (code c <? 32) then None
      else s ← read_text l; Some (c :: s)
  end.

(** Which texts are which JSON values. *)
Inductive json : Value -> list ascii -> Prop :=
| J_string s t : read_text t = Some (chars s) -> json (VString s) (Harness.quoted t)
| J_number n : json (VNumber n) (chars (pretty n))
| J_array vs t : elements vs t -> json (VArray vs) (chars "[" ++ t ++ chars "]")
| J_object fs t : members fs t -> json (VObject fs) (chars "{" ++ t ++ chars "}")
with elements : list Value -> list ascii -> Prop :=
| E_none w : blank w = true -> elements [] w
| E_last w v t w' : blank w = true -> json v t -> blank w' = true -> elements [v] (w ++ t ++ w')
| E_more w v t w' vs u :
    blank w = true -> json v t -> blank w' = true -> vs <> [] -> elements vs u ->
    elements (v :: vs) (w ++ t ++ w' ++ chars "," ++ u)
with members : list (string * Value) -> list ascii -> Prop :=
| M_none w : blank w = true -> members [] w
| M_last w k kt c v t w' :
    blank w = true -> read_text kt = Some (chars k) -> blank c = true -> json v t ->
    blank w' = true -> members [(k, v)] (w ++ Harness.quoted kt ++ chars ":" ++ c ++ t ++ w')
| M_more w k kt c v t w' fs u :
    blank w = true -> read_text kt = Some (chars k) -> blank c = true -> json v t ->
    blank w' = true -> fs <> [] -> members fs u ->
    members ((k, v) :: fs)
      (w ++ Harness.quoted kt ++ chars ":" ++ c ++ t ++ w' ++ chars "," ++ u).

(** Texts printed as they are, and texts printed escaped. *)
Definition plain (c : ascii) : bool :=
  negb (bool_decide (c = QUOTE)) && negb (bool_decide (c = Harness.BACKSLASH)) && (32 <=? code c).
Definition escapable (c : ascii) : bool :=
  (32 <=? code c) || bool_decide (c = NEWLINE) || bool_decide (c = Harness.RETURN) ||
  bool_decide (c = Harness.TAB).

Definition escape1 (c : ascii) : list ascii :=
  if bool_decide (c = Harness.BACKSLASH) then [Harness.BACKSLASH; Harness.BACKSLASH]
  else if bool_decide (c = QUOTE) then [Harness.BACKSLASH; QUOTE]
  else if bool_decide (c = NEWLINE) then [Harness.BACKSLASH; "n"%char]
  else if bool_decide (c = Harness.RETURN) then [Harness.BACKSLASH; "r"%char]
  else if bool_decide (c = Harness.TAB) then [Harness.BACKSLASH; "t"%char]
  else [c].

Lemma replace_app c b l l' : Harness.replace c b (l ++ l') = Harness.replace c b l ++ Harness.replace c b l'.
Proof. apply flat_map_app. Qed.

Lemma replace_keep c b d : d <> c -> Harness.replace c b [d] = [d].
Proof. intros Hd. unfold Harness.replace. cbn. by rewrite bool_decide_false. Qed.

(** The five replacements, one after the other, are one pass. *)
Lemma escape_one_pass s : Harness.escape_json_string s = flat_map escape1 (chars s).
Proof.
  unfold Harness.escape_json_string. induction (chars s) as [|c l IH]; [done|].
  cbn [flat_map]. rewrite <- IH. clear IH s. change (c :: l) with ([c] ++ l).
  rewrite !replace_app. f_equal. unfold escape1.
  repeat (case_bool_decide; [by subst c|]). by rewrite !replace_keep.
Qed.

Lemma read_plain_text s : all_chars plain s = true -> read_text (chars s) = Some (chars s).
Proof.
  unfold all_chars. induction (chars s) as [|c l IH]; [done|]. cbn [forallb read_text].
  unfold plain at 1. rewrite !andb_true_iff, !negb_true_iff, Z.leb_le. intros [[[Hq Hb] Hc] Hl].
  rewrite Hb, Hq, (proj2 (Z.ltb_ge _ _)) by lia. cbn. by rewrite IH.
Qed.

(** What is escaped reads back as it was. *)
Lemma escape_reads_back s :
  all_chars escapable s = true -> read_text (Harness.escape_json_string s) = Some (chars s).
Proof.
  rewrite escape_one_pass. unfold all_chars. induction (chars s) as [|c l IH]; [done|].
  cbn [forallb flat_map]. rewrite andb_true_iff. intros [Hc Hl]. specialize (IH Hl).
  unfold escape1 at 1. repeat (case_bool_decide; [subst c; cbn; by rewrite IH|]).
  unfold escapable in Hc. rewrite !bool_decide_false, !orb_false_r, Z.leb_le in Hc by done.
  cbn [app read_text]. rewrite !bool_decide_false, (proj2 (Z.ltb_ge _ _)) by (done || lia).
  cbn. by rewrite IH.
Qed.

Definition violation_value (v : Harness.Violation) : Value :=
  VObject [
    ("invariant_id", VString (Harness.invariant_id v));
    ("invariant_name", VString (Harness.invariant_name v));
    ("severity", VString (Harness.severity_text (Harness.severity v)));
    ("description", VString (Harness.description v));
    ("trigger_operation", VString (Harness.trigger_operation v));
    ("evidence", VString (Harness.evidence v));
    ("state_path", VArray (map VString (Harness.state_path v)))].

Definition report_value (r : Harness.FormalVerificationReport) : Value :=
  VObject [("formal_verification_report", VObject [
    ("timestamp", VString (Harness.report_timestamp r));
    ("summary", VObject [
      ("violations_found", VNumber (Z.of_nat (length (Harness.violations r))));
      ("states_explored", VNumber (Harness.states_explored r));
      ("transitions_tested", VNumber (Harness.transitions_tested r));
      ("invariants_checked", VNumber (Harness.invariants_checked r))]);
    ("violations", VArray (map violation_value (Harness.violations r)))])].

(** The texts the printer does not escape need no escaping, and those it escapes hold no
    control character other than the three it knows. *)
Definition printable (v : Harness.Violation) : bool :=
  all_chars plain (Harness.invariant_id v) && all_chars plain (Harness.invariant_name v) &&
  all_chars escapable (Harness.description v) && all_chars plain (Harness.trigger_operation v) &&
  all_chars escapable (Harness.evidence v) &&
  forallb (all_chars plain) (Harness.state_path v).

Lemma json_plain s : all_chars plain s = true -> json (VString s) (Harness.quoted (chars s)).
Proof. intros Hs. by apply J_string, read_plain_text. Qed.

Lemma json_escaped s :
  all_chars escapable s = true -> json (VString s) (Harness.quoted (Harness.escape_json_string s)).
Proof. intros Hs. by apply J_string, escape_reads_back. Qed.

(** Equality of texts up to the grouping of their pieces. *)
Ltac regroup :=
  unfold Harness.entry, Harness.quoted; cbn [app concat chars];
  repeat (rewrite <- app_assoc; cbn [app]); rewrite ?app_nil_r; reflexivity.

Lemma entry_more indent name v t fs u :
  blank (chars indent) = true -> all_chars plain name = true -> json v t -> fs <> [] ->
  members fs u ->
  members ((name, v) :: fs) (NEWLINE :: Harness.entry indent name t ++ chars "," ++ u).
Proof.
  intros Hi Hn Hv Hf Hu.
  replace (NEWLINE :: _) with ((NEWLINE :: chars indent) ++ Harness.quoted (chars name) ++
    chars ":" ++ chars " " ++ t ++ [] ++ chars "," ++ u) by regroup.
  apply M_more; auto. by apply read_plain_text.
Qed.

Lemma entry_last indent name v t w :
  blank (chars indent) = true -> all_chars plain name = true -> json v t -> blank w = true ->
  members [(name, v)] (NEWLINE :: Harness.entry indent name t ++ w).
Proof.
  intros Hi Hn Hv Hw.
  replace (NEWLINE :: _) with ((NEWLINE :: chars indent) ++ Harness.quoted (chars name) ++
    chars ":" ++ chars " " ++ t ++ w) by regroup.
  apply M_last; auto. by apply read_plain_text.
Qed.

(** The loop over a list prints the elements of an array. *)
Lemma items_elements {A} (value : A -> Value) (text : A -> list ascii) indent l w :
  blank indent = true -> blank w = true -> Forall (fun x => json (value x) (text x)) l ->
  elements (map value l) (NEWLINE :: Harness.items (fun x => indent ++ text x) l ++ w).
Proof.
  intros Hi Hw Hl. induction Hl as [|x l Hx Hl IH]; [by apply E_none|].
  destruct l as [|y l].
  - cbn. rewrite <- !app_assoc.
    apply (E_last (NEWLINE :: indent) (value x) (text x) (NEWLINE :: w)); done.
  - change (Harness.items (fun x => indent ++ text x) (x :: y :: l))
      with ((indent ++ text x) ++ chars "," ++ NEWLINE :: Harness.items (fun x => indent ++ text x) (y :: l)).
    rewrite <- !app_assoc.
    apply (E_more (NEWLINE :: indent) (value x) (text x) [] (map value (y :: l))); done.
Qed.

(** A violation, less the indentation of its first line. *)
Definition violation_text (v : Harness.Violation) : list ascii :=
  chars "{" ++
  (NEWLINE :: Harness.entry "        " "invariant_id"
     (Harness.quoted (chars (Harness.invariant_id v))) ++ chars "," ++
   NEWLINE :: Harness.entry "        " "invariant_name"
     (Harness.quoted (chars (Harness.invariant_name v))) ++ chars "," ++
   NEWLINE :: Harness.entry "        " "severity"
     (Harness.quoted (chars (Harness.severity_text (Harness.severity v)))) ++ chars "," ++
   NEWLINE :: Harness.entry "        " "description"
     (Harness.quoted (Harness.escape_json_string (Harness.description v))) ++ chars "," ++
   NEWLINE :: Harness.entry "        " "trigger_operation"
     (Harness.quoted (chars (Harness.trigger_operation v))) ++ chars "," ++
   NEWLINE :: Harness.entry "        " "evidence"
     (Harness.quoted (Harness.escape_json_string (Harness.evidence v))) ++ chars "," ++
   NEWLINE :: Harness.entry "        " "state_path"
     (chars "[" ++ (NEWLINE :: Harness.items (fun s => chars "          " ++ Harness.quoted (chars s))
                      (Harness.state_path v) ++ chars "        ") ++ chars "]") ++
   NEWLINE :: chars "      ") ++
  chars "}".

Lemma violation_json_text v : Harness.violation_json v = chars "      " ++ violation_text v.
Proof. unfold Harness.violation_json, violation_text. regroup. Qed.

Lemma violation_is_json v : printable v = true -> json (violation_value v) (violation_text v).
Proof.
  unfold printable. rewrite !andb_true_iff, forallb_forall. intros [[[[[H1 H2] H3] H4] H5] H6].
  apply J_object.
  repeat (apply entry_more; [done|done| | done |]);
    try (apply entry_last; [done|done| |done]);
    auto using json_plain, json_escaped.
  - by apply json_plain; destruct (Harness.severity v).
  - apply J_array, items_elements; [done|done|]. apply Forall_forall. intros s Hs.
    apply json_plain, H6. by apply list_elem_of_In.
Qed.

Lemma items_ext {A} (f g : A -> list ascii) l :
  (forall x, f x = g x) -> Harness.items f l = Harness.items g l.
Proof.
  intros Hfg. induction l as [|x [|y l] IH]; [done|cbn; by rewrite Hfg|].
  change (f x ++ chars "," ++ NEWLINE :: Harness.items f (y :: l) =
          g x ++ chars "," ++ NEWLINE :: Harness.items g (y :: l)).
  by rewrite IH, Hfg.
Qed.

(** The report is the JSON text of its contents: every reader gets back the counters and
    every violation, provided the texts printed without escaping need none.  (The operation
    a probe is given is such a text.) *)
Theorem report_is_json r :
  all_chars plain (Harness.report_timestamp r) = true ->
  forallb printable (Harness.violations r) = true ->
  exists t, Harness.to_json r = t ++ [NEWLINE] /\ json (report_value r) t.
Proof.
  rewrite forallb_forall. intros Ht Hv. eexists. split.
  2: { apply J_object, entry_last with (indent := "  "%string) (w := [NEWLINE]); [done|done| |done].
       apply J_object, entry_more with (indent := "    "%string); [done|done|by apply json_plain|done|].
       apply entry_more with (indent := "    "%string); [done|done| |done|].
       - apply J_object.
         do 3 (apply entry_more with (indent := "      "%string); [done|done|apply J_number|done|]).
         apply entry_last with (indent := "      "%string) (w := NEWLINE :: chars "    ");
           [done|done|apply J_number|done].
       - apply entry_last with (indent := "    "%string) (w := NEWLINE :: chars "  "); [done|done| |done].
         apply J_array, (items_elements violation_value violation_text (chars "      ") _ (chars "    "));
           [done|done|].
         apply Forall_forall. intros v Hin. by apply violation_is_json, Hv, list_elem_of_In. }
  unfold Harness.to_json. rewrite (items_ext _ _ _ violation_json_text). regroup.
Qed.

(** ** What the explorer can find *)

(** What a context is reported for. *)
Definition flagged (c : Harness.FormalVerificationContext) : list string :=
  (if bool_decide (Harness.check_no_unreachable_states c = Some false) then ["INV-3"] else []) ++
  (if Harness.stake_amount c <=? 0 then ["INV-17"] else []).

Definition unpaid (counts : gmap Z Z) : Prop := forall k n, counts !! k = Some n -> n = 0.

Lemma check_context_flagged c counts found counts' :
  unpaid counts -> Harness.check_context c counts = Some (found, counts') ->
  map Harness.invariant_id found = flagged c /\ unpaid counts'.
Proof.
  intros Hu. unfold Harness.check_context, flagged.
  assert (exists counts1, Harness.check_no_double_payout c counts = (true, counts1) /\ unpaid counts1)
    as (counts1 & -> & Hu1).
  { unfold Harness.check_no_double_payout. case_bool_decide; [|by exists counts].
    assert (default 0 (counts !! Harness.match_id c) = 0) as ->
      by (destruct (counts !! _) eqn:E; [exact (Hu _ _ E)|done]).
    eexists. split; [done|]. intros k n. rewrite lookup_insert_Some. intros [[_ <-]|[_ Hk]]; eauto. }
  destruct (Harness.check_no_unreachable_states c) as [ok|]; [|done]. cbn. intros [= <- <-].
  split; [|done]. unfold Harness.check_positive_stake.
  destruct ok, (Z.ltb_spec 0 (Harness.stake_amount c)), (Z.leb_spec (Harness.stake_amount c) 0);
    try lia; done.
Qed.

Lemma check_contexts_flagged cs counts found :
  unpaid counts -> Harness.check_contexts cs counts = Some found ->
  map Harness.invariant_id found = flat_map flagged cs.
Proof.
  revert counts found. induction cs as [|c cs IH]; intros counts found Hu; [by intros [= <-]|].
  cbn. destruct (Harness.check_context c counts) as [[f counts']|] eqn:Hc; [|done]. cbn.
  destruct (check_context_flagged _ _ _ _ Hu Hc) as [Hf Hu'].
  destruct (Harness.check_contexts cs counts') as [g|] eqn:Hg; [|done]. cbn. intros [= <-].
  by rewrite map_app, Hf, (IH _ _ Hu' Hg).
Qed.

(** Whatever contexts it is given, the explorer reports only funded contexts in a terminal
    state (INV-3) and contexts without a stake (INV-17): it never counts a payout, so a
    double payout (INV-1) cannot be found.  On the contexts it generates itself it
    reports six states, thirty-six transitions and no violation, whatever the contract
    does. *)
Theorem explorer_exact e cs r :
  Harness.check_all_invariants e cs = Some r ->
  map Harness.invariant_id (Harness.violations r) = flat_map flagged cs.
Proof.
  unfold Harness.check_all_invariants.
  destruct (Harness.check_contexts cs ∅) as [found|] eqn:E; [|done]. cbn. intros [= <-].
  by apply (check_contexts_flagged _ _ _ (fun k n Hk => ltac:(by rewrite lookup_empty in Hk)) E).
Qed.

Lemma explorer_finds_nothing :
  let (e, cs) := Harness.explore_all_paths Harness.new_explorer in
  Harness.check_all_invariants e cs =
    Some (Harness.mkReport [] 6 36 20 (Harness.report_timestamp Harness.new_report)).
Proof. vm_compute. reflexivity. Qed.

(** ** The contract against the checks *)

(** INV-4 against the moves the contract makes: it allows staying in a terminal state,
    and rejects three moves the contract makes (a rollback agreed while the game is
    played, and results of a paused match). *)
Lemma progression_against_edges a b :
  (edge a b = true -> Harness.check_monotonic_progression a b = true \/
     (a, b) = (Active, Cancelled) \/ (a, b) = (Paused, Completed) \/ (a, b) = (Paused, PendingResult)) /\
  (Harness.check_monotonic_progression a b = true -> edge a b = true \/ a = b /\ is_terminal a = true).
Proof. destruct a, b; cbn; intuition discriminate. Qed.

(** INV-19 against the timeouts the contract accepts, counted in ledgers. *)
Lemma timeouts_in_bounds seconds :
  MIN_MATCH_TIMEOUT_SECONDS <= seconds <= MAX_MATCH_TIMEOUT_SECONDS ->
  Harness.check_timeout_bounds ((seconds + SECONDS_PER_LEDGER - 1) / SECONDS_PER_LEDGER) = true.
Proof.
  unfold MIN_MATCH_TIMEOUT_SECONDS, MAX_MATCH_TIMEOUT_SECONDS, SECONDS_PER_LEDGER,
    Harness.check_timeout_bounds. intros Hs.
  rewrite andb_true_iff, !Z.leb_le. split.
  - apply Z.div_le_lower_bound; lia.
  - apply Z.lt_succ_r, Z.div_lt_upper_bound; lia.
Qed.

(** The harness takes a set deposit flag for a stake still held. *)
Lemma escrow_held c :
  0 < Harness.stake_amount c -> 2 * Harness.stake_amount c <= i128_max ->
  exists b, Harness.escrow_balance c = Some b /\
    (b >? 0) = Harness.player1_deposited c || Harness.player2_deposited c.
Proof.
  intros Hp Hm. eexists. split; [apply checked_Some; split; [reflexivity|]|];
    unfold i128_min, i128_max in *; destruct (Harness.player1_deposited c), (Harness.player2_deposited c);
    rewrite ?Z.gtb_ltb, ?Z.ltb_lt, ?Z.ltb_ge; try reflexivity; cbn; lia.
Qed.

(** The context of a match of the contract. *)
Definition context_of (m : Match) : Harness.FormalVerificationContext :=
  Harness.mkContext (state m) {[Harness.name_of (state m)]} [] (id m) (stake_amount m)
    (player1_deposited m) (player2_deposited m) (Some (winner m))
    (player1_claimed m) (player2_claimed m) (bool_decide (state m = Paused)).

Section Contract.
Context {W : Type} `{TokenLaws W} `{!RateOracle W, !RateOracleLaws W}.
Implicit Types s : State W.

Definition all_matches (P : Match -> Prop) (c : Core) : Prop :=
  forall i m, c_match c i = Some m -> P m.

Lemma mstep_matches (P : Match -> Prop) env c c' :
  (forall c m m' x, evolve env c m m' x -> P m -> P m') ->
  mstep env c c' -> all_matches P c -> all_matches P c'.
Proof.
  intros He. destruct 1 as [c' Hc' | mid m m' x c' Hm Hev Hc' | mid m c' Hm Ht Hc'];
    intros Hp i m0; rewrite Hc'; try apply Hp.
  destruct (i =? mid); [|apply Hp]. intros [= <-]. by eapply He, Hp.
Qed.

(** What holds of new matches and is kept by every step of a match holds of all
    matches, always. *)
Lemma reachable_matches (P : Match -> Prop) me s :
  (forall env c m m' x, evolve env c m m' x -> P m -> P m') ->
  (forall p i seq now lg, P (new_match p i seq now lg)) ->
  reachable me (fun _ => True) s -> forall i m, match_of s i = Some m -> P m.
Proof.
  intros He Hn. induction 1 as [env w oracle admin s Hse Hb Hi | env call s _ IH Hse Hme _ | w s _ IH Hb].
  - destruct (initial_core _ _ _ _ _ Hi) as (Hp & _). intros i m. unfold match_of. by rewrite Hp.
  - unfold invoke. destruct (exec call env s) as [[] s'|e s'|] eqn:Hrun; cbn; [|done..].
    destruct (exec_steps call env s s' _ (view_core_of s) Hrun) as (c' & Hv & Hst & _).
    assert (all_matches P c') as Hc'; [|intros i m Hm; apply (Hc' i); by rewrite <- (v_match _ _ Hv)].
    destruct Hst as [Hc|Hr].
    + destruct Hc as [c' Hm | c' Hc | p lg c' _ _ _ _ Hc]; [by eapply mstep_matches; eauto| |].
      * intros i m. rewrite Hc. apply IH.
      * intros i m. rewrite Hc. case_match; [intros [= <-]; apply Hn|apply IH].
    + clear Hv Hrun. assert (all_matches P (core_of s)) as Hc by exact IH. revert Hc.
      induction Hr as [|c1 c2 c3 H12 _ IHr]; [done|]. intros Hc1.
      apply IHr. by eapply mstep_matches; eauto.
  - exact IH.
Qed.

End Contract.


(** The explorer on the context of that match. *)
Lemma explorer_exact_witness :
  exists r, Harness.check_all_invariants Harness.new_explorer
              [Harness.mkContext Completed ∅ [] 0 100 true true (Some WPlayer1) true false false]
            = Some r /\
    map Harness.invariant_id (Harness.violations r) = ["INV-3"].
Proof.
  destruct (Harness.check_all_invariants Harness.new_explorer
              [Harness.mkContext Completed ∅ [] 0 100 true true (Some WPlayer1) true false false])
    as [r|] eqn:Hr; [|vm_compute in Hr; discriminate Hr].
  exists r. split; [reflexivity|]. rewrite (explorer_exact _ _ _ Hr). vm_compute. reflexivity.
Defined.

Lemma report_is_json_witness :
  exists t, Harness.to_json Harness.new_report = t ++ [NEWLINE] /\ json (report_value Harness.new_report) t.
Proof. apply report_is_json; vm_compute; reflexivity. Defined.
