(* ===== verification/Tasks.v ===== *)
(** Asynchronous tasks: the computations of the off-chain services.

    An [async fn] runs in atomic actions; between two of them (at an [.await])
    other tasks may run.  [Task S A] is such a computation over a shared state
    [S]: it is finished with a value, or its next action maps the state to the
    next state and the rest of the computation.  [run] executes one task alone;
    [interleave] executes several under an explicit schedule.  [safe] is the
    proof rule for both: every atomic action keeps the invariant, whatever other
    tasks that keep it do in between. *)
From stdpp Require Import base list.

Inductive Task (S A : Type) : Type :=
  | Return (a : A)
  | Act (f : S -> S * Task S A).
Arguments Return {S A} a.
Arguments Act {S A} f.

Declare Scope task_scope.
Delimit Scope task_scope with task.

Section Combinators.
Context {S : Type}.

Fixpoint tbind {A B} (t : Task S A) (k : A -> Task S B) : Task S B :=
  match t with
  | Return a => k a
  | Act f => Act (fun s => match f s with (s', t') => (s', tbind t' k) end)
  end.

(** One atomic action with a result. *)
Definition atomic {A} (f : S -> S * A) : Task S A :=
  Act (fun s => match f s with (s', a) => (s', Return a) end).

(** A whole list, in order. *)
Fixpoint tfor {A} (l : list A) (body : A -> Task S unit) : Task S unit :=
  match l with
  | [] => Return tt
  | a :: l' => tbind (body a) (fun _ => tfor l' body)
  end.

(** The loop [for a in l { if stop { break } body }]: [body] says whether to
    go on. *)
Fixpoint twhile {A} (l : list A) (body : A -> Task S bool) : Task S unit :=
  match l with
  | [] => Return tt
  | a :: l' => tbind (body a) (fun go => if go then twhile l' body else Return tt)
  end.

Fixpoint tfilter {A} (p : A -> Task S bool) (l : list A) : Task S (list A) :=
  match l with
  | [] => Return []
  | a :: l' => tbind (p a) (fun b =>
      tbind (tfilter p l') (fun r => Return (if b then a :: r else r)))
  end.

(** One task alone, from start to end. *)
Fixpoint run {A} (t : Task S A) (s : S) : S * A :=
  match t with
  | Return a => (s, a)
  | Act f => match f s with (s', t') => run t' s' end
  end.

Definition exec {A} (t : Task S A) (s : S) : S := fst (run t s).
Definition value {A} (t : Task S A) (s : S) : A := snd (run t s).

(** The next atomic action of a task. *)
Definition step {A} (t : Task S A) (s : S) : S * Task S A :=
  match t with
  | Return a => (s, Return a)
  | Act f => f s
  end.

(** Several tasks under a schedule: each number picks the task that acts next. *)
Fixpoint interleave {A} (schedule : list nat) (pool : list (Task S A)) (s : S)
  : S * list (Task S A) :=
  match schedule with
  | [] => (s, pool)
  | i :: rest =>
      match pool !! i with
      | None => interleave rest pool s
      | Some t => match step t s with (s', t') => interleave rest (<[i := t']> pool) s' end
      end
  end.

End Combinators.

(** [let*?] binds in a task that returns a result and stops at its error, the
    operator [?]. *)
Definition tbind_ok {S E A B} (t : Task S (E + A)) (k : A -> Task S (E + B))
  : Task S (E + B) :=
  tbind t (fun r => match r with inl e => Return (inl e) | inr a => k a end).

Notation "'let*' x := t 'in' k" := (tbind t (fun x => k))
  (at level 10, x pattern, t at level 200, k at level 200) : task_scope.
Notation "'let*?' x := t 'in' k" := (tbind_ok t (fun x => k))
  (at level 10, x pattern, t at level 200, k at level 200) : task_scope.
Notation "t ;; k" := (tbind t (fun _ => k))
  (at level 100, right associativity) : task_scope.

(** ** Running *)

Section Running.
Context {S : Type}.

Lemma Task_nested_ind {A} (P : Task S A -> Prop) :
  (forall a, P (Return a)) ->
  (forall f, (forall s, P (snd (f s))) -> P (Act f)) -> forall t, P t.
Proof.
  intros Hr Ha. fix IH 1. intros [a|f]; [apply Hr|]. apply Ha. intros s.
  destruct (f s) as [s' t']. apply IH.
Qed.

Lemma run_tbind {A B} (t : Task S A) (k : A -> Task S B) s :
  run (tbind t k) s = match run t s with (s', a) => run (k a) s' end.
Proof.
  revert s. induction t as [a|f IH] using Task_nested_ind; intros s; [done|].
  cbn. specialize (IH s). destruct (f s) as [s' t']. apply IH.
Qed.

Lemma run_tbind_ok {E A B} (t : Task S (E + A)) (k : A -> Task S (E + B)) s :
  run (tbind_ok t k) s =
  match run t s with (s', inl e) => (s', inl e) | (s', inr a) => run (k a) s' end.
Proof. unfold tbind_ok. rewrite run_tbind. by destruct (run t s) as [s' [e|a]]. Qed.

Lemma run_atomic {A} (f : S -> S * A) s : run (atomic f) s = f s.
Proof. cbn. by destruct (f s). Qed.

End Running.

(** ** Invariants under interleaving *)

Section Safety.
Context {S : Type} (I : S -> Prop).

(** Every atomic action keeps [I], and the value the task ends with has [Q]. *)
Inductive safe {A} (Q : A -> Prop) : Task S A -> Prop :=
  | safe_return a : Q a -> safe Q (Return a)
  | safe_act f :
      (forall s, I s -> I (fst (f s))) ->
      (forall s, I s -> safe Q (snd (f s))) -> safe Q (Act f).

Lemma safe_tbind {A B} (Q : A -> Prop) (R : B -> Prop) t k :
  safe Q t -> (forall a, Q a -> safe R (k a)) -> safe R (tbind t k).
Proof.
  intros Ht Hk. induction Ht as [a Ha|f HI Hf IH]; cbn; [by apply Hk|].
  constructor; intros s Hs; specialize (HI s Hs); specialize (IH s Hs);
    destruct (f s); done.
Qed.

Lemma safe_tbind_ok {E A B} (Q : A -> Prop) (R : E + B -> Prop) (t : Task S (E + A)) k :
  safe (fun r => match r with inl _ => True | inr a => Q a end) t ->
  (forall e, R (inl e)) -> (forall a, Q a -> safe R (k a)) -> safe R (tbind_ok t k).
Proof.
  intros Ht He Hk. eapply safe_tbind; [done|]. intros [e|a] Ha; [|by apply Hk].
  by constructor.
Qed.

Lemma safe_weaken {A} (Q R : A -> Prop) t :
  safe Q t -> (forall a, Q a -> R a) -> safe R t.
Proof. intros Ht HQR. induction Ht; constructor; auto. Qed.

Lemma safe_atomic {A} (Q : A -> Prop) (f : S -> S * A) :
  (forall s, I s -> I (fst (f s)) /\ Q (snd (f s))) -> safe Q (atomic f).
Proof.
  intros Hf. constructor; intros s Hs; destruct (Hf s Hs) as [H1 H2];
    destruct (f s); cbn; [done|]. by constructor.
Qed.

Lemma safe_tfor {A} (l : list A) body :
  (forall a, a ∈ l -> safe (fun _ => True) (body a)) ->
  safe (fun _ => True) (tfor l body).
Proof.
  induction l as [|a l IH]; intros Hb; cbn; [by constructor|].
  eapply safe_tbind; [apply Hb; left|]. intros _ _. apply IH. intros; apply Hb; by right.
Qed.

Lemma safe_twhile {A} (l : list A) body :
  (forall a, a ∈ l -> safe (fun _ => True) (body a)) ->
  safe (fun _ => True) (twhile l body).
Proof.
  induction l as [|a l IH]; intros Hb; cbn; [by constructor|].
  eapply safe_tbind; [apply Hb; left|]. intros [] _; [|by constructor].
  apply IH. intros; apply Hb; by right.
Qed.

Lemma safe_tfilter {A} (P : A -> Prop) (p : A -> Task S bool) l :
  (forall a, safe (fun _ => True) (p a)) -> Forall P l -> safe (Forall P) (tfilter p l).
Proof.
  intros Hp. induction 1 as [|a l Ha Hl IH]; cbn; [by constructor|].
  eapply safe_tbind; [apply Hp|]. intros b _. eapply safe_tbind; [exact IH|].
  intros r Hr. constructor. destruct b; [by constructor|done].
Qed.

Lemma safe_step {A} (Q : A -> Prop) t s :
  safe Q t -> I s -> I (fst (step t s)) /\ safe Q (snd (step t s)).
Proof. intros [a Ha|f HI Hf] Hs; cbn; [split; [done|by constructor]|]. auto. Qed.

Lemma safe_run {A} (Q : A -> Prop) t s :
  safe Q t -> I s -> I (exec t s) /\ Q (value t s).
Proof.
  unfold exec, value. intros Ht. revert s. induction Ht as [a Ha|f HI Hf IH]; intros s Hs;
    [done|]. cbn. specialize (HI s Hs). specialize (IH s Hs). destruct (f s) as [s' t'].
  by apply IH.
Qed.

(** Tasks that keep the invariant keep it together, under every schedule. *)
Lemma safe_interleave {A} (Q : A -> Prop) schedule pool s :
  Forall (safe Q) pool -> I s ->
  I (fst (interleave schedule pool s)) /\ Forall (safe Q) (snd (interleave schedule pool s)).
Proof.
  revert pool s. induction schedule as [|i rest IH]; intros pool s Hp Hs; [done|]. cbn.
  destruct (pool !! i) as [t|] eqn:Hi; [|by apply IH].
  assert (Ht : safe Q t) by (by eapply Forall_lookup_1).
  destruct (safe_step Q t s Ht Hs) as [H1 H2]. destruct (step t s) as [s' t'].
  apply IH; [by apply Forall_insert|done].
Qed.

End Safety.

Create HintDb task.
#[export] Hint Constructors safe : task.
#[export] Hint Resolve safe_tfor safe_twhile safe_tfilter : task.


(** ** Sequential effects *)

Section Sequential.
Context {S : Type}.

Lemma exec_tbind {A B} (t : Task S A) (k : A -> Task S B) s :
  exec (tbind t k) s = exec (k (value t s)) (exec t s).
Proof. unfold exec, value. rewrite run_tbind. by destruct (run t s). Qed.

Lemma value_tbind {A B} (t : Task S A) (k : A -> Task S B) s :
  value (tbind t k) s = value (k (value t s)) (exec t s).
Proof. unfold exec, value. rewrite run_tbind. by destruct (run t s). Qed.

Lemma exec_tbind_ok {E A B} (t : Task S (E + A)) (k : A -> Task S (E + B)) s a :
  value t s = inr a -> exec (tbind_ok t k) s = exec (k a) (exec t s).
Proof. intros Ha. unfold tbind_ok. by rewrite exec_tbind, Ha. Qed.

Lemma value_tbind_ok {E A B} (t : Task S (E + A)) (k : A -> Task S (E + B)) s a :
  value t s = inr a -> value (tbind_ok t k) s = value (k a) (exec t s).
Proof. intros Ha. unfold tbind_ok. by rewrite value_tbind, Ha. Qed.

Lemma exec_return {A} (a : A) (s : S) : exec (Return a) s = s.
Proof. done. Qed.

Lemma value_return {A} (a : A) (s : S) : value (Return a) s = a.
Proof. done. Qed.

Lemma exec_atomic {A} (f : S -> S * A) s : exec (atomic f) s = fst (f s).
Proof. unfold exec. by rewrite run_atomic. Qed.

Lemma value_atomic {A} (f : S -> S * A) s : value (atomic f) s = snd (f s).
Proof. unfold value. by rewrite run_atomic. Qed.

(** A reflexive and transitive relation that every step of a task respects. *)
Context (R : S -> S -> Prop) `{!PreOrder R}.

Definition within {A} (t : Task S A) : Prop := forall s, R s (exec t s).

Lemma within_return {A} (a : A) : within (Return a).
Proof. intros s. rewrite exec_return. reflexivity. Qed.

Lemma within_tbind {A B} (t : Task S A) (k : A -> Task S B) :
  within t -> (forall a, within (k a)) -> within (tbind t k).
Proof. intros Ht Hk s. rewrite exec_tbind. transitivity (exec t s); [apply Ht|apply Hk]. Qed.

Lemma within_tbind_ok {E A B} (t : Task S (E + A)) (k : A -> Task S (E + B)) :
  within t -> (forall a, within (k a)) -> within (tbind_ok t k).
Proof.
  intros Ht Hk. apply within_tbind; [done|]. intros [e|a]; [apply within_return|done].
Qed.

Lemma within_atomic {A} (f : S -> S * A) :
  (forall s, R s (fst (f s))) -> within (atomic f).
Proof. intros Hf s. rewrite exec_atomic. apply Hf. Qed.

End Sequential.

(** [within_step] follows the structure of a task. *)
Ltac within_step :=
  lazymatch goal with
  | |- within _ (Return _) => apply within_return
  | |- within _ (tbind_ok _ _) => apply within_tbind_ok; [|intros ?]
  | |- within _ (tbind _ _) => apply within_tbind; [|intros ?]
  | |- within _ (match ?x with _ => _ end) => destruct x
  end.
