(* ===== verification/ServiceTypes.v ===== *)
(** The oracle service's data: queue, dead-letter and submission records, the
    files they live in, the result cache's entries, and the state of the running
    service that its tasks share.

    Times are in nanoseconds.  [Utc::now] and [Instant::now] read one clock that
    does not run backwards: each reading advances it by the next delay of
    [elapsed].  Each file operation consumes one element of [faults], which says
    whether the operating system reports an error and which.  The theorems
    quantify over both lists. *)
From stdpp Require Import base list strings.
From Stdlib Require Import ZArith.
From S2P Require Import Prelude OracleTypes Tasks.

Definition second : Z := 1000000000.

(** ** Errors *)

Inductive OracleServiceError :=
  | Config (msg : string)
  | Transport (msg : string)
  | RpcError (msg : string)
  | SimulateError (msg : string)
  | SendError (msg : string)
  | TxFailed (msg : string)
  | XdrError (msg : string)
  | QueueIo (msg : string).

Notation result A := (OracleServiceError + A)%type.

(** ** Records *)

Record PendingEntry := mkPendingEntry {
  pe_match_id : Z;
  pe_game_id : string;
  pe_platform : Platform;
  pe_attempts : Z;
  pe_next_attempt_at : Z;
  pe_enqueued_at : Z;
  pe_last_error : option string
}.

#[export] Instance PendingEntry_eta : Eta PendingEntry := fun e =>
  mkPendingEntry (pe_match_id e) (pe_game_id e) (pe_platform e) (pe_attempts e)
    (pe_next_attempt_at e) (pe_enqueued_at e) (pe_last_error e).

#[export] Instance PendingEntry_eq_dec : EqDecision PendingEntry.
Proof. solve_decision. Defined.

Record DeadLetterEntry := mkDeadLetterEntry {
  dl_entry : PendingEntry;
  dl_dead_lettered_at : Z;
  dl_total_attempts : Z
}.

Record SubmissionRecord := mkSubmissionRecord {
  sr_match_id : Z;
  sr_game_id : string;
  sr_platform : string;
  sr_winner : string;
  sr_submitted_at : Z;
  sr_soroban_tx_hash : string
}.

Definition CacheKey : Type := string * string.

Record CacheEntry := mkCacheEntry { ce_winner : Winner; ce_expires_at : Z }.

(** ** Files

    A JSON file is missing, holds only white space, holds a value, or holds text
    that does not parse. *)
Inductive File (A : Type) := Missing | Blank | Holds (a : A) | Corrupt.
Arguments Missing {A}.
Arguments Blank {A}.
Arguments Holds {A} a.
Arguments Corrupt {A}.

(** ** The running service *)

Record Service (C W : Type) := mkService {
  faults : list (option string);
  elapsed : list N;
  clock : Z;
  pending_file : File (list PendingEntry);
  dead_letter_file : File (list DeadLetterEntry);
  submissions_file : File (list SubmissionRecord);
  cursor_file : File Z;
  (** the [lru] crate's map behind the result cache *)
  cache : C;
  (** per platform, the instant before which no request is sent *)
  backoff_until : list (Platform * Z);
  (** the Chess.com client's API key *)
  api_key : option string;
  queue_depth : nat;
  dead_letter_count : nat;
  net : W
}.
Arguments mkService {C W}.
Arguments faults {C W}.
Arguments elapsed {C W}.
Arguments clock {C W}.
Arguments pending_file {C W}.
Arguments dead_letter_file {C W}.
Arguments submissions_file {C W}.
Arguments cursor_file {C W}.
Arguments cache {C W}.
Arguments backoff_until {C W}.
Arguments api_key {C W}.
Arguments queue_depth {C W}.
Arguments dead_letter_count {C W}.
Arguments net {C W}.

#[export] Instance Service_eta {C W} : Eta (Service C W) := fun s =>
  mkService (faults s) (elapsed s) (clock s) (pending_file s) (dead_letter_file s)
    (submissions_file s) (cursor_file s) (cache s) (backoff_until s)
    (api_key s) (queue_depth s) (dead_letter_count s) (net s).

Section Primitives.
Context {C W : Type}.
Notation Svc := (Service C W).

(** An operation of the file system: [Some msg] is its error. *)
Definition os_call (s : Svc) : Svc * option string :=
  match faults s with
  | [] => (s, None)
  | f :: rest => (s <| faults := rest |>, f)
  end.

(** [Utc::now()], [Instant::now()]. *)
Definition tick_clock (s : Svc) : Svc * Z :=
  match elapsed s with
  | [] => (s, clock s)
  | d :: rest =>
      (s <| elapsed := rest |> <| clock := clock s + Z.of_N d |>, clock s + Z.of_N d)
  end.
Definition now : Task Svc Z := atomic tick_clock.

(** A call to a remote system. *)
Definition remote {A} (call : W -> W * A) : Task Svc A :=
  atomic (fun s => match call (net s) with (w, a) => (s <| net := w |>, a) end).

(** An update of the in-memory state under its lock. *)
Definition update (f : Svc -> Svc) : Task Svc unit :=
  atomic (fun s => (f s, tt)).

(** [if path.exists() { read_to_string(path) } else { .. }]: [None] when there is
    no file, and an error of the operating system as [QueueIo]. *)
Definition read_file {A} (file : Svc -> File A)
  : Task Svc (OracleServiceError + option (File A)) :=
  atomic (fun s =>
    match file s with
    | Missing => (s, inr None)
    | f => match os_call s with
           | (s', None) => (s', inr (Some f))
           | (s', Some msg) => (s', inl (QueueIo msg))
           end
    end).

(** One operation of the file system that leaves the stores as they are. *)
Definition os_step : Task Svc (OracleServiceError + unit) :=
  atomic (fun s => match os_call s with
                   | (s', None) => (s', inr tt)
                   | (s', Some msg) => (s', inl (QueueIo msg))
                   end).

(** [fs::rename(tmp, path)]: the one action that replaces a file. *)
Definition rename_into (put : Svc -> Svc)
  : Task Svc (OracleServiceError + unit) :=
  atomic (fun s => match os_call s with
                   | (s', None) => (put s', inr tt)
                   | (s', Some msg) => (s', inl (QueueIo msg))
                   end).

Local Open Scope task_scope.

(** [create_dir_all], [write] to the [.tmp] file, [rename] over the file: the
    three steps of every [save].  The [.tmp] file is read by nobody. *)
Definition save_with (put : Svc -> Svc)
  : Task Svc (OracleServiceError + unit) :=
  let*? _ := os_step in
  let*? _ := os_step in
  rename_into put.

End Primitives.
