(* ===== verification/ServiceStores.v ===== *)
(** The oracle service's durable stores, from [oracle-service/src]: the pending
    queue ([queue.rs]), the dead-letter store ([dead_letter.rs]), the submission
    log ([submission_log.rs]) and the reconciliation cursor
    ([reconciliation_cursor.rs]), each a JSON file that is read, changed in memory
    and replaced. *)
From stdpp Require Import base list strings.
From Stdlib Require Import ZArith Lia.
From S2P Require Import Prelude OracleTypes Tasks ServiceTypes.

Local Open Scope string_scope.
Local Open Scope list_scope.
Local Open Scope Z_scope.
Local Open Scope task_scope.

(** ** Pending entries *)

Module Pending.

Definition new (now : Z) (match_id : Z) (game_id : string) (platform : Platform)
  : PendingEntry :=
  mkPendingEntry match_id game_id platform 0 now now None.

(** [1u64.checked_shl(exp)]: [None] when the shift is 64 or more. *)
Definition checked_shl_one (exp : Z) : option Z :=
  if exp <? 64 then Some (Z.shiftl 1 exp) else None.

Definition u64_sat_mul (a b : Z) : Z := clamp 0 u64_max (a * b).

(** Seconds until the next attempt, after [attempts] failures. *)
Definition retry_delay (base_delay_secs attempts : Z) : Z :=
  let multiplier := default u64_max (checked_shl_one (attempts - 1)) in
  Z.min (u64_sat_mul base_delay_secs multiplier) 3600.

(** [record_failure]: the changed entry and whether it is exhausted; [now] is the
    time read when a retry is scheduled. *)
Definition record_failure (now : Z) (error : string) (base_delay_secs max_retries : Z)
    (e : PendingEntry) : PendingEntry * bool :=
  let e := e <| pe_attempts := pe_attempts e + 1 |> <| pe_last_error := Some error |> in
  if max_retries <=? pe_attempts e then (e, true)
  else (e <| pe_next_attempt_at :=
              now + retry_delay base_delay_secs (pe_attempts e) * second |>, false).

Definition is_due (now : Z) (e : PendingEntry) : bool := pe_next_attempt_at e <=? now.

Lemma retry_delay_range base attempts : 0 <= base -> 0 <= retry_delay base attempts <= 3600.
Proof.
  intros Hb. unfold retry_delay, u64_sat_mul, clamp, u64_max.
  destruct (checked_shl_one (attempts - 1)); cbn; lia.
Qed.

(** What a recorded failure changes. *)
Lemma record_failure_spec t err base max e :
  let r := record_failure t err base max e in
  let e' := fst r in
  pe_match_id e' = pe_match_id e /\ pe_game_id e' = pe_game_id e /\
  pe_platform e' = pe_platform e /\ pe_attempts e' = pe_attempts e + 1 /\
  pe_last_error e' = Some err /\ snd r = (max <=? pe_attempts e + 1) /\
  (snd r = false ->
   pe_next_attempt_at e' = t + retry_delay base (pe_attempts e + 1) * second).
Proof.
  unfold record_failure. cbn. destruct (max <=? pe_attempts e + 1); cbn; by split_and!.
Qed.

End Pending.

Section Stores.
Context {C W : Type}.
Notation Svc := (Task (Service C W)).

(** ** The pending queue *)

Definition queue_load : Svc (result (list PendingEntry)) :=
  let*? f := read_file pending_file in
  Return (match f with
          | None => inr []
          | Some (Holds entries) => inr entries
          | Some _ => inl (QueueIo "corrupt queue file")
          end).

Definition queue_save (entries : list PendingEntry) : Svc (result unit) :=
  save_with (fun s => s <| pending_file := Holds entries |>).

Definition has_id (match_id : Z) (e : PendingEntry) : bool := pe_match_id e =? match_id.

Definition queue_enqueue (match_id : Z) (game_id : string) (platform : Platform)
  : Svc (result bool) :=
  let*? entries := queue_load in
  if existsb (has_id match_id) entries then Return (inr false)
  else
    let* t := now in
    let*? _ := queue_save (entries ++ [Pending.new t match_id game_id platform]) in
    Return (inr true).

Definition entry_due (e : PendingEntry) : Svc bool :=
  let* t := now in Return (Pending.is_due t e).

Definition queue_due_entries : Svc (result (list PendingEntry)) :=
  let*? entries := queue_load in
  let* due := tfilter entry_due entries in
  Return (inr due).

(** [entries[pos] = updated] at the first entry with the id. *)
Fixpoint replace_first (updated : PendingEntry) (entries : list PendingEntry)
  : list PendingEntry :=
  match entries with
  | [] => []
  | e :: rest => if has_id (pe_match_id updated) e then updated :: rest
                 else e :: replace_first updated rest
  end.

Definition queue_update_entry (updated : PendingEntry) : Svc (result unit) :=
  let*? entries := queue_load in
  if existsb (has_id (pe_match_id updated)) entries
  then queue_save (replace_first updated entries)
  else Return (inr tt).

Definition without_id (match_id : Z) (entries : list PendingEntry) : list PendingEntry :=
  List.filter (fun e => negb (has_id match_id e)) entries.

Definition queue_remove (match_id : Z) : Svc (result unit) :=
  let*? entries := queue_load in
  queue_save (without_id match_id entries).

(** ** The dead-letter store *)

Definition dead_letter_load : Svc (result (list DeadLetterEntry)) :=
  let*? f := read_file dead_letter_file in
  Return (match f with
          | None => inr []
          | Some (Holds entries) => inr entries
          | Some _ => inl (QueueIo "corrupt dead-letter file")
          end).

Definition dead_letter_save (entries : list DeadLetterEntry) : Svc (result unit) :=
  save_with (fun s => s <| dead_letter_file := Holds entries |>).

Definition dl_has_id (match_id : Z) (d : DeadLetterEntry) : bool :=
  pe_match_id (dl_entry d) =? match_id.

Definition set_dead_letter_count (n : nat) : Svc unit :=
  update (fun s => s <| dead_letter_count := n |>).

Definition dead_letter_push (entry : PendingEntry) : Svc (result unit) :=
  let* t := now in
  let dl := mkDeadLetterEntry entry t (pe_attempts entry) in
  let*? entries := dead_letter_load in
  if existsb (dl_has_id (pe_match_id (dl_entry dl))) entries then Return (inr tt)
  else
    let*? _ := dead_letter_save (entries ++ [dl]) in
    set_dead_letter_count (length (entries ++ [dl]));;
    Return (inr tt).

Definition dead_letter_remove (match_id : Z) : Svc (result unit) :=
  let*? entries := dead_letter_load in
  let entries := List.filter (fun d => negb (dl_has_id match_id d)) entries in
  let*? _ := dead_letter_save entries in
  set_dead_letter_count (length entries);;
  Return (inr tt).

(** ** The submission log *)

Definition platform_name (p : Platform) : string :=
  match p with Lichess => "lichess" | ChessDotCom => "chess.com" end.

Definition winner_name (w : Winner) : string :=
  match w with Player1 => "player1" | Player2 => "player2" | Draw => "draw" end.

Definition submission_record (match_id : Z) (game_id : string) (platform : Platform)
    (winner : Winner) (submitted_at : Z) (soroban_tx_hash : string) : SubmissionRecord :=
  mkSubmissionRecord match_id game_id (platform_name platform) (winner_name winner)
    submitted_at soroban_tx_hash.

Definition submissions_load : Svc (result (list SubmissionRecord)) :=
  let*? f := read_file submissions_file in
  Return (match f with
          | None | Some Blank => inr []
          | Some (Holds records) => inr records
          | Some _ => inl (QueueIo "failed to parse submissions.json")
          end).

(** [self.load().await.unwrap_or_default()]: a log that cannot be read counts as
    empty.  The directory is not created here. *)
Definition submissions_append (record : SubmissionRecord) : Svc (result unit) :=
  let* loaded := submissions_load in
  let entries := match loaded with inl _ => [] | inr records => records end in
  let*? _ := os_step in
  rename_into (fun s => s <| submissions_file := Holds (entries ++ [record]) |>).

(** ** The reconciliation cursor *)

Definition cursor_load : Svc Z :=
  let* f := read_file cursor_file in
  Return (match f with inr (Some (Holds offset)) => offset | _ => 0 end).

Definition cursor_save (offset : Z) : Svc (result unit) :=
  save_with (fun s => s <| cursor_file := Holds offset |>).

Definition cursor_clear : Svc unit :=
  atomic (fun s =>
    match cursor_file s with
    | Missing => (s, tt)
    | _ => match os_call s with
           | (s', None) => (s' <| cursor_file := Missing |>, tt)
           | (s', Some _) => (s', tt)
           end
    end).

End Stores.
