(* ===== verification/ResultCache.v ===== *)
(** The oracle service's result cache, [oracle-service/src/result_cache.rs]: a
    least-recently-used map of fetched results with a time to live.

    The map is the [lru] crate's.  Class [LruCache] has the operations the service
    calls, [LruLaws] what the crate documents of them: [peek] and [get] find the
    same entry, [get] only reorders, [pop] removes one key, [put] stores its entry
    and may drop others to stay within the capacity.  [Lru] is a map that satisfies
    the laws. *)
From stdpp Require Import base list strings.
From Stdlib Require Import ZArith Lia.
From S2P Require Import Prelude OracleTypes Tasks ServiceTypes ServiceStores.

Local Open Scope Z_scope.

Class LruCache (C : Type) := {
  lru_new : nat -> C;
  lru_peek : CacheKey -> C -> option CacheEntry;
  lru_get : CacheKey -> C -> C * option CacheEntry;
  lru_pop : CacheKey -> C -> C;
  lru_put : CacheKey -> CacheEntry -> C -> C;
  lru_len : C -> nat;
  lru_cap : C -> nat
}.

Class LruLaws (C : Type) `{LruCache C} := {
  lru_new_empty n k : lru_peek k (lru_new n) = None;
  lru_new_len n : lru_len (lru_new n) = 0%nat;
  lru_new_cap n : lru_cap (lru_new n) = n;
  lru_get_value k c : snd (lru_get k c) = lru_peek k c;
  lru_get_peek k k' c : lru_peek k' (fst (lru_get k c)) = lru_peek k' c;
  lru_get_len k c : (lru_len (fst (lru_get k c)) <= lru_len c)%nat;
  lru_get_cap k c : lru_cap (fst (lru_get k c)) = lru_cap c;
  lru_pop_peek k k' c : lru_peek k' (lru_pop k c) =
    if decide (k' = k) then None else lru_peek k' c;
  lru_pop_len k c : (lru_len (lru_pop k c) <= lru_len c)%nat;
  lru_pop_cap k c : lru_cap (lru_pop k c) = lru_cap c;
  lru_put_same k e c : (0 < lru_cap c)%nat -> lru_peek k (lru_put k e c) = Some e;
  lru_put_other k k' e e' c : k' <> k ->
    lru_peek k' (lru_put k e c) = Some e' -> lru_peek k' c = Some e';
  lru_put_room k k' e c : k' <> k -> (lru_len c < lru_cap c)%nat ->
    lru_peek k' (lru_put k e c) = lru_peek k' c;
  lru_put_len k e c :
    (lru_len c <= lru_cap c)%nat -> (lru_len (lru_put k e c) <= lru_cap c)%nat;
  lru_put_cap k e c : lru_cap (lru_put k e c) = lru_cap c
}.

Definition DEFAULT_CACHE_TTL_SECS : Z := 60.
Definition DEFAULT_CACHE_CAPACITY : nat := 1024.

Definition cache_key (platform : Platform) (game_id : string) : CacheKey :=
  (platform_name platform, game_id).

Definition is_expired (t : Z) (e : CacheEntry) : bool := ce_expires_at e <=? t.

Section Cache.
Context {C W : Type} `{LruCache C}.
Notation Svc := (Task (Service C W)).

(** [LruCache::new(capacity.max(1))]. *)
Definition cache_new (capacity : nat) : C := lru_new (Nat.max capacity 1).
Definition cache_with_defaults : C := cache_new DEFAULT_CACHE_CAPACITY.

(** [get] and [insert] on the map, at time [t]. *)
Definition lookup_result (t : Z) (k : CacheKey) (c : C) : C * option Winner :=
  match lru_peek k c with
  | None => (c, None)
  | Some e =>
      if is_expired t e then (lru_pop k c, None)
      else match lru_get k c with (c', found) => (c', ce_winner <$> found) end
  end.

Definition store_result (ttl t : Z) (k : CacheKey) (winner : Winner) (c : C) : C :=
  lru_put k (mkCacheEntry winner (t + ttl)) c.

(** The lock is held over the whole of [get]; the clock is read only for an entry
    that is there. *)
Definition cache_get (platform : Platform) (game_id : string) : Svc (option Winner) :=
  atomic (fun s =>
    match lru_peek (cache_key platform game_id) (cache s) with
    | None => (s, None)
    | Some _ =>
        match tick_clock s with (s, t) =>
        match lookup_result t (cache_key platform game_id) (cache s) with
        | (c, found) => (s <| cache := c |>, found)
        end end
    end).

(** [insert] reads the clock before it takes the lock. *)
Definition cache_insert (platform : Platform) (game_id : string) (winner : Winner)
  : Svc unit :=
  tbind now (fun t =>
  update (fun s => s <| cache :=
    store_result (DEFAULT_CACHE_TTL_SECS * second) t (cache_key platform game_id)
      winner (cache s) |>)).

End Cache.

(** ** What the cache promises *)

Section CacheSpec.
Context {C : Type} `{LruLaws C}.

(** The promise of the cache at time [t]: what a look-up would return. *)
Definition answers (t : Z) (k : CacheKey) (c : C) : option Winner :=
  e ← lru_peek k c; if is_expired t e then None else Some (ce_winner e).

Lemma lookup_result_spec t k c :
  snd (lookup_result t k c) = answers t k c /\
  forall t' k', t <= t' ->
    answers t' k' (fst (lookup_result t k c)) = answers t' k' c.
Proof.
  unfold lookup_result, answers. destruct (lru_peek k c) as [e|] eqn:Hp; [|done].
  cbn. destruct (is_expired t e) eqn:He; cbn.
  - split; [done|]. intros t' k' Ht. rewrite lru_pop_peek. case_decide; [|done]. subst.
    rewrite Hp. cbn. unfold is_expired in *. zbool.
    by rewrite (proj2 (Z.leb_le _ _)) by lia.
  - pose proof (lru_get_value k c) as Hv. pose proof (fun k' => lru_get_peek k k' c) as Hg.
    destruct (lru_get k c) as [c' found]; cbn in *. subst found. rewrite Hp. split; [done|].
    intros t' k' _. by rewrite Hg.
Qed.

End CacheSpec.

(** ** Histories

    The cache refines the map from each key to its last insertion, in that it may
    forget but not invent. *)

Inductive CacheOp :=
  | OpGet (t : Z) (k : CacheKey)
  | OpInsert (t : Z) (k : CacheKey) (w : Winner).

(** The last insertion of a key: the result and the time. *)
Fixpoint last_insert (k : CacheKey) (ops : list CacheOp) (prev : option (Winner * Z))
  : option (Winner * Z) :=
  match ops with
  | [] => prev
  | OpGet _ _ :: rest => last_insert k rest prev
  | OpInsert t k' w :: rest => last_insert k rest (if decide (k' = k) then Some (w, t) else prev)
  end.

Section History.
Context {C : Type} `{LruLaws C} (ttl : Z).

Definition cache_op (op : CacheOp) (c : C) : C :=
  match op with
  | OpGet t k => fst (lookup_result t k c)
  | OpInsert t k w => store_result ttl t k w c
  end.
Definition cache_ops (ops : list CacheOp) (c : C) : C := foldl (fun c op => cache_op op c) c ops.

(** Every entry is the last insertion of its key, and the capacity is kept. *)
Definition reflects (last : CacheKey -> option (Winner * Z)) (cap : nat) (c : C) : Prop :=
  (forall k e, lru_peek k c = Some e ->
     exists t, last k = Some (ce_winner e, t) /\ ce_expires_at e = t + ttl) /\
  (lru_len c <= cap)%nat /\ lru_cap c = cap.

Lemma lookup_result_reflects last cap t k c :
  reflects last cap c -> reflects last cap (fst (lookup_result t k c)).
Proof.
  intros (Hp & Hl & Hcap). unfold lookup_result. destruct (lru_peek k c) as [e|] eqn:E; [|done].
  destruct (is_expired t e); cbn.
  - split_and!; [|pose proof (lru_pop_len k c); lia|by rewrite lru_pop_cap].
    intros k' e'. rewrite lru_pop_peek. case_decide; [done|apply Hp].
  - pose proof (fun k' => lru_get_peek k k' c) as Hg. pose proof (lru_get_len k c).
    pose proof (lru_get_cap k c). destruct (lru_get k c) as [c' found]; cbn in *.
    split_and!; [|lia|congruence]. intros k' e'. rewrite Hg. apply Hp.
Qed.

Lemma store_result_reflects last cap t k w c :
  (0 < cap)%nat -> reflects last cap c ->
  reflects (fun k' => if decide (k = k') then Some (w, t) else last k') cap
    (store_result ttl t k w c).
Proof.
  intros Hpos (Hp & Hl & Hcap). unfold store_result. split_and!.
  - intros k' e'. destruct (decide (k = k')) as [<-|Hne].
    + rewrite lru_put_same by lia. intros [= <-]. by exists t.
    + intros Hin. eapply Hp, lru_put_other; [|exact Hin]. done.
  - pose proof (lru_put_len k (mkCacheEntry w (t + ttl)) c). lia.
  - by rewrite lru_put_cap.
Qed.

Lemma cache_ops_reflects ops last cap c :
  (0 < cap)%nat -> reflects last cap c ->
  reflects (fun k => last_insert k ops (last k)) cap (cache_ops ops c).
Proof.
  intros Hpos. revert last c. induction ops as [|[t k|t k w] ops IH]; intros last c Hr;
    cbn [cache_ops foldl last_insert cache_op]; [done| |].
  - by apply IH, lookup_result_reflects.
  - apply (IH (fun k' => if decide (k = k') then Some (w, t) else last k')).
    by apply store_result_reflects.
Qed.

(** after any history of look-ups and insertions the cache holds at most its
    capacity; a look-up that hits returns the result last inserted for exactly that
    platform and game, and only within its time to live; and right after an insertion
    the look-up does hit, until the time to live has passed. *)
Theorem cache_sound capacity ops t k w :
  let c := cache_ops ops (cache_new capacity) in
  (lru_len c <= Nat.max capacity 1)%nat /\
  (snd (lookup_result t k c) = Some w ->
     exists t0, last_insert k ops None = Some (w, t0) /\ t < t0 + ttl) /\
  (forall t', snd (lookup_result t' k (store_result ttl t k w c)) =
     if t' <? t + ttl then Some w else None).
Proof.
  cbv zeta. assert (Hr : reflects (fun k => last_insert k ops None) (Nat.max capacity 1)
                           (cache_ops ops (cache_new capacity))).
  { apply (cache_ops_reflects ops (fun _ => None)); [lia|]. unfold cache_new. split_and!.
    - intros k' e. by rewrite lru_new_empty.
    - rewrite lru_new_len. lia.
    - apply lru_new_cap. }
  destruct Hr as (Hp & Hl & Hcap). split_and!; [done| |].
  - rewrite (proj1 (lookup_result_spec t k _)). unfold answers.
    destruct (lru_peek k _) as [e|] eqn:E; [|done]. cbn. destruct (is_expired t e) eqn:Ex; [done|].
    intros [= <-]. destruct (Hp k e E) as (t0 & Hlast & Hexp). exists t0. split; [done|].
    unfold is_expired in Ex. zbool. lia.
  - intros t'. rewrite (proj1 (lookup_result_spec t' k _)). unfold answers, store_result.
    rewrite lru_put_same by lia. cbn. unfold is_expired; cbn.
    destruct (t' <? t + ttl) eqn:E; zbool.
    + by rewrite (proj2 (Z.leb_gt _ _)) by lia.
    + by rewrite (proj2 (Z.leb_le _ _)) by lia.
Qed.

End History.

(** ** An implementation: the entries, most recently used first *)

Module Lru.

Record t := mk { capacity : nat; entries : list (CacheKey * CacheEntry) }.

Fixpoint peek (k : CacheKey) (l : list (CacheKey * CacheEntry)) : option CacheEntry :=
  match l with
  | [] => None
  | (k', v) :: rest => if decide (k' = k) then Some v else peek k rest
  end.

Definition pop (k : CacheKey) (l : list (CacheKey * CacheEntry)) :=
  List.filter (fun kv => negb (bool_decide (fst kv = k))) l.

Lemma peek_pop k k' l : peek k' (pop k l) = if decide (k' = k) then None else peek k' l.
Proof.
  unfold pop. induction l as [|[k1 v1] l IH]; cbn; [by case_decide|].
  destruct (decide (k1 = k)) as [->|Hk].
  - rewrite bool_decide_eq_true_2 by done. cbn. rewrite IH.
    repeat case_decide; congruence.
  - rewrite bool_decide_eq_false_2 by done. cbn. rewrite IH.
    repeat case_decide; congruence.
Qed.

Lemma pop_length k l : (length (pop k l) <= length l)%nat.
Proof. apply List.filter_length_le. Qed.

Lemma pop_length_lt k l v : peek k l = Some v -> (length (pop k l) < length l)%nat.
Proof.
  induction l as [|[k1 v1] l IH]; cbn; [done|]. case_decide as Hk.
  - intros _. rewrite bool_decide_eq_true_2 by done. cbn. pose proof (pop_length k l).
    unfold pop in *. lia.
  - rewrite bool_decide_eq_false_2 by done. cbn. intros Hp%IH. unfold pop in *. lia.
Qed.

Lemma peek_take n k l v : peek k (take n l) = Some v -> peek k l = Some v.
Proof.
  revert n. induction l as [|[k1 v1] l IH]; intros [|n]; cbn; [done..|].
  case_decide; [done|apply IH].
Qed.

(** A full cache drops its last entry, the least recently used. *)
Definition put (k : CacheKey) (v : CacheEntry) (c : t) : t :=
  mk (capacity c) (take (capacity c) ((k, v) :: pop k (entries c))).

(** [get] of a key that is there moves it to the front. *)
Definition get (k : CacheKey) (c : t) : t * option CacheEntry :=
  match peek k (entries c) with
  | Some v => (mk (capacity c) ((k, v) :: pop k (entries c)), Some v)
  | None => (c, None)
  end.

#[global] Instance ops : LruCache t := {
  lru_new n := mk n [];
  lru_peek k c := peek k (entries c);
  lru_get := get;
  lru_pop k c := mk (capacity c) (pop k (entries c));
  lru_put := put;
  lru_len c := length (entries c);
  lru_cap := capacity
}.

#[global] Instance laws : LruLaws t.
Proof.
  split; cbn; try done; unfold get, put; cbn.
  - intros k c. by destruct (peek k (entries c)).
  - intros k k' c. destruct (peek k (entries c)) as [v|] eqn:Hp; cbn; [|done].
    rewrite peek_pop. repeat case_decide; congruence.
  - intros k c. destruct (peek k (entries c)) as [v|] eqn:Hp; cbn; [|done].
    apply pop_length_lt in Hp. lia.
  - intros k c. by destruct (peek k (entries c)).
  - intros. apply peek_pop.
  - intros. apply pop_length.
  - intros k e c Hc. destruct (capacity c) as [|n]; [lia|]. cbn. by rewrite decide_True.
  - intros k k' e e' c Hk Hp. apply peek_take in Hp. cbn in Hp. rewrite peek_pop in Hp.
    repeat case_decide; congruence.
  - intros k k' e c Hk Hl. pose proof (pop_length k (entries c)).
    rewrite take_ge by (cbn; lia). cbn. rewrite peek_pop. repeat case_decide; congruence.
  - intros k e c _. rewrite length_take. lia.
Qed.

End Lru.
