(* ===== verification/Clients.v ===== *)
(** The oracle service's clients of the two chess platforms, from
    [oracle-service/src/oracle]: [lichess_client.rs] and [chess_com_client.rs] with
    the errors of [errors.rs].

    The HTTP stack is a parameter: class [Http] has one function per endpoint the
    clients call, which answers with a failed request or a response whose body has
    been deserialized.  Waiting for a rate-limit token or a concurrency permit only
    delays a task, so it does not appear.  [LichessClient::fetch_results_batch] is
    defined twice in the source; the model is the first one, whose result the
    poller's [process_lichess_batch] looks up by game id. *)
From stdpp Require Import base list strings gmap.
From Stdlib Require Import ZArith Ascii.
From S2P Require Import Prelude Text OracleTypes Tasks ServiceTypes.

Local Open Scope string_scope.
Local Open Scope list_scope.
Local Open Scope Z_scope.
Local Open Scope task_scope.

(** ** Errors *)

Inductive LichessError :=
  | L_InvalidGameId
  | L_Http (e : string)
  | L_Timeout
  | L_RateLimited (retry_after : Z)
  | L_ConcurrencyLimitReached
  | L_HttpStatus (status : Z)
  | L_GameNotFound
  | L_GameNotFinished
  | L_InvalidResponse.

Inductive ChessComError :=
  | C_InvalidGameId
  | C_Http (e : string)
  | C_Timeout
  | C_RateLimited (retry_after : Z)
  | C_ConcurrencyLimitReached
  | C_HttpStatus (status : Z)
  | C_GameNotFound
  | C_InvalidResponse
  | C_GameNotFinished.

(** ** HTTP *)

Inductive SendError := TimedOut | SendFailed (e : string).

(** [body]: the deserialized body, or why it could not be read or parsed. *)
Record Response (A : Type) := mkResponse {
  status : Z;
  retry_after_header : option string;
  body : string + A
}.
Arguments mkResponse {A}.
Arguments status {A}.
Arguments retry_after_header {A}.
Arguments body {A}.

Definition OK : Z := 200.
Definition UNAUTHORIZED : Z := 401.
Definition NOT_FOUND : Z := 404.
Definition METHOD_NOT_ALLOWED : Z := 405.
Definition TOO_MANY_REQUESTS : Z := 429.
Definition is_success (code : Z) : bool := (200 <=? code) && (code <? 300).

Record LichessGame := mkLichessGame {
  lg_id : option string;
  lg_status : option string;
  lg_winner : option string
}.

(** A line of a newline-delimited JSON body: blank, a game, or unparsable. *)
Inductive NdLine := NdBlank | NdGame (g : LichessGame) | NdBad.

(** [end.result] of a Chess.com game. *)
Record ChessComGame := mkChessComGame { cg_url : option string; cg_end : option (option string) }.

Class Http (W : Type) := {
  (** [GET {base}/game/export/{id}] *)
  lichess_game_export : string -> W -> W * (SendError + Response LichessGame);
  (** [POST {base}/api/games/export/_ids] *)
  lichess_export_ids : list string -> W -> W * (SendError + Response (list NdLine));
  (** [GET {base}/pub/game/{id}] with an optional bearer token *)
  chess_com_game : option string -> string -> W -> W * (SendError + Response ChessComGame);
  (** [CHESSDOTCOM_API_KEY] in the environment *)
  env_api_key : W -> option string
}.

(** ** The Lichess client *)

Definition LICHESS_BATCH_MAX_IDS : nat := 300.
Definition DEFAULT_RATE_LIMIT_BACKOFF : Z := 60 * second.

Definition lichess_validate_game_id (game_id : string) : LichessError + unit :=
  let len := String.length game_id in
  if (negb (Nat.eqb len 8) && negb (Nat.eqb len 12))
     || negb (all_chars is_ascii_alphanumeric game_id)
  then inl L_InvalidGameId else inr tt.

Definition retry_after {A} (resp : Response A) : Z :=
  default DEFAULT_RATE_LIMIT_BACKOFF
    (secs ← (h ← retry_after_header resp; parse_u64 (trim h)); Some (secs * second)).

Definition game_result (game : LichessGame) : LichessError + Winner :=
  match lg_winner game, lg_status game with
  | Some w, st =>
      if String.eqb w "white" then inr Player1
      else if String.eqb w "black" then inr Player2
      else inl L_InvalidResponse
  | None, Some st =>
      if String.eqb st "created" || String.eqb st "started" then inl L_GameNotFinished
      else inr Draw
  | None, None => inr Draw
  end.

Definition lichess_send_error (e : SendError) : LichessError :=
  match e with TimedOut => L_Timeout | SendFailed msg => L_Http msg end.

(** The whole list cut into runs of [n], the last one possibly shorter. *)
Fixpoint chunks_fuel {A} (fuel n : nat) (l : list A) : list (list A) :=
  match fuel, l with
  | _, [] | O, _ => []
  | S fuel, _ => take n l :: chunks_fuel fuel n (drop n l)
  end.
Definition chunks {A} (n : nat) (l : list A) : list (list A) := chunks_fuel (length l) n l.

(** The games of a batch body by id; the last game of an id counts. *)
Fixpoint index_games (lines : list NdLine) (games : gmap string LichessGame)
  : LichessError + gmap string LichessGame :=
  match lines with
  | [] => inr games
  | NdBlank :: rest => index_games rest games
  | NdBad :: _ => inl L_InvalidResponse
  | NdGame g :: rest =>
      index_games rest (match lg_id g with Some id => <[id := g]> games | None => games end)
  end.

Definition batch_game_result (games : gmap string LichessGame) (id : string)
  : LichessError + Winner :=
  match games !! id with Some g => game_result g | None => inl L_GameNotFound end.

Definition record_chunk (games : gmap string LichessGame) (chunk : list string)
    (results : gmap string (LichessError + Winner)) : gmap string (LichessError + Winner) :=
  foldl (fun acc id => <[id := batch_game_result games id]> acc) results chunk.

(** First pass of [fetch_results_batch]: the errors of invalid ids, and the valid
    ids without repetition in input order. *)
Fixpoint split_valid (ids : list string) (results : gmap string (LichessError + Winner))
    (valid : list string) : gmap string (LichessError + Winner) * list string :=
  match ids with
  | [] => (results, valid)
  | id :: rest =>
      if bool_decide (is_Some (results !! id)) || bool_decide (id ∈ valid)
      then split_valid rest results valid
      else match lichess_validate_game_id id with
           | inr _ => split_valid rest results (valid ++ [id])
           | inl e => split_valid rest (<[id := inl e]> results) valid
           end
  end.

(** ** The Chess.com client *)

Definition MAX_RETRIES : nat := 3.
Definition INITIAL_BACKOFF : Z := second.

Definition chess_com_validate_game_id (game_id : string) : ChessComError + unit :=
  if String.eqb game_id "" || negb (all_chars is_ascii_digit game_id)
  then inl C_InvalidGameId else inr tt.

Definition chess_com_send_error (e : SendError) : ChessComError :=
  match e with TimedOut => C_Timeout | SendFailed msg => C_Http msg end.

(** The pause before retry number [retry_count], counted from 0. *)
Definition chess_com_pause {A} (resp : Response A) (retry_count : nat) : Z :=
  default (INITIAL_BACKOFF * 2 ^ Z.of_nat retry_count)
    (secs ← (h ← retry_after_header resp; parse_u64 h); Some (secs * second)).

Definition chess_com_winner (game : ChessComGame) : ChessComError + Winner :=
  match mjoin (cg_end game) with
  | None => inl C_InvalidResponse
  | Some r =>
      if String.eqb r "draw" then inr Draw
      else if String.eqb r "white" then inr Player1
      else if String.eqb r "black" then inr Player2
      else inl C_InvalidResponse
  end.

(** [reload_api_key]: an empty variable counts as unset. *)
Definition load_api_key {W} `{Http W} (w : W) : option string :=
  k ← env_api_key w; if String.eqb k "" then None else Some k.

Section Clients.
Context {C W : Type} `{Http W}.
Notation Svc := (Task (Service C W)).

Definition lichess_fetch_result (game_id : string) : Svc (LichessError + Winner) :=
  match lichess_validate_game_id game_id with
  | inl e => Return (inl e)
  | inr _ =>
      let* sent := remote (lichess_game_export game_id) in
      Return (match sent with
              | inl e => inl (lichess_send_error e)
              | inr resp =>
                  if status resp =? NOT_FOUND then inl L_GameNotFound
                  else if status resp =? TOO_MANY_REQUESTS
                  then inl (L_RateLimited (retry_after resp))
                  else if negb (is_success (status resp)) then inl (L_HttpStatus (status resp))
                  else match body resp with
                       | inl e => inl (L_Http e)
                       | inr g => game_result g
                       end
              end)
  end.

Definition export_games (ids : list string) : Svc (LichessError + list NdLine) :=
  let* sent := remote (lichess_export_ids ids) in
  Return (match sent with
          | inl e => inl (lichess_send_error e)
          | inr resp =>
              if status resp =? TOO_MANY_REQUESTS
              then inl (L_RateLimited (retry_after resp))
              else if negb (is_success (status resp)) then inl (L_HttpStatus (status resp))
              else match body resp with
                   | inl e => inl (L_Http e)
                   | inr lines => inr lines
                   end
          end).

Fixpoint fetch_chunks (cs : list (list string))
    (results : gmap string (LichessError + Winner))
  : Svc (LichessError + gmap string (LichessError + Winner)) :=
  match cs with
  | [] => Return (inr results)
  | chunk :: rest =>
      let*? lines := export_games chunk in
      match index_games lines ∅ with
      | inl e => Return (inl e)
      | inr games => fetch_chunks rest (record_chunk games chunk results)
      end
  end.

Definition lichess_fetch_results_batch (game_ids : list string)
  : Svc (LichessError + gmap string (LichessError + Winner)) :=
  match split_valid game_ids ∅ [] with
  | (results, valid) => fetch_chunks (chunks LICHESS_BATCH_MAX_IDS valid) results
  end.

Definition sleep (d : Z) : Svc unit := update (fun s => s <| clock := clock s + d |>).

Definition reload_api_key : Svc unit :=
  update (fun s => s <| api_key := load_api_key (net s) |>).

(** The request loop of [fetch_result]: one retry after a 401 with a reloaded key,
    and up to [MAX_RETRIES] after a 429.  [None] would be running out of fuel. *)
Fixpoint chess_com_request (fuel : nat) (game_id : string) (retry_count auth_retry_count : nat)
  : Svc (option (ChessComError + Response ChessComGame)) :=
  match fuel with
  | O => Return None
  | S fuel =>
      let* sent := atomic (fun s =>
        match chess_com_game (api_key s) game_id (net s) with
        | (w, r) => (s <| net := w |>, r)
        end) in
      match sent with
      | inl e => Return (Some (inl (chess_com_send_error e)))
      | inr resp =>
          if (status resp =? UNAUTHORIZED) && Nat.eqb auth_retry_count 0 then
            reload_api_key;;
            chess_com_request fuel game_id retry_count (S auth_retry_count)
          else if negb (status resp =? TOO_MANY_REQUESTS) || Nat.leb MAX_RETRIES retry_count
          then Return (Some (inr resp))
          else
            sleep (chess_com_pause resp retry_count);;
            chess_com_request fuel game_id (S retry_count) auth_retry_count
      end
  end.

Definition request_fuel : nat := 5.

Definition chess_com_fetch_result (game_id : string) : Svc (ChessComError + Winner) :=
  match chess_com_validate_game_id game_id with
  | inl e => Return (inl e)
  | inr _ =>
      let* sent := chess_com_request request_fuel game_id 0 0 in
      Return (match sent with
              | None => inl C_Timeout
              | Some (inl e) => inl e
              | Some (inr resp) =>
                  if status resp =? NOT_FOUND then inl C_GameNotFound
                  else if negb (is_success (status resp)) then inl (C_HttpStatus (status resp))
                  else match body resp with
                       | inl e => inl (C_Http e)
                       | inr g => chess_com_winner g
                       end
              end)
  end.

End Clients.
