(* ===== verification/Providers.v ===== *)
(** The oracle service's provider layer: the unified error type of
    [oracle/provider_error.rs] and the registry with failover of
    [oracle/provider.rs]; then the failover order of a single fetch, and the relation
    of the batch fetch to it.

    A provider ([GameProvider]) is a name and its two fetch operations over the
    shared state; the registry is the list of providers in order of precedence. *)
From stdpp Require Import base list strings.
From Stdlib Require Import ZArith Lia.
From S2P Require Import Prelude OracleTypes Tasks ServiceTypes Clients.

Local Open Scope string_scope.
Local Open Scope list_scope.
Local Open Scope Z_scope.
Local Open Scope task_scope.

(** ** Errors *)

Inductive ProviderError :=
  | P_RateLimited (provider : string) (retry_after : Z)
  | P_Unavailable (provider reason : string)
  | P_ConcurrencyLimitReached (provider : string)
  | P_InvalidGameId (msg : string)
  | P_GameNotFinished
  | P_GameNotFound
  | P_InvalidResponse (provider detail : string)
  | P_AllProvidersFailed (count : nat) (errors : list ProviderError).

Definition should_failover (e : ProviderError) : bool :=
  match e with P_Unavailable _ _ | P_ConcurrencyLimitReached _ => true | _ => false end.
Definition is_rate_limited (e : ProviderError) : bool :=
  match e with P_RateLimited _ _ => true | _ => false end.
Definition is_concurrency_limited (e : ProviderError) : bool :=
  match e with P_ConcurrencyLimitReached _ => true | _ => false end.
Definition is_terminal (e : ProviderError) : bool :=
  match e with
  | P_InvalidGameId _ | P_GameNotFound | P_InvalidResponse _ _ => true
  | _ => false
  end.

(** Three decimal digits of a status code. *)
Definition digit_char (n : Z) : Ascii.ascii := Ascii.ascii_of_nat (Z.to_nat (48 + n)).
Definition status_digits (code : Z) : string :=
  String (digit_char (code / 100)) (String (digit_char (code / 10 mod 10))
    (String (digit_char (code mod 10)) "")).

(** [reason_phrase]: the name that the display of a [StatusCode] appends. *)
Section Conversions.
Context (reason_phrase : Z -> string).

(** [format!("HTTP {status}")]. *)
Definition http_reason (code : Z) : string :=
  ("HTTP " ++ status_digits code ++ " " ++ reason_phrase code)%string.

Definition from_chess_com_error (e : ChessComError) : ProviderError :=
  match e with
  | C_InvalidGameId => P_InvalidGameId "chess.com"
  | C_GameNotFound => P_GameNotFound
  | C_GameNotFinished => P_GameNotFinished
  | C_InvalidResponse => P_InvalidResponse "chess.com" "missing or unrecognised result field"
  | C_Timeout => P_Unavailable "chess.com" "request timed out"
  | C_RateLimited ra => P_RateLimited "chess.com" ra
  | C_ConcurrencyLimitReached => P_ConcurrencyLimitReached "chess.com"
  | C_HttpStatus code =>
      if code =? 429 then P_RateLimited "chess.com" (60 * second)
      else P_Unavailable "chess.com" (http_reason code)
  | C_Http msg => P_Unavailable "chess.com" msg
  end.

Definition from_lichess_error (e : LichessError) : ProviderError :=
  match e with
  | L_InvalidGameId => P_InvalidGameId "lichess"
  | L_GameNotFound => P_GameNotFound
  | L_GameNotFinished => P_GameNotFinished
  | L_InvalidResponse => P_InvalidResponse "lichess" "missing or unrecognised result field"
  | L_Timeout => P_Unavailable "lichess" "request timed out"
  | L_RateLimited ra => P_RateLimited "lichess" ra
  | L_ConcurrencyLimitReached => P_ConcurrencyLimitReached "lichess"
  | L_HttpStatus code =>
      if code =? 429 then P_RateLimited "lichess" (60 * second)
      else P_Unavailable "lichess" (http_reason code)
  | L_Http msg => P_Unavailable "lichess" msg
  end.
End Conversions.

(** ** Providers *)

Record GameProvider (S : Type) := mkGameProvider {
  provider_name : string;
  provider_fetch : string -> Task S (ProviderError + Winner);
  provider_fetch_batch : list string -> Task S (list (string * (ProviderError + Winner)))
}.
Arguments mkGameProvider {S}.
Arguments provider_name {S}.
Arguments provider_fetch {S}.
Arguments provider_fetch_batch {S}.

(** The trait's default [fetch_results_batch]. *)
Fixpoint default_batch {S} (fetch : string -> Task S (ProviderError + Winner))
    (game_ids : list string) : Task S (list (string * (ProviderError + Winner))) :=
  match game_ids with
  | [] => Return []
  | id :: rest =>
      let* r := fetch id in
      let* rs := default_batch fetch rest in
      Return ((id, r) :: rs)
  end.

Section Implementations.
Context {C W : Type} `{Http W} (reason_phrase : Z -> string) (debug : string -> string).

(** [debug]: the [{:?}] of the id in the message. *)
Definition lichess_provider_fetch (game_id : string)
  : Task (Service C W) (ProviderError + Winner) :=
  match lichess_validate_game_id game_id with
  | inl _ => Return (inl (P_InvalidGameId
      ("lichess expects 8 or 12 alphanumeric chars, got " ++ debug game_id)%string))
  | inr _ =>
      let* r := lichess_fetch_result game_id in
      Return (match r with
              | inl e => inl (from_lichess_error reason_phrase e)
              | inr w => inr w
              end)
  end.

Definition chess_com_provider_fetch (game_id : string)
  : Task (Service C W) (ProviderError + Winner) :=
  let* r := chess_com_fetch_result game_id in
  Return (match r with
          | inl e => inl (from_chess_com_error reason_phrase e)
          | inr w => inr w
          end).

Definition lichess_provider : GameProvider (Service C W) :=
  mkGameProvider "lichess" lichess_provider_fetch (default_batch lichess_provider_fetch).
Definition chess_com_provider : GameProvider (Service C W) :=
  mkGameProvider "chess.com" chess_com_provider_fetch (default_batch chess_com_provider_fetch).
End Implementations.

(** ** The registry *)

Section Registry.
Context {S : Type}.

Definition fails_over (e : ProviderError) : bool :=
  should_failover e || is_rate_limited e || is_concurrency_limited e.

Fixpoint try_providers (providers : list (GameProvider S)) (game_id : string)
    (failover_errors : list ProviderError) : Task S (ProviderError + Winner) :=
  match providers with
  | [] => Return (inl (P_AllProvidersFailed (length failover_errors) failover_errors))
  | p :: rest =>
      let* r := provider_fetch p game_id in
      match r with
      | inr winner => Return (inr winner)
      | inl e => if fails_over e then try_providers rest game_id (failover_errors ++ [e])
                 else Return (inl e)
      end
  end.

Definition registry_fetch_result (providers : list (GameProvider S)) (game_id : string)
  : Task S (ProviderError + Winner) := try_providers providers game_id [].

(** [State] of a game during the batch. *)
Inductive GameState := Resolved (w : Winner) | Failed (errors : list ProviderError).

Definition winner_from_terminal (e : ProviderError) : Winner := Draw.

(** The state of a pending game after one provider's answer; [None] is a missing
    batch entry. *)
Definition game_answer (provider : string) (answer : option (ProviderError + Winner))
    (errors : list ProviderError) : GameState :=
  match default (inl (P_Unavailable provider "missing batch entry")) answer with
  | inr winner => Resolved winner
  | inl e => if fails_over e then Failed (errors ++ [e]) else Resolved (winner_from_terminal e)
  end.

(** Ids of the games that still need a provider. *)
Fixpoint pending_ids (game_ids : list string) (states : list GameState) : list string :=
  match game_ids, states with
  | id :: ids, Failed _ :: sts => id :: pending_ids ids sts
  | _ :: ids, Resolved _ :: sts => pending_ids ids sts
  | _, _ => []
  end.

(** The answers go to the pending games in order. *)
Fixpoint merge_answers (provider : string) (states : list GameState)
    (batch : list (string * (ProviderError + Winner))) : list GameState :=
  match states with
  | [] => []
  | Resolved w :: sts => Resolved w :: merge_answers provider sts batch
  | Failed errors :: sts =>
      game_answer provider (snd <$> head batch) errors
        :: merge_answers provider sts (tail batch)
  end.

Fixpoint batch_providers (providers : list (GameProvider S)) (game_ids : list string)
    (states : list GameState) : Task S (list GameState) :=
  match providers with
  | [] => Return states
  | p :: rest =>
      match pending_ids game_ids states with
      | [] => Return states
      | pending =>
          let* batch := provider_fetch_batch p pending in
          batch_providers rest game_ids (merge_answers (provider_name p) states batch)
      end
  end.

Definition final_answer (st : GameState) : ProviderError + Winner :=
  match st with
  | Resolved w => inr w
  | Failed errors => inl (P_AllProvidersFailed (length errors) errors)
  end.

Definition registry_fetch_results_batch (providers : list (GameProvider S))
    (game_ids : list string) : Task S (list (string * (ProviderError + Winner))) :=
  let* states := batch_providers providers game_ids (map (fun _ => Failed []) game_ids) in
  Return (zip game_ids (map final_answer states)).

End Registry.

Section Registry.
Context {S : Type}.

(** A provider that answers each game the same way at every time, in a batch as
    alone. *)
Definition steady (p : GameProvider S) (answer : string -> ProviderError + Winner) : Prop :=
  (forall id s, value (provider_fetch p id) s = answer id) /\
  (forall ids s, value (provider_fetch_batch p ids) s = map (fun id => (id, answer id)) ids).

(** The trait's default batch of a provider steady on single fetches. *)
Lemma default_batch_value (fetch : string -> Task S (ProviderError + Winner)) answer ids s :
  (forall id s, value (fetch id) s = answer id) ->
  value (default_batch fetch ids) s = map (fun id => (id, answer id)) ids.
Proof.
  intros Hf. revert s. induction ids as [|id ids IH]; intros s; cbn [default_batch map]; [done|].
  rewrite !value_tbind, Hf, IH. done.
Qed.

(** The answers of the providers, in order of precedence, to one game. *)
Fixpoint resolve (answers : list (string -> ProviderError + Winner)) (id : string)
    (errors : list ProviderError) : ProviderError + Winner :=
  match answers with
  | [] => inl (P_AllProvidersFailed (length errors) errors)
  | a :: rest =>
      match a id with
      | inr w => inr w
      | inl e => if fails_over e then resolve rest id (errors ++ [e]) else inl e
      end
  end.

Lemma try_providers_resolve providers answers id errors s :
  Forall2 steady providers answers ->
  value (try_providers providers id errors) s = resolve answers id errors.
Proof.
  intros Hall. revert errors s. induction Hall as [|p a providers answers [Hf _] _ IH];
    intros errors s; cbn [try_providers resolve]; [done|].
  rewrite value_tbind, Hf. destruct (a id) as [e|w]; [|done]. destruct (fails_over e); [apply IH|done].
Qed.

(** What the batch makes of an answer: the error of a game that a provider has
    rejected is replaced by a draw. *)
Definition masked (r : ProviderError + Winner) : ProviderError + Winner :=
  match r with
  | inl (P_AllProvidersFailed n es) => inl (P_AllProvidersFailed n es)
  | inl e => inr Draw
  | inr w => inr w
  end.

(** The state of a game after the remaining providers. *)
Fixpoint finish (answers : list (string -> ProviderError + Winner)) (id : string)
    (st : GameState) : GameState :=
  match st, answers with
  | Resolved w, _ => Resolved w
  | Failed errors, [] => Failed errors
  | Failed errors, a :: rest => finish rest id (game_answer "" (Some (a id)) errors)
  end.

Lemma finish_resolved answers id w : finish answers id (Resolved w) = Resolved w.
Proof. by destruct answers. Qed.

Lemma merge_batch name game_ids states (a : string -> ProviderError + Winner) :
  length states = length game_ids ->
  merge_answers name states (map (fun id => (id, a id)) (pending_ids game_ids states)) =
  zip_with (fun id st => match st with
                         | Resolved w => Resolved w
                         | Failed errors => game_answer "" (Some (a id)) errors
                         end) game_ids states.
Proof.
  revert game_ids. induction states as [|[w|errors] states IH]; intros [|id game_ids] Hl;
    cbn in *; try done; f_equal; auto.
Qed.

Lemma pending_nil game_ids states answers :
  length states = length game_ids -> pending_ids game_ids states = [] ->
  zip_with (finish answers) game_ids states = states.
Proof.
  revert game_ids. induction states as [|[w|errors] states IH]; intros [|id game_ids] Hl Hp;
    cbn in *; try done. rewrite finish_resolved. f_equal. auto.
Qed.

Lemma batch_providers_finish providers answers game_ids states s :
  Forall2 steady providers answers -> length states = length game_ids ->
  value (batch_providers providers game_ids states) s = zip_with (finish answers) game_ids states.
Proof.
  intros Hall. revert states s. induction Hall as [|p a providers answers [_ Hb] _ IH];
    intros states s Hl; cbn [batch_providers].
  - rewrite value_return. revert game_ids Hl.
    induction states as [|[w|errors] states IH]; intros [|id game_ids] Hl; cbn in *; try done;
      f_equal; auto.
  - destruct (pending_ids game_ids states) as [|id0 rest] eqn:Hp.
    + rewrite value_return. by rewrite pending_nil.
    + rewrite <-Hp, value_tbind, Hb, merge_batch by done. rewrite IH.
      * clear. revert states. induction game_ids as [|id game_ids IH]; intros [|[w|errors] states];
          cbn; try done; f_equal; [by rewrite !finish_resolved|apply IH|apply IH].
      * rewrite length_zip_with. lia.
Qed.

Lemma finish_masked answers id errors :
  (forall a e, a ∈ answers -> a id = inl e -> forall n es, e <> P_AllProvidersFailed n es) ->
  final_answer (finish answers id (Failed errors)) = masked (resolve answers id errors).
Proof.
  revert errors. induction answers as [|a answers IH]; intros errors Hno; cbn [finish resolve];
    [done|].
  unfold game_answer; cbn. destruct (a id) as [e|w] eqn:Ha; [|by rewrite finish_resolved].
  destruct (fails_over e) eqn:Hf; [apply IH; intros a' e' Ha'; apply Hno; by right|].
  rewrite finish_resolved. cbn. pose proof (Hno a e (list_elem_of_here _ _) Ha) as Hne.
  destruct e; cbn; try done. by destruct (Hne count errors0).
Qed.

(** for providers that answer steadily, a fetch returns the answer of the first
    provider that does not fail over, and the errors of all when each one does; the
    batch fetch gives every game, in order, that same answer, except that a game a
    provider has rejected (not found, not finished, invalid) is reported as a
    successful draw. *)
Theorem registry_batch_masks_errors providers answers game_ids s :
  Forall2 steady providers answers ->
  (forall a id e, a ∈ answers -> a id = inl e -> forall n es, e <> P_AllProvidersFailed n es) ->
  (forall id, value (registry_fetch_result providers id) s = resolve answers id []) /\
  value (registry_fetch_results_batch providers game_ids) s =
    map (fun id => (id, masked (value (registry_fetch_result providers id) s))) game_ids.
Proof.
  intros Hall Hno.
  assert (Hone : forall id, value (registry_fetch_result providers id) s = resolve answers id [])
    by (intros id; by apply try_providers_resolve).
  split; [exact Hone|]. unfold registry_fetch_results_batch. rewrite value_tbind, value_return.
  rewrite (batch_providers_finish _ answers) by (done || by rewrite length_map).
  induction game_ids as [|id game_ids IH]; [done|]. cbn [map zip_with zip]. f_equal; [|exact IH].
  rewrite Hone. f_equal. apply finish_masked. intros a e. apply Hno.
Qed.

End Registry.
