(* ===== verification/Poller.v ===== *)
(** The oracle service's pipeline, [oracle-service/src/poller.rs]: discovery of
    matches ([reconcile]), verification of the due ones ([tick], [tick_chess_com])
    with retries, back-off and dead-lettering, and the replay of dead-lettered
    entries ([bin/replay.rs]).

    [Chain] is the interface to the Soroban client ([soroban_client.rs]).
    [PollerText] has the functions [poller.rs] calls that the repository does not
    define ([validate_lichess_game_id], [classify_lichess_error] and the Chess.com
    ones) and the texts of errors.  [process_lichess_batch] is defined twice in the
    source; the model is the one [tick] can call.  [process_due_batched] and the
    functions only it calls are not reachable from any entry point. *)
From stdpp Require Import base list strings gmap.
From Stdlib Require Import ZArith.
From S2P Require Import Prelude OracleTypes Tasks ServiceTypes ServiceStores ResultCache.
From S2P Require Import Clients.

Local Open Scope string_scope.
Local Open Scope list_scope.
Local Open Scope Z_scope.
Local Open Scope task_scope.

(** ** Interfaces *)

(** [get_active_matches_paginated]'s items. *)
Record ActiveMatch := mkActiveMatch {
  am_match_id : Z;
  am_game_id : string;
  am_platform : Platform
}.

Class Chain (W : Type) := {
  get_active_matches_paginated :
    Z -> Z -> W -> W * (OracleServiceError + list ActiveMatch);
  chain_has_result : Z -> W -> W * (OracleServiceError + bool);
  chain_submit_result : Z -> Winner -> W -> W * (OracleServiceError + string)
}.

Inductive FetchError := Permanent (reason : string) | Transient (reason : string).

Class PollerText := {
  validate_lichess_game_id : string -> string + unit;
  validate_chess_com_game_id : string -> string + unit;
  classify_lichess_error : LichessError -> FetchError;
  classify_lichess_error_ref : LichessError -> FetchError;
  classify_chess_com_error : ChessComError -> FetchError;
  lichess_error_text : LichessError -> string;
  service_error_text : OracleServiceError -> string;
  id_too_long_text : nat -> string
}.

Record PollerConfig := mkPollerConfig {
  max_retries : Z;
  retry_base_delay_secs : Z
}.

(** ** Game ids *)

Definition validate_game_id `{PollerText} (platform : Platform) (game_id : string)
  : string + unit :=
  let len := String.length game_id in
  if Nat.eqb len 0 then inl "game_id is empty"
  else if Nat.ltb 64 len then inl (id_too_long_text len)
  else match platform with
       | Lichess => validate_lichess_game_id game_id
       | ChessDotCom => validate_chess_com_game_id game_id
       end.

Section Poller.
Context {C W : Type} `{LruCache C} `{Http W} `{Chain W} `{PollerText}.
Context (cfg : PollerConfig).
Notation Svc := (Task (Service C W)).

(** [if let Err(e) = t { error!(..) }]: the error is logged and dropped. *)
Definition logged {A} (t : Svc (result A)) : Svc unit := t;; Return tt.

(** ** Back-pressure *)

Definition backoff_lookup (platform : Platform) (l : list (Platform * Z)) : option Z :=
  snd <$> find (fun kv => bool_decide (fst kv = platform)) l.
Definition backoff_delete (platform : Platform) (l : list (Platform * Z))
  : list (Platform * Z) :=
  List.filter (fun kv => negb (bool_decide (fst kv = platform))) l.

Definition back_off (platform : Platform) (pause : Z) : Svc unit :=
  let* t := now in
  update (fun s => s <| backoff_until :=
    (platform, t + pause) :: backoff_delete platform (backoff_until s) |>).

Definition skip_if_backing_off (platform : Platform) : Svc bool :=
  atomic (fun s =>
    match backoff_lookup platform (backoff_until s) with
    | None => (s, false)
    | Some until =>
        match tick_clock s with (s, t) =>
          if t <=? until then (s, true)
          else (s <| backoff_until := backoff_delete platform (backoff_until s) |>, false)
        end
    end).

(** ** Outcomes of an attempt *)

Definition set_queue_depth (n : nat) : Svc unit :=
  update (fun s => s <| queue_depth := n |>).

Definition exhaust_entry (entry : PendingEntry) : Svc unit :=
  logged (dead_letter_push entry);;
  logged (queue_remove (pe_match_id entry)).

Definition handle_transient (entry : PendingEntry) (reason : string) : Svc unit :=
  let* t := if max_retries cfg <=? pe_attempts entry + 1 then Return 0 else now in
  match Pending.record_failure t reason (retry_base_delay_secs cfg) (max_retries cfg) entry with
  | (entry, true) => exhaust_entry entry
  | (entry, false) => logged (queue_update_entry entry)
  end.

(** An entry that no retry can help: all its attempts count as used. *)
Definition exhausted_with (entry : PendingEntry) (reason : string) : PendingEntry :=
  entry <| pe_last_error := Some reason |> <| pe_attempts := max_retries cfg |>.

Definition submit_and_complete (entry : PendingEntry) (winner : Winner) : Svc unit :=
  let match_id := pe_match_id entry in
  let* submitted := remote (chain_submit_result match_id winner) in
  match submitted with
  | inr tx_hash =>
      let* removed := queue_remove match_id in
      (match removed with
       | inl _ => Return tt
       | inr _ => let* loaded := queue_load in
                  match loaded with
                  | inr entries => set_queue_depth (length entries)
                  | inl _ => Return tt
                  end
       end);;
      let* t := now in
      logged (submissions_append
        (submission_record match_id (pe_game_id entry) (pe_platform entry) winner t tx_hash))
  | inl e => handle_transient entry (service_error_text e)
  end.

Definition handle_fetch_outcome (entry : PendingEntry) (outcome : FetchError + Winner)
  : Svc unit :=
  match outcome with
  | inr winner =>
      cache_insert (pe_platform entry) (pe_game_id entry) winner;;
      submit_and_complete entry winner
  | inl (Permanent reason) => exhaust_entry (exhausted_with entry reason)
  | inl (Transient reason) => handle_transient entry reason
  end.

(** ** One entry *)

(** What the platform's answer makes of an entry: a pause of the platform, or an
    outcome. *)
Definition lichess_outcome (r : LichessError + Winner) : Z + (FetchError + Winner) :=
  match r with
  | inl (L_RateLimited ra) => inl ra
  | inl e => inr (inl (classify_lichess_error e))
  | inr w => inr (inr w)
  end.

Definition chess_com_outcome (r : ChessComError + Winner) : Z + (FetchError + Winner) :=
  match r with
  | inl (C_RateLimited ra) => inl ra
  | inl (C_HttpStatus code) =>
      if code =? TOO_MANY_REQUESTS then inl DEFAULT_RATE_LIMIT_BACKOFF
      else inr (inl (classify_chess_com_error (C_HttpStatus code)))
  | inl e => inr (inl (classify_chess_com_error e))
  | inr w => inr (inr w)
  end.

Definition fetch_outcome (platform : Platform) (game_id : string)
  : Svc (Z + (FetchError + Winner)) :=
  match platform with
  | Lichess => let* r := lichess_fetch_result game_id in Return (lichess_outcome r)
  | ChessDotCom => let* r := chess_com_fetch_result game_id in Return (chess_com_outcome r)
  end.

Definition process_entry (entry : PendingEntry) : Svc unit :=
  match validate_game_id (pe_platform entry) (pe_game_id entry) with
  | inl reason => exhaust_entry (exhausted_with entry reason)
  | inr _ =>
      let* cached := cache_get (pe_platform entry) (pe_game_id entry) in
      match cached with
      | Some winner => submit_and_complete entry winner
      | None =>
          let* fetched := fetch_outcome (pe_platform entry) (pe_game_id entry) in
          match fetched with
          | inl pause => back_off (pe_platform entry) pause
          | inr outcome => handle_fetch_outcome entry outcome
          end
      end
  end.

(** ** The Lichess batch *)

(** Pre-validation and cache; the entries that need the platform are returned. *)
Fixpoint prepare_batch (entries : list PendingEntry) : Svc (list PendingEntry) :=
  match entries with
  | [] => Return []
  | entry :: rest =>
      match validate_game_id (pe_platform entry) (pe_game_id entry) with
      | inl reason => exhaust_entry (exhausted_with entry reason);; prepare_batch rest
      | inr _ =>
          let* cached := cache_get (pe_platform entry) (pe_game_id entry) in
          match cached with
          | Some winner => submit_and_complete entry winner;; prepare_batch rest
          | None => let* pending := prepare_batch rest in Return (entry :: pending)
          end
      end
  end.

Definition batch_outcome (results : gmap string (LichessError + Winner)) (game_id : string)
  : FetchError + Winner :=
  match results !! game_id with
  | Some (inr w) => inr w
  | Some (inl e) => inl (classify_lichess_error_ref e)
  | None => inl (Transient "missing from batch result")
  end.

(** [if skip_if_backing_off(p) { break } process_entry(entry)]. *)
Definition process_unless_paused (platform : Platform) (entry : PendingEntry) : Svc bool :=
  let* paused := skip_if_backing_off platform in
  if paused then Return false else process_entry entry;; Return true.

Definition batch_failed (pending : list PendingEntry) (e : LichessError) : Svc unit :=
  let each := tfor pending (fun entry => handle_transient entry (lichess_error_text e)) in
  match e with
  | L_RateLimited pause => back_off Lichess pause
  | L_HttpStatus code =>
      if (code =? NOT_FOUND) || (code =? METHOD_NOT_ALLOWED)
      then twhile pending (process_unless_paused Lichess)
      else each
  | _ => each
  end.

Definition process_lichess_batch (entries : list PendingEntry) : Svc unit :=
  let* paused := skip_if_backing_off Lichess in
  if paused then Return tt else
  let* pending := prepare_batch entries in
  match pending with
  | [] => Return tt
  | _ =>
      let* fetched := lichess_fetch_results_batch (map pe_game_id pending) in
      match fetched with
      | inr results => tfor pending (fun entry =>
          handle_fetch_outcome entry (batch_outcome results (pe_game_id entry)))
      | inl e => batch_failed pending e
      end
  end.

(** ** The ticks *)

Definition on_platform (p : Platform) (e : PendingEntry) : bool :=
  bool_decide (pe_platform e = p).

Definition tick : Svc (result unit) :=
  let*? due := queue_due_entries in
  let*? all := queue_load in
  set_queue_depth (length all);;
  match due with
  | [] => Return (inr tt)
  | _ =>
      let lichess := List.filter (on_platform Lichess) due in
      let others := List.filter (fun e => negb (on_platform Lichess e)) due in
      (match lichess with [] => Return tt | _ => process_lichess_batch lichess end);;
      twhile others (fun entry => process_unless_paused (pe_platform entry) entry);;
      Return (inr tt)
  end.

Fixpoint chess_com_entries (due : list PendingEntry) (count : nat) : Svc nat :=
  match due with
  | [] => Return count
  | entry :: rest =>
      let* went := process_unless_paused ChessDotCom entry in
      if went then chess_com_entries rest (S count) else Return count
  end.

Definition tick_chess_com : Svc (result nat) :=
  let*? due := queue_due_entries in
  let* count := chess_com_entries (List.filter (on_platform ChessDotCom) due) 0 in
  Return (inr count).

(** ** Discovery *)

Definition poller_enqueue (match_id : Z) (game_id : string) (platform : Platform)
  : Svc (result bool) :=
  let*? added := queue_enqueue match_id game_id platform in
  if added then
    let*? entries := queue_load in
    set_queue_depth (length entries);;
    Return (inr true)
  else Return (inr false).

Definition PAGE_SIZE : Z := 50.

(** One match of a page; the count of discovered matches only goes to the log. *)
Definition reconcile_match (dead_lettered_ids : list Z) (m : ActiveMatch) : Svc unit :=
  let* has_result := remote (chain_has_result (am_match_id m)) in
  match has_result with
  | inl _ => Return tt
  | inr true => Return tt
  | inr false =>
      if bool_decide (am_match_id m ∈ dead_lettered_ids) then Return tt
      else logged (queue_enqueue (am_match_id m) (am_game_id m) (am_platform m))
  end.

(** The page loop; [inr false] is running out of fuel. *)
Fixpoint reconcile_pages (fuel : nat) (dead_lettered_ids : list Z) (offset : Z)
  : Svc (result bool) :=
  match fuel with
  | O => Return (inr false)
  | S fuel =>
      let*? page := remote (get_active_matches_paginated offset PAGE_SIZE) in
      match page with
      | [] => Return (inr true)
      | _ =>
          tfor page (reconcile_match dead_lettered_ids);;
          let offset := offset + Z.of_nat (length page) in
          logged (cursor_save offset);;
          if Z.of_nat (length page) <? PAGE_SIZE then Return (inr true)
          else reconcile_pages fuel dead_lettered_ids offset
      end
  end.

Definition reconcile (fuel : nat) : Svc (result bool) :=
  let*? dead := dead_letter_load in
  let* offset := cursor_load in
  let*? finished := reconcile_pages fuel (map (fun d => pe_match_id (dl_entry d)) dead) offset in
  if finished then cursor_clear;; Return (inr true) else Return (inr false).

(** ** Replay of dead-lettered entries *)

Inductive Replayed := ReplaySuccess | ReplaySkip | ReplayFailure.

Definition replay_entry (dry_run : bool) (max : option Z) (d : DeadLetterEntry)
  : Svc Replayed :=
  let match_id := pe_match_id (dl_entry d) in
  if match max with Some n => n <=? dl_total_attempts d | None => false end
  then Return ReplaySkip
  else if dry_run then Return ReplaySuccess
  else
    let* added := queue_enqueue match_id (pe_game_id (dl_entry d)) (pe_platform (dl_entry d)) in
    match added with
    | inr true => dead_letter_remove match_id;; Return ReplaySuccess
    | inr false => Return ReplaySkip
    | inl _ => Return ReplayFailure
    end.

Fixpoint replay_entries (dry_run : bool) (max : option Z) (entries : list DeadLetterEntry)
  : Svc (list Replayed) :=
  match entries with
  | [] => Return []
  | d :: rest =>
      let* r := replay_entry dry_run max d in
      let* rs := replay_entries dry_run max rest in
      Return (r :: rs)
  end.

(** [oracle-replay --all]; an unreadable store counts as empty. *)
Definition replay_all (dry_run : bool) (max : option Z) : Svc (list Replayed) :=
  let* loaded := dead_letter_load in
  replay_entries dry_run max (match loaded with inl _ => [] | inr entries => entries end).

End Poller.
