(* ===== verification/ExportCsv.v ===== *)
(** The audit export, [oracle-service/src/bin/export_csv.rs]: the command line, the
    filters and the CSV text of the submission log; then that a CSV reader gets back
    exactly the exported records.

    The formatting of time stamps, lower-casing beyond ASCII and the file system are
    parameters. *)
From stdpp Require Import base tactics list strings pretty.
From Stdlib Require Import ZArith Lia Ascii.
From S2P Require Import Prelude Text Tasks ServiceTypes ServiceStores.

Local Open Scope Z_scope.

Definition COMMA : ascii := ",".

(** ** The command line *)

(** [args.iter().position(|a| a == flag)], then the argument after it. *)
Definition position (flag : string) (args : list string) : option nat :=
  fst <$> list_find (fun a => a = flag) args.
Definition value_of (flag : string) (args : list string) : option string :=
  pos ← position flag args; args !! S pos.

Definition parse_output (args : list string) : option string := value_of "--output" args.

(** [None]: the process exits with code 1. *)
Definition parse_match_id (args : list string) : option (option Z) :=
  match position "--match-id" args with
  | Some pos =>
      match args !! S pos with
      | Some val => match parse_u64 val with Some n => Some (Some n) | None => None end
      | None => None
      end
  | None => Some None
  end.

(** ** Fields *)

Definition needs_quotes (s : list ascii) : bool :=
  existsb (fun c => bool_decide (c = COMMA) || bool_decide (c = QUOTE) || bool_decide (c = NEWLINE)) s.

(** [s.replace] of a quote by two. *)
Fixpoint double_quotes (s : list ascii) : list ascii :=
  match s with
  | [] => []
  | c :: s => if bool_decide (c = QUOTE) then QUOTE :: QUOTE :: double_quotes s
              else c :: double_quotes s
  end.

Definition csv_field (s : string) : list ascii :=
  if needs_quotes (chars s) then QUOTE :: double_quotes (chars s) ++ [QUOTE] else chars s.

(** ** The export *)

Inductive Outcome :=
  | Usage
  | Failed
  | NoRecords
  | Exported (path : option string) (csv : list ascii).

Definition header : list string :=
  ["match_id"; "game_id"; "platform"; "winner"; "submitted_at"; "soroban_tx_hash"].

Section Writing.
Context (to_rfc3339 : Z -> string) (to_lowercase : string -> string).

Definition parse_platform (args : list string) : option string :=
  to_lowercase <$> value_of "--platform" args.
Definition parse_winner (args : list string) : option string :=
  to_lowercase <$> value_of "--winner" args.

Definition selected (id : option Z) (platform winner : option string) (r : SubmissionRecord) : bool :=
  match id with Some i => sr_match_id r =? i | None => true end &&
  match platform with Some p => String.eqb (to_lowercase (sr_platform r)) p | None => true end &&
  match winner with Some w => String.eqb (to_lowercase (sr_winner r)) w | None => true end.

Definition columns (r : SubmissionRecord) : list string :=
  [pretty (sr_match_id r); sr_game_id r; sr_platform r; sr_winner r;
   to_rfc3339 (sr_submitted_at r); sr_soroban_tx_hash r].

(** One formatted line. *)
Fixpoint csv_line (fields : list (list ascii)) : list ascii :=
  match fields with
  | [] => [NEWLINE]
  | [f] => f ++ [NEWLINE]
  | f :: rest => f ++ COMMA :: csv_line rest
  end.

Definition build_csv (records : list SubmissionRecord) : list ascii :=
  chars "match_id,game_id,platform,winner,submitted_at,soroban_tx_hash" ++ NEWLINE ::
  concat (map (fun r => csv_line (map csv_field (columns r))) records).

(** [main]; [loaded] is what reading the log gives, [writes] whether the output can be
    written. *)
Definition main (args : list string) (loaded : OracleServiceError + list SubmissionRecord)
    (writes : option string -> bool) : Outcome :=
  if existsb (fun a => String.eqb a "--help" || String.eqb a "-h") args then Usage
  else match loaded with
       | inl _ => Failed
       | inr entries =>
           match parse_match_id args with
           | None => Failed
           | Some id =>
               let filtered := List.filter (selected id (parse_platform args) (parse_winner args)) entries in
               match filtered with
               | [] => NoRecords
               | _ => let path := parse_output args in
                      if writes path then Exported path (build_csv filtered) else Failed
               end
           end
       end.
End Writing.

(** ** Reading it back *)

(** A reader of comma-separated values: quoted fields hold any text, with a quote
    written twice. *)
Inductive Mode := Plain | Quoted | Closing.

Fixpoint read (l : list ascii) (mode : Mode) (field : list ascii) (record : list string)
  : list (list string) :=
  match l with
  | [] => match field, record with
          | [], [] => []
          | _, _ => [rev (of_chars (rev field) :: record)]
          end
  | c :: l =>
      let sep next :=
        if bool_decide (c = COMMA) then read l Plain [] (of_chars (rev field) :: record)
        else if bool_decide (c = NEWLINE)
        then rev (of_chars (rev field) :: record) :: read l Plain [] []
        else next in
      match mode with
      | Plain => sep (if bool_decide (c = QUOTE /\ field = []) then read l Quoted field record
                      else read l Plain (c :: field) record)
      | Quoted => if bool_decide (c = QUOTE) then read l Closing field record
                  else read l Quoted (c :: field) record
      | Closing => if bool_decide (c = QUOTE) then read l Quoted (c :: field) record
                   else sep (read l Plain (c :: field) record)
      end
  end.

Definition read_csv (l : list ascii) : list (list string) := read l Plain [] [].

Lemma needs_quotes_false s c :
  needs_quotes s = false -> c ∈ s -> c <> COMMA /\ c <> QUOTE /\ c <> NEWLINE.
Proof.
  intros Hs Hc. unfold needs_quotes in Hs.
  assert (H : ~ (c = COMMA \/ c = QUOTE \/ c = NEWLINE)); [|tauto]. intros H.
  enough (existsb (fun c => bool_decide (c = COMMA) || bool_decide (c = QUOTE) ||
                            bool_decide (c = NEWLINE)) s = true) by congruence.
  apply existsb_exists. exists c. split; [by apply list_elem_of_In|].
  destruct H as [->|[->| ->]]; done.
Qed.

Lemma read_plain s : forall field rest record,
  (forall c, c ∈ s -> c <> COMMA /\ c <> QUOTE /\ c <> NEWLINE) ->
  read (s ++ rest) Plain field record = read rest Plain (rev s ++ field) record.
Proof.
  induction s as [|c s IH]; intros field rest record Hs; [done|]. cbn [app read].
  destruct (Hs c) as (H1 & H2 & H3); [by left|].
  rewrite (bool_decide_eq_false_2 (c = COMMA)), (bool_decide_eq_false_2 (c = NEWLINE)),
    (bool_decide_eq_false_2 (c = QUOTE /\ _)) by naive_solver.
  rewrite IH by (intros; apply Hs; by right). cbn [rev]. by rewrite <- app_assoc.
Qed.

Lemma read_quoted s : forall field rest record,
  read (double_quotes s ++ QUOTE :: rest) Quoted field record =
  read rest Closing (rev s ++ field) record.
Proof.
  induction s as [|c s IH]; intros field rest record; [done|]. cbn [double_quotes rev].
  rewrite <- app_assoc. cbn [app]. case_bool_decide as Hc.
  - subst c. cbn [app read]. rewrite !bool_decide_eq_true_2 by done. apply IH.
  - cbn [app read]. rewrite bool_decide_eq_false_2 by done. apply IH.
Qed.

(** A separator after a field ends it. *)
Lemma read_field s rest record :
  read (csv_field s ++ COMMA :: rest) Plain [] record = read rest Plain [] (s :: record) /\
  read (csv_field s ++ NEWLINE :: rest) Plain [] record = rev (s :: record) :: read rest Plain [] [].
Proof.
  unfold csv_field. destruct (needs_quotes (chars s)) eqn:E.
  - cbn [app]. rewrite <- !app_assoc. cbn [app]. cbn [read].
    rewrite !(bool_decide_eq_false_2 (QUOTE = _)), !(bool_decide_eq_true_2 (QUOTE = QUOTE /\ _)) by done.
    rewrite !read_quoted, app_nil_r. cbn [read].
    rewrite !(bool_decide_eq_false_2 (_ = QUOTE)), !bool_decide_eq_true_2 by done.
    rewrite (bool_decide_eq_false_2 (NEWLINE = COMMA)) by done. rewrite rev_involutive.
    by rewrite String.string_of_list_ascii_of_string.
  - rewrite !read_plain by (intros; by eapply needs_quotes_false). rewrite app_nil_r. cbn [read].
    rewrite !bool_decide_eq_true_2 by done.
    rewrite (bool_decide_eq_false_2 (NEWLINE = COMMA)) by done. rewrite rev_involutive.
    by rewrite String.string_of_list_ascii_of_string.
Qed.

Lemma read_line fields rest : forall record,
  fields <> [] ->
  read (csv_line (map csv_field fields) ++ rest) Plain [] record =
  (rev record ++ fields) :: read rest Plain [] [].
Proof.
  induction fields as [|f fields IH]; intros record Hne; [done|].
  destruct fields as [|g fields].
  - cbn [map csv_line]. rewrite <- app_assoc. cbn [app]. by rewrite (proj2 (read_field f rest record)).
  - change (csv_line (map csv_field (f :: g :: fields)))
      with (csv_field f ++ COMMA :: csv_line (map csv_field (g :: fields))).
    rewrite <- app_assoc. cbn [app]. rewrite (proj1 (read_field f _ record)), IH by done.
    cbn [rev]. by rewrite <- app_assoc.
Qed.

Lemma read_records to_rfc3339 records :
  read (concat (map (fun r => csv_line (map csv_field (columns to_rfc3339 r))) records)) Plain [] [] =
  map (columns to_rfc3339) records.
Proof.
  induction records as [|r records IH]; [done|]. cbn [map concat].
  rewrite read_line by done. by rewrite IH.
Qed.

Lemma header_line :
  chars "match_id,game_id,platform,winner,submitted_at,soroban_tx_hash" ++ [NEWLINE] =
  csv_line (map csv_field header).
Proof. by vm_compute. Qed.

Lemma build_csv_read to_rfc3339 records :
  read_csv (build_csv to_rfc3339 records) = header :: map (columns to_rfc3339) records.
Proof.
  unfold read_csv, build_csv. rewrite cons_middle, app_assoc, header_line.
  rewrite read_line by done. by rewrite read_records.
Qed.

(** C33: what the export writes reads back as the column names and, in the order of the
    log, the columns of exactly the records the filters select, whatever commas, quotes
    and line ends the fields hold. *)
Theorem export_roundtrip to_rfc3339 to_lowercase args entries writes path csv :
  main to_rfc3339 to_lowercase args (inr entries) writes = Exported path csv ->
  exists id, parse_match_id args = Some id /\ path = parse_output args /\
    read_csv csv = header :: map (columns to_rfc3339)
      (List.filter (selected to_lowercase id (parse_platform to_lowercase args)
                      (parse_winner to_lowercase args)) entries).
Proof.
  unfold main. destruct (existsb _ args); [done|].
  destruct (parse_match_id args) as [id|]; [|done].
  destruct (List.filter _ entries) as [|r rs] eqn:E; [done|].
  destruct (writes (parse_output args)); [|done]. intros [= <- <-].
  exists id. split_and!; [done..|]. rewrite E. apply build_csv_read.
Qed.

Lemma export_roundtrip_witness :
  let entries := [mkSubmissionRecord 7 "a,b" "lichess" "draw" 0 "ff";
                  mkSubmissionRecord 8 "c" "chess.com" "player1" 1 "ee"] in
  exists path csv,
    main pretty id ["export"; "--match-id"; "7"] (inr entries) (fun _ => true) = Exported path csv /\
    read_csv csv = [header; ["7"; "a,b"; "lichess"; "draw"; "0"; "ff"]].
Proof.
  do 2 eexists. split; [vm_compute; reflexivity|].
  edestruct (export_roundtrip pretty id ["export"; "--match-id"; "7"]
    [mkSubmissionRecord 7 "a,b" "lichess" "draw" 0 "ff";
     mkSubmissionRecord 8 "c" "chess.com" "player1" 1 "ee"] (fun _ => true)) as (i & Hi & _ & H).
  { vm_compute; reflexivity. }
  etransitivity; [exact H|]. vm_compute in Hi. injection Hi as <-. vm_compute. reflexivity.
Defined.
