(* ===== verification/Guards.v ===== *)
(** The oracle service's request guards, from [oracle-service/src/middleware]: the
    web application firewall ([waf.rs]) and the admin allowlist ([ip_allowlist.rs]);
    then what they promise: the reading of a CIDR range, an allowlist that fails
    closed, and the burst limit.

    Times are in nanoseconds.  The parser and printer of IP addresses are
    parameters. *)
From stdpp Require Import base list strings gmap.
From Stdlib Require Import ZArith Lia Ascii.
From S2P Require Import Prelude Text.

Local Open Scope Z_scope.

(** An address, as the integer [u32::from] or [u128::from] gives. *)
Inductive IpAddr := V4 (bits : Z) | V6 (bits : Z).

(** ** The allowlist *)

Module Allowlist.

Record CidrRange := mkCidrRange { network : IpAddr; prefix_len : Z }.

Definition max_prefix (ip : IpAddr) : Z := match ip with V4 _ => 32 | V6 _ => 128 end.

Section Parsing.
Context (parse_ip : string -> option IpAddr).

Definition parse (s : string) : string + CidrRange :=
  let s := trim s in
  let '(addr_part, prefix_part) :=
    match split_once "/" s with Some (a, p) => (a, Some p) | None => (s, None) end in
  match parse_ip addr_part with
  | None => inl ("invalid IP address in CIDR range: " +:+ s)
  | Some network =>
      match match prefix_part with Some p => parse_u8 p | None => Some (max_prefix network) end with
      | None => inl ("invalid prefix length in CIDR range: " +:+ s)
      | Some prefix_len =>
          if max_prefix network <? prefix_len
          then inl ("prefix length out of range in CIDR range: " +:+ s)
          else inr (mkCidrRange network prefix_len)
      end
  end.

(** Entries that do not parse are skipped. *)
Definition from_str (raw : string) : list CidrRange :=
  omap (fun s => match parse s with inr r => Some r | inl _ => None end)
    (List.filter (fun s => negb (String.eqb s "")) (map trim (split "," raw))).
End Parsing.

(** [uN::MAX << (N - prefix)], in [width] bits; no bits for an empty prefix. *)
Definition mask (width prefix : Z) : Z :=
  if prefix =? 0 then 0
  else Z.shiftl (2 ^ width - 1) (width - prefix) mod 2 ^ width.

Definition contains (r : CidrRange) (ip : IpAddr) : bool :=
  match network r, ip with
  | V4 net, V4 candidate =>
      Z.land net (mask 32 (prefix_len r)) =? Z.land candidate (mask 32 (prefix_len r))
  | V6 net, V6 candidate =>
      Z.land net (mask 128 (prefix_len r)) =? Z.land candidate (mask 128 (prefix_len r))
  | _, _ => false
  end.

Definition is_allowed (ranges : list CidrRange) (ip : IpAddr) : bool :=
  existsb (fun r => contains r ip) ranges.

(** [None]: the request goes on to the handler; else the status of the answer. *)
Definition admin_ip_allowlist_middleware (ranges : list CidrRange) (ip : IpAddr) : option Z :=
  if negb (is_allowed ranges ip) then Some 403 else None.

End Allowlist.

(** ** The firewall *)

Module Waf.

Definition MAX_RPS : Z := 20.
Definition MAX_BODY_BYTES : Z := 1048576.
Definition MAX_URI_LEN : nat := 2048.
Definition BURST_WINDOW : Z := 1000000000.
Definition BURST_STALE_AFTER : Z := 30000000000.

Record BurstEntry := mkBurstEntry { count : Z; window_start : Z; last_seen : Z }.

Definition new (now : Z) : BurstEntry := mkBurstEntry 0 now now.

(** [saturating_duration_since]. *)
Definition since (now earlier : Z) : Z := Z.max 0 (now - earlier).

(** [record_and_check]: the entry after the request and whether it is blocked. *)
Definition record_and_check (now : Z) (e : BurstEntry) : BurstEntry * bool :=
  let e := if BURST_WINDOW <=? since now (window_start e)
           then mkBurstEntry 0 now (last_seen e) else e in
  let e := mkBurstEntry (count e + 1) (window_start e) now in
  (e, MAX_RPS <? count e).

(** The cleanup task's [retain]. *)
Definition cleanup (now : Z) (burst : gmap string BurstEntry) : gmap string BurstEntry :=
  filter (fun kv => since now (last_seen (snd kv)) < BURST_STALE_AFTER) burst.

(** What the firewall reads of a request. *)
Record HttpRequest := mkHttpRequest {
  uri : string;
  content_length : option string;
  x_forwarded_for : option string;
  peer : option IpAddr
}.

Inductive Verdict := Pass | UriTooLong | InvalidUri | PayloadTooLarge | BurstBlocked.

Definition verdict_status (v : Verdict) : option Z :=
  match v with
  | Pass => None
  | UriTooLong | InvalidUri => Some 400
  | PayloadTooLarge => Some 413
  | BurstBlocked => Some 429
  end.

Section Firewall.
Context (parse_ip : string -> option IpAddr) (ip_text : IpAddr -> string).

Definition extract_ip (req : HttpRequest) : string :=
  match xff ← x_forwarded_for req; first ← head (split "," xff); parse_ip (trim first) with
  | Some ip => ip_text ip
  | None => match peer req with Some ip => ip_text ip | None => "127.0.0.1" end
  end.

(** The burst counter of one address: [created] is read only when there is no entry
    yet, [checked] by the check. *)
Definition burst_check (created checked : Z) (ip : string) (burst : gmap string BurstEntry)
  : gmap string BurstEntry * bool :=
  match record_and_check checked (default (new created) (burst !! ip)) with
  | (e, blocked) => (<[ip := e]> burst, blocked)
  end.

Definition waf_middleware (created checked : Z) (req : HttpRequest)
    (burst : gmap string BurstEntry) : gmap string BurstEntry * Verdict :=
  if Nat.ltb MAX_URI_LEN (String.length (uri req)) then (burst, UriTooLong)
  else if existsb (fun c => bool_decide (c = Ascii.zero)) (chars (uri req))
  then (burst, InvalidUri)
  else if match h ← content_length req; parse_u64 h with
          | Some n => MAX_BODY_BYTES <? n
          | None => false
          end
  then (burst, PayloadTooLarge)
  else match burst_check created checked (extract_ip req) burst with
       | (burst, blocked) => (burst, if blocked then BurstBlocked else Pass)
       end.

(** ** Traffic: requests and cleanups in the order of time *)

Inductive Event := Request (created checked : Z) (req : HttpRequest) | Cleanup (at_time : Z).

Definition handle (ev : Event) (burst : gmap string BurstEntry)
  : gmap string BurstEntry * option Verdict :=
  match ev with
  | Request created checked req =>
      match waf_middleware created checked req burst with (b, v) => (b, Some v) end
  | Cleanup t => (cleanup t burst, None)
  end.

(** The times of the passed requests of address [ip]. *)
Fixpoint passed (ip : string) (evs : list Event) (burst : gmap string BurstEntry) : list Z :=
  match evs with
  | [] => []
  | ev :: rest =>
      match handle ev burst with
      | (b, v) =>
          match ev, v with
          | Request _ t req, Some Pass =>
              if bool_decide (extract_ip req = ip) then t :: passed ip rest b
              else passed ip rest b
          | _, _ => passed ip rest b
          end
      end
  end.

(** Each event after the previous one. *)
Fixpoint in_order (lo : Z) (evs : list Event) : Prop :=
  match evs with
  | [] => True
  | Request created checked _ :: rest => lo <= created <= checked /\ in_order checked rest
  | Cleanup t :: rest => lo <= t /\ in_order t rest
  end.

Definition within_second (start : Z) (times : list Z) : nat :=
  length (List.filter (fun t => (start <=? t) && (t <? start + BURST_WINDOW)) times).

End Firewall.
End Waf.

(** ** The burst limit *)

Section Burst.
Import Waf.
Context (parse_ip : string -> option IpAddr) (ip_text : IpAddr -> string) (ip : string).
Notation passed := (passed parse_ip ip_text ip).

(** How many more requests can pass in the second from [start], seen from the
    address's entry at time [lo]. *)
Definition budget (start lo : Z) (entry : option BurstEntry) : Z :=
  match entry with
  | None => if start + BURST_WINDOW <=? lo then 0 else if start <=? lo then MAX_RPS
            else 2 * MAX_RPS
  | Some e =>
      if start + BURST_WINDOW <=? window_start e then 0
      else if start <=? window_start e then Z.max 0 (MAX_RPS - count e)
      else if start - BURST_WINDOW <? window_start e then Z.max 0 (MAX_RPS - count e) + MAX_RPS
      else 2 * MAX_RPS
  end.

(** An entry's window has started, and it was last seen in it. *)
Definition entry_wf (lo : Z) (entry : option BurstEntry) : Prop :=
  match entry with
  | None => True
  | Some e => 0 <= count e /\ window_start e <= last_seen e <= lo /\
              last_seen e < window_start e + BURST_WINDOW
  end.

Definition counted (start t : Z) : Z :=
  if (start <=? t) && (t <? start + BURST_WINDOW) then 1 else 0.

Ltac cases_lia :=
  repeat match goal with
         | |- context [if ?b then _ else _] => destruct b eqn:?
         | H : context [if ?b then _ else _] |- _ => destruct b eqn:?
         end; zbool;
  repeat match goal with H : _ && _ = false |- _ => apply andb_false_iff in H as [?|?]; zbool end;
  cbn [count window_start last_seen] in *; lia.

(** A request spends the budget. *)
Lemma burst_step start lo created t entry :
  entry_wf lo entry -> lo <= created <= t ->
  let r := record_and_check t (default (new created) entry) in
  entry_wf t (Some (fst r)) /\
  (if snd r then 0 else counted start t) + budget start t (Some (fst r))
    <= budget start lo entry.
Proof.
  intros Hwf Ht. cbv zeta. unfold record_and_check, since, counted, budget, entry_wf,
    BURST_WINDOW, MAX_RPS in *.
  destruct entry as [e|]; cbn [default id new count window_start last_seen fst snd] in *;
    unfold id, new in *; cbn [count window_start last_seen] in *.
  - split; cases_lia.
  - split; cases_lia.
Qed.

Lemma budget_mono start lo lo' entry :
  lo <= lo' -> entry_wf lo entry ->
  entry_wf lo' entry /\ budget start lo' entry <= budget start lo entry.
Proof.
  intros Hlo Hwf. destruct entry as [e|]; cbn in *; [split; [lia|done]|].
  split; [done|]. unfold BURST_WINDOW, MAX_RPS. cases_lia.
Qed.

Lemma budget_cleanup start lo t e :
  lo <= t -> entry_wf lo (Some e) -> BURST_STALE_AFTER <= since t (last_seen e) ->
  budget start t None <= budget start lo (Some e).
Proof.
  intros Ht Hwf Hs. unfold entry_wf, budget, since, BURST_STALE_AFTER, BURST_WINDOW, MAX_RPS in *.
  cases_lia.
Qed.

Lemma within_second_cons start t l :
  Z.of_nat (within_second start (t :: l)) = counted start t + Z.of_nat (within_second start l).
Proof. unfold within_second, counted. cbn. destruct (_ && _); cbn; lia. Qed.

Lemma burst_budget start evs lo burst :
  in_order lo evs -> entry_wf lo (burst !! ip) ->
  Z.of_nat (within_second start (passed evs burst)) <= budget start lo (burst !! ip).
Proof.
  revert lo burst. induction evs as [|[created t req|t] evs IH]; intros lo burst Ho Hwf;
    cbn [Waf.passed handle].
  - cbn. unfold budget, BURST_WINDOW, MAX_RPS. destruct (burst !! ip); cases_lia.
  - destruct Ho as [Ht Ho]. unfold waf_middleware.
    assert (Hsame : forall b, b !! ip = burst !! ip ->
      Z.of_nat (within_second start (passed evs b)) <= budget start lo (burst !! ip)).
    { intros b Hb. destruct (budget_mono start lo t (burst !! ip) ltac:(lia) Hwf) as [Hwf' Hle].
      etrans; [|exact Hle]. rewrite <-Hb in *. by apply IH. }
    destruct (Nat.ltb _ _); [by apply Hsame|]. destruct (existsb _ _); [by apply Hsame|].
    match goal with
    | |- context [if ?b then (burst, PayloadTooLarge) else _] => destruct b
    end; [by apply Hsame|].
    unfold burst_check. destruct (decide (extract_ip parse_ip ip_text req = ip)) as [->|Hne].
    + pose proof (burst_step start lo created t _ Hwf Ht) as [Hwf' Hle].
      destruct (record_and_check t _) as [e blocked]; cbn [fst snd] in *.
      specialize (IH t (<[ip := e]> burst) Ho). rewrite lookup_insert_eq in IH.
      specialize (IH Hwf'). destruct blocked; [lia|]. rewrite bool_decide_eq_true_2 by done.
      rewrite within_second_cons. lia.
    + destruct (record_and_check t _) as [e blocked].
      assert (Hb : <[extract_ip parse_ip ip_text req := e]> burst !! ip = burst !! ip)
        by (by rewrite lookup_insert_ne).
      destruct blocked; [by apply Hsame|]. rewrite bool_decide_eq_false_2 by done. by apply Hsame.
  - destruct Ho as [Ht Ho].
    destruct (cleanup t burst !! ip) as [e|] eqn:Hc.
    + assert (Hb : burst !! ip = Some e) by (by apply map_lookup_filter_Some in Hc as [? _]).
      destruct (budget_mono start lo t (burst !! ip) Ht Hwf) as [Hwf' Hle].
      etrans; [|exact Hle]. rewrite Hb, <-Hc in *. by apply IH.
    + specialize (IH t (cleanup t burst) Ho). rewrite Hc in IH. specialize (IH I).
      etrans; [exact IH|]. destruct (burst !! ip) as [e|] eqn:Hb.
      * apply budget_cleanup; [done|done|].
        unfold cleanup in Hc. rewrite map_lookup_filter_None in Hc.
        destruct Hc as [Hc|Hc]; [congruence|]. specialize (Hc e Hb). cbn in Hc. lia.
      * by apply (budget_mono start lo t None).
Qed.

(** in no span of one second do more than 40 requests of one address pass the
    firewall, whatever other traffic and cleanups come in between.  The limit of 20
    is per window, and a span can straddle two. *)
Theorem burst_bound start lo evs :
  in_order lo evs ->
  Z.of_nat (within_second start (passed evs ∅)) <= 2 * MAX_RPS.
Proof.
  intros Ho. etrans; [apply (burst_budget start evs lo ∅ Ho)|]; rewrite lookup_empty; [done|].
  unfold budget, BURST_WINDOW, MAX_RPS. cases_lia.
Qed.

End Burst.

(** ** The allowlist *)

Section Allow.
Import Allowlist.

(** The integer of an address fits its family. *)
Definition ip_wf (ip : IpAddr) : Prop :=
  match ip with V4 b => 0 <= b < 2 ^ 32 | V6 b => 0 <= b < 2 ^ 128 end.

Definition range_wf (r : CidrRange) : Prop :=
  ip_wf (network r) /\ 0 <= prefix_len r <= max_prefix (network r).

(** The first [prefix] of [width] bits. *)
Definition leading (width prefix x : Z) : Z := x / 2 ^ (width - prefix).

(** The reading of a range: the addresses of its family with its leading bits. *)
Definition in_range (r : CidrRange) (ip : IpAddr) : Prop :=
  match network r, ip with
  | V4 net, V4 b => leading 32 (prefix_len r) b = leading 32 (prefix_len r) net
  | V6 net, V6 b => leading 128 (prefix_len r) b = leading 128 (prefix_len r) net
  | _, _ => False
  end.

Lemma land_mask width prefix x :
  0 <= prefix <= width -> 0 <= x < 2 ^ width ->
  Z.land x (mask width prefix) = leading width prefix x * 2 ^ (width - prefix).
Proof.
  intros Hp Hx. unfold mask, leading. destruct (Z.eqb_spec prefix 0) as [->|Hne].
  - rewrite Z.land_0_r, Z.sub_0_r, Z.div_small by lia. lia.
  - rewrite <-Z.shiftl_mul_pow2, <-Z.shiftr_div_pow2 by lia.
    replace (2 ^ width - 1) with (Z.ones width) by (by rewrite Z.ones_equiv, Z.sub_1_r).
    apply Z.bits_inj'. intros i Hi. rewrite Z.land_spec, Z.shiftl_spec by lia.
    destruct (Z.lt_ge_cases i width) as [Hlt|Hge].
    + rewrite Z.mod_pow2_bits_low, Z.shiftl_spec by lia.
      destruct (Z.lt_ge_cases i (width - prefix)) as [Hlow|Hhigh].
      * rewrite (Z.testbit_neg_r (Z.ones width)), (Z.testbit_neg_r (Z.shiftr _ _)) by lia.
        by rewrite andb_false_r.
      * rewrite Z.ones_spec_low, Z.shiftr_spec by lia. rewrite andb_true_r. f_equal. lia.
    + rewrite Z.mod_pow2_bits_high, andb_false_r by lia. rewrite Z.shiftr_spec by lia.
      symmetry. apply Z.testbit_false; [lia|].
      rewrite Z.div_small; [done|].
      assert (2 ^ width <= 2 ^ (i - (width - prefix) + (width - prefix)))
        by (apply Z.pow_le_mono_r; lia). lia.
Qed.

Lemma contains_iff r ip : range_wf r -> ip_wf ip -> contains r ip = true <-> in_range r ip.
Proof.
  intros [Hn Hp] Hip. unfold contains, in_range.
  destruct (network r) as [net|net], ip as [b|b]; cbn in *; try done;
    rewrite Z.eqb_eq, !land_mask by lia; split; intros Heq; try congruence;
    apply Z.mul_reg_r in Heq; try done; apply Z.pow_nonzero; lia.
Qed.

Context (parse_ip : string -> option IpAddr).
Context (parse_ip_wf : forall s ip, parse_ip s = Some ip -> ip_wf ip).

Lemma parse_range_wf s r : parse parse_ip s = inr r -> range_wf r.
Proof.
  unfold parse. destruct (match split_once _ _ with Some _ => _ | None => _ end) as [a p].
  destruct (parse_ip a) as [network|] eqn:Ha; [|done].
  assert (Hm : 0 <= max_prefix network <= 255) by (destruct network; cbn; lia).
  destruct (match p with Some _ => _ | None => _ end) as [len|] eqn:Hl; [|done].
  assert (0 <= len) by (destruct p; [apply parse_uint_range in Hl; [lia|done]|simplify_eq; lia]).
  destruct (max_prefix network <? len) eqn:E; [done|]. zbool. intros [= <-].
  split; [by eapply parse_ip_wf|cbn; lia].
Qed.

(** a caller reaches an admin endpoint exactly when some entry of the configured
    list parses to a range of the caller's address family whose leading bits the
    caller's address has; every other request is answered 403, and with nothing
    configured that is every request. *)
Theorem allowlist_exact raw ip :
  ip_wf ip ->
  (admin_ip_allowlist_middleware (from_str parse_ip raw) ip = None <->
   exists entry r, entry ∈ map trim (split "," raw) /\ entry <> "" /\
     parse parse_ip entry = inr r /\ in_range r ip) /\
  (admin_ip_allowlist_middleware (from_str parse_ip raw) ip = None \/
   admin_ip_allowlist_middleware (from_str parse_ip raw) ip = Some 403) /\
  admin_ip_allowlist_middleware (from_str parse_ip "") ip = Some 403.
Proof.
  intros Hip. unfold admin_ip_allowlist_middleware. split_and!; [|destruct (is_allowed _ _); auto|done].
  unfold is_allowed. split.
  - destruct (existsb _ _) eqn:E; [|done]. intros _. apply existsb_exists in E as (r & Hr & Hc).
    apply list_elem_of_In in Hr. unfold from_str in Hr. apply list_elem_of_omap in Hr as (s & Hs & Hp).
    apply list_elem_of_In, filter_In in Hs as [Hs Hne]. exists s, r.
    destruct (parse parse_ip s) as [|r'] eqn:Hps; [done|]. injection Hp as ->.
    split_and!; [by apply list_elem_of_In| |done|].
    + intros ->. done.
    + apply contains_iff; [by eapply parse_range_wf|done|done].
  - intros (s & r & Hs & Hne & Hp & Hin).
    assert (Hex : existsb (fun r => contains r ip) (from_str parse_ip raw) = true); [|by rewrite Hex].
    apply existsb_exists. exists r. split.
    + apply list_elem_of_In. unfold from_str. apply list_elem_of_omap. exists s. rewrite Hp.
      split; [|done]. apply list_elem_of_In, filter_In. split; [by apply list_elem_of_In|].
      apply negb_true_iff, String.eqb_neq. done.
    + apply contains_iff; [by eapply parse_range_wf|done|done].
Qed.

End Allow.
