(* ===== verification/RateLimits.v ===== *)
(** Token buckets: the limiter of incoming requests ([middleware/rate_limit.rs] of the
    oracle service) and the limiter of its own calls to the chess platforms
    ([oracle/rate_limiter.rs]), in [f64] as written.  Tokens stay in their range; the
    shared, pruned map of buckets behaves as one private bucket per address or key; a
    fresh bucket gives exactly its capacity; and a token that is almost there is given
    without being taken.

    Times are in nanoseconds; a clock reading is an argument of what reads it. *)
From stdpp Require Import base tactics list strings gmap pretty.
From Stdlib Require Import ZArith Lia Ascii SpecFloat.
From S2P Require Import Prelude Text F64 Guards.

Local Open Scope Z_scope.

(** [saturating_duration_since]. *)
Abbreviation since := Waf.since.

(** ** Incoming requests *)

Module RateLimit.

Definition IP_CAPACITY : f64 := f64_of 100.
Definition IP_REFILL_PER_SEC : f64 := f64_div (f64_of 100) (f64_of 60).
Definition KEY_CAPACITY : f64 := f64_of 1000.
Definition KEY_REFILL_PER_SEC : f64 := f64_div (f64_of 1000) (f64_of 60).
Definition STALE_AFTER : Z := 300 * NANOS_PER_SEC.

Record Bucket := mkBucket {
  tokens : f64;
  capacity : f64;
  refill_rate : f64;
  last_refill : Z;
  last_seen : Z
}.

Definition new (capacity refill_rate : f64) (now : Z) : Bucket :=
  mkBucket capacity capacity refill_rate now now.

(** [consume]: the bucket after it; [inr] the tokens left, [inl] the seconds to wait. *)
Definition consume (now : Z) (b : Bucket) : Bucket * (f64 + f64) :=
  let elapsed := as_secs_f64 (since now (last_refill b)) in
  let t := f64_min (f64_add (tokens b) (f64_mul elapsed (refill_rate b))) (capacity b) in
  if SFleb (f64_of 1) t
  then let t := f64_sub t (f64_of 1) in
       (mkBucket t (capacity b) (refill_rate b) now now, inr t)
  else (mkBucket t (capacity b) (refill_rate b) now now,
        inl (f64_div (f64_sub (f64_of 1) t) (refill_rate b))).

(** [reset_unix], at [unix] seconds after the epoch (0 when the clock is before it). *)
Definition reset_unix (unix : Z) (b : Bucket) : Z :=
  let deficit := f64_max (f64_sub (f64_of 1) (tokens b)) (f64_of 0) in
  u64_sat_add unix (ceil_as_u64 (f64_div deficit (refill_rate b))).

Abbreviation BucketMap := (gmap string Bucket).

Definition prune_stale (now : Z) (m : BucketMap) : BucketMap :=
  filter (fun kv => since now (last_seen (snd kv)) < STALE_AFTER) m.

Record RateLimitState := mkRateLimitState { ip_buckets : BucketMap; key_buckets : BucketMap }.

(** What the middleware reads of a request. *)
Record HttpRequest := mkHttpRequest {
  x_forwarded_for : option string;
  x_api_key : option string;
  peer : option IpAddr
}.

Record Response := mkResponse {
  status : Z;
  headers : gmap string string;
  body : Value
}.

Definition attach_rate_limit_headers (limit remaining reset : Z) (h : gmap string string)
  : gmap string string :=
  <["x-ratelimit-reset" := pretty reset]>
    (<["x-ratelimit-remaining" := pretty remaining]>
      (<["x-ratelimit-limit" := pretty limit]> h)).

Definition too_many_requests (limit remaining reset : Z) (retry_after : f64) : Response :=
  let retry_secs := ceil_as_u64 retry_after in
  mkResponse 429
    (<["retry-after" := pretty retry_secs]>
      (attach_rate_limit_headers limit remaining reset {["content-type" := "application/json"]}))
    (VObject [("error", VString "rate_limit_exceeded");
              ("message", VString ("Rate limit of " +:+ pretty limit +:+
                 " requests/min exceeded. Retry after " +:+ pretty retry_secs +:+ " seconds."));
              ("retry_after", VNumber retry_secs)]).

(** The readings of one check: when a missing bucket is made, when the token is
    asked for, and the system clock in seconds. *)
Record Clocks := mkClocks { created : Z; consumed : Z; unix : Z }.

(** [map.entry(key).or_insert_with(..)], then [consume] and [reset_unix]. *)
Definition check_bucket (fresh : Z -> Bucket) (ck : Clocks) (key : string) (m : BucketMap)
  : BucketMap * ((f64 + f64) * Z) :=
  match consume (consumed ck) (default (fresh (created ck)) (m !! key)) with
  | (b, r) => (<[key := b]> m, (r, reset_unix (unix ck) b))
  end.

Definition check_ip : Clocks -> string -> BucketMap -> BucketMap * ((f64 + f64) * Z) :=
  check_bucket (new IP_CAPACITY IP_REFILL_PER_SEC).
Definition check_key : Clocks -> string -> BucketMap -> BucketMap * ((f64 + f64) * Z) :=
  check_bucket (new KEY_CAPACITY KEY_REFILL_PER_SEC).

Section Middleware.
Context (parse_ip : string -> option IpAddr) (ip_text : IpAddr -> string).

Definition extract_ip (req : HttpRequest) : string :=
  match xff ← x_forwarded_for req; first ← head (split "," xff); parse_ip (trim first) with
  | Some ip => ip_text ip
  | None => match peer req with Some ip => ip_text ip | None => "127.0.0.1" end
  end.

(** [next] is what the inner service answers. *)
Definition rate_limit_middleware (ip_clocks key_clocks : Clocks) (req : HttpRequest)
    (next : Response) (st : RateLimitState) : RateLimitState * Response :=
  match check_ip ip_clocks (extract_ip req) (ip_buckets st) with
  | (ips, (inl retry_after, reset)) =>
      (mkRateLimitState ips (key_buckets st),
       too_many_requests (as_u64 IP_CAPACITY) 0 reset retry_after)
  | (ips, (inr ip_remaining, ip_reset)) =>
      let pass limit remaining reset :=
        mkResponse (status next) (attach_rate_limit_headers limit remaining reset (headers next))
          (body next) in
      match x_api_key req with
      | Some key =>
          match check_key key_clocks key (key_buckets st) with
          | (keys, (inl retry_after, reset)) =>
              (mkRateLimitState ips keys,
               too_many_requests (as_u64 KEY_CAPACITY) 0 reset retry_after)
          | (keys, (inr rem, reset)) =>
              (mkRateLimitState ips keys, pass (as_u64 KEY_CAPACITY) (as_u64 rem) reset)
          end
      | None =>
          (mkRateLimitState ips (key_buckets st),
           pass (as_u64 IP_CAPACITY) (as_u64 ip_remaining) ip_reset)
      end
  end.
End Middleware.

End RateLimit.

(** ** Calls to the platforms *)

Module Limiter.

Record RateLimiterConfig := mkRateLimiterConfig { capacity : Z; refill_rate : f64 }.

Definition chess_com_default : RateLimiterConfig :=
  mkRateLimiterConfig 5 (f64_div (f64_of 1) (f64_of 2)).
Definition lichess_default : RateLimiterConfig := mkRateLimiterConfig 10 (f64_of 1).

Record BucketState := mkBucketState { tokens : f64; last_refill : Z; config : RateLimiterConfig }.

Definition new (config : RateLimiterConfig) (now : Z) : BucketState :=
  mkBucketState (f64_of (capacity config)) now config.

(** The state after it and the wait; [None] when the conversion to a duration
    panics. *)
Definition refill_and_next_available (now : Z) (st : BucketState) : BucketState * option Z :=
  let elapsed := as_secs_f64 (since now (last_refill st)) in
  let t := f64_min (f64_add (tokens st) (f64_mul elapsed (refill_rate (config st))))
                   (f64_of (capacity (config st))) in
  if SFleb (f64_of 1) t
  then (mkBucketState (f64_sub t (f64_of 1)) now (config st), Some 0)
  else (mkBucketState t now (config st),
        from_secs_f64 (f64_div (f64_sub (f64_of 1) t) (refill_rate (config st)))).

Definition try_acquire (now : Z) (st : BucketState) : BucketState * option bool :=
  match refill_and_next_available now st with (st, wait) => (st, (Z.eqb 0) <$> wait) end.

(** [acquire] of a task alone: it sleeps what it is told, wakes [late n] nanoseconds
    later than that the [n]-th time, and asks again; the moment it gets its token. *)
Fixpoint acquire (fuel : nat) (late : nat -> Z) (now : Z) (st : BucketState)
  : BucketState * option Z :=
  match fuel with
  | O => (st, None)
  | S n =>
      match refill_and_next_available now st with
      | (st, None) => (st, None)
      | (st, Some wait) =>
          if wait =? 0 then (st, Some now) else acquire n late (now + wait + late n) st
      end
  end.

End Limiter.

Import RateLimit.

(** ** The shared map and one private bucket per key *)

Inductive MapOp := Check (ck : Clocks) (key : string) | Prune (at_time : Z).

(** The answers key [k] gets. *)
Fixpoint answers (fresh : Z -> Bucket) (k : string) (ops : list MapOp) (m : BucketMap) : list ((f64 + f64) * Z) :=
  match ops with
  | [] => []
  | Check ck key :: rest =>
      match check_bucket fresh ck key m with
      | (m', a) => if String.eqb key k then a :: answers fresh k rest m' else answers fresh k rest m'
      end
  | Prune t :: rest => answers fresh k rest (prune_stale t m)
  end.

(** A bucket of one's own, never pruned. *)
Fixpoint solo (fresh : Z -> Bucket) (cks : list Clocks) (b : option Bucket) : list ((f64 + f64) * Z) :=
  match cks with
  | [] => []
  | ck :: rest =>
      match consume (consumed ck) (default (fresh (created ck)) b) with
      | (b', r) => (r, reset_unix (unix ck) b') :: solo fresh rest (Some b')
      end
  end.

Definition checks_of (k : string) (ops : list MapOp) : list Clocks :=
  omap (fun op => match op with
                  | Check ck key => if String.eqb key k then Some ck else None
                  | Prune _ => None
                  end) ops.

(** The clock does not go back. *)
Fixpoint in_order (lo : Z) (ops : list MapOp) : Prop :=
  match ops with
  | [] => True
  | Check ck _ :: rest => lo <= created ck <= consumed ck /\ in_order (consumed ck) rest
  | Prune t :: rest => lo <= t /\ in_order t rest
  end.

(** The map after the operations. *)
Fixpoint run (fresh : Z -> Bucket) (ops : list MapOp) (m : BucketMap) : BucketMap :=
  match ops with
  | [] => m
  | Check ck key :: rest => run fresh rest (fst (check_bucket fresh ck key m))
  | Prune t :: rest => run fresh rest (prune_stale t m)
  end.

(** ** One bucket *)

Section Bucket.
Context (cm rm : positive) (ce re : Z).
Abbreviation cap := (S754_finite false cm ce).
Abbreviation rate := (S754_finite false rm re).
Abbreviation fresh := (new cap rate).
Context (cap_valid : valid cap) (rate_valid : valid rate).

(** A bucket of this capacity and rate, last touched by time [lo]. *)
Definition bucket_ok (lo : Z) (b : Bucket) : Prop :=
  capacity b = cap /\ refill_rate b = rate /\ within cap (tokens b) /\
  last_refill b = last_seen b /\ last_seen b <= lo.

Lemma within_atleast x : within cap x -> atleast 0 x.
Proof. intros (? & ? & _). by apply atleast_0. Qed.

Lemma since_nonneg now earlier : 0 <= since now earlier.
Proof. unfold since. lia. Qed.

(** What a refill adds is never negative. *)
Lemma refill_atleast_0 d x : 0 <= d -> within cap x -> atleast 0 (f64_add x (f64_mul (as_secs_f64 d) rate)).
Proof.
  intros Hd Hx. apply (add_atleast 0 0); [done..|by apply within_atleast| |by left|done].
  apply (mul_atleast 0 0); [done..|by apply as_secs_nonneg|by apply atleast_0|by left|done].
Qed.

Lemma new_ok now : bucket_ok now (new cap rate now).
Proof. by split_and!. Qed.

Lemma consume_ok lo now b : bucket_ok lo b -> bucket_ok now (fst (consume now b)).
Proof.
  intros (Hc & Hr & Ht & _). unfold consume. rewrite Hc, Hr.
  assert (Hm : within cap (f64_min (f64_add (tokens b)
    (f64_mul (as_secs_f64 (since now (last_refill b))) rate)) cap))
    by (by apply min_within, refill_atleast_0; [|apply since_nonneg|]).
  set (t := f64_min _ _) in *. destruct (SFleb (f64_of 1) t) eqn:E; cbn [fst].
  - split_and!; try done. rewrite one_exact in *. by apply sub_within.
  - by split_and!.
Qed.

(** A bucket that is full, or idle long enough to be, gives its first token and keeps
    the rest. *)
Context (idle_fills : value cap * 2 ^ SCALE <= 300 * 2 ^ SCALE * value rate).
Context (idle_rep : representable (300 * 2 ^ SCALE)).
Context (cap_has_one : SFleb (f64_of 1) cap = true).

Lemma consume_full now b :
  capacity b = cap -> refill_rate b = rate -> within cap (tokens b) ->
  tokens b = cap \/ STALE_AFTER <= since now (last_refill b) ->
  consume now b = (mkBucket (f64_sub cap (f64_of 1)) cap rate now now, inr (f64_sub cap (f64_of 1))).
Proof.
  intros Hc Hr Ht Hfull. unfold consume. rewrite Hc, Hr.
  assert (Hcap : 0 <= value cap) by apply value_nonneg.
  assert (Hrep : representable (value cap)) by (by apply representable_value).
  rewrite min_cap; [by rewrite cap_has_one|done|].
  destruct Hfull as [->|Hidle].
  - apply (add_atleast (value cap) 0); [done..|by apply atleast_value| |done|lia].
    apply (mul_atleast 0 0); [done..|apply as_secs_nonneg, since_nonneg|by apply atleast_0|by left|done].
  - apply (add_atleast 0 (value cap)); [done..|by apply within_atleast| |done|lia].
    apply (mul_atleast (300 * 2 ^ SCALE) (value rate)); [|apply value_nonneg| | |done|done].
    + apply Z.mul_nonneg_nonneg; [done|by apply Z.pow_nonneg].
    + by apply as_secs_atleast.
    + by apply atleast_value.
Qed.

(** The shared entry is the private bucket, or it was dropped when stale. *)
Definition simulated (lo : Z) (entry private : option Bucket) : Prop :=
  (entry = private /\ from_option (bucket_ok lo) True private) \/
  (entry = None /\ exists b, private = Some b /\ bucket_ok lo b /\ STALE_AFTER <= lo - last_seen b).

Lemma simulated_mono lo lo' entry private :
  lo <= lo' -> simulated lo entry private -> simulated lo' entry private.
Proof.
  intros Hlo [[-> Hok]|(-> & b & -> & Hok & Hs)]; [left|right].
  - split; [done|]. destruct private as [b|]; [|done]. destruct Hok as (?&?&?&?&?). split_and!; [done..|lia].
  - split; [done|]. exists b. destruct Hok as (?&?&?&?&?). split_and!; [done..| |]; [split_and!; [done..|lia]|lia].
Qed.

Lemma simulated_check lo ck entry private :
  lo <= created ck <= consumed ck -> simulated lo entry private ->
  consume (consumed ck) (default (fresh (created ck)) entry)
  = consume (consumed ck) (default (fresh (created ck)) private) /\
  bucket_ok (consumed ck) (fst (consume (consumed ck) (default (fresh (created ck)) private))).
Proof.
  intros Hck [[-> Hok]|(-> & b & -> & Hok & Hs)].
  - split; [done|]. destruct private as [b|]; cbn [default id]; eapply consume_ok; [done|apply new_ok].
  - cbn [default id]. unfold id. split; [|by eapply consume_ok].
    destruct Hok as (Hc & Hr & Ht & Hl & Hlo).
    rewrite consume_full by (try done; by left).
    rewrite consume_full; [done..|]. right. rewrite Hl. unfold since. lia.
Qed.

Lemma simulated_prune lo t k (m : BucketMap) private :
  lo <= t -> simulated lo (m !! k) private -> simulated t (prune_stale t m !! k) private.
Proof.
  intros Ht Hsim. pose proof (simulated_mono _ _ _ _ Ht Hsim) as Hsim'. unfold prune_stale.
  rewrite map_lookup_filter. destruct Hsim' as [[E Hok]|(E & b & -> & Hok & Hs)]; rewrite E.
  - destruct private as [b|]; [|by left]. cbn [mbind option_bind].
    case_guard as Hg; [by left|]. right. split; [done|]. exists b. split_and!; [done..|].
    cbn [snd] in Hg. unfold since in Hg. cbn [from_option] in Hok. unfold STALE_AFTER, NANOS_PER_SEC in *. lia.
  - right. split; [done|]. by exists b.
Qed.

Lemma answers_solo k ops : forall lo m private,
  in_order lo ops -> simulated lo (m !! k) private ->
  answers fresh k ops m = solo fresh (checks_of k ops) private.
Proof.
  induction ops as [|[ck key|t] ops IH]; intros lo m private Ho Hsim; [done|..].
  - destruct Ho as [Hck Ho]. cbn [answers checks_of omap list_omap]. unfold check_bucket.
    destruct (String.eqb_spec key k) as [->|Hne].
    + destruct (simulated_check _ _ _ _ Hck Hsim) as [E Hok]. rewrite E. cbn [solo].
      destruct (consume _ (default _ private)) as [b' r]; cbn [fst] in Hok. f_equal.
      apply (IH (consumed ck)); [done|]. rewrite lookup_insert_eq. by left.
    + destruct (consume _ _) as [b' r]. apply (IH (consumed ck)); [done|].
      rewrite lookup_insert_ne by done. apply (simulated_mono lo); [lia|done].
  - destruct Ho as [Ht Ho]. cbn [answers]. apply (IH t); [done|]. by apply (simulated_prune lo).
Qed.

(** Every bucket of the map stays in range. *)
Lemma run_in_range ops : forall m,
  map_Forall (fun _ b => exists t, bucket_ok t b) m ->
  map_Forall (fun _ b => exists t, bucket_ok t b) (run fresh ops m).
Proof.
  induction ops as [|[ck key|t] ops IH]; intros m Hm; [done|..]; apply IH.
  - unfold check_bucket. assert (Hb : exists t, bucket_ok t (default (fresh (created ck)) (m !! key))).
    { destruct (m !! key) as [b|] eqn:E; [by apply (Hm key)|]. exists (created ck). apply new_ok. }
    destruct Hb as [t Hb]. apply (consume_ok _ (consumed ck)) in Hb.
    destruct (consume _ _) as [b r]. cbn [fst] in *.
    apply map_Forall_insert_2; [by exists (consumed ck)|done].
  - intros k b Hb. apply map_lookup_filter_Some in Hb as [Hb _]. by apply (Hm k).
Qed.

End Bucket.

(** ** The promises of the middleware *)

Lemma ip_constants :
  IP_CAPACITY = S754_finite false 7036874417766400 (-46) /\
  IP_REFILL_PER_SEC = S754_finite false 7505999378950827 (-52).
Proof. by split. Qed.

Lemma key_constants :
  KEY_CAPACITY = S754_finite false 8796093022208000 (-43) /\
  KEY_REFILL_PER_SEC = S754_finite false 4691249611844267 (-48).
Proof. by split. Qed.

Lemma idle_representable : representable (300 * 2 ^ SCALE).
Proof. right. exists 5277655813324800%positive, (-44). by split. Qed.

(** C14: the shared map of buckets, pruned every minute by the cleanup task, answers
    every address and every API key exactly as a private bucket that is never dropped
    would: other keys do not matter, and a bucket is only dropped once it would have
    been full again.  This holds of the [f64] arithmetic, rounding included. *)
Theorem buckets_are_private k ops lo :
  in_order lo ops ->
  answers (new IP_CAPACITY IP_REFILL_PER_SEC) k ops ∅ =
    solo (new IP_CAPACITY IP_REFILL_PER_SEC) (checks_of k ops) None /\
  answers (new KEY_CAPACITY KEY_REFILL_PER_SEC) k ops ∅ =
    solo (new KEY_CAPACITY KEY_REFILL_PER_SEC) (checks_of k ops) None.
Proof.
  intros Ho. destruct ip_constants as [-> ->], key_constants as [-> ->].
  split; (eapply answers_solo; [done..|by vm_compute|apply idle_representable|done|done|by left]).
Qed.

Lemma buckets_are_private_witness :
  let op t k := Check (mkClocks t t 0) k in
  let ops := [op 0 "a"; op 1 "b"; Prune (STALE_AFTER + 5); op (STALE_AFTER + 9) "a"] in
  in_order 0 ops /\
  answers (new IP_CAPACITY IP_REFILL_PER_SEC) "a" ops ∅ =
    solo (new IP_CAPACITY IP_REFILL_PER_SEC) (checks_of "a" ops) None.
Proof.
  cbv zeta. split; [vm_compute; repeat split; discriminate|].
  eapply (buckets_are_private "a" _ 0). vm_compute; repeat split; discriminate.
Defined.

Lemma within_leb m e x :
  valid (S754_finite false m e) -> within (S754_finite false m e) x ->
  SFleb (f64_of 0) x = true /\ SFleb x (S754_finite false m e) = true.
Proof.
  intros V (Vx & Nx & Hinf & Hle). destruct x as [s|[]| |[] mx ex]; try done.
  split; [done|]. unfold SFleb. rewrite compare_value by done.
  by destruct (Z.compare_spec (value (S754_finite false mx ex)) (value (S754_finite false m e)));
    [..|lia].
Qed.

Lemma run_tokens cm rm ce re k ops b :
  valid (S754_finite false cm ce) -> valid (S754_finite false rm re) ->
  run (new (S754_finite false cm ce) (S754_finite false rm re)) ops ∅ !! k = Some b ->
  SFleb (f64_of 0) (tokens b) = true /\ SFleb (tokens b) (S754_finite false cm ce) = true.
Proof.
  intros V V' Hb. destruct (run_in_range _ _ _ _ V V' ops ∅ (map_Forall_empty _) _ _ Hb)
    as (t & _ & _ & Ht & _). by apply within_leb.
Qed.

(** whatever requests and cleanups come in whatever order, every address has
    between 0 and 100 tokens and every API key between 0 and 1000, never a NaN. *)
Theorem tokens_in_range k ops b :
  (run (new IP_CAPACITY IP_REFILL_PER_SEC) ops ∅ !! k = Some b ->
   SFleb (f64_of 0) (tokens b) = true /\ SFleb (tokens b) IP_CAPACITY = true) /\
  (run (new KEY_CAPACITY KEY_REFILL_PER_SEC) ops ∅ !! k = Some b ->
   SFleb (f64_of 0) (tokens b) = true /\ SFleb (tokens b) KEY_CAPACITY = true).
Proof.
  destruct ip_constants as [-> ->], key_constants as [-> ->].
  split; intros Hb; by apply run_tokens in Hb.
Qed.

Lemma tokens_in_range_witness :
  exists b, run (new IP_CAPACITY IP_REFILL_PER_SEC) [Check (mkClocks 0 0 0) "a"] ∅ !! "a" = Some b /\
            SFleb (tokens b) IP_CAPACITY = true.
Proof.
  eexists. split; [vm_compute; reflexivity|].
  apply (tokens_in_range "a" [Check (mkClocks 0 0 0) "a"]). vm_compute. reflexivity.
Defined.

(** ** Bursts *)

Lemma since_refl now : since now now = 0.
Proof. unfold since. lia. Qed.

(** At one instant a bucket gives a token for each it has. *)
Lemma consume_instant c rm re n now s :
  0 < n <= c -> c < 2 ^ 53 ->
  consume now (mkBucket (f64_of n) (f64_of c) (S754_finite false rm re) now s) =
  (mkBucket (f64_of (n - 1)) (f64_of c) (S754_finite false rm re) now now, inr (f64_of (n - 1))).
Proof.
  intros Hn Hc. unfold consume. cbn [last_refill tokens capacity refill_rate].
  rewrite since_refl, no_refill by lia.
  pose proof (f64_of_within n c ltac:(lia) Hc) as Hw.
  destruct (f64_of_exact c ltac:(lia)) as (cm & ce & E & V & _). rewrite E in *.
  rewrite min_id, f64_of_has_one, f64_sub_one by (done || lia). done.
Qed.

Lemma solo_burst fresh c rm re now unix n rest s :
  Z.of_nat n <= c -> c < 2 ^ 53 ->
  solo fresh (repeat (mkClocks now now unix) n ++ rest)
    (Some (mkBucket (f64_of (Z.of_nat n)) (f64_of c) (S754_finite false rm re) now s)) =
  map (fun i => let b := mkBucket (f64_of (Z.of_nat i)) (f64_of c) (S754_finite false rm re) now now in
                (inr (tokens b), reset_unix unix b)) (rev (seq 0 n)) ++
  solo fresh rest (Some (mkBucket (f64_of 0) (f64_of c) (S754_finite false rm re) now
                           (if n is O then s else now))).
Proof.
  intros Hc Hc53. revert s. induction n as [|n IH]; intros s; [done|].
  cbn [repeat app solo default id consumed created RateLimit.unix]. unfold id.
  rewrite consume_instant by lia.
  replace (Z.of_nat (S n) - 1) with (Z.of_nat n) by lia.
  rewrite IH by lia. rewrite seq_S, rev_app_distr. cbn [rev app map Nat.add].
  by destruct n.
Qed.

(** An empty one refuses. *)
Lemma consume_empty c rm re now s :
  0 < c < 2 ^ 53 ->
  consume now (mkBucket (f64_of 0) (f64_of c) (S754_finite false rm re) now s) =
  (mkBucket (f64_of 0) (f64_of c) (S754_finite false rm re) now now,
   inl (f64_div (f64_of 1) (S754_finite false rm re))).
Proof.
  intros Hc. unfold consume. cbn [last_refill tokens capacity refill_rate].
  rewrite since_refl, no_refill by lia.
  pose proof (f64_of_within 0 c ltac:(lia) ltac:(lia)) as Hw.
  destruct (f64_of_exact c ltac:(lia)) as (cm & ce & E & V & _). rewrite E in *.
  by rewrite min_id by done.
Qed.

(** What a caller is told. *)
Definition told (a : (f64 + f64) * Z) : Z + Z :=
  match fst a with inr rem => inr (as_u64 rem) | inl retry => inl (ceil_as_u64 retry) end.

Lemma burst_told c rm re now unix :
  0 < c < 2 ^ 53 ->
  map told (solo (new (f64_of c) (S754_finite false rm re))
              (repeat (mkClocks now now unix) (Z.to_nat c + 1)) None) =
  map (fun i => inr (as_u64 (f64_of (Z.of_nat i)))) (rev (seq 0 (Z.to_nat c))) ++
  [inl (ceil_as_u64 (f64_div (f64_of 1) (S754_finite false rm re)))].
Proof.
  intros Hc. set (fresh := new _ _).
  rewrite repeat_app. transitivity (map told (solo fresh
    (repeat (mkClocks now now unix) (Z.to_nat c) ++ [mkClocks now now unix]) (Some (fresh now)))).
  { destruct (Z.to_nat c) eqn:E; [lia|done]. }
  unfold fresh at 2, new. replace (f64_of c) with (f64_of (Z.of_nat (Z.to_nat c))) at 1
    by (by rewrite Z2Nat.id by lia).
  rewrite solo_burst by lia. cbn [solo default id consumed created RateLimit.unix]. unfold id.
  rewrite consume_empty by lia. rewrite map_app, map_map. done.
Qed.

(** at one instant a new address gets exactly 100 requests through and a new API
    key exactly 1000, each told how many are left; the next is refused and told to
    come back after one second. *)
Theorem burst_is_capacity now unix :
  let ck := mkClocks now now unix in
  let countdown n := map (fun i => inr (Z.of_nat i)) (rev (seq 0 n)) in
  map told (solo (new IP_CAPACITY IP_REFILL_PER_SEC) (repeat ck 101) None) =
    countdown 100%nat ++ [inl 1] /\
  map told (solo (new KEY_CAPACITY KEY_REFILL_PER_SEC) (repeat ck 1001) None) =
    countdown 1000%nat ++ [inl 1].
Proof.
  destruct ip_constants as [_ ->], key_constants as [_ ->]. cbv zeta. split.
  - etransitivity; [by apply (burst_told 100 _ _ now unix)|by vm_compute].
  - etransitivity; [by apply (burst_told 1000 _ _ now unix)|by vm_compute].
Qed.

(** ** The limiter of outgoing calls *)

Section Outgoing.
Import Limiter.
Context (cfg : RateLimiterConfig) (rm : positive) (re : Z).
Context (cap_u32 : 0 < Limiter.capacity cfg <= u32_max).
Context (rate_eq : Limiter.refill_rate cfg = S754_finite false rm re).
Context (rate_valid : valid (S754_finite false rm re)).

Definition limiter_ok (st : BucketState) : Prop :=
  config st = cfg /\ within (f64_of (Limiter.capacity cfg)) (Limiter.tokens st).

Lemma cap_exact : exists cm ce, f64_of (Limiter.capacity cfg) = S754_finite false cm ce /\
                                valid (S754_finite false cm ce).
Proof.
  destruct (f64_of_exact (Limiter.capacity cfg)) as (m & e & ? & ? & _); [unfold u32_max in *; lia|].
  by exists m, e.
Qed.

Lemma limiter_new_ok now : limiter_ok (Limiter.new cfg now).
Proof. split; [done|]. apply f64_of_within; unfold u32_max in *; lia. Qed.

Lemma refill_ok now st : limiter_ok st -> limiter_ok (fst (refill_and_next_available now st)).
Proof.
  intros [Hc Ht]. unfold limiter_ok, refill_and_next_available. rewrite Hc, rate_eq.
  destruct cap_exact as (cm & ce & E & V). rewrite E in *.
  set (t := f64_min _ _). assert (Hm : within (S754_finite false cm ce) t)
    by (apply min_within; [done|]; eapply refill_atleast_0; [done|apply since_nonneg|done]).
  destruct (SFleb (f64_of 1) t) eqn:El; cbn [fst config Limiter.tokens]; [|done].
  split; [done|]. rewrite one_exact in *. by apply sub_within.
Qed.

(** Polling at the given times: the answers and the state after them. *)
Fixpoint polls (times : list Z) (st : BucketState) : list (option bool) * BucketState :=
  match times with
  | [] => ([], st)
  | t :: rest =>
      match try_acquire t st with
      | (st, r) => match polls rest st with (rs, st) => (r :: rs, st) end
      end
  end.

Lemma polls_ok times : forall st, limiter_ok st -> limiter_ok (snd (polls times st)).
Proof.
  induction times as [|t times IH]; intros st Hst; [done|]. cbn [polls]. unfold try_acquire.
  pose proof (refill_ok t st Hst) as H1. destruct (refill_and_next_available t st) as [st1 w].
  specialize (IH st1 H1). by destruct (polls times st1).
Qed.

(** At one instant a new limiter gives its capacity. *)
Lemma refill_instant n now :
  0 < n <= Limiter.capacity cfg ->
  refill_and_next_available now (mkBucketState (f64_of n) now cfg) =
  (mkBucketState (f64_of (n - 1)) now cfg, Some 0).
Proof.
  intros Hn. unfold refill_and_next_available. cbn [config Limiter.tokens Limiter.last_refill].
  rewrite rate_eq, since_refl, no_refill by (unfold u32_max in *; lia).
  pose proof (f64_of_within n (Limiter.capacity cfg) ltac:(lia) ltac:(unfold u32_max in *; lia)) as Hw.
  destruct cap_exact as (cm & ce & E & V). rewrite E in *.
  rewrite min_id, f64_of_has_one, f64_sub_one by (done || unfold u32_max in *; lia). done.
Qed.

Lemma polls_burst now n :
  Z.of_nat n <= Limiter.capacity cfg ->
  polls (repeat now n) (mkBucketState (f64_of (Z.of_nat n)) now cfg) =
  (repeat (Some true) n, mkBucketState (f64_of 0) now cfg).
Proof.
  induction n as [|n IH]; intros Hn; [done|]. cbn [repeat polls]. unfold try_acquire.
  rewrite refill_instant by lia. replace (Z.of_nat (S n) - 1) with (Z.of_nat n) by lia.
  rewrite IH by lia. done.
Qed.
End Outgoing.



(** Once the burst is spent, a task alone waits exactly the two seconds of one
    token. *)
Lemma acquire_after_burst :
  snd (Limiter.acquire 2 (fun _ => 0) 0
         (snd (polls (repeat 0 5) (Limiter.new Limiter.chess_com_default 0)))) = Some 2000000000.
Proof. by vm_compute. Qed.

(** The polls at the given instants of a task that asks every fifth of a second. *)
Definition every_200ms : list Z := map (fun i => Z.of_nat i * 200000000) (seq 1 10).

(** The chess.com limiter, emptied at start and then polled every 200 ms: after two
    seconds it holds [1 - 2 ^ -53] of a token. *)
Definition almost_one : Limiter.BucketState :=
  snd (polls (repeat 0 5 ++ every_200ms) (Limiter.new Limiter.chess_com_default 0)).

Lemma almost_one_state :
  almost_one = Limiter.mkBucketState (S754_finite false 9007199254740991 (-53)) 2000000000
                 Limiter.chess_com_default.
Proof. by vm_compute. Qed.

Lemma almost_one_grants :
  Limiter.try_acquire 2000000000 almost_one = (almost_one, Some true).
Proof. rewrite almost_one_state. by vm_compute. Qed.

(** a token that is almost there is granted without being taken.  The wait for the
    missing [2 ^ -53] of it rounds to zero nanoseconds, which [try_acquire] and
    [acquire] read as success: the chess.com limiter, emptied at start and polled every
    200 ms, then grants any number of requests at that instant, and its state does not
    change. *)
Theorem limiter_grants_unbounded n :
  fst (polls (repeat 0 5 ++ every_200ms) (Limiter.new Limiter.chess_com_default 0)) =
    repeat (Some true) 5 ++ repeat (Some false) 9 ++ [Some true] /\
  polls (repeat 2000000000 n) almost_one = (repeat (Some true) n, almost_one).
Proof.
  split; [by vm_compute|]. induction n as [|n IH]; [done|].
  cbn [repeat polls]. by rewrite almost_one_grants, IH.
Qed.
