(* ===== verification/Subscriptions.v ===== *)
(** The websocket server's subscriptions, [server/src]: which clients hear of which
    match.  The repository keeps three versions of the table: [websocket.rs] (matches
    by name), [ws/mod.rs] (matches by number) and [ws/subscriptions.rs] (two maps under
    two locks).  Each implements the relation of matches and clients; events reach
    exactly the subscribed clients that are connected; operations of different clients
    may overlap, those of one client may not.

    The application state (client ids, the registry of channels) and the channels are
    not in the repository: the registry is an argument and sending is a parameter. *)
From stdpp Require Import base tactics list strings gmap.
From Stdlib Require Import ZArith Lia.
From S2P Require Import Prelude Text.

Local Open Scope Z_scope.

(** ** Maps of sets *)

Section Tables.
Context {K V : Type} `{EqDecision K, !Countable K, EqDecision V, !Countable V}.
Implicit Types (m : gmap K (gset V)) (k : K) (v : V).

(** [map.entry(k).or_default().insert(v)]. *)
Definition entry_insert k v m : gmap K (gset V) := <[k := {[v]} ∪ default ∅ (m !! k)]> m.

(** [if let Some(s) = map.get_mut(k) { s.remove(v); if s.is_empty() { map.remove(k) } }]. *)
Definition entry_remove k v m : gmap K (gset V) :=
  match m !! k with
  | Some s => if bool_decide (s ∖ {[v]} = ∅) then delete k m else <[k := s ∖ {[v]}]> m
  | None => m
  end.

(** [map.retain(|_, s| { s.remove(v); !s.is_empty() })]. *)
Definition retain_without v m : gmap K (gset V) :=
  filter (fun kv => snd kv ≠ ∅) ((fun s => s ∖ {[v]}) <$> m).

(** The set at [k]. *)
Definition members m k : gset V := default ∅ (m !! k).

Definition no_empty m : Prop := map_Forall (fun _ s => s ≠ ∅) m.

Lemma members_insert k v m k' v' :
  v' ∈ members (entry_insert k v m) k' <-> (k' = k /\ v' = v) \/ v' ∈ members m k'.
Proof.
  unfold members, entry_insert. destruct (decide (k' = k)) as [->|Hne].
  - rewrite lookup_insert_eq. cbn. set_solver.
  - rewrite lookup_insert_ne by done. set_solver.
Qed.

Lemma members_remove k v m k' v' :
  v' ∈ members (entry_remove k v m) k' <-> v' ∈ members m k' /\ ~ (k' = k /\ v' = v).
Proof.
  unfold members, entry_remove. destruct (m !! k) as [s|] eqn:E.
  - case_bool_decide as Hs; destruct (decide (k' = k)) as [->|Hne].
    + rewrite lookup_delete_eq, E. cbn. set_solver.
    + rewrite lookup_delete_ne by done. set_solver.
    + rewrite lookup_insert_eq, E. cbn. set_solver.
    + rewrite lookup_insert_ne by done. set_solver.
  - split; [|set_solver]. intros Hv. split; [done|]. intros [-> ->]. rewrite E in Hv. set_solver.
Qed.

Lemma members_retain v m k' v' :
  v' ∈ members (retain_without v m) k' <-> v' ∈ members m k' /\ v' <> v.
Proof.
  unfold members, retain_without. rewrite map_lookup_filter, lookup_fmap.
  destruct (m !! k') as [s|]; cbn; [|set_solver]. case_guard as Hg; cbn; set_solver.
Qed.

Lemma no_empty_insert k v m : no_empty m -> no_empty (entry_insert k v m).
Proof. intros Hm. apply map_Forall_insert_2; [set_solver|done]. Qed.

Lemma no_empty_remove k v m : no_empty m -> no_empty (entry_remove k v m).
Proof.
  intros Hm. unfold entry_remove. destruct (m !! k) as [s|]; [|done].
  case_bool_decide; [by apply map_Forall_delete|by apply map_Forall_insert_2].
Qed.

Lemma no_empty_retain v m : no_empty (retain_without v m).
Proof. intros k s Hs. by apply map_lookup_filter_Some in Hs as [_ ?]. Qed.

(** Without empty sets a table is its relation. *)
Lemma table_ext m1 m2 :
  no_empty m1 -> no_empty m2 ->
  (forall k v, v ∈ members m1 k <-> v ∈ members m2 k) -> m1 = m2.
Proof.
  intros H1 H2 Heq. apply map_eq. intros k.
  assert (Hs : members m1 k = members m2 k) by (apply set_eq; auto).
  unfold members in Hs. destruct (m1 !! k) as [s1|] eqn:E1, (m2 !! k) as [s2|] eqn:E2; cbn in Hs;
    [by subst|by subst; destruct (H1 _ _ E1)|by subst; destruct (H2 _ _ E2)|done].
Qed.
End Tables.

Create HintDb members.
#[export] Hint Resolve no_empty_insert no_empty_remove no_empty_retain : members.

(** ** Matches by name: [websocket.rs] *)

Module Websocket.

Abbreviation SubscriptionMap := (gmap string (gset Z)).

Definition new_subscription_map : SubscriptionMap := ∅.
Definition subscribe (match_id : string) (client_id : Z) (map : SubscriptionMap) : SubscriptionMap :=
  entry_insert match_id client_id map.
Definition unsubscribe (match_id : string) (client_id : Z) (map : SubscriptionMap) : SubscriptionMap :=
  entry_remove match_id client_id map.
Definition unsubscribe_all (client_id : Z) (map : SubscriptionMap) : SubscriptionMap :=
  retain_without client_id map.
Definition subscribers_for (match_id : string) (map : SubscriptionMap) : gset Z :=
  default ∅ (map !! match_id).

Inductive ClientMessage := Subscribe (match_id : string) | Unsubscribe (match_id : string).

(** [#[serde(tag = "type", rename_all = "snake_case")]] *)
Definition client_message (v : Value) : option ClientMessage :=
  match get_field "type" v ≫= as_str, get_field "match_id" v ≫= as_str with
  | Some "subscribe", Some m => Some (Subscribe m)
  | Some "unsubscribe", Some m => Some (Unsubscribe m)
  | _, _ => None
  end.

Record MatchEvent := mkMatchEvent { match_id : string; event : string; payload : Value }.

(** What a socket brings. *)
Inductive Message := Text (text : string) | Close | Other.

Section Server.
Context (from_str : string -> option Value).
Context {Sender : Type} (send : Sender -> MatchEvent -> option Sender).

(** One event to each target in turn: the registry and the number delivered. *)
Fixpoint deliver (ev : MatchEvent) (targets : list Z) (clients : gmap Z Sender) (delivered : nat)
  : gmap Z Sender * nat :=
  match targets with
  | [] => (clients, delivered)
  | client_id :: rest =>
      match clients !! client_id ≫= fun tx => send tx ev with
      | Some tx => deliver ev rest (<[client_id := tx]> clients) (S delivered)
      | None => deliver ev rest clients delivered
      end
  end.

Definition dispatch_event (map : SubscriptionMap) (ev : MatchEvent) (clients : gmap Z Sender)
  : gmap Z Sender * nat :=
  deliver ev (elements (subscribers_for (match_id ev) map)) clients 0.

(** The receiving task of [handle_socket]. *)
Fixpoint recv_task (client_id : Z) (msgs : list Message) (map : SubscriptionMap) : SubscriptionMap :=
  match msgs with
  | [] => map
  | Close :: _ => map
  | Other :: rest => recv_task client_id rest map
  | Text text :: rest =>
      recv_task client_id rest
        match from_str text ≫= client_message with
        | Some (Subscribe m) => subscribe m client_id map
        | Some (Unsubscribe m) => unsubscribe m client_id map
        | None => map
        end
  end.

(** [handle_socket] of a connection alone: its messages, then the clean-up. *)
Definition handle_socket (client_id : Z) (msgs : list Message) (map : SubscriptionMap)
  : SubscriptionMap :=
  unsubscribe_all client_id (recv_task client_id msgs map).
End Server.

End Websocket.

(** ** Matches by number: [ws/mod.rs] *)

Module WsMod.

Record WsEvent := mkWsEvent { match_id : Z; payload : Value }.

Abbreviation SubscriptionMap := (gmap Z (gset Z)).

Definition new : SubscriptionMap := ∅.
Definition subscribe (match_id client_id : Z) (inner : SubscriptionMap) : SubscriptionMap :=
  entry_insert match_id client_id inner.
Definition unsubscribe_all (client_id : Z) (inner : SubscriptionMap) : SubscriptionMap :=
  retain_without client_id inner.
Definition subscribers (match_id : Z) (inner : SubscriptionMap) : option (gset Z) :=
  inner !! match_id.

Inductive ClientMessage := Subscribe (match_id : Z) | Unsubscribe (match_id : Z).

Definition client_message (v : Value) : option ClientMessage :=
  match get_field "type" v ≫= as_str, get_field "match_id" v ≫= as_u64_value with
  | Some "subscribe", Some m => Some (Subscribe m)
  | Some "unsubscribe", Some m => Some (Unsubscribe m)
  | _, _ => None
  end.

(** The [Unsubscribe] arm of [handle_socket]: an emptied set stays. *)
Definition unsubscribe (match_id client_id : Z) (inner : SubscriptionMap) : SubscriptionMap :=
  match inner !! match_id with
  | Some clients => <[match_id := clients ∖ {[client_id]}]> inner
  | None => inner
  end.

Section Server.
Context (from_str : string -> option Value).
Context {Sender : Type} (send : Sender -> WsEvent -> option Sender).

Fixpoint deliver (ev : WsEvent) (targets : list Z) (clients : gmap Z Sender) : gmap Z Sender :=
  match targets with
  | [] => clients
  | client_id :: rest =>
      match clients !! client_id ≫= fun tx => send tx ev with
      | Some tx => deliver ev rest (<[client_id := tx]> clients)
      | None => deliver ev rest clients
      end
  end.

Definition broadcast_event (inner : SubscriptionMap) (clients : gmap Z Sender) (ev : WsEvent)
  : gmap Z Sender :=
  match subscribers (match_id ev) inner with
  | None => clients
  | Some subs => deliver ev (elements subs) clients
  end.

(** The receiving task: [Some] a text message, [None] any other. *)
Fixpoint recv_task (client_id : Z) (msgs : list (option string)) (inner : SubscriptionMap)
  : SubscriptionMap :=
  match msgs with
  | [] => inner
  | None :: rest => recv_task client_id rest inner
  | Some text :: rest =>
      recv_task client_id rest
        match from_str text ≫= client_message with
        | Some (Subscribe m) => subscribe m client_id inner
        | Some (Unsubscribe m) => unsubscribe m client_id inner
        | None => inner
        end
  end.

Definition handle_socket (client_id : Z) (msgs : list (option string)) (inner : SubscriptionMap)
  : SubscriptionMap :=
  unsubscribe_all client_id (recv_task client_id msgs inner).
End Server.

End WsMod.

(** ** Two maps under two locks: [ws/subscriptions.rs] *)

Module TwoMaps.

Record SubscriptionMap := mkSubscriptionMap {
  by_match : gmap string (gset string);
  by_client : gmap string (gset string)
}.

Definition new : SubscriptionMap := mkSubscriptionMap ∅ ∅.

(** Each operation takes one lock after the other: what it does under each. *)
Definition subscribe_match (match_id client : string) (s : SubscriptionMap) : SubscriptionMap :=
  mkSubscriptionMap (entry_insert match_id client (by_match s)) (by_client s).
Definition subscribe_client (match_id client : string) (s : SubscriptionMap) : SubscriptionMap :=
  mkSubscriptionMap (by_match s) (entry_insert client match_id (by_client s)).
Definition subscribe (match_id client : string) (s : SubscriptionMap) : SubscriptionMap :=
  subscribe_client match_id client (subscribe_match match_id client s).

Definition unsubscribe_match (match_id client : string) (s : SubscriptionMap) : SubscriptionMap :=
  mkSubscriptionMap (entry_remove match_id client (by_match s)) (by_client s).
Definition unsubscribe_client (match_id client : string) (s : SubscriptionMap) : SubscriptionMap :=
  mkSubscriptionMap (by_match s) (entry_remove client match_id (by_client s)).
Definition unsubscribe (match_id client : string) (s : SubscriptionMap) : SubscriptionMap :=
  unsubscribe_client match_id client (unsubscribe_match match_id client s).

(** [remove_client]: the client's matches are taken out of the second map, then the
    client out of each of them. *)
Definition take_client (client : string) (s : SubscriptionMap) : gset string * SubscriptionMap :=
  (members (by_client s) client, mkSubscriptionMap (by_match s) (delete client (by_client s))).
Definition purge (client : string) (matches : gset string) (s : SubscriptionMap) : SubscriptionMap :=
  mkSubscriptionMap (foldr (fun match_id => entry_remove match_id client) (by_match s) (elements matches))
    (by_client s).
Definition remove_client (client : string) (s : SubscriptionMap) : SubscriptionMap :=
  match take_client client s with (matches, s) => purge client matches s end.

Definition subscribers (match_id : string) (s : SubscriptionMap) : list string :=
  elements (default ∅ (by_match s !! match_id)).
Definition subscriptions (client : string) (s : SubscriptionMap) : list string :=
  elements (default ∅ (by_client s !! client)).

End TwoMaps.

(** ** The relation all three keep *)

Class SubscriptionStore (S M C : Type) `{Countable C} := {
  ss_empty : S;
  ss_subscribe : M -> C -> S -> S;
  ss_unsubscribe : M -> C -> S -> S;
  ss_disconnect : C -> S -> S;
  ss_subscribers : M -> S -> gset C
}.

Class SubscriptionLaws (S M C : Type) `{SubscriptionStore S M C} := {
  ss_wf : S -> Prop;
  ss_empty_wf : ss_wf ss_empty;
  ss_subscribe_wf m c s : ss_wf s -> ss_wf (ss_subscribe m c s);
  ss_unsubscribe_wf m c s : ss_wf s -> ss_wf (ss_unsubscribe m c s);
  ss_disconnect_wf c s : ss_wf s -> ss_wf (ss_disconnect c s);
  ss_none m : ss_subscribers m ss_empty = ∅;
  ss_after_subscribe m c s m' c' : ss_wf s ->
    c' ∈ ss_subscribers m' (ss_subscribe m c s) <-> (m' = m /\ c' = c) \/ c' ∈ ss_subscribers m' s;
  ss_after_unsubscribe m c s m' c' : ss_wf s ->
    c' ∈ ss_subscribers m' (ss_unsubscribe m c s) <-> c' ∈ ss_subscribers m' s /\ ~ (m' = m /\ c' = c);
  ss_after_disconnect c s m' c' : ss_wf s ->
    c' ∈ ss_subscribers m' (ss_disconnect c s) <-> c' ∈ ss_subscribers m' s /\ c' <> c
}.

(** What clients do. *)
Inductive ClientOp (M C : Type) :=
  | OpSubscribe (m : M) (c : C)
  | OpUnsubscribe (m : M) (c : C)
  | OpDisconnect (c : C).
Arguments OpSubscribe {M C}.
Arguments OpUnsubscribe {M C}.
Arguments OpDisconnect {M C}.

Definition op_client {M C} (op : ClientOp M C) : C :=
  match op with OpSubscribe _ c | OpUnsubscribe _ c | OpDisconnect c => c end.

(** The specification: a client hears of a match when it asked for it and has since
    neither withdrawn nor left. *)
Fixpoint watching {M C} (ops : list (ClientOp M C)) (m : M) (c : C) : Prop :=
  match ops with
  | [] => False
  | OpSubscribe m' c' :: earlier => (m = m' /\ c = c') \/ watching earlier m c
  | OpUnsubscribe m' c' :: earlier => watching earlier m c /\ ~ (m = m' /\ c = c')
  | OpDisconnect c' :: earlier => watching earlier m c /\ c <> c'
  end.

Section Refinement.
Context {S M C : Type} `{SubscriptionLaws S M C}.

(** The operations, the newest first. *)
Fixpoint after (ops : list (ClientOp M C)) : S :=
  match ops with
  | [] => ss_empty
  | OpSubscribe m c :: earlier => ss_subscribe m c (after earlier)
  | OpUnsubscribe m c :: earlier => ss_unsubscribe m c (after earlier)
  | OpDisconnect c :: earlier => ss_disconnect c (after earlier)
  end.

Lemma after_wf ops : ss_wf (after ops).
Proof.
  induction ops as [|[m c|m c|c] ops IH]; cbn [after];
    auto using ss_empty_wf, ss_subscribe_wf, ss_unsubscribe_wf, ss_disconnect_wf.
Qed.

Lemma store_refines ops m c : c ∈ ss_subscribers m (after ops) <-> watching ops m c.
Proof.
  induction ops as [|[m' c'|m' c'|c'] ops IH]; cbn [after watching].
  - rewrite ss_none. set_solver.
  - rewrite ss_after_subscribe by apply after_wf. by rewrite IH.
  - rewrite ss_after_unsubscribe by apply after_wf. by rewrite IH.
  - rewrite ss_after_disconnect by apply after_wf. by rewrite IH.
Qed.
End Refinement.

#[export] Instance websocket_store : SubscriptionStore Websocket.SubscriptionMap string Z := {|
  ss_empty := Websocket.new_subscription_map;
  ss_subscribe := Websocket.subscribe;
  ss_unsubscribe := Websocket.unsubscribe;
  ss_disconnect := Websocket.unsubscribe_all;
  ss_subscribers := Websocket.subscribers_for
|}.

#[export] Instance websocket_laws : SubscriptionLaws Websocket.SubscriptionMap string Z.
Proof.
  refine {| ss_wf := (no_empty : Websocket.SubscriptionMap -> Prop) |};
    cbn [ss_empty ss_subscribe ss_unsubscribe ss_disconnect ss_subscribers websocket_store];
    intros.
  - apply map_Forall_empty.
  - by apply no_empty_insert.
  - by apply no_empty_remove.
  - apply no_empty_retain.
  - done.
  - apply members_insert.
  - apply members_remove.
  - apply members_retain.
Defined.

#[export] Instance wsmod_store : SubscriptionStore WsMod.SubscriptionMap Z Z := {|
  ss_empty := WsMod.new;
  ss_subscribe := WsMod.subscribe;
  ss_unsubscribe := WsMod.unsubscribe;
  ss_disconnect := WsMod.unsubscribe_all;
  ss_subscribers m s := default ∅ (WsMod.subscribers m s)
|}.

Lemma wsmod_unsubscribe m c (s : WsMod.SubscriptionMap) m' c' :
  c' ∈ members (WsMod.unsubscribe m c s) m' <-> c' ∈ members s m' /\ ~ (m' = m /\ c' = c).
Proof.
  unfold WsMod.unsubscribe, members. destruct (s !! m) as [cs|] eqn:E.
  - destruct (decide (m' = m)) as [->|Hne].
    + rewrite lookup_insert_eq, E. cbn. set_solver.
    + rewrite lookup_insert_ne by done. set_solver.
  - split; [|by intros [? _]]. intros Hc. split; [done|]. intros [-> ->]. rewrite E in Hc. set_solver.
Qed.

#[export] Instance wsmod_laws : SubscriptionLaws WsMod.SubscriptionMap Z Z.
Proof.
  refine {| ss_wf := (fun _ : WsMod.SubscriptionMap => True) |};
    cbn [ss_empty ss_subscribe ss_unsubscribe ss_disconnect ss_subscribers wsmod_store]; auto; intros.
  - apply members_insert.
  - apply wsmod_unsubscribe.
  - apply members_retain.
Defined.

(** The two maps are converse, and hold no empty set. *)
Definition consistent (s : TwoMaps.SubscriptionMap) : Prop :=
  no_empty (TwoMaps.by_match s) /\ no_empty (TwoMaps.by_client s) /\
  forall m c, c ∈ members (TwoMaps.by_match s) m <-> m ∈ members (TwoMaps.by_client s) c.

Section Converse.
Import TwoMaps.

Lemma members_delete {K V} `{Countable K, Countable V} k (m : gmap K (gset V)) k' v' :
  v' ∈ members (delete k m) k' <-> v' ∈ members m k' /\ k' <> k.
Proof.
  unfold members. destruct (decide (k' = k)) as [->|Hne].
  - rewrite lookup_delete_eq. set_solver.
  - rewrite lookup_delete_ne by done. set_solver.
Qed.

Lemma members_purge client ms (t : gmap string (gset string)) m c :
  c ∈ members (foldr (fun match_id => entry_remove match_id client) t ms) m <->
  c ∈ members t m /\ ~ (m ∈ ms /\ c = client).
Proof.
  induction ms as [|m' ms IH]; cbn [foldr]; [set_solver|]. rewrite members_remove, IH. set_solver.
Qed.

Lemma no_empty_purge client ms (t : gmap string (gset string)) :
  no_empty t -> no_empty (foldr (fun match_id => entry_remove match_id client) t ms).
Proof. intros Ht. induction ms as [|m' ms IH]; cbn [foldr]; auto with members. Qed.

Lemma subscribe_consistent m c s : consistent s -> consistent (subscribe m c s).
Proof.
  intros (H1 & H2 & Hc). split_and!; cbn; auto with members. intros m' c'.
  rewrite !members_insert, Hc. tauto.
Qed.

Lemma unsubscribe_consistent m c s : consistent s -> consistent (unsubscribe m c s).
Proof.
  intros (H1 & H2 & Hc). split_and!; cbn; auto with members. intros m' c'.
  rewrite !members_remove, Hc. tauto.
Qed.

Lemma remove_members c s m' c' : consistent s ->
  c' ∈ members (by_match (remove_client c s)) m' <-> c' ∈ members (by_match s) m' /\ c' <> c.
Proof.
  intros (H1 & H2 & Hc). cbn. rewrite members_purge, elem_of_elements. split.
  - intros [Hin Hn]. split; [done|]. intros ->. apply Hn. by rewrite <- Hc.
  - intros [Hin Hn]. by split; [|intros [_ ?]].
Qed.

Lemma drop_client_consistent c s : consistent s -> consistent (remove_client c s).
Proof.
  intros Hs. pose proof Hs as (H1 & H2 & Hc). split_and!.
  - cbn. by apply no_empty_purge.
  - cbn. by apply map_Forall_delete.
  - intros m' c'. rewrite remove_members by done. cbn. rewrite members_delete, Hc. done.
Qed.
End Converse.

#[export] Instance twomaps_store : SubscriptionStore TwoMaps.SubscriptionMap string string := {|
  ss_empty := TwoMaps.new;
  ss_subscribe := TwoMaps.subscribe;
  ss_unsubscribe := TwoMaps.unsubscribe;
  ss_disconnect := TwoMaps.remove_client;
  ss_subscribers m s := list_to_set (TwoMaps.subscribers m s)
|}.

Lemma twomaps_subscribers m s :
  (list_to_set (TwoMaps.subscribers m s) : gset string) = members (TwoMaps.by_match s) m.
Proof. apply set_eq. intros c. unfold TwoMaps.subscribers. by rewrite elem_of_list_to_set, elem_of_elements. Qed.

#[export] Instance twomaps_laws : SubscriptionLaws TwoMaps.SubscriptionMap string string.
Proof.
  refine {| ss_wf := consistent |};
    cbn [ss_empty ss_subscribe ss_unsubscribe ss_disconnect ss_subscribers twomaps_store];
    auto using subscribe_consistent, unsubscribe_consistent, drop_client_consistent; intros;
    rewrite ?twomaps_subscribers.
  - split_and!; [apply map_Forall_empty..|]. intros m c. cbn. unfold members. rewrite !lookup_empty. set_solver.
  - apply members_insert.
  - apply members_remove.
  - by apply remove_members.
Defined.

(** C21: the three tables implement the same specification: after any sequence of
    subscriptions, withdrawals and disconnections, the subscribers of a match are
    exactly the clients that asked for it and have since neither withdrawn nor left. *)
Theorem subscriptions_refine :
  (forall (ops : list (ClientOp string Z)) m c,
     c ∈ Websocket.subscribers_for m (after ops) <-> watching ops m c) /\
  (forall (ops : list (ClientOp Z Z)) m c,
     c ∈ default ∅ (WsMod.subscribers m (after ops)) <-> watching ops m c) /\
  (forall (ops : list (ClientOp string string)) m c,
     c ∈ TwoMaps.subscribers m (after ops) <-> watching ops m c).
Proof.
  split_and!; intros ops m c; rewrite <- store_refines; [done..|].
  cbn [ss_subscribers twomaps_store]. by rewrite elem_of_list_to_set.
Qed.

(** Nothing stays behind when every client has left. *)
Lemma all_gone (ops : list (ClientOp string Z)) :
  (forall m c, ~ watching ops m c) -> (after ops : Websocket.SubscriptionMap) = ∅.
Proof.
  intros Hgone. apply table_ext; [exact (after_wf (S:=Websocket.SubscriptionMap) ops)|apply map_Forall_empty|].
  intros m c. transitivity (watching ops m c); [exact (store_refines (S:=Websocket.SubscriptionMap) ops m c)|].
  unfold members. rewrite lookup_empty. cbn. split; [by intros ?%Hgone|set_solver].
Qed.

(** ** Delivery *)

Section Delivery.
Import Websocket.
Context {Sender : Type} (send : Sender -> MatchEvent -> option Sender).

(** The channel of a client after the event is offered to it. *)
Definition offered (ev : MatchEvent) (tx : Sender) : Sender := default tx (send tx ev).

(** The client is connected and its channel takes the event. *)
Definition takes (ev : MatchEvent) (clients : gmap Z Sender) (c : Z) : bool :=
  match clients !! c ≫= fun tx => send tx ev with Some _ => true | None => false end.

Lemma deliver_spec ev targets : forall clients n, NoDup targets ->
  (forall c, fst (deliver send ev targets clients n) !! c =
     (if bool_decide (c ∈ targets) then offered ev else id) <$> clients !! c) /\
  snd (deliver send ev targets clients n) =
    (n + length (List.filter (takes ev clients) targets))%nat.
Proof.
  induction targets as [|t targets IH]; intros clients n Hnd.
  - cbn. split; [|lia]. intros c. by destruct (clients !! c).
  - apply NoDup_cons in Hnd as [Hnot Hnd]. cbn [deliver List.filter]. unfold takes at 1.
    destruct (clients !! t ≫= fun tx => send tx ev) as [tx'|] eqn:E.
    + specialize (IH (<[t := tx']> clients) (S n) Hnd) as [IH1 IH2]. split.
      * intros c. rewrite IH1. destruct (decide (c = t)) as [->|Hne].
        { rewrite lookup_insert_eq. rewrite bool_decide_eq_false_2 by done.
          rewrite bool_decide_eq_true_2 by set_solver.
          destruct (clients !! t) as [tx|]; [|done]. cbn in *. unfold offered. by rewrite E. }
        rewrite lookup_insert_ne by done.
        rewrite (bool_decide_ext (c ∈ t :: targets) (c ∈ targets)) by set_solver. done.
      * rewrite IH2. cbn [length]. rewrite (List.filter_ext_in (takes ev (<[t := tx']> clients)) (takes ev clients)); [lia|].
        intros c Hc%list_elem_of_In. unfold takes. rewrite lookup_insert_ne by set_solver. done.
    + specialize (IH clients n Hnd) as [IH1 IH2]. split; [|by rewrite IH2].
      intros c. rewrite IH1. destruct (decide (c = t)) as [->|Hne].
      * rewrite bool_decide_eq_false_2 by done. rewrite bool_decide_eq_true_2 by set_solver.
        destruct (clients !! t) as [tx|]; [|done]. cbn in *. unfold offered. by rewrite E.
      * rewrite (bool_decide_ext (c ∈ t :: targets) (c ∈ targets)) by set_solver. done.
Qed.

(** an event is offered to the channel of every connected subscriber of its match
    and to no other channel, whatever the order the subscribers are visited in, and
    [dispatch_event] returns how many took it. *)
Theorem dispatch_exact map ev clients :
  (forall c, fst (dispatch_event send map ev clients) !! c =
     (if bool_decide (c ∈ subscribers_for (match_id ev) map) then offered ev else id)
     <$> clients !! c) /\
  snd (dispatch_event send map ev clients) =
    size (filter (fun c => takes ev clients c = true) (subscribers_for (match_id ev) map)).
Proof.
  unfold dispatch_event. set (subs := subscribers_for _ _).
  destruct (deliver_spec ev (elements subs) clients 0 (NoDup_elements subs)) as [H1 H2]. split.
  - intros c. rewrite H1. by rewrite (bool_decide_ext (c ∈ elements subs) (c ∈ subs)) by apply elem_of_elements.
  - rewrite H2. cbn [Nat.add].
    unfold size, set_size. cbn. apply Permutation_length.
    apply NoDup_Permutation.
    + apply NoDup_ListNoDup, List.NoDup_filter, NoDup_ListNoDup, NoDup_elements.
    + apply NoDup_elements.
    + intros c. rewrite elem_of_elements, elem_of_filter.
      rewrite list_elem_of_In, List.filter_In, <- list_elem_of_In, elem_of_elements. tauto.
Qed.
End Delivery.

(** ** Overlapping operations on the two maps *)

Section Overlap.
Import TwoMaps.
Abbreviation Op := (ClientOp string string).
Implicit Types (op a b : Op) (s : SubscriptionMap).

(** What an operation does under its first lock (with the matches it takes along) and
    under its second. *)
Definition first op s : gset string * SubscriptionMap :=
  match op with
  | OpSubscribe m c => (∅, subscribe_match m c s)
  | OpUnsubscribe m c => (∅, unsubscribe_match m c s)
  | OpDisconnect c => take_client c s
  end.
Definition second op (taken : gset string) s : SubscriptionMap :=
  match op with
  | OpSubscribe m c => subscribe_client m c s
  | OpUnsubscribe m c => unsubscribe_client m c s
  | OpDisconnect c => purge c taken s
  end.
Definition whole op s : SubscriptionMap := second op (fst (first op s)) (snd (first op s)).

Lemma whole_eq op s :
  whole op s = match op with
               | OpSubscribe m c => subscribe m c s
               | OpUnsubscribe m c => unsubscribe m c s
               | OpDisconnect c => remove_client c s
               end.
Proof. by destruct op. Qed.

(** Where a task is. *)
Inductive Task := Start | Half (taken : gset string) | Done.

Definition step op (t : Task) s : Task * SubscriptionMap :=
  match t with
  | Start => match first op s with (taken, s) => (Half taken, s) end
  | Half taken => (Done, second op taken s)
  | Done => (Done, s)
  end.

(** Two tasks, scheduled by turns. *)
Fixpoint schedule a b (turns : list bool) (ta tb : Task) s : Task * Task * SubscriptionMap :=
  match turns with
  | [] => (ta, tb, s)
  | true :: rest => match step a ta s with (ta, s) => schedule a b rest ta tb s end
  | false :: rest => match step b tb s with (tb, s) => schedule a b rest ta tb s end
  end.

Definition tables_ok s : Prop := no_empty (by_match s) /\ no_empty (by_client s).

Lemma map_ext s1 s2 :
  tables_ok s1 -> tables_ok s2 ->
  (forall m c, c ∈ members (by_match s1) m <-> c ∈ members (by_match s2) m) ->
  (forall c m, m ∈ members (by_client s1) c <-> m ∈ members (by_client s2) c) -> s1 = s2.
Proof.
  destruct s1, s2. intros [? ?] [? ?] Hm Hc. cbn in *. f_equal; by apply table_ext.
Qed.

Lemma no_empty_delete {K V} `{Countable K, Countable V} k (m : gmap K (gset V)) :
  no_empty m -> no_empty (delete k m).
Proof. apply map_Forall_delete. Qed.

Lemma first_ok op s : tables_ok s -> tables_ok (snd (first op s)).
Proof. intros [? ?]. destruct op; split; cbn; auto using no_empty_delete with members. Qed.

Lemma second_ok op taken s : tables_ok s -> tables_ok (second op taken s).
Proof. intros [? ?]. destruct op; split; cbn; auto using no_empty_purge with members. Qed.

Ltac relations :=
  intros; cbn [by_match by_client fst snd first second take_client purge subscribe_match
    subscribe_client unsubscribe_match unsubscribe_client];
  repeat (rewrite members_insert || rewrite members_remove || rewrite members_purge
          || rewrite members_delete);
  naive_solver.

(** Steps of different clients commute, and neither changes what the other takes. *)
Lemma first_first a b s : op_client a <> op_client b -> tables_ok s ->
  snd (first a (snd (first b s))) = snd (first b (snd (first a s))).
Proof.
  intros Hab Hs. apply map_ext; auto using first_ok;
    destruct a, b; cbn [op_client] in Hab; relations.
Qed.

Lemma first_second a b taken s : op_client a <> op_client b -> tables_ok s ->
  snd (first a (second b taken s)) = second b taken (snd (first a s)).
Proof.
  intros Hab Hs. apply map_ext; auto using first_ok, second_ok;
    destruct a, b; cbn [op_client] in Hab; relations.
Qed.

Lemma second_second a b ta tb s : op_client a <> op_client b -> tables_ok s ->
  second a ta (second b tb s) = second b tb (second a ta s).
Proof.
  intros Hab Hs. apply map_ext; auto using second_ok;
    destruct a, b; cbn [op_client] in Hab; relations.
Qed.

Lemma taken_first a b s : op_client a <> op_client b -> fst (first a (snd (first b s))) = fst (first a s).
Proof.
  intros Hab. destruct a as [m c|m c|c]; [done..|].
  apply set_eq. destruct b; cbn [op_client] in Hab; relations.
Qed.

Lemma taken_second a b taken s : op_client a <> op_client b -> fst (first a (second b taken s)) = fst (first a s).
Proof.
  intros Hab. destruct a as [m c|m c|c]; [done..|].
  apply set_eq. destruct b; cbn [op_client] in Hab; relations.
Qed.

(** How far an operation that started from [s] has come. *)
Definition progress op (t : Task) s : SubscriptionMap :=
  match t with
  | Start => s
  | Half _ => snd (first op s)
  | Done => whole op s
  end.
Definition taken_from op (t : Task) s : Prop :=
  match t with Half taken => taken = fst (first op s) | _ => True end.

Lemma progress_ok op t s : tables_ok s -> tables_ok (progress op t s).
Proof. intros. destruct t; cbn; unfold whole; auto using first_ok, second_ok. Qed.

Section TwoClients.
Context (a b : Op) (Hab : op_client a <> op_client b).

Lemma taken_progress t s : fst (first a (progress b t s)) = fst (first a s).
Proof.
  destruct t; cbn [progress]; [done|by apply taken_first|].
  unfold whole. by rewrite taken_second, taken_first.
Qed.

Lemma first_progress t s : tables_ok s -> snd (first a (progress b t s)) = progress b t (snd (first a s)).
Proof.
  intros Hs. destruct t; cbn [progress]; [done|by apply first_first|]. unfold whole.
  rewrite first_second, first_first by auto using first_ok. by rewrite (taken_first b a) by done.
Qed.

Lemma second_progress k t s : tables_ok s -> second a k (progress b t s) = progress b t (second a k s).
Proof.
  intros Hs. destruct t; cbn [progress]; [done|by rewrite first_second by done|]. unfold whole.
  rewrite second_second by auto using first_ok.
  rewrite (first_second b a) by done. by rewrite (taken_second b a) by done.
Qed.
End TwoClients.

Lemma schedule_progress a b s0 turns : forall ta tb,
  op_client a <> op_client b -> tables_ok s0 -> taken_from a ta s0 -> taken_from b tb s0 ->
  match schedule a b turns ta tb (progress b tb (progress a ta s0)) with
  | (ta', tb', s') => s' = progress b tb' (progress a ta' s0)
  end.
Proof.
  induction turns as [|[] turns IH]; intros ta tb Hab Hs Ha Hb; cbn [schedule]; [done|..].
  - destruct ta as [|k|]; cbn [step].
    + cbn [progress]. destruct (first a (progress b tb s0)) as [k s1] eqn:E.
      assert (Hk : k = fst (first a s0)) by (by rewrite <- (taken_progress a b Hab tb), E).
      assert (Hs1 : s1 = progress b tb (progress a (Half k) s0))
        by (cbn [progress]; rewrite <- (first_progress a b) by done; by rewrite E).
      rewrite Hs1. by apply IH.
    + cbn [progress]. rewrite (second_progress a b) by auto using first_ok. cbn in Ha. subst k.
      change (second a (fst (first a s0)) (snd (first a s0))) with (progress a Done s0).
      by apply IH.
    + by apply IH.
  - set (x := progress a ta s0) in *. assert (Hx : tables_ok x) by (by apply progress_ok).
    assert (Hk : fst (first b x) = fst (first b s0)) by (apply taken_progress; auto).
    destruct tb as [|k|]; cbn [step].
    + cbn [progress]. destruct (first b x) as [k s1] eqn:E. cbn [fst] in Hk.
      assert (Hs1 : s1 = progress b (Half k) x) by (cbn [progress]; by rewrite E).
      rewrite Hs1. by apply IH.
    + cbn [progress]. cbn in Hb. subst k. rewrite <- Hk.
      change (second b (fst (first b x)) (snd (first b x))) with (progress b Done x). by apply IH.
    + by apply IH.
Qed.
End Overlap.

(** C22: operations of two different clients may overlap in any way, each holding its
    two locks one after the other: once both are done the table is as if one had run
    after the other. *)
Theorem clients_do_not_interfere a b s turns s' :
  op_client a <> op_client b -> consistent s ->
  schedule a b turns Start Start s = (Done, Done, s') ->
  s' = whole b (whole a s) /\ consistent s'.
Proof.
  intros Hab Hs Hrun. pose proof Hs as (H1 & H2 & _).
  pose proof (schedule_progress a b s turns Start Start Hab (conj H1 H2) I I) as Hp.
  cbn [progress] in Hp. rewrite Hrun in Hp. cbn [progress] in Hp. split; [done|].
  assert (Hw : forall op s, consistent s -> consistent (whole op s)).
  { intros op s0 Hc. rewrite whole_eq.
    destruct op; auto using subscribe_consistent, unsubscribe_consistent, drop_client_consistent. }
  subst s'. auto.
Qed.

Lemma clients_do_not_interfere_witness :
  let a := OpSubscribe "m1" "alice" in
  let b := OpDisconnect "bob" in
  let s := TwoMaps.subscribe "m1" "bob" TwoMaps.new in
  exists s', schedule a b [true; false; true; false] Start Start s = (Done, Done, s') /\
             s' = whole b (whole a s).
Proof.
  eexists. split; [vm_compute; reflexivity|].
  eapply (clients_do_not_interfere (OpSubscribe "m1" "alice") (OpDisconnect "bob")
    (TwoMaps.subscribe "m1" "bob" TwoMaps.new) [true; false; true; false]).
  - discriminate.
  - apply subscribe_consistent. exact (ss_empty_wf (S:=TwoMaps.SubscriptionMap)).
  - vm_compute. reflexivity.
Defined.

(** operations of one client may not overlap: a withdrawal that is overtaken by a
    new subscription leaves the client in the table of the match and not in its own,
    and its disconnection then does not remove it. *)
Theorem overlap_leaves_dead_client :
  let a := OpUnsubscribe "m" "c" in
  let b := OpSubscribe "m" "c" in
  let s := TwoMaps.subscribe "m" "c" TwoMaps.new in
  match schedule a b [true; false; false; true] Start Start s with
  | (ta, tb, s') =>
      (ta, tb) = (Done, Done) /\
      TwoMaps.subscribers "m" s' = ["c"] /\ TwoMaps.subscriptions "c" s' = [] /\
      TwoMaps.subscribers "m" (TwoMaps.remove_client "c" s') = ["c"]
  end.
Proof. by vm_compute. Qed.

(** ** A connection leaves no trace *)

Section Sockets.
Context (from_str : string -> option Value) (client : Z).

Lemma recv_members msgs : forall (map : Websocket.SubscriptionMap) m c,
  c <> client ->
  c ∈ members (Websocket.recv_task from_str client msgs map) m <-> c ∈ members map m.
Proof.
  induction msgs as [|[text| |] msgs IH]; intros map m c Hc; cbn [Websocket.recv_task];
    [done| |done|by apply IH].
  rewrite IH by done.
  destruct (from_str text ≫= Websocket.client_message) as [[m'|m']|]; [| |done].
  - unfold Websocket.subscribe. rewrite members_insert. naive_solver.
  - unfold Websocket.unsubscribe. rewrite members_remove. naive_solver.
Qed.

Lemma wsmod_recv_members msgs : forall (inner : WsMod.SubscriptionMap) m c,
  c <> client ->
  c ∈ members (WsMod.recv_task from_str client msgs inner) m <-> c ∈ members inner m.
Proof.
  induction msgs as [|[text|] msgs IH]; intros inner m c Hc; cbn [WsMod.recv_task];
    [done| |by apply IH].
  rewrite IH by done.
  destruct (from_str text ≫= WsMod.client_message) as [[m'|m']|]; [| |done].
  - unfold WsMod.subscribe. rewrite members_insert. naive_solver.
  - rewrite wsmod_unsubscribe. naive_solver.
Qed.
End Sockets.

(** whatever a connection sends, once it has been cleaned up the table is the one
    it found without its client: no subscription stays behind, no entry stays empty,
    and the other clients keep theirs.  Both servers clean up in this way. *)
Theorem connection_leaves_no_trace from_str client :
  (forall msgs map, Websocket.handle_socket from_str client msgs map =
                    Websocket.unsubscribe_all client map) /\
  (forall msgs inner, WsMod.handle_socket from_str client msgs inner =
                      WsMod.unsubscribe_all client inner).
Proof.
  split; intros msgs t; apply table_ext; try apply no_empty_retain; intros m c;
    unfold Websocket.handle_socket, WsMod.handle_socket, Websocket.unsubscribe_all,
      WsMod.unsubscribe_all; rewrite !members_retain.
  - split; (intros [Hc Hne]; split; [|done]); by apply (recv_members from_str client msgs).
  - split; (intros [Hc Hne]; split; [|done]); by apply (wsmod_recv_members from_str client msgs).
Qed.

(** A message that is still handled after the clean-up does leave a trace: aborting the
    receiving task does not wait for it. *)
Lemma late_message_leaves_trace :
  let from_str text := Some (VObject [("type", VString "subscribe"); ("match_id", VString text)]) in
  Websocket.subscribers_for "m"
    (Websocket.recv_task from_str 7 [Websocket.Text "m"]
       (Websocket.handle_socket from_str 7 [] Websocket.new_subscription_map)) = {[7]}.
Proof. by vm_compute. Qed.
