(* ===== verification/ServiceSafety.v ===== *)
(** Invariants of the oracle service's stores that hold at every atomic step of
    every interleaving of its background tasks. *)
From stdpp Require Import base list strings gmap.
From Stdlib Require Import ZArith Lia.
From S2P Require Import Prelude OracleTypes Tasks ServiceTypes ServiceStores ResultCache.
From S2P Require Import Clients Poller.

Local Open Scope Z_scope.

Section Safety.
Context {C W : Type} `{LruCache C} `{Http W} `{Chain W} `{PollerText}.
Context (cfg : PollerConfig).
Notation Svc := (Task (Service C W)).

(** ** Well-formed stores *)

(** A queued entry has retries left: it has not been tried, or fewer than
    [max_retries] times. *)
Definition entry_ok (e : PendingEntry) : Prop :=
  pe_attempts e = 0 \/ 0 < pe_attempts e < max_retries cfg.

Definition queue_ok (l : list PendingEntry) : Prop :=
  NoDup (map pe_match_id l) /\ Forall entry_ok l.

Definition dead_ok (l : list DeadLetterEntry) : Prop :=
  NoDup (map (fun d => pe_match_id (dl_entry d)) l) /\
  Forall (fun d => dl_total_attempts d = pe_attempts (dl_entry d) /\
                   max_retries cfg <= dl_total_attempts d) l.

Definition file_ok {A} (P : A -> Prop) (f : File A) : Prop :=
  match f with Holds a => P a | _ => True end.

Definition stores_ok (s : Service C W) : Prop :=
  file_ok queue_ok (pending_file s) /\ file_ok dead_ok (dead_letter_file s).

(** ** The list operations keep well-formedness *)

Lemma existsb_has_id id l :
  existsb (has_id id) l = false -> id ∉ map pe_match_id l.
Proof.
  intros Hf (e & He & Hin)%list_elem_of_fmap. apply not_true_iff_false in Hf. apply Hf.
  apply existsb_exists. exists e. split; [by apply list_elem_of_In|].
  apply Z.eqb_eq. done.
Qed.

Lemma existsb_dl_has_id id l :
  existsb (dl_has_id id) l = false -> id ∉ map (fun d => pe_match_id (dl_entry d)) l.
Proof.
  intros Hf (e & He & Hin)%list_elem_of_fmap. apply not_true_iff_false in Hf. apply Hf.
  apply existsb_exists. exists e. split; [by apply list_elem_of_In|].
  apply Z.eqb_eq. done.
Qed.

Lemma NoDup_map_snoc {A B} (f : A -> B) l x :
  NoDup (map f l) -> f x ∉ map f l -> NoDup (map f (l ++ [x])).
Proof.
  intros Hl Hx. rewrite map_app. apply NoDup_app. split_and!; [done| |apply NoDup_singleton].
  intros y Hy ->%list_elem_of_singleton. done.
Qed.

Lemma NoDup_map_filter {A B} (f : A -> B) p l :
  NoDup (map f l) -> NoDup (map f (List.filter p l)).
Proof.
  induction l as [|x l IH]; cbn; [done|]. intros [Hx Hl]%NoDup_cons.
  destruct (p x); cbn; [|by apply IH]. apply NoDup_cons. split; [|by apply IH].
  intros (y & He & Hy)%list_elem_of_fmap. apply Hx. rewrite He. apply list_elem_of_fmap_2.
  apply list_elem_of_In in Hy. apply filter_In in Hy as [? _]. by apply list_elem_of_In.
Qed.

Lemma Forall_list_filter {A} (P : A -> Prop) p l : Forall P l -> Forall P (List.filter p l).
Proof. induction 1; cbn; [done|]. case_match; [by constructor|done]. Qed.

Lemma replace_first_ids e l : map pe_match_id (replace_first e l) = map pe_match_id l.
Proof.
  induction l as [|x l IH]; cbn; [done|]. unfold has_id. destruct (_ =? _) eqn:E; cbn.
  - zbool. by rewrite E.
  - by rewrite IH.
Qed.

Lemma replace_first_Forall (P : PendingEntry -> Prop) e l :
  P e -> Forall P l -> Forall P (replace_first e l).
Proof. intros He. induction 1; cbn; [done|]. case_match; by constructor. Qed.

(** ** The primitives *)

Notation always := (fun _ => True).
Definition on_ok {E A} (Q : A -> Prop) (r : E + A) : Prop :=
  match r with inl _ => True | inr a => Q a end.

Lemma os_call_stores (s : Service C W) :
  pending_file (fst (os_call s)) = pending_file s /\
  dead_letter_file (fst (os_call s)) = dead_letter_file s.
Proof. unfold os_call. by destruct (faults s). Qed.

Lemma tick_clock_stores (s : Service C W) :
  pending_file (fst (tick_clock s)) = pending_file s /\
  dead_letter_file (fst (tick_clock s)) = dead_letter_file s.
Proof. unfold tick_clock. by destruct (elapsed s). Qed.

(** An action that does not touch the two stores keeps the invariant. *)
Lemma safe_frame {A} (f : Service C W -> Service C W * A) :
  (forall s, pending_file (fst (f s)) = pending_file s /\
             dead_letter_file (fst (f s)) = dead_letter_file s) ->
  safe stores_ok always (atomic f).
Proof.
  intros Hf. apply safe_atomic. intros s Hs. split; [|done].
  unfold stores_ok. destruct (Hf s) as [-> ->]. done.
Qed.

Lemma safe_now : safe stores_ok always (now (C := C) (W := W)).
Proof. apply safe_frame, tick_clock_stores. Qed.

Lemma safe_update f :
  (forall s : Service C W, pending_file (f s) = pending_file s /\
             dead_letter_file (f s) = dead_letter_file s) ->
  safe stores_ok always (update f).
Proof. intros Hf. by apply safe_frame. Qed.

Lemma safe_remote {A} (call : W -> W * A) :
  safe stores_ok always (remote (C := C) call).
Proof. apply safe_frame. intros s. by destruct (call (net s)). Qed.

Lemma safe_os_step : safe stores_ok always (os_step (C := C) (W := W)).
Proof.
  apply safe_frame. intros s. pose proof (os_call_stores s).
  destruct (os_call s) as [s' [msg|]]; done.
Qed.

Lemma safe_rename put :
  (forall s : Service C W, stores_ok s -> stores_ok (put s)) ->
  safe stores_ok always (rename_into put).
Proof.
  intros Hput. apply safe_atomic. intros s Hs. split; [|done].
  assert (Hs' : stores_ok (fst (os_call s)))
    by (unfold stores_ok; destruct (os_call_stores s) as [-> ->]; done).
  destruct (os_call s) as [s' [msg|]]; cbn; [done|by apply Hput].
Qed.

Lemma safe_ok_always {A} (t : Svc (result A)) : safe stores_ok always t ->
  safe stores_ok (on_ok always) t.
Proof. intros Ht. eapply safe_weaken; [done|]. by intros [?|?] _. Qed.

Lemma safe_save put :
  (forall s : Service C W, stores_ok s -> stores_ok (put s)) ->
  safe stores_ok always (save_with put).
Proof.
  intros Hput. unfold save_with.
  eapply (safe_tbind_ok _ always); [apply safe_ok_always, safe_os_step|done|]. intros _ _.
  eapply (safe_tbind_ok _ always); [apply safe_ok_always, safe_os_step|done|]. intros _ _.
  by apply safe_rename.
Qed.

(** Reading a file yields a well-formed value when the invariant covers it. *)
Lemma safe_read {A} (file : Service C W -> File A) (P : A -> Prop) :
  (forall s, stores_ok s -> file_ok P (file s)) ->
  safe stores_ok (on_ok (fun f => match f with Some (Holds a) => P a | _ => True end))
    (read_file file).
Proof.
  intros HP. apply safe_atomic. intros s Hs. specialize (HP s Hs).
  assert (Hs' : stores_ok (fst (os_call s)))
    by (unfold stores_ok; destruct (os_call_stores s) as [-> ->]; done).
  destruct (file s) eqn:Hf; cbn in *; [done|..]; destruct (os_call s) as [s' [msg|]]; done.
Qed.

(** ** The stores *)

Lemma safe_queue_load : safe stores_ok (on_ok queue_ok) (queue_load (C := C) (W := W)).
Proof.
  unfold queue_load. eapply safe_tbind_ok; [apply (safe_read _ queue_ok); by intros s []|done|].
  intros [[| |l|]|] Hf; constructor; cbn; try done. split; constructor.
Qed.

Lemma safe_queue_save l : queue_ok l -> safe stores_ok always (queue_save (C := C) (W := W) l).
Proof. intros Hl. apply safe_save. by intros s []. Qed.

Lemma safe_dead_load :
  safe stores_ok (on_ok dead_ok) (dead_letter_load (C := C) (W := W)).
Proof.
  unfold dead_letter_load.
  eapply safe_tbind_ok; [apply (safe_read _ dead_ok); by intros s []|done|].
  intros [[| |l|]|] Hf; constructor; cbn; try done. split; constructor.
Qed.

Lemma safe_dead_save l :
  dead_ok l -> safe stores_ok always (dead_letter_save (C := C) (W := W) l).
Proof. intros Hl. apply safe_save. by intros s []. Qed.

Lemma safe_any {A} (Q : A -> Prop) (t : Svc A) : safe stores_ok Q t -> safe stores_ok always t.
Proof. intros Ht. by eapply safe_weaken. Qed.

Lemma safe_logged {A} (t : Svc (result A)) :
  safe stores_ok always t -> safe stores_ok always (logged t).
Proof. intros Ht. eapply safe_tbind; [done|]. intros. by constructor. Qed.

(** One step of [safe] through the structure of a task. *)
Ltac safe_step :=
  lazymatch goal with
  | |- safe _ _ (Return _) => by constructor
  | |- safe _ _ (logged _) => apply safe_logged
  | |- safe _ _ (tbind_ok _ _) =>
      eapply (safe_tbind_ok _ always); [apply safe_ok_always|done|intros ? _]
  | |- safe _ _ (tbind now _) => eapply safe_tbind; [apply safe_now|intros ? _]
  | |- safe _ _ (tbind _ _) => eapply (safe_tbind _ always); [|intros ? _]
  | |- safe _ _ now => apply safe_now
  | |- safe _ _ (remote _) => apply safe_remote
  | |- safe _ _ os_step => apply safe_os_step
  | |- safe _ _ (update _) => apply safe_update; done
  | |- safe _ _ (tfor _ _) => apply safe_tfor; intros ? ?
  | |- safe _ _ (twhile _ _) => apply safe_twhile; intros ? ?
  | |- safe _ _ (match ?x with _ => _ end) => destruct x
  end.
Ltac safe_steps := repeat (cbv zeta; safe_step).

Lemma queue_ok_snoc l t id g p :
  queue_ok l -> existsb (has_id id) l = false -> queue_ok (l ++ [Pending.new t id g p]).
Proof.
  intros [Hnd Hall] Hnew%existsb_has_id. split; [by apply NoDup_map_snoc|].
  apply Forall_app. split; [done|]. constructor; [by left|done].
Qed.

Lemma safe_enqueue id g p :
  safe stores_ok always (queue_enqueue (C := C) (W := W) id g p).
Proof.
  unfold queue_enqueue. eapply safe_tbind_ok; [apply safe_queue_load|done|]. intros l Hl.
  destruct (existsb (has_id id) l) eqn:E; [by constructor|]. safe_steps.
  by apply safe_queue_save, queue_ok_snoc.
Qed.

Lemma safe_remove id : safe stores_ok always (queue_remove (C := C) (W := W) id).
Proof.
  unfold queue_remove. eapply safe_tbind_ok; [apply safe_queue_load|done|]. intros l [Hnd Hl].
  apply safe_queue_save. split; [by apply NoDup_map_filter|by apply Forall_list_filter].
Qed.

Lemma safe_update_entry e :
  entry_ok e -> safe stores_ok always (queue_update_entry (C := C) (W := W) e).
Proof.
  intros He. unfold queue_update_entry. eapply safe_tbind_ok; [apply safe_queue_load|done|].
  intros l [Hnd Hl]. safe_steps. apply safe_queue_save.
  split; [by rewrite replace_first_ids|by apply replace_first_Forall].
Qed.

Lemma safe_due_entries :
  safe stores_ok (on_ok (Forall entry_ok)) (queue_due_entries (C := C) (W := W)).
Proof.
  unfold queue_due_entries. eapply safe_tbind_ok; [apply safe_queue_load|done|].
  intros l [_ Hl]. eapply safe_tbind; [apply (safe_tfilter _ entry_ok); [|done]|].
  - intros e. unfold entry_due. safe_steps.
  - intros r Hr. by constructor.
Qed.

Lemma safe_push e :
  max_retries cfg <= pe_attempts e ->
  safe stores_ok always (dead_letter_push (C := C) (W := W) e).
Proof.
  intros He. unfold dead_letter_push. eapply safe_tbind; [apply safe_now|]. intros t _.
  cbv zeta. eapply safe_tbind_ok; [apply safe_dead_load|done|]. intros l [Hnd Hl].
  destruct (existsb _ l) eqn:E; [by constructor|]. unfold set_dead_letter_count.
  safe_steps. apply safe_dead_save. apply existsb_dl_has_id in E.
  split; [by apply NoDup_map_snoc|]. apply Forall_app. split; [done|].
  by repeat constructor.
Qed.

Lemma safe_dead_remove id : safe stores_ok always (dead_letter_remove (C := C) (W := W) id).
Proof.
  unfold dead_letter_remove. eapply safe_tbind_ok; [apply safe_dead_load|done|].
  intros l [Hnd Hl]. unfold set_dead_letter_count. safe_steps. apply safe_dead_save.
  split; [by apply NoDup_map_filter|by apply Forall_list_filter].
Qed.

Lemma safe_append r : safe stores_ok always (submissions_append (C := C) (W := W) r).
Proof.
  unfold submissions_append. eapply safe_tbind; [|intros loaded _].
  - apply safe_any with (Q := on_ok always). unfold submissions_load.
    eapply safe_tbind_ok; [apply (safe_read _ always)|done|]; [by intros s _; destruct (submissions_file s)|].
    intros f _. constructor. by destruct f as [[]|].
  - cbv zeta. safe_steps. apply safe_rename. by intros s [].
Qed.

(** ** The pipeline *)

Lemma safe_exhaust e : max_retries cfg <= pe_attempts e ->
  safe stores_ok always (exhaust_entry (C := C) (W := W) e).
Proof. intros He. unfold exhaust_entry. safe_steps; [by apply safe_push|apply safe_remove]. Qed.

Lemma safe_transient e reason :
  entry_ok e -> safe stores_ok always (handle_transient cfg (C := C) (W := W) e reason).
Proof.
  intros He. unfold handle_transient. eapply (safe_tbind _ always); [safe_steps|]. intros t _.
  destruct (Pending.record_failure_spec t reason (retry_base_delay_secs cfg) (max_retries cfg) e)
    as (_ & _ & _ & Ha & _ & Hx & _).
  destruct (Pending.record_failure _ _ _ _ _) as [e' x]; cbn [fst snd] in *. subst x.
  destruct (max_retries cfg <=? _) eqn:E; zbool.
  - apply safe_exhaust. lia.
  - safe_steps. apply safe_update_entry. right. destruct He as [He|He]; lia.
Qed.

Lemma safe_exhausted e reason :
  safe stores_ok always (exhaust_entry (C := C) (W := W) (exhausted_with cfg e reason)).
Proof. apply safe_exhaust. cbn. lia. Qed.

Lemma safe_submit e w :
  entry_ok e -> safe stores_ok always (submit_and_complete cfg e w).
Proof.
  intros He. unfold submit_and_complete, set_queue_depth. safe_steps.
  - by apply safe_transient.
  - apply safe_remove.
  - eapply safe_any, safe_queue_load.
  - apply safe_append.
Qed.

Lemma safe_cache_get p g : safe stores_ok always (cache_get (C := C) (W := W) p g).
Proof.
  apply safe_frame. intros s. destruct (lru_peek _ _); [|done].
  pose proof (tick_clock_stores s). destruct (tick_clock s) as [s' t]. cbn in *.
  by destruct (lookup_result _ _ _).
Qed.

Lemma safe_outcome e r :
  entry_ok e -> safe stores_ok always (handle_fetch_outcome cfg e r).
Proof.
  intros He. unfold handle_fetch_outcome, cache_insert. safe_steps.
  - apply safe_exhausted.
  - by apply safe_transient.
  - by apply safe_submit.
Qed.

Lemma safe_chess_request fuel g n a :
  safe stores_ok always (chess_com_request (C := C) (W := W) fuel g n a).
Proof.
  revert n a. induction fuel as [|fuel IH]; intros n a; cbn [chess_com_request]; [by constructor|].
  eapply (safe_tbind _ always).
  - apply safe_frame. intros s. by destruct (chess_com_game _ _ _).
  - intros sent _. unfold reload_api_key, sleep. safe_steps; apply IH.
Qed.

Lemma safe_fetch p g : safe stores_ok always (fetch_outcome (C := C) (W := W) p g).
Proof.
  unfold fetch_outcome, lichess_fetch_result, chess_com_fetch_result. safe_steps.
  apply safe_chess_request.
Qed.

Lemma safe_back_off p d : safe stores_ok always (back_off (C := C) (W := W) p d).
Proof. unfold back_off. safe_steps. Qed.

Lemma safe_skip p : safe stores_ok always (skip_if_backing_off (C := C) (W := W) p).
Proof.
  apply safe_frame. intros s. destruct (backoff_lookup _ _); [|done].
  pose proof (tick_clock_stores s). destruct (tick_clock s) as [s' t]. by destruct (t <=? _).
Qed.

Lemma safe_process e : entry_ok e -> safe stores_ok always (process_entry cfg e).
Proof.
  intros He. unfold process_entry. safe_steps.
  - apply safe_exhausted.
  - apply safe_cache_get.
  - by apply safe_submit.
  - apply safe_fetch.
  - apply safe_back_off.
  - by apply safe_outcome.
Qed.

Lemma safe_process_unless_paused p e :
  entry_ok e -> safe stores_ok always (process_unless_paused cfg p e).
Proof.
  intros He. unfold process_unless_paused. safe_steps; [apply safe_skip|by apply safe_process].
Qed.

Lemma safe_prepare l :
  Forall entry_ok l -> safe stores_ok (Forall entry_ok) (prepare_batch cfg l).
Proof.
  induction 1 as [|e l He Hl IH]; cbn [prepare_batch]; [by constructor|].
  destruct (validate_game_id _ _).
  - eapply safe_tbind; [apply safe_exhausted|]. by intros.
  - eapply safe_tbind; [apply safe_cache_get|]. intros [w|] _.
    + eapply safe_tbind; [by apply safe_submit|]. by intros.
    + eapply safe_tbind; [exact IH|]. intros r Hr. constructor. by constructor.
Qed.

Lemma safe_batch_fetch ids :
  safe stores_ok always (lichess_fetch_results_batch (C := C) (W := W) ids).
Proof.
  unfold lichess_fetch_results_batch. destruct (split_valid ids ∅ []) as [r v].
  generalize (chunks LICHESS_BATCH_MAX_IDS v) as cs. intros cs. revert r.
  induction cs as [|c cs IH]; intros r; cbn [fetch_chunks]; [by constructor|].
  eapply (safe_tbind_ok _ always); [|done|].
  - unfold export_games. eapply safe_tbind; [apply safe_remote|]. intros sent _. constructor.
    by case_match.
  - intros lines _. destruct (index_games lines ∅); [by constructor|apply IH].
Qed.

Lemma safe_lichess_batch l :
  Forall entry_ok l -> safe stores_ok always (process_lichess_batch cfg l).
Proof.
  intros Hl. unfold process_lichess_batch. eapply safe_tbind; [apply safe_skip|].
  intros [] _; [by constructor|]. eapply safe_tbind; [by apply safe_prepare|].
  intros pending Hp. rewrite Forall_forall in Hp. destruct pending as [|e0 pending]; [by constructor|].
  eapply safe_tbind; [apply safe_batch_fetch|]. intros [e|results] _.
  - unfold batch_failed. cbv zeta. safe_steps;
      auto using safe_transient, safe_back_off, safe_process_unless_paused.
  - safe_steps. by apply safe_outcome, Hp.
Qed.

Lemma safe_tick : safe stores_ok always (tick cfg (C := C) (W := W)).
Proof.
  unfold tick. eapply safe_tbind_ok; [apply safe_due_entries|done|]. intros due Hd.
  unfold set_queue_depth.
  eapply (safe_tbind_ok _ always); [eapply safe_ok_always, safe_any, safe_queue_load|done|].
  intros all _. eapply safe_tbind; [by apply safe_update|]. intros _ _.
  assert (Hf : forall p, Forall entry_ok (List.filter p due))
    by (intros; by apply Forall_list_filter).
  destruct due as [|e0 due]; [by constructor|]. cbv zeta.
  eapply (safe_tbind _ always).
  - destruct (List.filter _ _) eqn:E; [by constructor|]. rewrite <-E. apply safe_lichess_batch, Hf.
  - intros _ _. safe_steps. apply safe_process_unless_paused.
    by eapply Forall_forall; [apply Hf|].
Qed.

Lemma safe_chess_entries l n :
  Forall entry_ok l -> safe stores_ok always (chess_com_entries cfg l n).
Proof.
  intros Hl. revert n. induction Hl as [|e l He Hl IH]; intros n; cbn [chess_com_entries];
    [by constructor|].
  eapply safe_tbind; [by apply safe_process_unless_paused|]. intros [] _; [apply IH|by constructor].
Qed.

Lemma safe_tick_chess_com : safe stores_ok always (tick_chess_com cfg (C := C) (W := W)).
Proof.
  unfold tick_chess_com. eapply safe_tbind_ok; [apply safe_due_entries|done|]. intros due Hd.
  safe_steps. by apply safe_chess_entries, Forall_list_filter.
Qed.

Lemma safe_poller_enqueue id g p :
  safe stores_ok always (poller_enqueue (C := C) (W := W) id g p).
Proof.
  unfold poller_enqueue, set_queue_depth. safe_steps; [apply safe_enqueue|].
  eapply safe_any, safe_queue_load.
Qed.

Lemma safe_reconcile_pages fuel dead offset :
  safe stores_ok always (reconcile_pages (C := C) (W := W) fuel dead offset).
Proof.
  revert offset. induction fuel as [|fuel IH]; intros offset; cbn [reconcile_pages];
    [by constructor|].
  safe_steps.
  - unfold reconcile_match. safe_steps. apply safe_enqueue.
  - apply safe_save. by intros s [].
  - apply IH.
Qed.

Lemma safe_reconcile fuel : safe stores_ok always (reconcile (C := C) (W := W) fuel).
Proof.
  unfold reconcile. safe_steps.
  - eapply safe_any, safe_dead_load.
  - unfold cursor_load. eapply (safe_tbind _ always); [|intros; by constructor].
    eapply safe_any, (safe_read _ always). intros s _. by destruct (cursor_file s).
  - apply safe_reconcile_pages.
  - apply safe_frame. intros s. destruct (cursor_file s); [done|..];
      pose proof (os_call_stores s); destruct (os_call s) as [s' [?|]]; done.
Qed.

Lemma safe_replay dry max : safe stores_ok always (replay_all (C := C) (W := W) dry max).
Proof.
  unfold replay_all. safe_steps; [eapply safe_any, safe_dead_load|].
  match goal with |- safe _ _ (replay_entries _ _ ?x) => generalize x as l end.
  induction l as [|d l IH]; cbn [replay_entries]; [by constructor|].
  unfold replay_entry. safe_steps; try done; [apply safe_enqueue|apply safe_dead_remove].
Qed.

(** ** The service's background tasks *)

(** The tasks the service and its tools run on the stores: the two polling loops'
    ticks, a reconciliation cycle, an external enqueue, and a replay. *)
Inductive Job :=
  | JTick
  | JTickChessCom
  | JReconcile (fuel : nat)
  | JEnqueue (match_id : Z) (game_id : string) (platform : Platform)
  | JReplay (dry_run : bool) (max : option Z).

Definition job_task (j : Job) : Svc unit :=
  match j with
  | JTick => logged (tick cfg)
  | JTickChessCom => logged (tick_chess_com cfg)
  | JReconcile fuel => logged (reconcile fuel)
  | JEnqueue id g p => logged (poller_enqueue id g p)
  | JReplay dry max => tbind (replay_all dry max) (fun _ => Return tt)
  end.

Lemma safe_job j : safe stores_ok always (job_task j).
Proof.
  destruct j; cbn [job_task]; safe_steps; auto using safe_tick, safe_tick_chess_com,
    safe_reconcile, safe_poller_enqueue, safe_replay.
Qed.


End Safety.
