(* ===== verification/ServiceProgress.v ===== *)
(** Progress of the oracle service's pipeline: run alone on a working disk, a tick
    attempts every due entry once, and every queued match ends up submitted or
    dead-lettered. *)
From stdpp Require Import base list strings gmap.
From Stdlib Require Import ZArith Lia.
From S2P Require Import Prelude Text OracleTypes Tasks ServiceTypes ServiceStores ResultCache.
From S2P Require Import Clients Poller ServiceSafety.

Local Open Scope Z_scope.

(** The platforms do not answer 429: the one answer that defers an entry without
    charging it an attempt. *)
Class Unthrottled (W : Type) `{Http W} : Prop := {
  lichess_game_unthrottled g w resp :
    snd (lichess_game_export g w) = inr resp -> status resp <> TOO_MANY_REQUESTS;
  lichess_ids_unthrottled ids w resp :
    snd (lichess_export_ids ids w) = inr resp -> status resp <> TOO_MANY_REQUESTS;
  chess_com_unthrottled k g w resp :
    snd (chess_com_game k g w) = inr resp -> status resp <> TOO_MANY_REQUESTS
}.

Section Progress.
Context {C W : Type} `{LruCache C} `{Http W} `{Chain W} `{PollerText} `{!Unthrottled W}.
Context (cfg : PollerConfig).
Notation Svc := (Task (Service C W)).
Implicit Types s : Service C W.

(** ** What can be observed of the stores *)

Definition contents {A} (f : File (list A)) : list A :=
  match f with Holds l => l | _ => [] end.
Definition readable {A} (f : File A) : Prop :=
  match f with Missing | Holds _ => True | _ => False end.

Definition queue_of s : list PendingEntry := contents (pending_file s).
Definition dead_ids s : list Z :=
  map (fun d => pe_match_id (dl_entry d)) (contents (dead_letter_file s)).
Definition submitted_ids s : list Z := map sr_match_id (contents (submissions_file s)).

(** The disk works and no platform is paused. *)
Definition calm s : Prop :=
  faults s = [] /\ readable (pending_file s) /\ readable (dead_letter_file s) /\
  readable (submissions_file s) /\ backoff_until s = [].

(** What every step of the pipeline keeps: the clock does not go back, and nothing
    leaves the dead-letter store or the log. *)
Definition grows s s' : Prop :=
  (calm s -> calm s') /\ clock s <= clock s' /\
  (calm s -> dead_ids s ⊆ dead_ids s' /\ submitted_ids s ⊆ submitted_ids s').

(** Steps that leave the stores alone. *)
Definition quiet s s' : Prop :=
  faults s' = faults s /\ pending_file s' = pending_file s /\
  dead_letter_file s' = dead_letter_file s /\ submissions_file s' = submissions_file s /\
  backoff_until s' = backoff_until s /\ clock s <= clock s'.

Ltac solve_quiet := split_and!; cbn; solve [done | lia | congruence].

#[local] Instance quiet_preorder : PreOrder quiet.
Proof.
  split; unfold quiet; [intros s; split_and!; try done; lia|].
  intros s1 s2 s3 (?&?&?&?&?&?) (?&?&?&?&?&?). split_and!; try congruence. lia.
Qed.

#[local] Instance grows_preorder : PreOrder grows.
Proof.
  split; unfold grows; [intros s; split_and!; try done; lia|].
  intros s1 s2 s3 (H12 & Hc1 & Hs1) (H23 & Hc2 & Hs2). split_and!; [auto|lia|].
  intros Hs. destruct (Hs1 Hs) as [? ?]. destruct (Hs2 (H12 Hs)) as [? ?].
  split; by etrans.
Qed.

Lemma quiet_calm s s' : quiet s s' -> calm s -> calm s'.
Proof. intros (Hf&Hp&Hd&Hs&Hb&_). unfold calm. by rewrite Hf, Hp, Hd, Hs, Hb. Qed.

Lemma quiet_queue s s' : quiet s s' -> queue_of s' = queue_of s.
Proof. intros (_&Hp&_). unfold queue_of. by rewrite Hp. Qed.

Lemma quiet_grows s s' : quiet s s' -> grows s s'.
Proof.
  intros Hq. split_and!; [by apply quiet_calm|apply Hq|]. intros _.
  destruct Hq as (_&_&Hd&Hs&_). unfold dead_ids, submitted_ids. by rewrite Hd, Hs.
Qed.

(** ** Quiet tasks *)

Lemma tick_clock_quiet s : quiet s (fst (tick_clock s)).
Proof.
  unfold tick_clock. destruct (elapsed s); cbn; [reflexivity|]. solve_quiet.
Qed.

Lemma quiet_now : within quiet (now (C := C) (W := W)).
Proof. apply within_atomic. apply tick_clock_quiet. Qed.

Lemma quiet_remote {A} (call : W -> W * A) : within quiet (remote (C := C) call).
Proof.
  apply within_atomic. intros s. destruct (call (net s)); solve_quiet.
Qed.

Lemma quiet_update f :
  (forall s, quiet s (f s)) -> within quiet (update (C := C) (W := W) f).
Proof. intros Hf. by apply within_atomic. Qed.

Lemma quiet_depth n : within quiet (set_queue_depth (C := C) (W := W) n).
Proof. apply quiet_update. intros s. solve_quiet. Qed.

Lemma quiet_count n : within quiet (set_dead_letter_count (C := C) (W := W) n).
Proof. apply quiet_update. intros s. solve_quiet. Qed.

Lemma quiet_cache_get p g : within quiet (cache_get (C := C) (W := W) p g).
Proof.
  apply within_atomic. intros s. destruct (lru_peek _ _); [|reflexivity].
  pose proof (tick_clock_quiet s) as Hq. destruct (tick_clock s) as [s' t]. cbn in *.
  destruct (lookup_result _ _ _); cbn. etrans; [exact Hq|]. solve_quiet.
Qed.

Lemma quiet_cache_insert p g w : within quiet (cache_insert (C := C) (W := W) p g w).
Proof.
  apply within_tbind; [apply _|apply quiet_now|]. intros t. apply quiet_update.
  intros s. solve_quiet.
Qed.

Lemma chess_com_pause_nonneg {A} (resp : Response A) n : 0 <= chess_com_pause resp n.
Proof.
  unfold chess_com_pause, INITIAL_BACKOFF, second.
  destruct (retry_after_header resp) as [h|]; cbn; [|nia].
  destruct (parse_u64 h) eqn:E; cbn; [apply parse_uint_range in E; [lia|done]|nia].
Qed.

Lemma quiet_chess_request fuel g n a :
  within quiet (chess_com_request (C := C) (W := W) fuel g n a).
Proof.
  revert n a. induction fuel as [|fuel IH]; intros n a; cbn [chess_com_request];
    [apply within_return; apply _|].
  apply within_tbind; [apply _| |].
  - apply within_atomic. intros s. destruct (chess_com_game _ _ _). solve_quiet.
  - intros [e|resp]; [apply within_return; apply _|]. case_match; [|case_match].
    + apply within_tbind; [apply _| |intros; apply IH]. apply quiet_update.
      intros s. solve_quiet.
    + apply within_return. apply _.
    + apply within_tbind; [apply _| |intros; apply IH]. apply quiet_update. intros s.
      pose proof (chess_com_pause_nonneg resp n). solve_quiet.
Qed.

Lemma quiet_fetch p g : within quiet (fetch_outcome (C := C) (W := W) p g).
Proof.
  destruct p; cbn [fetch_outcome].
  - apply within_tbind; [apply _| |intros; apply within_return; apply _].
    unfold lichess_fetch_result. case_match; [apply within_return; apply _|].
    apply within_tbind; [apply _|apply quiet_remote|intros; apply within_return; apply _].
  - apply within_tbind; [apply _| |intros; apply within_return; apply _].
    unfold chess_com_fetch_result. case_match; [apply within_return; apply _|].
    apply within_tbind; [apply _|apply quiet_chess_request|intros; apply within_return; apply _].
Qed.

Lemma quiet_batch_fetch ids :
  within quiet (lichess_fetch_results_batch (C := C) (W := W) ids).
Proof.
  unfold lichess_fetch_results_batch. destruct (split_valid ids ∅ []) as [r v].
  generalize (chunks LICHESS_BATCH_MAX_IDS v) as cs. intros cs. revert r.
  induction cs as [|c cs IH]; intros r; cbn [fetch_chunks]; [apply within_return; apply _|].
  apply within_tbind_ok; [apply _| |].
  - apply within_tbind; [apply _|apply quiet_remote|intros; apply within_return; apply _].
  - intros lines. destruct (index_games lines ∅); [apply within_return; apply _|apply IH].
Qed.

(** ** The stores on a working disk *)

Lemma os_call_calm s : faults s = [] -> os_call s = (s, None).
Proof. intros Hf. unfold os_call. by rewrite Hf. Qed.

Lemma save_calm put s :
  faults s = [] -> exec (save_with put) s = put s /\ value (save_with put) s = inr tt.
Proof.
  intros Hf.
  assert (Ho : exec (os_step (C := C) (W := W)) s = s /\
               value (os_step (C := C) (W := W)) s = inr tt)
    by (unfold os_step; rewrite exec_atomic, value_atomic, os_call_calm by done; done).
  destruct Ho as [Ho Hv]. unfold save_with.
  rewrite (exec_tbind_ok _ _ _ _ Hv), (value_tbind_ok _ _ _ _ Hv), Ho.
  rewrite (exec_tbind_ok _ _ _ _ Hv), (value_tbind_ok _ _ _ _ Hv), Ho.
  unfold rename_into. rewrite exec_atomic, value_atomic, os_call_calm by done. done.
Qed.

Lemma read_calm {A} (file : Service C W -> File A) s :
  faults s = [] -> readable (file s) ->
  exec (read_file file) s = s /\
  value (read_file file) s =
    inr (match file s with Missing => None | f => Some f end).
Proof.
  intros Hf Hr. unfold read_file. rewrite exec_atomic, value_atomic.
  destruct (file s); cbn in *; try done. by rewrite os_call_calm.
Qed.

Lemma queue_load_ready s :
  faults s = [] -> readable (pending_file s) ->
  exec queue_load s = s /\ value queue_load s = inr (queue_of s).
Proof.
  intros Hf Hr. destruct (read_calm pending_file s Hf Hr) as [Hx Hv].
  unfold queue_load. rewrite (exec_tbind_ok _ _ _ _ Hv), (value_tbind_ok _ _ _ _ Hv), Hx.
  unfold queue_of, exec, value. cbn. by destruct (pending_file s).
Qed.

Lemma queue_load_calm s :
  calm s -> exec queue_load s = s /\ value queue_load s = inr (queue_of s).
Proof. intros (Hf & Hr & _). by apply queue_load_ready. Qed.

Lemma dead_load_calm s :
  calm s -> exec dead_letter_load s = s /\
  value dead_letter_load s = inr (contents (dead_letter_file s)).
Proof.
  intros (Hf & _ & Hr & _). destruct (read_calm dead_letter_file s Hf Hr) as [Hx Hv].
  unfold dead_letter_load. rewrite (exec_tbind_ok _ _ _ _ Hv), (value_tbind_ok _ _ _ _ Hv), Hx.
  unfold exec, value. cbn. by destruct (dead_letter_file s).
Qed.

Lemma log_load_calm s :
  calm s -> exec submissions_load s = s /\
  value submissions_load s = inr (contents (submissions_file s)).
Proof.
  intros (Hf & _ & _ & Hr & _). destruct (read_calm submissions_file s Hf Hr) as [Hx Hv].
  unfold submissions_load.
  rewrite (exec_tbind_ok _ _ _ _ Hv), (value_tbind_ok _ _ _ _ Hv), Hx.
  unfold exec, value. cbn. by destruct (submissions_file s).
Qed.

(** The state with another queue. *)
Definition with_queue (l : list PendingEntry) s : Service C W :=
  s <| pending_file := Holds l |>.

Lemma with_queue_calm l s : calm s -> calm (with_queue l s).
Proof. by intros (?&?&?&?&?). Qed.

Lemma remove_ready id s :
  faults s = [] -> readable (pending_file s) ->
  exec (queue_remove id) s = with_queue (without_id id (queue_of s)) s /\
  value (queue_remove id) s = inr tt.
Proof.
  intros Hf Hr. destruct (queue_load_ready s Hf Hr) as [Hx Hv]. unfold queue_remove.
  rewrite (exec_tbind_ok _ _ _ _ Hv), (value_tbind_ok _ _ _ _ Hv), Hx.
  by apply save_calm.
Qed.

Lemma remove_calm id s :
  calm s -> exec (queue_remove id) s = with_queue (without_id id (queue_of s)) s /\
            value (queue_remove id) s = inr tt.
Proof. intros (Hf & Hr & _). by apply remove_ready. Qed.

Lemma replace_first_absent e l :
  existsb (has_id (pe_match_id e)) l = false -> replace_first e l = l.
Proof.
  induction l as [|x l IH]; cbn; [done|]. intros [Hx Hl]%orb_false_iff. rewrite Hx.
  by rewrite IH.
Qed.

Lemma update_calm e s :
  calm s -> exists s', exec (queue_update_entry e) s = s' /\
    queue_of s' = replace_first e (queue_of s) /\
    (s' = s \/ s' = with_queue (replace_first e (queue_of s)) s).
Proof.
  intros Hs. eexists. split; [done|]. destruct (queue_load_calm s Hs) as [Hx Hv].
  unfold queue_update_entry. rewrite (exec_tbind_ok _ _ _ _ Hv), Hx.
  destruct (existsb _ _) eqn:E.
  - unfold queue_save. destruct (save_calm (with_queue (replace_first e (queue_of s))) s) as [Hy _];
      [apply Hs|]. unfold with_queue in *. rewrite Hy. split; [done|by right].
  - rewrite exec_return, replace_first_absent by done. split; [done|by left].
Qed.

Lemma push_calm e s :
  calm s -> let s' := exec (dead_letter_push e) s in
  calm s' /\ clock s <= clock s' /\ queue_of s' = queue_of s /\
  submitted_ids s' = submitted_ids s /\
  dead_ids s ⊆ dead_ids s' /\ pe_match_id e ∈ dead_ids s'.
Proof.
  intros Hs. cbv zeta. unfold dead_letter_push. rewrite exec_tbind.
  pose proof (quiet_now s) as Hq. set (s1 := exec now s) in *.
  pose proof (quiet_calm _ _ Hq Hs) as Hs1. destruct (dead_load_calm s1 Hs1) as [Hx Hv].
  cbv zeta. rewrite (exec_tbind_ok _ _ _ _ Hv), Hx.
  assert (Hd : dead_ids s1 = dead_ids s) by (unfold dead_ids; by rewrite (proj1 (proj2 (proj2 Hq)))).
  assert (Hl : submitted_ids s1 = submitted_ids s)
    by (unfold submitted_ids; by rewrite (proj1 (proj2 (proj2 (proj2 Hq))))).
  assert (Hclk : clock s <= clock s1) by apply Hq.
  rewrite <-(quiet_queue _ _ Hq), <-Hd, <-Hl.
  destruct (existsb _ _) eqn:E; cbn [dl_entry] in E.
  - rewrite exec_return. split_and!; try done.
    apply existsb_exists in E as (d & Hd1 & Hd2). apply Z.eqb_eq in Hd2. rewrite <-Hd2.
    unfold dead_ids. apply list_elem_of_fmap. exists d. split; [done|by apply list_elem_of_In].
  - set (l := contents (dead_letter_file s1) ++ _).
    destruct (save_calm (fun s => s <| dead_letter_file := Holds l |>) s1) as [Hy Hw]; [apply Hs1|].
    unfold dead_letter_save. rewrite (exec_tbind_ok _ _ _ _ Hw), Hy, exec_tbind, exec_return.
    unfold set_dead_letter_count, update. rewrite exec_atomic. cbn.
    destruct Hs1 as (?&?&?&?&?). split_and!; try done.
    + unfold dead_ids, l. cbn. rewrite map_app. set_solver.
    + unfold dead_ids, l. cbn. rewrite map_app. apply elem_of_app. right. by left.
Qed.

Lemma append_calm r s :
  calm s -> let s' := exec (submissions_append r) s in
  calm s' /\ clock s' = clock s /\ queue_of s' = queue_of s /\ dead_ids s' = dead_ids s /\
  submitted_ids s' = submitted_ids s ++ [sr_match_id r].
Proof.
  intros Hs. cbv zeta. unfold submissions_append. rewrite exec_tbind.
  destruct (log_load_calm s Hs) as [-> ->]. cbv zeta.
  assert (Hv : value (os_step (C := C) (W := W)) s = inr tt)
    by (unfold os_step; rewrite value_atomic, os_call_calm by apply Hs; done).
  rewrite (exec_tbind_ok _ _ _ _ Hv). unfold os_step, rename_into. rewrite !exec_atomic.
  rewrite (os_call_calm s) by apply Hs. cbn. rewrite (os_call_calm s) by apply Hs. cbn.
  destruct Hs as (?&?&?&?&?). split_and!; try done.
  unfold submitted_ids. cbn. by rewrite map_app.
Qed.

(** ** One attempt *)

(** What an attempt on entry [e] does on a working disk: it takes the entry out and
    leaves its match dead-lettered or submitted, or puts back the entry with one
    more attempt, due within the hour. *)
Definition attempted (e : PendingEntry) s s' : Prop :=
  calm s -> calm s' /\ grows s s' /\
  ((queue_of s' = without_id (pe_match_id e) (queue_of s) /\
    (pe_match_id e ∈ dead_ids s' \/ pe_match_id e ∈ submitted_ids s')) \/
   (exists e', queue_of s' = replace_first e' (queue_of s) /\
    pe_match_id e' = pe_match_id e /\ pe_attempts e' = pe_attempts e + 1 /\
    pe_attempts e' < max_retries cfg /\
    pe_next_attempt_at e' <= clock s' + 3600 * second)).

Lemma attempted_quiet_l e s1 s2 s3 : quiet s1 s2 -> attempted e s2 s3 -> attempted e s1 s3.
Proof.
  intros Hq Ha Hs. destruct (Ha (quiet_calm _ _ Hq Hs)) as (Hc & Hg & Hcase).
  rewrite (quiet_queue _ _ Hq) in Hcase. split_and!; [done| |done].
  etrans; [by apply quiet_grows|done].
Qed.

(** An attempt after a quiet task. *)
Lemma attempted_after {A B} e (t : Svc A) (k : A -> Svc B) s :
  within quiet t -> (forall a s, attempted e s (exec (k a) s)) ->
  attempted e s (exec (tbind t k) s).
Proof. intros Ht Hk. rewrite exec_tbind. eapply attempted_quiet_l; [apply Ht|apply Hk]. Qed.

Lemma attempted_drop {A} e (t : Svc (result A)) s :
  attempted e s (exec t s) -> attempted e s (exec (logged t) s).
Proof. unfold logged. by rewrite exec_tbind, exec_return. Qed.

Lemma exhaust_attempted e e' s :
  pe_match_id e' = pe_match_id e -> attempted e s (exec (exhaust_entry e') s).
Proof.
  intros Hid Hs. unfold exhaust_entry, logged. rewrite !exec_tbind, !exec_return.
  destruct (push_calm e' s Hs) as (Hc1 & Hclk & Hq & Hl & Hd & Hin).
  set (s1 := exec (dead_letter_push e') s) in *.
  destruct (remove_calm (pe_match_id e') s1 Hc1) as [-> _]. rewrite <-Hid.
  split_and!.
  - by apply with_queue_calm.
  - split_and!; [intros _; by apply with_queue_calm|done|].
    intros _. split; [done|]. change (submitted_ids s ⊆ submitted_ids s1). by rewrite Hl.
  - left. split; [by rewrite <-Hq|]. by left.
Qed.

Context (Hbase : 0 <= retry_base_delay_secs cfg).

Lemma transient_attempted e reason s :
  attempted e s (exec (handle_transient cfg e reason) s).
Proof.
  unfold handle_transient. rewrite exec_tbind.
  set (clk := if max_retries cfg <=? _ then _ else _).
  assert (Hq : quiet s (exec clk s))
    by (subst clk; case_match; [reflexivity|apply quiet_now]).
  assert (Hnow : max_retries cfg <=? pe_attempts e + 1 = false ->
                 value clk s <= clock (exec clk s)).
  { subst clk. intros ->. unfold now. rewrite exec_atomic, value_atomic.
    unfold tick_clock. destruct (elapsed s); cbn; lia. }
  eapply attempted_quiet_l; [exact Hq|]. clear Hq.
  generalize dependent (value clk s). generalize (exec clk s). clear s clk. intros s t Hnow.
  destruct (Pending.record_failure_spec t reason (retry_base_delay_secs cfg) (max_retries cfg) e)
    as (Hid & _ & _ & Ha & _ & Hx & Hn).
  destruct (Pending.record_failure _ _ _ _ _) as [e' x]; cbn [fst snd] in *. subst x.
  destruct (max_retries cfg <=? _) eqn:E; [by apply exhaust_attempted|].
  apply attempted_drop. intros Hs. destruct (update_calm e' s Hs) as (s' & -> & Hq & Hs').
  assert (Hc : calm s' /\ clock s' = clock s /\ dead_ids s' = dead_ids s /\
               submitted_ids s' = submitted_ids s)
    by (destruct Hs' as [-> | ->]; split_and!; try done; by apply with_queue_calm).
  destruct Hc as (Hc & Hclk & Hd & Hl). split_and!; [done| |].
  - split_and!; [done|lia|]. rewrite Hd, Hl. done.
  - right. exists e'. zbool. pose proof (Pending.retry_delay_range
      (retry_base_delay_secs cfg) (pe_attempts e + 1) Hbase).
    specialize (Hn eq_refl). specialize (Hnow eq_refl). unfold second in *.
    split_and!; [done|done|done|lia|]. rewrite Hclk, Hn. lia.
Qed.

Lemma submit_attempted e w s : attempted e s (exec (submit_and_complete cfg e w) s).
Proof.
  unfold submit_and_complete. cbv zeta. apply attempted_after; [apply quiet_remote|].
  clear s. intros [err|tx] s; [apply transient_attempted|].
  intros Hs. rewrite exec_tbind. destruct (remove_calm (pe_match_id e) s Hs) as [-> ->].
  set (s1 := with_queue _ s). assert (Hs1 : calm s1) by (by apply with_queue_calm).
  unfold logged. rewrite !exec_tbind, exec_return.
  destruct (queue_load_calm s1 Hs1) as [-> ->].
  pose proof (quiet_depth (length (queue_of s1)) s1) as Hq2.
  set (s2 := exec (set_queue_depth _) s1) in *. pose proof (quiet_now s2) as Hq3.
  set (s3 := exec now s2) in *. assert (Hq : quiet s1 s3) by (by etrans).
  pose proof (quiet_calm _ _ Hq Hs1) as Hs3.
  destruct (append_calm (submission_record (pe_match_id e) (pe_game_id e) (pe_platform e) w
    (value now s2) tx) s3 Hs3) as (Hc & Hclk & Hqu & Hd & Hl).
  destruct (quiet_grows _ _ Hq) as (_ & Hle & Hin). destruct (Hin Hs1) as [Hd1 Hl1].
  split_and!; [done| |].
  - split_and!; [done|rewrite Hclk; exact Hle|]. intros _. rewrite Hd, Hl.
    split; [exact Hd1|]. etrans; [exact Hl1|]. set_solver.
  - left. rewrite Hqu, (quiet_queue _ _ Hq). split; [done|]. right. rewrite Hl.
    apply elem_of_app. right. by left.
Qed.

Lemma outcome_attempted e r s : attempted e s (exec (handle_fetch_outcome cfg e r) s).
Proof.
  unfold handle_fetch_outcome. destruct r as [[reason|reason]|w].
  - by apply exhaust_attempted.
  - apply transient_attempted.
  - apply attempted_after; [apply quiet_cache_insert|]. intros _ s1. apply submit_attempted.
Qed.

(** ** Unthrottled answers *)

Lemma lichess_unthrottled g s pause :
  value (lichess_fetch_result (C := C) g) s <> inl (L_RateLimited pause).
Proof.
  unfold lichess_fetch_result. destruct (lichess_validate_game_id g) as [e|] eqn:Ev.
  { unfold lichess_validate_game_id in Ev. case_match; by simplify_eq. }
  rewrite value_tbind. unfold remote at 1. rewrite value_atomic.
  pose proof (lichess_game_unthrottled g (net s)) as Hu.
  destruct (lichess_game_export g (net s)) as [w [e|resp]]; cbn in *; [by destruct e|].
  specialize (Hu resp eq_refl). unfold value; cbn. apply Z.eqb_neq in Hu. rewrite Hu.
  repeat case_match; try done. unfold game_result in *. by repeat case_match; simplify_eq.
Qed.

Lemma chess_request_unthrottled fuel g n a s :
  match value (chess_com_request (C := C) fuel g n a) s with
  | Some (inr resp) => status resp <> TOO_MANY_REQUESTS
  | Some (inl (C_RateLimited _)) | Some (inl (C_HttpStatus _)) => False
  | _ => True
  end.
Proof.
  revert n a s. induction fuel as [|fuel IH]; intros n a s; cbn [chess_com_request]; [done|].
  rewrite value_tbind, exec_atomic, value_atomic.
  pose proof (chess_com_unthrottled (api_key s) g (net s)) as Hu.
  destruct (chess_com_game (api_key s) g (net s)) as [w [e|resp]]; cbn [fst snd] in *;
    [by destruct e|].
  specialize (Hu resp eq_refl).
  destruct ((status resp =? UNAUTHORIZED) && Nat.eqb a 0); [rewrite value_tbind; apply IH|].
  by rewrite (proj2 (Z.eqb_neq _ _) Hu).
Qed.

Lemma fetch_unthrottled p g s pause : value (fetch_outcome (C := C) p g) s <> inl pause.
Proof.
  destruct p; cbn [fetch_outcome]; rewrite value_tbind; unfold value at 1; cbn.
  - pose proof (lichess_unthrottled g s) as Hu.
    destruct (value _ s) as [[]|]; cbn; try done. by edestruct Hu.
  - unfold chess_com_fetch_result. destruct (chess_com_validate_game_id g) as [e|] eqn:Ev.
    { unfold chess_com_validate_game_id in Ev. by case_match; simplify_eq. }
    rewrite value_tbind. pose proof (chess_request_unthrottled request_fuel g 0 0 s) as Hu.
    destruct (value (chess_com_request _ _ _ _) s) as [[[]|resp]|]; try done.
    unfold value; cbn. repeat case_match; simplify_eq; try done; cbn.
    + by rewrite (proj2 (Z.eqb_neq _ _) Hu).
    + unfold chess_com_winner in *. by repeat case_match; simplify_eq.
Qed.

Lemma process_attempted e s : attempted e s (exec (process_entry cfg e) s).
Proof.
  unfold process_entry. destruct (validate_game_id _ _); [by apply exhaust_attempted|].
  apply attempted_after; [apply quiet_cache_get|]. clear s. intros [w|] s; [apply submit_attempted|].
  rewrite exec_tbind. pose proof (fetch_unthrottled (pe_platform e) (pe_game_id e) s) as Hu.
  eapply attempted_quiet_l; [apply quiet_fetch|].
  destruct (value _ s) as [pause|r]; [by destruct (Hu pause)|apply outcome_attempted].
Qed.

(** ** A round of attempts *)

(** Each entry of the list attempted once, in the list's order up to permutation,
    with quiet steps in between. *)
Inductive round : list PendingEntry -> Service C W -> Service C W -> Prop :=
  | round_nil s s' : quiet s s' -> round [] s s'
  | round_cons e l s1 s2 s3 : attempted e s1 s2 -> round l s2 s3 -> round (e :: l) s1 s3
  | round_perm l l' s s' : l ≡ₚ l' -> round l s s' -> round l' s s'.

Lemma attempted_calm e s s' : attempted e s s' -> calm s -> calm s'.
Proof. intros Ha Hs. by destruct (Ha Hs). Qed.

Lemma round_calm l s s' : round l s s' -> calm s -> calm s'.
Proof.
  induction 1; [by apply quiet_calm| |done]. intros Hs. by eapply IHround, attempted_calm.
Qed.

Lemma round_quiet_l l s1 s2 s3 : quiet s1 s2 -> round l s2 s3 -> round l s1 s3.
Proof.
  intros Hq Hr. revert s1 Hq. induction Hr as [s s' Hq2|e l s1 s2 s3 Ha Hr IH|l l' s s' Hp Hr IH];
    intros s0 Hq.
  - constructor. by etrans.
  - econstructor; [by eapply attempted_quiet_l|done].
  - econstructor; [done|]. by apply IH.
Qed.

Lemma round_app l1 l2 s1 s2 s3 : round l1 s1 s2 -> round l2 s2 s3 -> round (l1 ++ l2) s1 s3.
Proof.
  intros Hr Hr2. induction Hr as [s s' Hq|e l s1 s2 s4 Ha Hr IH|l l' s s' Hp Hr IH]; cbn.
  - by eapply round_quiet_l.
  - econstructor; [done|by apply IH].
  - eapply round_perm; [by rewrite <-Hp|]. by apply IH.
Qed.

Lemma round_tfor (body : PendingEntry -> Svc unit) l s :
  (forall e s, attempted e s (exec (body e) s)) -> round l s (exec (tfor l body) s).
Proof.
  intros Hb. revert s. induction l as [|e l IH]; intros s; cbn [tfor].
  - constructor. rewrite exec_return. reflexivity.
  - rewrite exec_tbind. econstructor; [apply Hb|apply IH].
Qed.

(** No platform is paused, so nothing is skipped. *)
Lemma skip_calm p s :
  calm s -> exec (skip_if_backing_off p) s = s /\ value (skip_if_backing_off p) s = false.
Proof.
  intros (_&_&_&_&Hb). unfold skip_if_backing_off. rewrite exec_atomic, value_atomic, Hb. done.
Qed.

Lemma round_twhile (plat : PendingEntry -> Platform) l s :
  calm s -> round l s (exec (twhile l (fun e => process_unless_paused cfg (plat e) e)) s).
Proof.
  revert s. induction l as [|e l IH]; intros s Hs; cbn [twhile].
  - constructor. rewrite exec_return. reflexivity.
  - rewrite exec_tbind. unfold process_unless_paused at 1 3.
    rewrite exec_tbind, value_tbind. destruct (skip_calm (plat e) s Hs) as [-> ->].
    rewrite exec_tbind, value_tbind, exec_return. rewrite value_return.
    pose proof (process_attempted e s) as Ha. econstructor; [exact Ha|].
    apply IH. by eapply attempted_calm.
Qed.

Lemma prepare_round l s :
  calm s -> let s' := exec (prepare_batch cfg l) s in
  exists done, l ≡ₚ done ++ value (prepare_batch cfg l) s /\ round done s s'.
Proof.
  revert s. induction l as [|e l IH]; intros s Hs; cbn [prepare_batch].
  - exists []. split; [done|]. constructor. rewrite exec_return. reflexivity.
  - cbv zeta. destruct (validate_game_id _ _) as [reason|].
    + rewrite exec_tbind, value_tbind.
      assert (Ha : attempted e s (exec (exhaust_entry (exhausted_with cfg e reason)) s))
        by (by apply exhaust_attempted).
      destruct (IH _ (attempted_calm _ _ _ Ha Hs)) as (d & Hp & Hr).
      exists (e :: d). split; [exact (perm_skip e Hp)|]. by econstructor.
    + rewrite exec_tbind, value_tbind. pose proof (quiet_cache_get (pe_platform e) (pe_game_id e) s) as Hq.
      pose proof (quiet_calm _ _ Hq Hs) as Hs1. set (s1 := exec (cache_get _ _) s) in *.
      destruct (value (cache_get _ _) s) as [w|].
      * rewrite exec_tbind, value_tbind. pose proof (submit_attempted e w s1) as Ha.
        destruct (IH _ (attempted_calm _ _ _ Ha Hs1)) as (d & Hp & Hr).
        exists (e :: d). split; [exact (perm_skip e Hp)|]. eapply round_quiet_l; [done|]. by econstructor.
      * rewrite exec_tbind, value_tbind, exec_return. rewrite value_return.
        destruct (IH _ Hs1) as (d & Hp & Hr). exists d. split; [|by eapply round_quiet_l].
        etrans; [exact (perm_skip e Hp)|apply Permutation_middle].
Qed.

Lemma fetch_chunks_unthrottled cs r s pause :
  value (fetch_chunks (C := C) cs r) s <> inl (L_RateLimited pause).
Proof.
  revert r s. induction cs as [|c cs IH]; intros r s; cbn [fetch_chunks]; [done|].
  unfold tbind_ok. rewrite value_tbind. unfold export_games at 1. rewrite value_tbind.
  unfold remote at 1. rewrite value_atomic. pose proof (lichess_ids_unthrottled c (net s)) as Hu.
  destruct (lichess_export_ids c (net s)) as [w [e|resp]]; cbn [fst snd] in *;
    [by destruct e|].
  specialize (Hu resp eq_refl). rewrite value_return.
  rewrite (proj2 (Z.eqb_neq _ _) Hu). destruct (negb _); [done|].
  destruct (body resp) as [e|lines]; [done|].
  destruct (index_games lines ∅) as [e|games] eqn:Ei; [|apply IH].
  enough (forall gs, index_games lines gs <> inl (L_RateLimited pause)) as Hn
    by (intros [= ->]; by eapply Hn).
  clear. induction lines as [|[|g|] lines IH]; intros gs; cbn; done.
Qed.

Lemma lichess_batch_round l s : calm s -> round l s (exec (process_lichess_batch cfg l) s).
Proof.
  intros Hs. unfold process_lichess_batch. rewrite exec_tbind.
  destruct (skip_calm Lichess s Hs) as [-> ->]. rewrite exec_tbind.
  destruct (prepare_round l s Hs) as (d & Hp & Hr). cbv zeta in Hr.
  set (s1 := exec (prepare_batch cfg l) s) in *.
  set (pending := value (prepare_batch cfg l) s) in *.
  eapply round_perm; [symmetry; exact Hp|]. eapply round_app; [exact Hr|].
  pose proof (round_calm _ _ _ Hr Hs) as Hs1. clearbody pending s1. clear d Hp Hr Hs s l.
  destruct pending as [|e0 rest] eqn:Epend;
    [constructor; rewrite exec_return; reflexivity|]. rewrite <-Epend. clear Epend e0 rest.
  rewrite exec_tbind. pose proof (quiet_batch_fetch (map pe_game_id pending) s1) as Hq.
  eapply round_quiet_l; [exact Hq|]. pose proof (quiet_calm _ _ Hq Hs1) as Hs2.
  destruct (value _ s1) as [e|results] eqn:Ev.
  - assert (Hnr : forall pause, e <> L_RateLimited pause).
    { intros pause ->. unfold lichess_fetch_results_batch in Ev.
      destruct (split_valid _ _ _). by eapply fetch_chunks_unthrottled. }
    unfold batch_failed. cbv zeta.
    destruct e as [|msg| |pause| |code| | |];
      try (apply round_tfor; intros; apply transient_attempted);
      [by destruct (Hnr pause)|].
    case_match; [by apply (round_twhile (fun _ => Lichess))|].
    apply round_tfor; intros; apply transient_attempted.
  - apply round_tfor. intros. apply outcome_attempted.
Qed.

(** ** What a round does to the queue *)

Lemma without_id_elem id e l : e ∈ without_id id l <-> e ∈ l /\ pe_match_id e <> id.
Proof.
  unfold without_id. rewrite !list_elem_of_In, filter_In. unfold has_id.
  rewrite negb_true_iff, Z.eqb_neq. done.
Qed.

Lemma replace_first_elem e' e l :
  NoDup (map pe_match_id l) -> e ∈ replace_first e' l ->
  e = e' \/ (e ∈ l /\ pe_match_id e <> pe_match_id e').
Proof.
  induction l as [|x l IH]; cbn; [by intros _ ?%elem_of_nil|].
  intros [Hx Hl]%NoDup_cons. unfold has_id. destruct (_ =? _) eqn:E; zbool.
  - intros [->|Hin]%elem_of_cons; [by left|]. right. split; [by right|].
    intros Heq. apply Hx. rewrite E, <-Heq. by apply list_elem_of_fmap_2.
  - intros [->|Hin]%elem_of_cons; [right; split; [by left|done]|].
    destruct (IH Hl Hin) as [->|[? ?]]; [by left|]. right. split; [by right|done].
Qed.

(** The entry a later one comes from: itself, or an attempted one. *)
Definition from_round (l : list PendingEntry) (q : list PendingEntry) (t : Z)
    (e' : PendingEntry) : Prop :=
  (e' ∈ q /\ pe_match_id e' ∉ map pe_match_id l) \/
  (exists e, e ∈ l /\ pe_match_id e' = pe_match_id e /\ pe_attempts e' = pe_attempts e + 1 /\
     pe_attempts e' < max_retries cfg /\ pe_next_attempt_at e' <= t + 3600 * second).

Lemma round_clock l s s' : round l s s' -> calm s -> clock s <= clock s'.
Proof.
  induction 1 as [s s' Hq|e l s1 s2 s3 Ha Hr IH|l l' s s' Hp Hr IH]; intros Hs;
    [apply Hq| |by apply IH].
  destruct (Ha Hs) as (Hc & (_ & Hle & _) & _). specialize (IH Hc). lia.
Qed.

Lemma round_grows l s s' :
  round l s s' -> calm s -> dead_ids s ⊆ dead_ids s' /\ submitted_ids s ⊆ submitted_ids s'.
Proof.
  induction 1 as [s s' Hq|e l s1 s2 s3 Ha Hr IH|l l' s s' Hp Hr IH]; intros Hs;
    [by apply (quiet_grows _ _ Hq)| |by apply IH].
  destruct (Ha Hs) as (Hc & (_ & _ & Hg) & _). destruct (Hg Hs), (IH Hc). split; by etrans.
Qed.

Lemma attempted_queue e s s' :
  attempted e s s' -> calm s -> NoDup (map pe_match_id (queue_of s)) ->
  NoDup (map pe_match_id (queue_of s')) /\
  (forall e', e' ∈ queue_of s' -> from_round [e] (queue_of s) (clock s') e') /\
  (forall id, id ∈ map pe_match_id (queue_of s) ->
     id ∈ map pe_match_id (queue_of s') \/ id ∈ dead_ids s' \/ id ∈ submitted_ids s').
Proof.
  intros Ha Hs Hnd. destruct (Ha Hs) as (_ & _ & [[-> Hd]|(e1 & -> & Hid & Hat & Hlt & Hn)]).
  - split_and!; [by apply NoDup_map_filter| |].
    + intros e' [Hin Hne]%without_id_elem. left. split; [done|]. cbn. set_solver.
    + intros id Hin. destruct (decide (id = pe_match_id e)) as [->|Hne]; [by right|].
      left. apply list_elem_of_fmap in Hin as (x & -> & Hx). apply list_elem_of_fmap_2.
      by apply without_id_elem.
  - split_and!; [by rewrite replace_first_ids| |intros id; rewrite replace_first_ids; by left].
    intros e' [->|[Hin Hne]]%replace_first_elem; [|left|done].
    + right. exists e. split_and!; [by left|done..].
    + split; [done|]. cbn. rewrite Hid in Hne. set_solver.
Qed.

Lemma round_queue l s s' :
  round l s s' -> calm s -> NoDup (map pe_match_id l) -> NoDup (map pe_match_id (queue_of s)) ->
  NoDup (map pe_match_id (queue_of s')) /\
  (forall e', e' ∈ queue_of s' -> from_round l (queue_of s) (clock s') e') /\
  (forall id, id ∈ map pe_match_id (queue_of s) ->
     id ∈ map pe_match_id (queue_of s') \/ id ∈ dead_ids s' \/ id ∈ submitted_ids s').
Proof.
  induction 1 as [s s' Hq|e l s1 s2 s3 Ha Hr IH|l l' s s' Hp Hr IH]; intros Hs Hl Hnd.
  - rewrite (quiet_queue _ _ Hq). split_and!; [done| |by left].
    intros e' Hin. left. split; [done|]. apply not_elem_of_nil.
  - cbn in Hl. apply NoDup_cons in Hl as [He Hl].
    destruct (attempted_queue _ _ _ Ha Hs Hnd) as (Hnd2 & Hf2 & Hi2).
    pose proof (attempted_calm _ _ _ Ha Hs) as Hs2. pose proof (round_clock _ _ _ Hr Hs2) as Hclk.
    destruct (IH Hs2 Hl Hnd2) as (Hnd3 & Hf3 & Hi3). split_and!; [done| |].
    + intros e' Hin. destruct (Hf3 e' Hin) as [[Hin2 Hnot]|(x & Hx & Hrest)].
      * destruct (Hf2 e' Hin2) as [[Hin1 Hne]|(x & Hx & ? & ? & ? & ?)].
        -- left. split; [done|]. cbn in *. set_solver.
        -- right. apply list_elem_of_singleton in Hx as ->. exists e.
           split_and!; try done; [by left|lia].
      * right. exists x. split; [by right|done].
    + intros id Hin. destruct (round_grows _ _ _ Hr Hs2) as [Hd Hsub].
      destruct (Hi2 id Hin) as [Hq|[Hq|Hq]]; [by apply Hi3|right; left; by apply Hd|].
      right; right. by apply Hsub.
  - destruct (IH Hs) as (H3 & H4 & H5); [by rewrite Hp|done|]. split_and!; [done| |done].
    intros e' Hin. destruct (H4 e' Hin) as [[? ?]|(x & Hx & ?)].
    + left. split; [done|]. by rewrite <-Hp.
    + right. exists x. split; [by rewrite <-Hp|done].
Qed.

(** ** Ticks *)

Lemma due_all l s :
  Forall (fun e => pe_next_attempt_at e <= clock s) l ->
  value (tfilter entry_due l) s = l /\ quiet s (exec (tfilter entry_due l) s).
Proof.
  revert s. induction l as [|e l IH]; intros s Hl; cbn [tfilter].
  - split; [done|]. rewrite exec_return. reflexivity.
  - apply Forall_cons in Hl as [He Hl]. rewrite exec_tbind, value_tbind.
    assert (Hq : quiet s (exec (entry_due e) s))
      by (unfold entry_due; rewrite exec_tbind, exec_return; apply quiet_now).
    assert (Hv : value (entry_due e) s = true).
    { unfold entry_due. rewrite value_tbind, value_return. apply Z.leb_le.
      unfold now. rewrite value_atomic. unfold tick_clock. destruct (elapsed s); cbn; lia. }
    rewrite Hv. set (s1 := exec (entry_due e) s) in *.
    destruct (IH s1) as [Hv1 Hq1].
    { eapply Forall_impl; [exact Hl|]. cbn. intros x Hx. assert (clock s <= clock s1) by apply Hq. lia. }
    rewrite value_tbind, value_return, Hv1, exec_tbind, exec_return. split; [done|by etrans].
Qed.

Lemma tick_round s :
  calm s -> Forall (fun e => pe_next_attempt_at e <= clock s) (queue_of s) ->
  round (queue_of s) s (exec (tick cfg) s).
Proof.
  intros Hs Hdue. unfold tick. destruct (queue_load_calm s Hs) as [Hx Hv].
  destruct (due_all _ _ Hdue) as [Hv1 Hq1].
  assert (Hv2 : value queue_due_entries s = inr (queue_of s)).
  { unfold queue_due_entries. rewrite (value_tbind_ok _ _ _ _ Hv), Hx, value_tbind, Hv1. done. }
  assert (Hx2 : quiet s (exec queue_due_entries s)).
  { unfold queue_due_entries. by rewrite (exec_tbind_ok _ _ _ _ Hv), Hx, exec_tbind, exec_return. }
  rewrite (exec_tbind_ok _ _ _ _ Hv2). eapply round_quiet_l; [exact Hx2|].
  pose proof (quiet_calm _ _ Hx2 Hs) as Hs1. set (s1 := exec queue_due_entries s) in *.
  destruct (queue_load_calm s1 Hs1) as [Hx3 Hv3]. rewrite (exec_tbind_ok _ _ _ _ Hv3), Hx3, exec_tbind.
  pose proof (quiet_depth (length (queue_of s1)) s1) as Hq3.
  eapply round_quiet_l; [exact Hq3|]. pose proof (quiet_calm _ _ Hq3 Hs1) as Hs2.
  set (s2 := exec (set_queue_depth _) s1) in *. generalize (queue_of s). clearbody s2. clear - Hs2 Hbase Unthrottled0.
  intros due. destruct due as [|e0 rest] eqn:Edue;
    [constructor; rewrite exec_return; reflexivity|]. rewrite <-Edue. clear Edue e0 rest.
  cbv zeta. rewrite !exec_tbind, exec_return.
  set (lich := List.filter (on_platform Lichess) due).
  eapply (round_perm (lich ++ List.filter (fun e => negb (on_platform Lichess e)) due)).
  { subst lich. clear. induction due as [|e due IH]; cbn; [done|].
    destruct (on_platform Lichess e); cbn; [by rewrite IH|].
    by rewrite <-Permutation_middle, IH. }
  assert (Hr : round lich s2 (exec match lich with
                                   | [] => Return tt
                                   | _ => process_lichess_batch cfg lich
                                   end s2)).
  { destruct lich eqn:El; [constructor; rewrite exec_return; reflexivity|].
    by apply lichess_batch_round. }
  eapply round_app; [exact Hr|]. apply round_twhile. by eapply round_calm.
Qed.

(** ** Draining the queue *)

(** The polling loop: it sleeps, then ticks. *)
Definition wait (d : Z) s : Service C W := s <| clock := clock s + d |>.
Fixpoint poll (waits : list Z) s : Service C W :=
  match waits with
  | [] => s
  | d :: rest => poll rest (exec (tick cfg) (wait d s))
  end.

(** A queue whose entries have been tried at least [n] times and are due within
    the hour. *)
Definition tried (n : Z) s : Prop :=
  calm s /\ NoDup (map pe_match_id (queue_of s)) /\
  Forall (fun e => n <= pe_attempts e /\ (0 < n -> pe_attempts e < max_retries cfg) /\
                   pe_next_attempt_at e <= clock s + 3600 * second) (queue_of s).

Lemma tick_tried n d s :
  0 <= n -> 3600 * second <= d -> tried n s ->
  let s' := exec (tick cfg) (wait d s) in
  tried (n + 1) s' /\ dead_ids s ⊆ dead_ids s' /\ submitted_ids s ⊆ submitted_ids s' /\
  (forall id, id ∈ map pe_match_id (queue_of s) ->
     id ∈ map pe_match_id (queue_of s') \/ id ∈ dead_ids s' \/ id ∈ submitted_ids s').
Proof.
  intros Hn Hd (Hs & Hnd & Hall). cbv zeta.
  assert (Hr : round (queue_of (wait d s)) (wait d s) (exec (tick cfg) (wait d s))).
  { apply tick_round; [by destruct Hs as (?&?&?&?&?)|]. eapply Forall_impl; [exact Hall|].
    cbn. intros e (_ & _ & He). lia. }
  assert (Hw : calm (wait d s)) by (by destruct Hs as (?&?&?&?&?)).
  destruct (round_queue _ _ _ Hr Hw Hnd Hnd) as (H3 & H4 & H5).
  destruct (round_grows _ _ _ Hr Hw) as [H6 H7].
  split_and!; [|done..]. split_and!; [by eapply round_calm|done|].
  apply Forall_forall. intros e' He'. destruct (H4 e' He') as [[Hin Hnot]|(e & He & ? & Ha & Hlt & Ht)].
  - destruct Hnot. by apply list_elem_of_fmap_2.
  - rewrite Forall_forall in Hall. destruct (Hall e He) as (Hge & _ & _).
    split_and!; [lia|done|done].
Qed.

Lemma poll_drains waits n s :
  0 <= n -> Forall (fun d => 3600 * second <= d) waits -> tried n s ->
  let s' := poll waits s in
  tried (n + Z.of_nat (length waits)) s' /\
  dead_ids s ⊆ dead_ids s' /\ submitted_ids s ⊆ submitted_ids s' /\
  (forall id, id ∈ map pe_match_id (queue_of s) ->
     id ∈ map pe_match_id (queue_of s') \/ id ∈ dead_ids s' \/ id ∈ submitted_ids s').
Proof.
  revert n s. induction waits as [|d waits IH]; intros n s Hn Hw Ht; cbn [poll length].
  - rewrite Z.add_0_r. split_and!; try done. by left.
  - apply Forall_cons in Hw as [Hd Hw].
    destruct (tick_tried n d s Hn Hd Ht) as (Ht1 & Hd1 & Hl1 & Hi1).
    destruct (IH (n + 1) _ ltac:(lia) Hw Ht1) as (Ht2 & Hd2 & Hl2 & Hi2).
    split_and!; [|by etrans..|].
    + by replace (n + Z.of_nat (S (length waits))) with (n + 1 + Z.of_nat (length waits)) by lia.
    + intros id Hin. destruct (Hi1 id Hin) as [?|[?|?]]; [by apply Hi2|right; left; by apply Hd2|].
      right; right. by apply Hl2.
Qed.


End Progress.
