(* ===== verification/ServiceDiscovery.v ===== *)
(** Discovery: a reconciliation cycle on a working disk and an answering chain ends
    and queues exactly the active matches that still need a result. *)
From stdpp Require Import base list strings gmap.
From Stdlib Require Import ZArith Lia.
From S2P Require Import Prelude Text OracleTypes Tasks ServiceTypes ServiceStores ResultCache.
From S2P Require Import Clients Poller ServiceSafety ServiceProgress.

Local Open Scope Z_scope.

(** A chain whose active matches and results do not change during the cycle: pages
    are slices of the list of active matches. *)
Class StableChain (W : Type) `{Chain W} (actives : list ActiveMatch) (resolved : Z -> bool)
  : Prop := {
  chain_page offset w : 0 <= offset ->
    snd (get_active_matches_paginated offset PAGE_SIZE w) =
      inr (take (Z.to_nat PAGE_SIZE) (drop (Z.to_nat offset) actives));
  chain_result id w : snd (chain_has_result id w) = inr (resolved id)
}.

Section Discovery.
Context {C W : Type} `{LruCache C} `{Http W} `{Chain W} `{PollerText}.
Context (actives : list ActiveMatch) (resolved : Z -> bool) `{!StableChain W actives resolved}.
Notation Svc := (Task (Service C W)).
Implicit Types s : Service C W.

#[local] Existing Instance quiet_preorder.

(** The matches a cycle has to queue, given the dead-lettered ones. *)
Definition wanted (dead : list Z) (m : ActiveMatch) : Prop :=
  resolved (am_match_id m) = false /\ am_match_id m ∉ dead.

(** What a part of a cycle over [ms] does: it only appends fresh entries of wanted
    matches, and afterwards every wanted match is queued. *)
Definition discovers (dead : list Z) (ms : list ActiveMatch) s s' : Prop :=
  calm s' /\ dead_ids s' = dead_ids s /\ submitted_ids s' = submitted_ids s /\
  (exists fresh, queue_of s' = queue_of s ++ fresh /\
     Forall (fun e => pe_attempts e = 0 /\ exists m, m ∈ ms /\ wanted dead m /\
       pe_match_id e = am_match_id m /\ pe_game_id e = am_game_id m /\
       pe_platform e = am_platform m) fresh) /\
  (forall m, m ∈ ms -> wanted dead m -> am_match_id m ∈ map pe_match_id (queue_of s')).

Lemma quiet_discovers dead s s' : calm s -> quiet s s' -> discovers dead [] s s'.
Proof.
  intros Hs Hq. pose proof (quiet_calm _ _ Hq Hs) as Hs'. pose proof (quiet_queue _ _ Hq) as Hqu.
  destruct Hq as (_ & _ & Hd & Hl & _). unfold discovers, dead_ids, submitted_ids.
  rewrite Hd, Hl, Hqu. split_and!; [done|done|done| |].
  - exists []. by rewrite app_nil_r.
  - intros m Hm. by apply elem_of_nil in Hm.
Qed.

Lemma discovers_trans dead ms1 ms2 s1 s2 s3 :
  discovers dead ms1 s1 s2 -> discovers dead ms2 s2 s3 -> discovers dead (ms1 ++ ms2) s1 s3.
Proof.
  intros (_ & Hd1 & Hl1 & (f1 & Hq1 & Hf1) & Hi1) (Hc & Hd2 & Hl2 & (f2 & Hq2 & Hf2) & Hi2).
  split_and!; [done|congruence|congruence| |].
  - exists (f1 ++ f2). rewrite Hq2, Hq1, app_assoc. split; [done|].
    apply Forall_app. split; (eapply Forall_impl; [done|]); cbn; intros e (? & m & ? & ?);
      (split; [done|]); exists m; set_solver.
  - intros m [Hm|Hm]%elem_of_app Hw; [|by apply Hi2].
    rewrite Hq2, map_app. apply elem_of_app. left. by apply Hi1.
Qed.

Lemma enqueue_calm id g p s :
  calm s -> let s' := exec (queue_enqueue id g p) s in
  calm s' /\ dead_ids s' = dead_ids s /\ submitted_ids s' = submitted_ids s /\
  ((id ∈ map pe_match_id (queue_of s) /\ queue_of s' = queue_of s) \/
   (exists t, queue_of s' = queue_of s ++ [Pending.new t id g p])).
Proof.
  intros Hs. cbv zeta. unfold queue_enqueue. destruct (queue_load_calm s Hs) as [Hx Hv].
  rewrite (exec_tbind_ok _ _ _ _ Hv), Hx. destruct (existsb (has_id id) (queue_of s)) eqn:E.
  - rewrite exec_return. split_and!; try done. left. split; [|done].
    apply existsb_exists in E as (e & He & Hid). apply Z.eqb_eq in Hid. rewrite <-Hid.
    by apply list_elem_of_fmap_2, list_elem_of_In.
  - rewrite exec_tbind. pose proof (quiet_now s) as Hq. set (t := value now s).
    pose proof (quiet_calm _ _ Hq Hs) as Hs1. set (s1 := exec now s) in *.
    unfold queue_save. set (l := queue_of s ++ _).
    destruct (save_calm (with_queue l) s1) as [Hy Hw]; [apply Hs1|]. unfold with_queue in *.
    rewrite (exec_tbind_ok _ _ _ _ Hw), Hy, exec_return.
    destruct Hq as (_ & _ & Hd & Hl & _).
    split_and!; [by apply with_queue_calm| | |right; by exists t].
    + unfold dead_ids. cbn. by rewrite Hd.
    + unfold submitted_ids. cbn. by rewrite Hl.
Qed.

Lemma match_discovers dead m s :
  calm s -> discovers dead [m] s (exec (reconcile_match dead m) s).
Proof.
  intros Hs. unfold reconcile_match. rewrite exec_tbind.
  set (t := remote (chain_has_result (am_match_id m))).
  assert (Hq : quiet s (exec t s)) by apply quiet_remote.
  assert (Hv : value t s = inr (resolved (am_match_id m))).
  { unfold t, remote. rewrite value_atomic. pose proof (chain_result (am_match_id m) (net s)) as Hc.
    by destruct (chain_has_result _ _). }
  rewrite Hv. set (s1 := exec t s) in *. pose proof (quiet_calm _ _ Hq Hs) as Hs1.
  change [m] with ([] ++ [m]). eapply discovers_trans; [by apply quiet_discovers|].
  clear Hv Hq. clearbody s1. clear t s Hs.
  assert (Hskip : ~ wanted dead m -> discovers dead [m] s1 s1).
  { intros Hn. split_and!; try done; [exists []; by rewrite app_nil_r|].
    intros m' ->%list_elem_of_singleton Hw. done. }
  unfold wanted in Hskip.
  destruct (resolved (am_match_id m)) eqn:Hr; [rewrite exec_return; naive_solver|].
  destruct (bool_decide (am_match_id m ∈ dead)) eqn:Hd; zbool; [rewrite exec_return; naive_solver|].
  unfold logged. rewrite exec_tbind, exec_return.
  destruct (enqueue_calm (am_match_id m) (am_game_id m) (am_platform m) s1 Hs1)
    as (Hc & Hd2 & Hl2 & [[Hin Hq]|[t Hq]]); split_and!; try done.
  - exists []. by rewrite Hq, app_nil_r.
  - intros m' ->%list_elem_of_singleton _. by rewrite Hq.
  - exists [Pending.new t (am_match_id m) (am_game_id m) (am_platform m)].
    split; [done|]. constructor; [|done]. split; [done|]. exists m. by split_and!; [left| | | |].
  - intros m' ->%list_elem_of_singleton _. rewrite Hq, map_app. apply elem_of_app. right. by left.
Qed.

Lemma page_discovers dead page s :
  calm s -> discovers dead page s (exec (tfor page (reconcile_match dead)) s).
Proof.
  revert s. induction page as [|m page IH]; intros s Hs; cbn [tfor].
  - rewrite exec_return. apply quiet_discovers; [done|reflexivity].
  - rewrite exec_tbind. pose proof (match_discovers dead m s Hs) as Hm.
    change (m :: page) with ([m] ++ page). eapply discovers_trans; [exact Hm|].
    apply IH, Hm.
Qed.

Lemma cursor_save_discovers dead offset s :
  calm s -> discovers dead [] s (exec (logged (cursor_save offset)) s).
Proof.
  intros Hs. unfold logged, cursor_save. rewrite exec_tbind, exec_return.
  destruct (save_calm (fun s => s <| cursor_file := Holds offset |>) s) as [-> _]; [apply Hs|].
  by apply quiet_discovers.
Qed.

(** The pages from an offset on. *)
Lemma pages_discover dead fuel offset s :
  calm s -> 0 <= offset -> (0 < fuel)%nat ->
  Z.of_nat (length actives) - offset < Z.of_nat fuel * PAGE_SIZE ->
  value (reconcile_pages fuel dead offset) s = inr true /\
  discovers dead (drop (Z.to_nat offset) actives) s (exec (reconcile_pages fuel dead offset) s).
Proof.
  revert offset s. induction fuel as [|fuel IH]; intros offset s Hs Ho Hpos Hf; [lia|].
  cbn [reconcile_pages]. set (t := remote (get_active_matches_paginated offset PAGE_SIZE)).
  set (page := take (Z.to_nat PAGE_SIZE) (drop (Z.to_nat offset) actives)).
  assert (Hq : quiet s (exec t s)) by apply quiet_remote.
  assert (Hv : value t s = inr page).
  { unfold t, remote. rewrite value_atomic. pose proof (chain_page offset (net s) Ho) as Hc.
    by destruct (get_active_matches_paginated _ _ _). }
  rewrite (value_tbind_ok _ _ _ _ Hv), (exec_tbind_ok _ _ _ _ Hv).
  pose proof (quiet_calm _ _ Hq Hs) as Hs1. pose proof (quiet_discovers dead _ _ Hs Hq) as D0.
  set (s1 := exec t s) in *. clearbody s1 t. clear Hv Hq.
  assert (Hlen : length page = Nat.min 50 (length actives - Z.to_nat offset)).
  { unfold page. by rewrite length_take, length_drop. }
  assert (Hsplit : drop (Z.to_nat offset) actives =
                   page ++ drop (Z.to_nat (offset + Z.of_nat (length page))) actives).
  { rewrite <-(take_drop (Z.to_nat PAGE_SIZE) (drop (Z.to_nat offset) actives)) at 1.
    fold page. f_equal. rewrite drop_drop. destruct (decide (length page = 50%nat)) as [E|E].
    - f_equal. rewrite E. unfold PAGE_SIZE. lia.
    - rewrite !drop_ge; [done|lia|unfold PAGE_SIZE; lia]. }
  destruct page as [|m0 rest] eqn:Hpage.
  - cbn [length] in Hlen. rewrite value_return, exec_return. split; [done|].
    rewrite drop_ge by lia. exact D0.
  - rewrite <-Hpage in *. rewrite !value_tbind, !exec_tbind.
    pose proof (page_discovers dead page s1 Hs1) as D1.
    set (s2 := exec (tfor page _) s1) in *. assert (Hs2 : calm s2) by apply D1.
    pose proof (cursor_save_discovers dead (offset + Z.of_nat (length page)) s2 Hs2) as D2.
    set (s3 := exec (logged _) s2) in *. assert (Hs3 : calm s3) by apply D2.
    assert (D3 : discovers dead page s s3).
    { change page with ([] ++ page). eapply discovers_trans; [exact D0|].
      rewrite <-(app_nil_r page). by eapply discovers_trans. }
    destruct (Z.of_nat (length page) <? PAGE_SIZE) eqn:E; unfold PAGE_SIZE in *; zbool.
    + rewrite value_return, exec_return. split; [done|]. rewrite Hsplit.
      rewrite (drop_ge actives) by lia. by rewrite app_nil_r.
    + destruct (IH (offset + Z.of_nat (length page)) s3 Hs3) as [Hv D4]; [lia|lia|lia|].
      split; [exact Hv|]. rewrite Hsplit. by eapply discovers_trans.
Qed.


End Discovery.
