(* ===== verification/ChainClient.v ===== *)
(** The oracle service's chain client, [oracle-service/src/soroban_client.rs]: the calls
    of the RPC server, the decoding of what contracts return, and the building, signing,
    sending and confirming of a result; then the interface [Chain] of the poller,
    discharged by this client over a server that answers truthfully.

    The RPC server is an interface ([Rpc]): an answer to a method and its parameters.
    XDR, base64, strkeys, SHA-256 and Ed25519 are library code and parameters
    ([Libraries]).  A transaction has the fields the source sets; the values it leaves at
    their defaults (memo, preconditions) are not kept.  The workspace builds with
    overflow checks: an addition that overflows ends the task ([Crashed]). *)
From stdpp Require Import base list strings.
From Stdlib Require Import ZArith Lia.
From S2P Require Import Prelude Text OracleTypes Tasks ServiceTypes ServiceStores ResultCache.
From S2P Require Import Clients Poller ServiceDiscovery.

Local Open Scope Z_scope.

(** ** Values of the host *)

Inductive ScAddress :=
  | AccountAddress (key : list Z)
  | ContractAddress (hash : list Z).

Inductive ScVal :=
  | ScVoid
  | ScBool (b : bool)
  | ScU32 (n : Z)
  | ScU64 (n : Z)
  | ScSymbol (bytes : string)
  | ScString (bytes : string)
  | ScAddressVal (a : ScAddress)
  | ScVec (items : option (list ScVal))
  | ScMap (entries : option (list (ScVal * ScVal)))
  | ScOther.

(** Bytes that are UTF-8 are their own text. *)
Definition to_utf8_string (bytes : string) : option string :=
  if bool_decide (utf8_lossy (chars bytes) = chars bytes) then Some bytes else None.

Definition winner_to_sc_val (winner : Winner) : ScVal :=
  ScSymbol match winner with
           | Player1 => "Player1"
           | Player2 => "Player2"
           | Draw => "Draw"
           end.

Definition map_get (map : list (ScVal * ScVal)) (key : string) : option ScVal :=
  snd <$> find (fun entry => match entry.1 with
                             | ScSymbol s => bool_decide (to_utf8_string s = Some key)
                             | _ => false
                             end) map.

Definition decode_platform (val : ScVal) : result Platform :=
  match val with
  | ScVec (Some items) =>
      match items with
      | ScSymbol sym :: _ =>
          match to_utf8_string sym with
          | None => inl (XdrError "platform: symbol decode")
          | Some name =>
              if String.eqb name "Lichess" then inr Lichess
              else if String.eqb name "ChessDotCom" then inr ChessDotCom
              else inl (XdrError ("platform: unknown variant '" +:+ name +:+ "'"))
          end
      | _ => inl (XdrError "platform: expected leading Symbol discriminant")
      end
  | _ => inl (XdrError "platform: expected Vec-encoded enum")
  end.

Definition decode_match_summary (val : ScVal) : result ActiveMatch :=
  match val with
  | ScMap (Some map) =>
      match map_get map "id" with
      | Some (ScU64 match_id) =>
          match map_get map "game_id" with
          | Some (ScString s) =>
              match to_utf8_string s with
              | None => inl (XdrError "Match.game_id: string decode")
              | Some game_id =>
                  match map_get map "platform" with
                  | None => inl (XdrError "Match.platform: field missing")
                  | Some v =>
                      match decode_platform v with
                      | inl e => inl e
                      | inr platform => inr (mkActiveMatch match_id game_id platform)
                      end
                  end
              end
          | _ => inl (XdrError "Match.game_id: expected String")
          end
      | _ => inl (XdrError "Match.id: expected U64")
      end
  | _ => inl (XdrError "Match: expected Map-encoded struct")
  end.

Fixpoint decode_matches (vals : list ScVal) : result (list ActiveMatch) :=
  match vals with
  | [] => inr []
  | v :: rest =>
      match decode_match_summary v with
      | inl e => inl e
      | inr m => match decode_matches rest with inl e => inl e | inr ms => inr (m :: ms) end
      end
  end.

Definition decode_active_matches (val : ScVal) : result (list ActiveMatch) :=
  match val with
  | ScVec (Some vals) => decode_matches vals
  | _ => inl (XdrError "get_active_matches_paginated: expected Vec return value")
  end.

(** ** Transactions *)

Record Operation (Auth : Type) := mkOperation {
  op_contract : list Z;
  op_function : string;
  op_args : list ScVal;
  op_auth : list Auth
}.
Arguments mkOperation {Auth}.
Arguments op_contract {Auth}.
Arguments op_function {Auth}.
Arguments op_args {Auth}.
Arguments op_auth {Auth}.

(** [tx_data] is the Soroban extension, when there is one. *)
Record Transaction (Auth Data : Type) := mkTransaction {
  tx_source : list Z;
  tx_fee : Z;
  tx_seq_num : Z;
  tx_operation : Operation Auth;
  tx_data : option Data
}.
Arguments mkTransaction {Auth Data}.
Arguments tx_source {Auth Data}.
Arguments tx_fee {Auth Data}.
Arguments tx_seq_num {Auth Data}.
Arguments tx_operation {Auth Data}.
Arguments tx_data {Auth Data}.

(** A signature comes with the last bytes of its key. *)
Record Envelope (Auth Data : Type) := mkEnvelope {
  env_tx : Transaction Auth Data;
  env_signatures : list (list Z * list Z)
}.
Arguments mkEnvelope {Auth Data}.
Arguments env_tx {Auth Data}.
Arguments env_signatures {Auth Data}.

(** What the client uses of its libraries. *)
Class Libraries (Auth Data : Type) := {
  sha256 : list Z -> list Z;
  verifying_key : list Z -> list Z;
  sign : list Z -> list Z -> list Z;
  contract_from_strkey : string -> string + list Z;
  account_strkey : list Z -> string;
  tx_to_xdr : Transaction Auth Data -> list Z;
  tx_to_base64 : Transaction Auth Data -> string;
  envelope_to_base64 : Envelope Auth Data -> string;
  scval_from_base64 : string -> option ScVal;
  data_from_base64 : string -> option Data;
  empty_data : Data;
  auth_from_base64 : string -> option Auth;
  show_json : Value -> string
}.

(** ** Calls of the server *)

Inductive RpcAnswer :=
  | NoAnswer (e : string)
  | HttpError (status : string)
  | NotJson (e : string)
  | Answer (json : Value).

Class Rpc (W : Type) := rpc_post : string -> Value -> W -> W * RpcAnswer.

(** A call ends with a value or an error, or the task panics. *)
Inductive Ended (A : Type) :=
  | Value_ (a : A)
  | Error_ (e : OracleServiceError)
  | Crashed.
Arguments Value_ {A} a.
Arguments Error_ {A} e.
Arguments Crashed {A}.

Definition Call (W A : Type) : Type := W -> W * Ended A.

#[export] Instance Call_ret {W} : MRet (Call W) := fun A a w => (w, Value_ a).
#[export] Instance Call_bind {W} : MBind (Call W) := fun A B f c w =>
  match c w with
  | (w, Value_ a) => f a w
  | (w, Error_ e) => (w, Error_ e)
  | (w, Crashed) => (w, Crashed)
  end.
Definition throw {W A} (e : OracleServiceError) : Call W A := fun w => (w, Error_ e).
Definition lift {W A} (r : result A) : Call W A := fun w =>
  (w, match r with inl e => Error_ e | inr a => Value_ a end).
Definition some_or {W A} (o : option A) (e : OracleServiceError) : Call W A := fun w =>
  (w, match o with Some a => Value_ a | None => Error_ e end).
Definition add_i64 {W} (a b : Z) : Call W Z := fun w =>
  (w, if in_range i64_min i64_max (a + b) then Value_ (a + b) else Crashed).

(** [json["key"]] of an absent key is null. *)
Definition field (key : string) (v : Value) : Value := default VNull (get_field key v).
Definition text_field (key : string) (v : Value) : option string := as_str (field key v).

Record SorobanClient := mkSorobanClient {
  network_passphrase : string;
  contract_escrow : list Z;
  max_fee_stroops : Z
}.

Section Client.
Context {Auth Data W : Type} `{Libraries Auth Data} `{Rpc W}.
Notation Tx := (Transaction Auth Data).
Implicit Types c : SorobanClient.

Definition decode_contract_id (strkey : string) : result (list Z) :=
  match contract_from_strkey strkey with
  | inl e => inl (Config ("invalid contract strkey '" +:+ strkey +:+ "': " +:+ e))
  | inr id => inr id
  end.

(** [oracle_env] is ORACLE_ENV; building the HTTP client does not fail here. *)
Definition new_client (oracle_env : option string) (rpc_url network_passphrase contract_escrow : string)
    (max_fee_stroops : Z) : result SorobanClient :=
  let production_mode :=
    match oracle_env with
    | Some v => String.eqb (map_chars to_ascii_lowercase v) "production"
    | None => false
    end in
  if production_mode && negb (starts_with (chars rpc_url) (chars "https://"))
  then inl (Config ("STELLAR_RPC_URL must use HTTPS in production mode, got: " +:+ rpc_url))
  else match decode_contract_id contract_escrow with
       | inl e => inl e
       | inr id => inr (mkSorobanClient network_passphrase id max_fee_stroops)
       end.

(** ** RPC helpers *)

Definition post (method : string) (params : Value) : Call W RpcAnswer := fun w =>
  let '(w, a) := rpc_post method params w in (w, Value_ a).

Definition rpc_call (method : string) (params : Value) : Call W Value :=
  a ← post method params;
  match a with
  | NoAnswer e => throw (Transport e)
  | HttpError status => throw (RpcError ("HTTP " +:+ status +:+ " from RPC"))
  | NotJson e => throw (Transport e)
  | Answer json =>
      match get_field "error" json with
      | Some err => throw (RpcError (show_json err))
      | None => mret (field "result" json)
      end
  end.

Definition get_account_sequence (address : string) : Call W Z :=
  result ← rpc_call "getAccount" (VObject [("address", VString address)]);
  let text := match text_field "sequence" result with
              | Some s => Some s
              | None => text_field "sequenceNumber" result
              end in
  seq ← some_or text (RpcError "missing sequence in getAccount");
  some_or (parse_i64 seq) (RpcError "bad sequence").

Record SimulateResult := mkSimulateResult {
  min_resource_fee : string;
  transaction_data : string;
  results : Value
}.

Definition simulate_transaction (tx : Tx) : Call W SimulateResult :=
  result ← rpc_call "simulateTransaction" (VObject [("transaction", VString (tx_to_base64 tx))]);
  match get_field "error" result ≫= as_str with
  | Some e => throw (SimulateError e)
  | None =>
      mret (mkSimulateResult (default "0"%string (text_field "minResourceFee" result))
              (default EmptyString (text_field "transactionData" result)) (field "results" result))
  end.

Definition send_transaction (envelope : Envelope Auth Data) : Call W string :=
  result ← rpc_call "sendTransaction" (VObject [("transaction", VString (envelope_to_base64 envelope))]);
  if String.eqb (default "UNKNOWN"%string (text_field "status" result)) "ERROR"
  then throw (ServiceTypes.SendError ("sendTransaction ERROR: " +:+ default EmptyString (text_field "errorResultXdr" result)))
  else some_or (text_field "hash" result) (RpcError "missing hash in sendTransaction").

Definition max_polls : nat := 30.

(** [polls] is how often the server is still asked. *)
Fixpoint poll_confirmation (tx_hash : string) (polls : nat) : Call W unit :=
  match polls with
  | O => throw (TxFailed ("transaction " +:+ tx_hash +:+ " did not confirm within 60s"))
  | S polls =>
      result ← rpc_call "getTransaction" (VObject [("hash", VString tx_hash)]);
      let status := default "NOT_FOUND"%string (text_field "status" result) in
      if String.eqb status "SUCCESS" then mret tt
      else if String.eqb status "FAILED"
      then throw (TxFailed ("transaction " +:+ tx_hash +:+ " failed: " +:+
                            default "(no detail)"%string (text_field "resultXdr" result)))
      else poll_confirmation tx_hash polls
  end.
Definition await_confirmation (tx_hash : string) : Call W unit := poll_confirmation tx_hash max_polls.

Definition client_health_check : Call W unit :=
  _ ← rpc_call "getNetwork" (VObject []); mret tt.

(** ** Building transactions *)

Definition build_invoke_op_with_auth (contract_id : list Z) (match_id : Z) (winner : Winner)
    (caller_pubkey : list Z) (auth_entries : list Auth) : Operation Auth :=
  mkOperation contract_id "submit_result"
    [ScU64 match_id; winner_to_sc_val winner; ScAddressVal (AccountAddress caller_pubkey); ScVoid]
    auth_entries.

Definition build_invoke_op (contract_id : list Z) (match_id : Z) (winner : Winner)
    (caller_pubkey : list Z) : Operation Auth * ScVal :=
  (build_invoke_op_with_auth contract_id match_id winner caller_pubkey [], winner_to_sc_val winner).

Definition build_transaction (source : list Z) (sequence : Z) (op : Operation Auth) (fee : Z) : Tx :=
  mkTransaction source fee sequence op None.
Definition build_transaction_with_soroban (source : list Z) (sequence : Z) (op : Operation Auth)
    (fee : Z) (soroban_data : Data) : Tx :=
  mkTransaction source fee sequence op (Some soroban_data).

Definition decode_soroban_data (base64_xdr : string) : result Data :=
  if String.eqb base64_xdr "" then inr empty_data
  else match data_from_base64 base64_xdr with
       | Some d => inr d
       | None => inl (XdrError "soroban data decode")
       end.

(** Entries that are not text are passed over. *)
Fixpoint decode_entries (entries : list Value) : result (list Auth) :=
  match entries with
  | [] => inr []
  | v :: rest =>
      match as_str v with
      | None => decode_entries rest
      | Some xdr =>
          match auth_from_base64 xdr with
          | None => inl (XdrError "auth entry")
          | Some a => match decode_entries rest with inl e => inl e | inr l => inr (a :: l) end
          end
      end
  end.
Definition decode_auth_entries (results : Value) : result (list Auth) :=
  match as_array results with
  | None => inr []
  | Some arr =>
      decode_entries (concat (map (fun r => default [] (get_field "auth" r ≫= as_array)) arr))
  end.

(** The signature is over the hash of the network, the envelope type and the
    transaction. *)
Definition transaction_hash (network_passphrase : string) (tx : Tx) : list Z :=
  sha256 ([0; 0; 0; 2] ++ sha256 (map code (chars network_passphrase)) ++ tx_to_xdr tx).
Definition sign_transaction (tx : Tx) (network_passphrase : string) (signing_key : list Z)
    : Envelope Auth Data :=
  mkEnvelope tx [(drop 28 (verifying_key signing_key),
                  sign signing_key (transaction_hash network_passphrase tx))].

(** ** The client's operations *)

Definition first_xdr (results : Value) : option string :=
  arr ← as_array results; r ← head arr; xdr ← get_field "xdr" r; as_str xdr.

Definition simulate_read_call (contract_id : list Z) (function_name : string) (args : list ScVal)
    (source_pubkey : list Z) : Call W ScVal :=
  sequence ← get_account_sequence (account_strkey source_pubkey);
  next ← add_i64 sequence 1;
  let tx := build_transaction source_pubkey next (mkOperation contract_id function_name args []) 100 in
  sim ← simulate_transaction tx;
  xdr ← some_or (first_xdr (results sim))
          (RpcError (function_name +:+ ": missing return value in simulation results"));
  some_or (scval_from_base64 xdr) (XdrError "decode return value").

Definition client_active_matches c (offset limit : Z) (source_pubkey : list Z)
    : Call W (list ActiveMatch) :=
  result ← simulate_read_call (contract_escrow c) "get_active_matches_paginated"
             [ScU32 offset; ScU32 limit] source_pubkey;
  lift (decode_active_matches result).

Definition client_has_result (contract_oracle_strkey : string) (match_id : Z)
    (source_pubkey : list Z) : Call W bool :=
  contract_oracle ← lift (decode_contract_id contract_oracle_strkey);
  result ← simulate_read_call contract_oracle "has_result" [ScU64 match_id] source_pubkey;
  match result with
  | ScBool b => mret b
  | _ => throw (RpcError "has_result: unexpected return value type")
  end.

(** The fee that is paid, if it is one the configuration allows. *)
Definition checked_fee c (min_resource_fee : string) : Call W Z :=
  total ← add_i64 100000 (default 0 (parse_i64 min_resource_fee));
  if negb (in_range 0 u32_max total) then throw (RpcError "oracle fee exceeds u32::MAX")
  else if max_fee_stroops c <? total then throw (RpcError "oracle fee exceeds configured maximum")
  else mret total.

Definition client_submit_result c (match_id : Z) (winner : Winner) (signing_key : list Z) : Call W string :=
  let pubkey := verifying_key signing_key in
  sequence ← get_account_sequence (account_strkey pubkey);
  next ← add_i64 sequence 1;
  let '(op, _) := build_invoke_op (contract_escrow c) match_id winner pubkey in
  sim ← simulate_transaction (build_transaction pubkey next op 100);
  total_fee ← checked_fee c (min_resource_fee sim);
  soroban_data ← lift (decode_soroban_data (transaction_data sim));
  auth_entries ← lift (decode_auth_entries (results sim));
  let op_with_auth :=
    build_invoke_op_with_auth (contract_escrow c) match_id winner pubkey auth_entries in
  let final_tx := build_transaction_with_soroban pubkey next op_with_auth total_fee soroban_data in
  let envelope := sign_transaction final_tx (network_passphrase c) signing_key in
  tx_hash ← send_transaction envelope;
  _ ← await_confirmation tx_hash;
  mret tx_hash.
End Client.

(** ** The poller's interface *)

(** A task that panics is an error to its caller. *)
Definition to_result {A} (e : Ended A) : result A :=
  match e with
  | Value_ a => inr a
  | Error_ e => inl e
  | Crashed => inl (Transport "task panicked")
  end.

(** The client as the poller uses it, with the key and the contract of its
    configuration. *)
Definition client_chain {Auth Data W} `{Libraries Auth Data} `{Rpc W} (c : SorobanClient)
    (contract_oracle : string) (signing_key : list Z) : Chain W := {|
  get_active_matches_paginated offset limit w :=
    let '(w, r) := client_active_matches c offset limit (verifying_key signing_key) w in (w, to_result r);
  chain_has_result match_id w :=
    let '(w, r) := client_has_result contract_oracle match_id (verifying_key signing_key) w in
    (w, to_result r);
  chain_submit_result match_id winner w :=
    let '(w, r) := client_submit_result c match_id winner signing_key w in (w, to_result r)
|}.

(** ** Reading the contracts *)

(** A server that answers truthfully: accounts have a sequence number, and a simulated
    call returns what the contract's view of that call is. *)
Class TruthfulRpc (Auth Data W : Type) `{Libraries Auth Data} `{Rpc W}
    (view : list Z -> string -> list ScVal -> ScVal) (scval_to_base64 : ScVal -> string) : Prop := {
  scval_decodes contract function args :
    scval_from_base64 (scval_to_base64 (view contract function args)) = Some (view contract function args);
  account_answer address w : exists text n,
    snd (rpc_post "getAccount" (VObject [("address", VString address)]) w) =
      Answer (VObject [("result", VObject [("sequence", VString text)])]) /\
    parse_i64 text = Some n /\ i64_min <= n < i64_max;
  simulate_answer (tx : Transaction Auth Data) w :
    snd (rpc_post "simulateTransaction" (VObject [("transaction", VString (tx_to_base64 tx))]) w) =
      Answer (VObject [("result", VObject [("results", VArray [VObject
        [("xdr", VString (scval_to_base64 (view (op_contract (tx_operation tx))
           (op_function (tx_operation tx)) (op_args (tx_operation tx)))))]])])])
}.

Definition platform_name (p : Platform) : string :=
  match p with Lichess => "Lichess" | ChessDotCom => "ChessDotCom" end.

(** A value that encodes a match as the SDK does: a map with, among others, these
    fields; a variant without fields is a vector of its name. *)
Definition encodes_match (v : ScVal) (m : ActiveMatch) : Prop :=
  exists entries, v = ScMap (Some entries) /\
    map_get entries "id" = Some (ScU64 (am_match_id m)) /\
    map_get entries "game_id" = Some (ScString (am_game_id m)) /\
    to_utf8_string (am_game_id m) = Some (am_game_id m) /\
    map_get entries "platform" = Some (ScVec (Some [ScSymbol (platform_name (am_platform m))])).

Lemma decode_encoded v m : encodes_match v m -> decode_match_summary v = inr m.
Proof.
  intros (entries & -> & Hid & Hg & Hu & Hp). unfold decode_match_summary. rewrite Hid, Hg, Hu, Hp.
  destruct m as [id g []]; reflexivity.
Qed.

Lemma decode_encoded_list vs ms : Forall2 encodes_match vs ms -> decode_matches vs = inr ms.
Proof. induction 1 as [|v m vs ms Hv _ IH]; cbn; [done|]. by rewrite (decode_encoded _ _ Hv), IH. Qed.

Section Reading.
Context {Auth Data W : Type} `{TruthfulRpc Auth Data W view scval_to_base64}.

(** What a call gives, whatever becomes of the server. *)
Lemma bind_value {A B} (f : A -> Call W B) (k : Call W A) a w :
  (k w).2 = Value_ a -> (k ≫= f) w = f a (k w).1.
Proof. unfold mbind, Call_bind. destruct (k w) as [w' r]. cbn. by intros ->. Qed.

Lemma rpc_call_answer method params w json :
  snd (rpc_post method params w) = Answer json -> get_field "error" json = None ->
  (rpc_call (Auth := Auth) (Data := Data) method params w).2 = Value_ (field "result" json).
Proof.
  intros Ha He. unfold rpc_call. erewrite bind_value.
  2:{ unfold post. destruct (rpc_post method params w) as [w' a]. cbn in *. by subst a. }
  cbn. by rewrite He.
Qed.

Lemma read_call_value contract_id function_name args pubkey w :
  (simulate_read_call (Auth := Auth) (Data := Data) contract_id function_name args pubkey w).2 =
  Value_ (view contract_id function_name args).
Proof.
  unfold simulate_read_call.
  destruct (account_answer (account_strkey pubkey) w) as (text & n & Ha & Hn & Hrange).
  erewrite bind_value.
  2:{ unfold get_account_sequence. erewrite bind_value by (by apply rpc_call_answer).
      erewrite bind_value by reflexivity. unfold some_or. rewrite Hn. reflexivity. }
  erewrite bind_value.
  2:{ unfold add_i64, in_range. cbn [snd]. rewrite (proj2 (Z.leb_le _ _)), (proj2 (Z.leb_le _ _)) by lia.
      reflexivity. }
  set (w1 := fst _). set (tx := build_transaction _ _ _ _).
  erewrite bind_value.
  2:{ unfold simulate_transaction. erewrite bind_value.
      2:{ apply rpc_call_answer; [apply simulate_answer|reflexivity]. }
      reflexivity. }
  erewrite bind_value by reflexivity. unfold some_or. rewrite scval_decodes. reflexivity.
Qed.
End Reading.


(** ** Submitting a result *)

(** The calls made so far; the server may answer each as it likes. *)
Abbreviation History := (list (string * Value)).
Definition strategy_rpc (answers : History -> string -> Value -> RpcAnswer) : Rpc History :=
  fun method params h => (h ++ [(method, params)], answers h method params).

Definition is_send (call : string * Value) : bool := String.eqb call.1 "sendTransaction".

Section Submitting.
Context {Auth Data : Type} `{Libraries Auth Data}.
Context (answers : History -> string -> Value -> RpcAnswer).
#[local] Instance strategy : Rpc History := strategy_rpc answers.
Implicit Types h : History.

Lemma rpc_call_history method params h :
  (rpc_call (Auth := Auth) (Data := Data) method params h).1 = h ++ [(method, params)].
Proof.
  unfold rpc_call, post, mbind, Call_bind, rpc_post, strategy, strategy_rpc.
  destruct (answers h method params) as [| | |json]; [done..|]. by destruct (get_field "error" json).
Qed.

Lemma bind_history {A B} (k : Call History A) (f : A -> Call History B) h :
  (k ≫= f) h = match (k h).2 with
               | Value_ a => f a (k h).1
               | Error_ e => ((k h).1, Error_ e)
               | Crashed => ((k h).1, Crashed)
               end.
Proof. unfold mbind, Call_bind. by destruct (k h) as [h' []]. Qed.

Lemma sequence_history address h :
  (get_account_sequence (Auth := Auth) (Data := Data) address h).1 =
  h ++ [("getAccount"%string, VObject [("address", VString address)])].
Proof.
  unfold get_account_sequence. rewrite bind_history, <-rpc_call_history.
  destruct (rpc_call _ _ h).2; try done. rewrite bind_history. by case_match.
Qed.

Lemma simulate_history (tx : Transaction Auth Data) h :
  (simulate_transaction tx h).1 =
  h ++ [("simulateTransaction"%string, VObject [("transaction", VString (tx_to_base64 tx))])].
Proof.
  unfold simulate_transaction. rewrite bind_history, <-rpc_call_history.
  destruct (rpc_call _ _ h).2; try done. by case_match.
Qed.

Definition send_call (e : Envelope Auth Data) : string * Value :=
  ("sendTransaction"%string, VObject [("transaction", VString (envelope_to_base64 e))]).

Lemma send_history (e : Envelope Auth Data) h : (send_transaction e h).1 = h ++ [send_call e].
Proof.
  unfold send_transaction. rewrite bind_history. unfold send_call. rewrite <-rpc_call_history.
  destruct (rpc_call _ _ h).2; try done. by case_match.
Qed.

(** The server was asked about [hash] after the calls [h] and reported success. *)
Definition confirmed (hash : string) h : Prop :=
  exists json, answers h "getTransaction" (VObject [("hash", VString hash)]) = Answer json /\
    get_field "error" json = None /\ text_field "status" (field "result" json) = Some "SUCCESS"%string.

Definition poll_call (hash : string) : string * Value :=
  ("getTransaction"%string, VObject [("hash", VString hash)]).

Lemma poll_history hash n h :
  exists k, (k <= n)%nat /\
    (poll_confirmation (Auth := Auth) (Data := Data) hash n h).1 = h ++ replicate k (poll_call hash) /\
    ((poll_confirmation (Auth := Auth) (Data := Data) hash n h).2 = Value_ tt ->
     exists j, k = S j /\ confirmed hash (h ++ replicate j (poll_call hash))).
Proof.
  revert h. induction n as [|n IH]; intros h; cbn [poll_confirmation].
  { exists 0%nat. cbn. rewrite app_nil_r. split_and!; [lia|done|done]. }
  rewrite bind_history. pose proof (rpc_call_history "getTransaction" (VObject [("hash", VString hash)]) h) as Hh.
  fold (poll_call hash) in Hh.
  destruct (rpc_call "getTransaction" _ h).2 as [v|e|] eqn:Hv;
    [|exists 1%nat; rewrite Hh; split_and!; [lia|done|done]..].
  destruct (String.eqb_spec (default "NOT_FOUND"%string (text_field "status" v)) "SUCCESS") as [Hs|_].
  - exists 1%nat. cbn. rewrite Hh. split_and!; [lia|done|]. intros _. exists 0%nat. split; [done|].
    cbn. rewrite app_nil_r. revert Hv.
    unfold rpc_call, post, mbind, Call_bind, rpc_post, strategy, strategy_rpc, confirmed.
    destruct (answers h _ _) as [| | |json] eqn:Ha; [done..|]. destruct (get_field "error" json) eqn:He; [done|].
    intros [= <-]. exists json. split_and!; [done|done|].
    destruct (text_field "status" (field "result" json)); cbn in Hs; congruence.
  - destruct (String.eqb _ "FAILED"); [exists 1%nat; cbn; rewrite Hh; split_and!; [lia|done|done]|].
    destruct (IH (rpc_call (Auth := Auth) (Data := Data) "getTransaction" (VObject [("hash", VString hash)]) h).1)
      as (k & Hk & Hrest & Hok).
    exists (S k). rewrite Hh in *. cbn. rewrite Hrest, <-app_assoc. split_and!; [lia|done|].
    intros Hv'. destruct (Hok Hv') as (j & -> & Hc). exists (S j). split; [done|].
    cbn. by rewrite <-app_assoc in Hc.
Qed.

Context (c : SorobanClient) (match_id : Z) (winner : Winner) (signing_key : list Z).

(** The envelope that calls [submit_result] with this result, signed with the key. *)
Definition result_envelope (sequence fee : Z) (data : Data) (auth : list Auth) : Envelope Auth Data :=
  let pubkey := verifying_key signing_key in
  sign_transaction
    (build_transaction_with_soroban pubkey sequence
       (build_invoke_op_with_auth (contract_escrow c) match_id winner pubkey auth) fee data)
    (network_passphrase c) signing_key.

Definition submission_ok h (r : Ended string) : Prop :=
  (length h <= 33)%nat /\ (length (List.filter is_send h) <= 1)%nat /\
  (forall call, In call h -> is_send call = true -> exists sequence fee data auth,
     call = send_call (result_envelope sequence fee data auth) /\ 0 <= fee <= max_fee_stroops c) /\
  (forall hash, r = Value_ hash -> exists sent call polls, h = sent ++ call :: replicate (S polls) (poll_call hash) /\
     is_send call = true /\ confirmed hash (sent ++ call :: replicate polls (poll_call hash))).

Lemma unsent_call h call : List.filter is_send h = [] -> In call h -> is_send call = true -> False.
Proof. intros Hf Hin Hs. assert (Hc : In call (List.filter is_send h)) by (by apply filter_In). by rewrite Hf in Hc. Qed.

Lemma unsent_ok h (r : Ended string) :
  (length h <= 33)%nat -> List.filter is_send h = [] -> (forall hash, r <> Value_ hash) -> submission_ok h r.
Proof.
  intros Hl Hf Hr. split_and!; [done|by rewrite Hf; cbn; lia| |].
  - intros call Hin Hs. by destruct (unsent_call h call Hf Hin Hs).
  - intros hash Hv. by destruct (Hr hash).
Qed.

(** What holds once the envelope is sent, and [j] times asked about. *)
Lemma sent_ok h sequence fee data auth hash j (r : Ended string) :
  (length h <= 2)%nat -> List.filter is_send h = [] -> 0 <= fee <= max_fee_stroops c ->
  (j <= 30)%nat ->
  let sent := send_call (result_envelope sequence fee data auth) in
  (forall x, r = Value_ x -> x = hash /\ exists i, j = S i /\
     confirmed hash ((h ++ [sent]) ++ replicate i (poll_call hash))) ->
  submission_ok ((h ++ [sent]) ++ replicate j (poll_call hash)) r.
Proof.
  intros Hl Hf Hfee Hj sent Hr.
  assert (Hpolls : List.filter is_send (replicate j (poll_call hash)) = []) by (clear; by induction j).
  split_and!.
  - rewrite !length_app, length_replicate. cbn. lia.
  - rewrite !List.filter_app, Hf, Hpolls. cbn. lia.
  - intros call Hin Hs. rewrite !in_app_iff in Hin. destruct Hin as [[Hin|[<-|[]]]|Hin].
    + by destruct (unsent_call h call Hf Hin Hs).
    + by exists sequence, fee, data, auth.
    + by destruct (unsent_call _ call Hpolls Hin Hs).
  - intros x Hx. destruct (Hr x Hx) as (-> & i & -> & Hc). exists h, sent, i.
    rewrite <-!app_assoc in Hc |- *. done.
Qed.

Lemma send_ok h sequence fee data auth :
  (length h <= 2)%nat -> List.filter is_send h = [] -> 0 <= fee <= max_fee_stroops c ->
  let k := tx_hash ← send_transaction (result_envelope sequence fee data auth);
           _ ← await_confirmation (Auth := Auth) (Data := Data) tx_hash; mret tx_hash in
  submission_ok (k h).1 (k h).2.
Proof.
  intros Hl Hf Hfee k. subst k. set (e := result_envelope sequence fee data auth).
  assert (Hnone : forall r : Ended string, (forall x, r <> Value_ x) -> submission_ok (h ++ [send_call e]) r).
  { intros r Hr. pose proof (sent_ok h sequence fee data auth "" 0 r Hl Hf Hfee ltac:(lia)) as Hs.
    cbn in Hs. rewrite app_nil_r in Hs. apply Hs. intros x Hx. by destruct (Hr x). }
  rewrite bind_history, send_history. destruct (send_transaction e h).2 as [hash|err|];
    [|by apply Hnone..].
  rewrite bind_history. unfold await_confirmation.
  destruct (poll_history hash max_polls (h ++ [send_call e])) as (j & Hj & Hh & Hok). rewrite Hh.
  destruct (poll_confirmation hash max_polls _).2 as [[]|err|]; apply sent_ok; try done.
  intros x [= <-]. split; [done|]. by apply Hok.
Qed.

Lemma checked_fee_spec text h :
  (checked_fee c text h).1 = h /\
  forall fee, (checked_fee c text h).2 = Value_ fee -> 0 <= fee <= max_fee_stroops c.
Proof.
  unfold checked_fee. rewrite bind_history. unfold add_i64. cbn [fst snd].
  destruct (in_range i64_min i64_max _); [|done]. destruct (in_range 0 u32_max _) eqn:Hr; [|done].
  cbn [negb]. destruct (Z.ltb_spec (max_fee_stroops c) (100000 + default 0 (parse_i64 text))); [done|].
  split; [done|]. intros fee [= <-]. unfold in_range in Hr. zbool. lia.
Qed.

(** C19: whatever the server answers, submitting a result makes at most one
    [sendTransaction], for a call of [submit_result] with exactly this match and winner,
    signed with the service's key, at a fee within the configured maximum; it makes at
    most 33 requests in all; and it reports success only after the server confirmed the
    transaction. *)
Theorem submit_sends_once :
  let '(h, r) := client_submit_result c match_id winner signing_key [] in submission_ok h r.
Proof.
  enough (Hk : forall k, k = client_submit_result c match_id winner signing_key [] ->
    submission_ok k.1 k.2).
  { specialize (Hk _ eq_refl). by destruct (client_submit_result c match_id winner signing_key []). }
  intros k ->. unfold client_submit_result. cbn [build_invoke_op].
  rewrite bind_history, sequence_history. cbn [app].
  destruct (get_account_sequence _ []).2 as [sequence|err|]; [|by apply unsent_ok; [cbn; lia|..]..].
  rewrite bind_history. unfold add_i64. cbn [fst snd].
  destruct (in_range i64_min i64_max (sequence + 1)); [|by apply unsent_ok; [cbn; lia|..]].
  rewrite bind_history, simulate_history. cbn [app].
  match goal with |- context [build_transaction ?p ?n ?o ?f] => set (tx := build_transaction p n o f) end.
  destruct (simulate_transaction tx _).2 as [sim|err|]; [|by apply unsent_ok; [cbn; lia|..]..].
  destruct (checked_fee_spec (min_resource_fee sim)
    [("getAccount"%string, VObject [("address", VString (account_strkey (verifying_key signing_key)))]);
     ("simulateTransaction"%string, VObject [("transaction", VString (tx_to_base64 tx))])]) as [Hh Hfee].
  rewrite bind_history, Hh. destruct (checked_fee c _ _).2 as [fee|err|];
    [|by apply unsent_ok; [cbn; lia|..]..].
  rewrite bind_history. cbn [lift fst snd].
  destruct (decode_soroban_data _) as [err|data]; [by apply unsent_ok; [cbn; lia|..]|].
  rewrite bind_history. cbn [lift fst snd].
  destruct (decode_auth_entries _) as [err|auth]; [by apply unsent_ok; [cbn; lia|..]|].
  apply send_ok; [cbn; lia|reflexivity|by apply Hfee].
Qed.
End Submitting.

(** ** What the contract makes of the winner *)

(** A variant without fields, as the SDK encodes it (and [decode_platform] reads it). *)
Definition enum_variant (name : string) : ScVal := ScVec (Some [ScSymbol name]).

(** The winner is sent as a bare symbol, which is no variant of the contract's [Winner]. *)
Lemma winner_not_a_variant winner name : winner_to_sc_val winner <> enum_variant name.
Proof. by destruct winner. Qed.

(** ** Instances *)

Definition sample_match : ScVal :=
  ScMap (Some [(ScSymbol "game_id", ScString "abcdefgh"); (ScSymbol "id", ScU64 7);
               (ScSymbol "platform", enum_variant "Lichess"); (ScSymbol "state", enum_variant "Active")]).
Definition sample_view (contract : list Z) (function : string) (args : list ScVal) : ScVal :=
  if String.eqb function "get_active_matches_paginated" then
    match args with
    | ScU32 0 :: _ => ScVec (Some [sample_match])
    | _ => ScVec (Some [])
    end
  else ScBool false.
Definition sample_text (v : ScVal) : string :=
  match v with
  | ScVec (Some []) => "e"
  | ScVec _ => "p"
  | _ => "f"
  end.

#[local] Instance sample_libraries : Libraries unit unit := {|
  sha256 l := l;
  verifying_key l := l;
  sign k l := k ++ l;
  contract_from_strkey s := inr [1];
  account_strkey _ := "G"%string;
  tx_to_xdr _ := [];
  tx_to_base64 tx :=
    if String.eqb (op_function (tx_operation tx)) "get_active_matches_paginated"
    then match op_args (tx_operation tx) with ScU32 0 :: _ => "p" | _ => "e" end else "f"%string;
  envelope_to_base64 _ := "envelope"%string;
  scval_from_base64 s :=
    Some (if String.eqb s "p" then ScVec (Some [sample_match])
          else if String.eqb s "e" then ScVec (Some []) else ScBool false);
  data_from_base64 _ := Some tt;
  empty_data := tt;
  auth_from_base64 _ := Some tt;
  show_json _ := EmptyString
|}.

(** A server with one active match and no result. *)
#[local] Instance sample_rpc : Rpc unit := fun method params w =>
  (w, if String.eqb method "getAccount"
      then Answer (VObject [("result", VObject [("sequence", VString "41")])])
      else Answer (VObject [("result", VObject [("results", VArray [VObject
             [("xdr", VString (default EmptyString (text_field "transaction" params)))]])])])).

Lemma sample_truthful : TruthfulRpc unit unit unit sample_view sample_text.
Proof.
  assert (Hview : forall c f args, sample_view c f args = ScVec (Some [sample_match]) \/
    sample_view c f args = ScVec (Some []) \/ sample_view c f args = ScBool false).
  { intros c f args. unfold sample_view. repeat case_match; auto. }
  constructor.
  - intros c f args. by destruct (Hview c f args) as [-> | [-> | ->]].
  - intros address w. exists "41"%string, 41. split_and!; [reflexivity|reflexivity|by vm_compute|by vm_compute].
  - intros tx w. cbn. do 10 f_equal. unfold sample_view, sample_text.
    destruct (String.eqb _ _); [|done]. by destruct (op_args (tx_operation tx)) as [|[] ?]; repeat case_match.
Qed.


(** A transaction the server accepted but did not confirm within a minute is reported
    as failed, although it may still be applied. *)
Example unconfirmed_reported_failed :
  let answers := fun (h : History) (method : string) (params : Value) =>
    Answer (VObject [("result", VObject
      (if String.eqb method "getAccount" then [("sequence", VString "41")]
       else if String.eqb method "sendTransaction" then [("status", VString "PENDING"); ("hash", VString "ab")]
       else if String.eqb method "getTransaction"
       then [("status", VString (if Nat.ltb (length h) 33 then "NOT_FOUND" else "SUCCESS"))] else []))]) in
  let c := mkSorobanClient "net" [2] 1000000 in
  let '(h, r) := client_submit_result (H0 := strategy_rpc answers) c 7 Player1 [5] [] in
  r = Error_ (TxFailed "transaction ab did not confirm within 60s") /\ length h = 33%nat /\
  confirmed answers "ab" h.
Proof. vm_compute. split_and!; try reflexivity. eexists. split_and!; reflexivity. Qed.
