(* ===== verification/ClientSpec.v ===== *)
(** What the platform clients promise: the request loop ends, and a batch of Lichess
    games gets the answers that single requests would get. *)
From stdpp Require Import base list strings gmap.
From Stdlib Require Import ZArith Lia.
From S2P Require Import Prelude Text OracleTypes Tasks ServiceTypes Clients.

Local Open Scope Z_scope.

(** ** The Chess.com request loop ends *)

Section Requests.
Context {C W : Type} `{Http W}.

Lemma request_total fuel game_id n a (s : Service C W) :
  (MAX_RETRIES - n + (1 - a) < fuel)%nat ->
  value (chess_com_request fuel game_id n a) s <> None.
Proof.
  revert n a s. induction fuel as [|fuel IH]; intros n a s Hf; [lia|]. cbn [chess_com_request].
  rewrite value_tbind, exec_atomic, value_atomic.
  destruct (chess_com_game _ _ _) as [w [e|resp]]; cbn [fst snd]; [done|].
  destruct (_ && _) eqn:E.
  - zbool. apply Nat.eqb_eq in H1. rewrite value_tbind. apply IH. lia.
  - destruct (_ || _) eqn:E2; [done|]. zbool. apply Nat.leb_gt in H1.
    rewrite value_tbind. apply IH. lia.
Qed.

(** the request loop of the Chess.com client ends after at most five requests
    (three retries after a 429, one after a 401, and the last), whatever the server
    answers; so [fetch_result] always has a result, and a 429 that outlasts the
    retries is reported as such. *)
Theorem chess_com_fetch_total game_id (s : Service C W) :
  value (chess_com_request request_fuel game_id 0 0) s <> None /\
  (forall resp, value (chess_com_request request_fuel game_id 0 0) s = Some (inr resp) ->
     status resp = TOO_MANY_REQUESTS -> chess_com_validate_game_id game_id = inr tt ->
     value (chess_com_fetch_result game_id) s = inl (C_HttpStatus TOO_MANY_REQUESTS)).
Proof.
  split; [apply request_total; unfold MAX_RETRIES, request_fuel; lia|].
  intros resp Hr Hs Hv. unfold chess_com_fetch_result. rewrite Hv, value_tbind, Hr, value_return.
  by rewrite Hs.
Qed.
End Requests.

(** ** Batches of Lichess games *)

(** A site with a fixed set of games, as the two export endpoints document it: a
    single export answers 404 for an unknown game, and a batch export lists the known
    ones among the requested, each once. *)
Class LichessSite (W : Type) `{Http W} (site : string -> option LichessGame) : Prop := {
  site_id id g : site id = Some g -> lg_id g = Some id;
  site_single id w :
    match site id with
    | Some g => exists h, snd (lichess_game_export id w) = inr (mkResponse OK h (inr g))
    | None => exists h b, snd (lichess_game_export id w) = inr (mkResponse NOT_FOUND h b)
    end;
  site_batch ids w : exists h lines,
    snd (lichess_export_ids ids w) = inr (mkResponse OK h (inr lines)) /\
    (forall line, line ∈ lines -> line = NdBlank \/
       exists id g, line = NdGame g /\ id ∈ ids /\ site id = Some g) /\
    (forall id g, id ∈ ids -> site id = Some g -> NdGame g ∈ lines)
}.

Section Batch.
Context {C W : Type} `{Http W} (site : string -> option LichessGame) `{!LichessSite W site}.
Implicit Types s : Service C W.

(** The answer to one game. *)
Definition answer (id : string) : LichessError + Winner :=
  match lichess_validate_game_id id with
  | inl e => inl e
  | inr _ => match site id with Some g => game_result g | None => inl L_GameNotFound end
  end.

Lemma fetch_result_answer id s : value (lichess_fetch_result id) s = answer id.
Proof.
  unfold lichess_fetch_result, answer. destruct (lichess_validate_game_id id); [done|].
  rewrite value_tbind, value_return. unfold remote. rewrite value_atomic.
  pose proof (site_single id (net s)) as Hs. destruct (site id) as [g|].
  - destruct Hs as [h Hs]. destruct (lichess_game_export _ _) as [w r]; cbn in *. by subst r.
  - destruct Hs as (h & b & Hs). destruct (lichess_game_export _ _) as [w r]; cbn in *. by subst r.
Qed.

(** The index of a batch body finds exactly the requested games of the site. *)
Lemma index_games_spec (ids : list string) lines games0 :
  (forall line, line ∈ lines -> line = NdBlank \/
     exists id g, line = NdGame g /\ id ∈ ids /\ site id = Some g) ->
  exists games, index_games lines games0 = inr games /\
    (forall id, games !! id = site id \/ games !! id = games0 !! id) /\
    (forall id g, NdGame g ∈ lines -> site id = Some g -> games !! id = Some g).
Proof.
  revert games0. induction lines as [|line lines IH]; intros games0 Hl; cbn [index_games].
  { exists games0. split_and!; [done|by right|]. intros id g Hin. by apply elem_of_nil in Hin. }
  assert (Hl' := fun x Hx => Hl x (list_elem_of_further x line lines Hx)).
  destruct (Hl line (list_elem_of_here _ _)) as [->|(id0 & g0 & -> & _ & Hs0)].
  - destruct (IH games0 Hl') as (games & Hg & H1 & H2). exists games. split_and!; [done|done|].
    intros id g [?|Hin]%elem_of_cons; [done|by apply H2].
  - rewrite (site_id _ _ Hs0). destruct (IH (<[id0 := g0]> games0) Hl') as (games & Hg & H1 & H2).
    exists games. split_and!; [done| |].
    + intros id. destruct (H1 id) as [?|Hid]; [by left|]. rewrite Hid.
      destruct (decide (id = id0)) as [->|Hne]; [rewrite lookup_insert_eq; by left|].
      rewrite lookup_insert_ne by done. by right.
    + intros id g Hin Hs. apply elem_of_cons in Hin as [Heq|Hin]; [|by apply H2].
      injection Heq as ->. pose proof (site_id _ _ Hs) as Hid1. pose proof (site_id _ _ Hs0) as Hid2.
      rewrite Hid1 in Hid2. injection Hid2 as ->.
      destruct (H1 id0) as [Hg0|Hg0]; rewrite Hg0; [done|by rewrite lookup_insert_eq].
Qed.

Lemma record_chunk_lookup games chunk results id :
  record_chunk games chunk results !! id =
  if decide (id ∈ chunk) then Some (batch_game_result games id) else results !! id.
Proof.
  unfold record_chunk. revert results. induction chunk as [|x chunk IH]; intros results; cbn.
  - by rewrite decide_False by apply not_elem_of_nil.
  - rewrite IH. destruct (decide (id ∈ chunk)) as [Hin|Hin].
    + by rewrite decide_True by (by right).
    + destruct (decide (id = x)) as [->|Hne].
      * rewrite lookup_insert_eq, decide_True by left. done.
      * rewrite lookup_insert_ne by done. by rewrite decide_False by set_solver.
Qed.

(** All ids of the chunks get their answer; the others keep theirs. *)
Lemma fetch_chunks_spec cs results s :
  (forall chunk id, chunk ∈ cs -> id ∈ chunk -> lichess_validate_game_id id = inr tt) ->
  exists results', value (fetch_chunks cs results) s = inr results' /\
    forall id, results' !! id =
      if decide (id ∈ concat cs) then Some (answer id) else results !! id.
Proof.
  revert results s. induction cs as [|chunk cs IH]; intros results s Hv; cbn [fetch_chunks concat].
  { exists results. split; [done|]. intros id. by rewrite decide_False by apply not_elem_of_nil. }
  destruct (site_batch chunk (net s)) as (h & lines & Hsend & Hsound & Hcomplete).
  assert (Hx : value (export_games chunk) s = inr lines).
  { unfold export_games. rewrite value_tbind, value_return. unfold remote. rewrite value_atomic.
    destruct (lichess_export_ids _ _) as [w r]; cbn in *. by subst r. }
  rewrite (value_tbind_ok _ _ _ _ Hx).
  destruct (index_games_spec chunk lines ∅ Hsound) as (games & Hig & H1 & H2). rewrite Hig.
  destruct (IH (record_chunk games chunk results) (exec (export_games chunk) s))
    as (results' & Hf & Hr); [intros; eapply Hv; [by right|done]|].
  exists results'. split; [exact Hf|]. intros id. rewrite Hr, record_chunk_lookup.
  destruct (decide (id ∈ concat cs)) as [Hin|Hin].
  - by rewrite decide_True by set_solver.
  - destruct (decide (id ∈ chunk)) as [Hc|Hc]; [|by rewrite decide_False by set_solver].
    rewrite decide_True by set_solver. f_equal. unfold answer, batch_game_result.
    rewrite (Hv chunk id (list_elem_of_here _ _) Hc).
    destruct (site id) as [g|] eqn:Hs; [by rewrite (H2 id g (Hcomplete id g Hc Hs) Hs)|].
    destruct (H1 id) as [Hg|Hg]; rewrite Hg; [by rewrite Hs|done].
Qed.

Lemma chunks_concat {A} n (l : list A) : (0 < n)%nat -> concat (chunks n l) = l.
Proof.
  intros Hn. unfold chunks. enough (forall fuel l, (length l <= fuel)%nat ->
    concat (chunks_fuel fuel n l) = l) as Hf by by apply Hf.
  clear l. induction fuel as [|fuel IH]; intros l Hl.
  - by destruct l; [|cbn in Hl; lia].
  - destruct l as [|x l]; [done|]. cbn [chunks_fuel concat]. rewrite IH; [apply take_drop|].
    rewrite length_drop. cbn in *. lia.
Qed.

Lemma chunks_length {A} n (l : list A) chunk :
  chunk ∈ chunks n l -> (length chunk <= n)%nat.
Proof.
  unfold chunks. generalize (length l) as fuel. intros fuel. revert l.
  induction fuel as [|fuel IH]; intros l; [by destruct l; intros ?%elem_of_nil|].
  destruct l as [|x l]; [by intros ?%elem_of_nil|]. cbn [chunks_fuel].
  intros [->|Hin]%elem_of_cons; [rewrite length_take; lia|by eapply IH].
Qed.

(** The first pass: every id is either valid and kept or answered with its error. *)
Lemma split_valid_spec ids results valid :
  (forall id, id ∈ valid -> lichess_validate_game_id id = inr tt) ->
  (forall id e, results !! id = Some e -> e = answer id) ->
  let '(results', valid') := split_valid ids results valid in
  (forall id, id ∈ valid' -> lichess_validate_game_id id = inr tt) /\
  (forall id e, results' !! id = Some e -> e = answer id) /\
  (forall id, id ∈ valid' \/ is_Some (results' !! id) <->
              id ∈ ids \/ id ∈ valid \/ is_Some (results !! id)).
Proof.
  revert results valid. induction ids as [|x ids IH]; intros results valid Hv Hr; cbn [split_valid].
  { split_and!; [done|done|]. set_solver. }
  destruct (bool_decide (is_Some _) || bool_decide (x ∈ valid)) eqn:E.
  - specialize (IH results valid Hv Hr). destruct (split_valid ids results valid) as [r' v'].
    destruct IH as (H1 & H2 & H3). split_and!; [done|done|]. intros id. rewrite H3, elem_of_cons.
    apply orb_true_iff in E as [E|E]; zbool; naive_solver.
  - destruct (lichess_validate_game_id x) as [e|[]] eqn:Ex.
    + specialize (IH (<[x := inl e]> results) valid Hv).
      destruct (split_valid ids _ valid) as [r' v']. destruct IH as (H1 & H2 & H3).
      { intros id e'. destruct (decide (id = x)) as [->|Hne].
        - rewrite lookup_insert_eq. intros [= <-]. unfold answer. by rewrite Ex.
        - rewrite lookup_insert_ne by done. apply Hr. }
      split_and!; [done|done|]. intros id. rewrite H3, elem_of_cons.
      destruct (decide (id = x)) as [->|Hne].
      * rewrite lookup_insert_eq. naive_solver.
      * rewrite lookup_insert_ne by done. naive_solver.
    + specialize (IH results (valid ++ [x])). destruct (split_valid ids results _) as [r' v'].
      destruct IH as (H1 & H2 & H3).
      { intros id [Hin|Hin]%elem_of_app; [by apply Hv|]. by apply list_elem_of_singleton in Hin as ->. }
      { done. }
      split_and!; [done|done|]. intros id. rewrite H3, elem_of_cons, elem_of_app, list_elem_of_singleton.
      naive_solver.
Qed.


End Batch.
