(* ===== verification/ServiceScenarios.v ===== *)
(** Concrete runs of the oracle service: a small world of platforms and chain, the
    runs that show what can go wrong when the background tasks overlap or a store is
    unreadable, and instances of the theorems. *)
From stdpp Require Import base list strings gmap.
From Stdlib Require Import ZArith Lia Ascii.
From S2P Require Import Prelude Text OracleTypes Tasks ServiceTypes ServiceStores ResultCache.
From S2P Require Import Clients Providers Poller ServiceSafety ServiceProgress.
From S2P Require Import ServiceDiscovery ClientSpec Guards.

Local Open Scope string_scope.
Local Open Scope list_scope.
Local Open Scope Z_scope.

(** ** A small world

    Its state is the list of results submitted so far.  Lichess knows one finished
    and one running game; every Chess.com game was won by white; the chain has two
    active matches, and refuses submissions for match 1. *)

Module Lab.

Definition W : Type := list (Z * Winner).

Definition site (id : string) : option LichessGame :=
  if decide (id = "finished") then Some (mkLichessGame (Some "finished") (Some "mate") (Some "black"))
  else if decide (id = "underway") then Some (mkLichessGame (Some "underway") (Some "started") None)
  else None.

#[export] Instance http : Http W := {
  lichess_game_export id w :=
    (w, inr match site id with
            | Some g => mkResponse OK None (inr g)
            | None => mkResponse NOT_FOUND None (inl "")
            end);
  lichess_export_ids ids w :=
    (w, inr (mkResponse OK None (inr (NdBlank ::
      omap (fun id => NdGame <$> site id) ids))));
  chess_com_game key id w :=
    (w, inr (mkResponse OK None (inr (mkChessComGame None (Some (Some "white"))))));
  env_api_key w := None
}.

Definition actives : list ActiveMatch :=
  [mkActiveMatch 2 "7654321" ChessDotCom; mkActiveMatch 5 "finished" Lichess].

#[export] Instance chain : Chain W := {
  get_active_matches_paginated offset limit w :=
    (w, inr (take (Z.to_nat limit) (drop (Z.to_nat offset) actives)));
  chain_has_result id w := (w, inr (bool_decide (id ∈ map fst w)));
  chain_submit_result id winner w :=
    if id =? 1 then (w, inl (TxFailed "refused")) else (w ++ [(id, winner)], inr "tx")
}.

#[export] Instance text : PollerText := {
  validate_lichess_game_id id :=
    match lichess_validate_game_id id with inl _ => inl "bad id" | inr _ => inr tt end;
  validate_chess_com_game_id id :=
    match chess_com_validate_game_id id with inl _ => inl "bad id" | inr _ => inr tt end;
  classify_lichess_error e :=
    match e with L_GameNotFound => Permanent "not found" | _ => Transient "try again" end;
  classify_lichess_error_ref e :=
    match e with L_GameNotFound => Permanent "not found" | _ => Transient "try again" end;
  classify_chess_com_error e :=
    match e with C_GameNotFound => Permanent "not found" | _ => Transient "try again" end;
  lichess_error_text e := "lichess";
  service_error_text e := "chain";
  id_too_long_text n := "too long"
}.

Definition cfg : PollerConfig := mkPollerConfig 3 10.

Definition entry (id : Z) (game : string) (p : Platform) : PendingEntry := Pending.new 0 id game p.

Definition start (queue : list PendingEntry) : Service Lru.t W :=
  mkService [] [] 0 (Holds queue) Missing Missing Missing cache_with_defaults [] None 0 0 [].

Definition run_jobs (schedule : list nat) (jobs : list Job) (s : Service Lru.t W)
  : Service Lru.t W := fst (interleave schedule (map (job_task cfg) jobs) s).

End Lab.

Import Lab.

(** ** Overlapping tasks *)

Definition one_due : Service Lru.t W := start [entry 2 "7654321" ChessDotCom].

(** the stores have no lock across a read and the write that depends on it, so
    tasks that overlap undo each other.  From one due Chess.com entry: a tick that
    removes the completed entry drops the match that a reconciliation has queued in
    between; a reconciliation that overlaps the removal puts the completed entry
    back; and the Chess.com loop, run beside the main one, submits the result a
    second time, although one after the other they submit it once. *)
Theorem overlapping_tasks :
  (exists schedule,
     let s := run_jobs (schedule ++ repeat 0%nat 60 ++ repeat 1%nat 60) [JTick; JReconcile 2] one_due in
     net s = [(2, Player1)] /\ queue_of s = [] /\ dead_ids s = []) /\
  (exists schedule,
     let s := run_jobs (schedule ++ repeat 0%nat 60 ++ repeat 1%nat 60) [JTick; JReconcile 2] one_due in
     net s = [(2, Player1)] /\ map pe_match_id (queue_of s) = [2; 5]) /\
  (exists schedule, net (run_jobs schedule [JTick; JTickChessCom] one_due)
    = [(2, Player1); (2, Player1)]) /\
  net (run_jobs (repeat 0%nat 60 ++ repeat 1%nat 60) [JTick; JTickChessCom] one_due)
    = [(2, Player1)].
Proof.
  split_and!.
  - exists (repeat 0 11 ++ repeat 1 60)%nat. by vm_compute.
  - exists (repeat 0 5 ++ repeat 1 8)%nat. by vm_compute.
  - exists (repeat 0 5 ++ repeat 1 60 ++ repeat 0 60)%nat. by vm_compute.
  - by vm_compute.
Qed.

(** ** Unreadable stores *)

Section Unreadable.
Context {C W : Type} `{LruCache C} `{Http W} `{Chain W} `{PollerText}.
Implicit Types s : Service C W.

(** on a disk that works but for one unreadable file: an exhausted entry whose
    dead-letter file does not parse is removed from the queue all the same, and is
    then in neither store; and a submission log that does not parse is replaced by
    the one record being appended. *)
Theorem unreadable_stores s e r :
  faults s = [] -> readable (pending_file s) ->
  (dead_letter_file s = Corrupt ->
   let s' := exec (exhaust_entry e) s in
   queue_of s' = without_id (pe_match_id e) (queue_of s) /\ dead_letter_file s' = Corrupt) /\
  (submissions_file s = Corrupt ->
   submissions_file (exec (submissions_append r) s) = Holds [r]).
Proof.
  intros Hf Hr. split.
  - intros Hd. cbv zeta. unfold exhaust_entry, logged. rewrite !exec_tbind, !exec_return.
    assert (Hp : quiet s (exec (dead_letter_push e) s) /\
                 faults (exec (dead_letter_push e) s) = [] /\
                 dead_letter_file (exec (dead_letter_push e) s) = Corrupt).
    { unfold dead_letter_push. rewrite exec_tbind. pose proof (quiet_now s) as Hq.
      set (s1 := exec now s) in *. assert (Hf1 : faults s1 = []) by (destruct Hq as (-> & _); done).
      assert (Hd1 : dead_letter_file s1 = Corrupt) by (destruct Hq as (_ & _ & -> & _); done).
      unfold dead_letter_load, read_file, tbind_ok. cbv zeta. rewrite !exec_tbind, !value_tbind.
      rewrite !exec_atomic, !value_atomic, Hd1, os_call_calm by done. cbn. by split_and!. }
    destruct Hp as (Hq & Hf1 & Hd1). set (s1 := exec (dead_letter_push e) s) in *.
    rewrite <-(quiet_queue _ _ Hq).
    assert (Hr1 : readable (pending_file s1)) by (destruct Hq as (_ & -> & _); done).
    by destruct (remove_ready (pe_match_id e) s1 Hf1 Hr1) as [-> _].
  - intros Hs.
    assert (Hl : exec (submissions_load (C := C) (W := W)) s = s /\
                 exists msg, value (submissions_load (C := C) (W := W)) s = inl (QueueIo msg)).
    { unfold submissions_load, read_file, tbind_ok. rewrite exec_tbind, value_tbind.
      rewrite exec_atomic, value_atomic, Hs, os_call_calm by done. cbn. by split; [|eexists]. }
    destruct Hl as [Hlx [msg Hlv]]. unfold submissions_append. rewrite exec_tbind, Hlx, Hlv.
    assert (Hv : value (os_step (C := C) (W := W)) s = inr tt)
      by (unfold os_step; by rewrite value_atomic, os_call_calm).
    cbv zeta. rewrite (exec_tbind_ok _ _ _ _ Hv). unfold os_step, rename_into.
    rewrite !exec_atomic, (os_call_calm s) by done. cbn. by rewrite (os_call_calm s).
Qed.
End Unreadable.

(** ** Instances of the theorems *)

#[export] Instance lab_unthrottled : Unthrottled W.
Proof.
  split; cbn.
  - intros g w resp. destruct (site g); by intros [= <-].
  - intros ids w resp. by intros [= <-].
  - intros k g w resp. by intros [= <-].
Qed.

(** Matches 1 (a running game), 2 (its game id is malformed) and 3 (a finished game). *)
Definition backlog : Service Lru.t W :=
  start [entry 1 "underway" Lichess; entry 2 "x" ChessDotCom; entry 3 "finished" Lichess].

Definition hours : list Z := repeat (3600 * second) 3.



#[export] Instance lab_site : LichessSite W site.
Proof.
  split.
  - intros id g. unfold site. repeat case_decide; by intros [= <-]; subst.
  - intros id w. cbn. destruct (site id); repeat eexists.
  - intros ids w. cbn. eexists _, _. split_and!; [done| |].
    + intros line [->|Hin]%elem_of_cons; [by left|]. right.
      apply list_elem_of_omap in Hin as (id & Hid & Hs).
      destruct (site id) as [g|] eqn:E; [|done]. injection Hs as <-. by exists id, g.
    + intros id g Hid Hs. right. apply list_elem_of_omap. exists id. by rewrite Hs.
Qed.


Lemma cache_sound_witness :
  snd (lookup_result 70 ("lichess", "b")
    (cache_ops (C := Lru.t) 60 [OpInsert 5 ("lichess", "a") Draw; OpInsert 20 ("lichess", "b") Player1]
       (cache_new 1))) = Some Player1 /\
  exists t0, Some (Player1, 20) = Some (Player1, t0) /\ 70 < t0 + 60.
Proof.
  split; [done|].
  apply (cache_sound (C := Lru.t) 60 1
    [OpInsert 5 ("lichess", "a") Draw; OpInsert 20 ("lichess", "b") Player1] 70 ("lichess", "b") Player1).
  done.
Defined.

(** A provider that does not know the game. *)
Definition unknowing : GameProvider unit :=
  mkGameProvider "p" (fun _ => Return (inl P_GameNotFound))
    (default_batch (fun _ => Return (inl P_GameNotFound))).

Lemma registry_batch_masks_errors_witness :
  value (registry_fetch_result [unknowing] "g") tt = inl P_GameNotFound /\
  value (registry_fetch_results_batch [unknowing] ["g"]) tt = [("g", inr Draw)].
Proof.
  destruct (registry_batch_masks_errors [unknowing] [fun _ => inl P_GameNotFound] ["g"] tt)
    as [H1 H2].
  - constructor; [|constructor]. split; [done|]. intros ids s. by apply default_batch_value.
  - intros a id e ->%list_elem_of_singleton [= <-]. done.
  - split; [apply H1|exact H2].
Defined.

(** Twenty requests at the end of one window and twenty at the start of the next. *)
Definition request : Waf.HttpRequest := Waf.mkHttpRequest "/health" None None None.
Definition straddle : list Waf.Event :=
  Waf.Request 0 0 request :: repeat (Waf.Request 900000000 900000000 request) 19 ++
  repeat (Waf.Request 1000000000 1000000000 request) 25.

Definition no_ip (x : string) : option IpAddr := None.
Definition no_text (ip : IpAddr) : string := "".

Lemma burst_bound_witness :
  Waf.within_second 900000000 (Waf.passed no_ip no_text "127.0.0.1" straddle ∅) = 39%nat /\
  Z.of_nat (Waf.within_second 900000000 (Waf.passed no_ip no_text "127.0.0.1" straddle ∅)) <= 40.
Proof.
  split; [by vm_compute|].
  apply (burst_bound no_ip no_text "127.0.0.1" 900000000 0 straddle). cbn. lia.
Defined.

Definition ten (x : string) : option IpAddr :=
  if decide (x = "10.0.0.0") then Some (V4 167772160) else None.

Lemma allowlist_exact_witness :
  ip_wf (V4 167837953) /\
  Allowlist.admin_ip_allowlist_middleware
    (Allowlist.from_str ten "bad, 10.0.0.0/8") (V4 167837953) = None.
Proof.
  assert (Hip : ip_wf (V4 167837953)) by done. split; [done|].
  destruct (allowlist_exact ten ltac:(intros s ip; unfold ten; case_decide; by intros [= <-])
    "bad, 10.0.0.0/8" (V4 167837953) Hip) as [[_ Hallow] _].
  apply Hallow. exists "10.0.0.0/8", (Allowlist.mkCidrRange (V4 167772160) 8).
  split_and!; [|done|done|done]. cbn. set_solver.
Defined.

Lemma unreadable_stores_witness :
  let s := (start [entry 4 "x" Lichess]) <| dead_letter_file := Corrupt |> in
  queue_of (exec (exhaust_entry (entry 4 "x" Lichess)) s) = [].
Proof.
  destruct (unreadable_stores ((start [entry 4 "x" Lichess]) <| dead_letter_file := Corrupt |>)
    (entry 4 "x" Lichess) (mkSubmissionRecord 0 "" "" "" 0 "")) as [Hd _]; [done|done|].
  apply Hd. done.
Defined.

(** A chain that does not change. *)
Module Frozen.
Definition actives : list ActiveMatch :=
  [mkActiveMatch 2 "7654321" ChessDotCom; mkActiveMatch 5 "finished" Lichess;
   mkActiveMatch 6 "underway" Lichess].
Definition resolved (id : Z) : bool := id =? 6.

#[global] Instance chain : Chain unit := {
  get_active_matches_paginated offset limit w :=
    (w, inr (take (Z.to_nat limit) (drop (Z.to_nat offset) actives)));
  chain_has_result id w := (w, inr (resolved id));
  chain_submit_result id winner w := (w, inr "tx")
}.

#[global] Instance stable : StableChain unit actives resolved.
Proof. by split. Qed.

Definition disk : Service Lru.t unit :=
  mkService [] [] 0 Missing Missing Missing Missing cache_with_defaults [] None 0 0 tt.
End Frozen.

