(* ===== verification/ServiceOps.v ===== *)
(** Running the oracle service: its configuration ([config.rs]), the health checks
    ([health.rs], with the probes of the clients), the authentication of [/metrics]
    ([metrics.rs]), the slash relay ([slash_relay.rs]) and the HTTP application
    ([main.rs]); then what they promise: what a configuration that loads holds, that
    its secrets never reach the log, who can read the metrics, what the health endpoint
    says, and that a request the firewall rejects costs no token.

    The environment is a function from names to values.  Hexadecimal, base64, the
    derivation of the oracle's address, [Debug] quoting and the probes' answers are
    parameters. *)
From stdpp Require Import base tactics list strings gmap pretty.
From Stdlib Require Import ZArith Lia Ascii.
From S2P Require Import Prelude Text Tasks ServiceTypes Clients Guards RateLimits ChainClient.

Local Open Scope string_scope.
Local Open Scope list_scope.
Local Open Scope Z_scope.

(** ** Configuration *)

Module Settings.

Inductive ConfigError :=
  | MissingVar (name : string)
  | InvalidValue (var reason : string).

Record OracleConfig := mkOracleConfig {
  rpc_url : string;
  network_passphrase : string;
  contract_escrow : string;
  contract_oracle : string;
  oracle_signing_key : list Z;
  oracle_address : string;
  lichess_api_token : option string;
  chessdotcom_api_key : option string;
  poll_interval_secs : Z;
  chessdotcom_poll_interval_secs : Z;
  max_retries : Z;
  retry_base_delay_secs : Z;
  queue_dir : string;
  reconciliation_interval_secs : Z;
  dead_letter_max_entries : Z;
  max_fee_stroops : Z;
  http_addr : string;
  metrics_auth_username : option string;
  metrics_auth_password : option string
}.

Abbreviation Env := (string -> option string).
Abbreviation Loaded A := (ConfigError + A)%type.

Notation "'let?' x := t 'in' k" :=
  (match t with inl e => inl e | inr x => k end) (at level 10, x name, t at level 200, k at level 200).

Definition require_env (env : Env) (name : string) : Loaded string :=
  match env name with Some v => inr v | None => inl (MissingVar name) end.

Definition parse_env (max : Z) (env : Env) (name : string) (dflt : Z) : Loaded Z :=
  match env name with
  | None => inr dflt
  | Some v => match parse_uint max v with
              | Some n => inr n
              | None => inl (InvalidValue name (parse_error max v))
              end
  end.
Definition parse_u64_env : Env -> string -> Z -> Loaded Z := parse_env u64_max.
Definition parse_u32_env : Env -> string -> Z -> Loaded Z := parse_env u32_max.
(** On a 64-bit target. *)
Definition parse_usize_env : Env -> string -> Z -> Loaded Z := parse_env u64_max.

(** [std::env::var(name).ok().filter(|s| !s.is_empty())]. *)
Definition non_empty (v : option string) : option string :=
  match v with Some "" => None | v => v end.

Definition network_passphrase_of (env : Env) : Loaded string :=
  match env "STELLAR_NETWORK_PASSPHRASE" with
  | Some p => inr p
  | None =>
      let network := default "testnet" (env "STELLAR_NETWORK") in
      if String.eqb network "mainnet" then inr "Public Global Stellar Network ; September 2015"
      else if String.eqb network "testnet" then inr "Test SDF Network ; September 2015"
      else if String.eqb network "futurenet" then inr "Test SDF Future Network ; October 2022"
      else if String.eqb network "standalone" || String.eqb network "local"
      then inr "Standalone Network ; February 2017"
      else inl (InvalidValue "STELLAR_NETWORK"
                  ("unknown network '" +:+ network +:+ "'; set STELLAR_NETWORK_PASSPHRASE directly"))
  end.

Section Load.
Context (hex_decode : string -> string + list Z) (stellar_address_from_seed : list Z -> string).

Definition decode_key_hex (hex_str : string) : Loaded (list Z) :=
  match hex_decode hex_str with
  | inl e => inl (InvalidValue "ORACLE_SIGNING_KEY" ("hex decode failed: " +:+ e))
  | inr bytes =>
      if negb (Nat.eqb (length bytes) 32)
      then inl (InvalidValue "ORACLE_SIGNING_KEY"
             ("expected 32 bytes (64 hex chars), got " +:+ pretty (length bytes) +:+ " bytes"))
      else inr bytes
  end.

Definition load (env : Env) : Loaded OracleConfig :=
  let? rpc_url := require_env env "STELLAR_RPC_URL" in
  let? network_passphrase := network_passphrase_of env in
  let? contract_escrow := require_env env "CONTRACT_ESCROW" in
  let? contract_oracle := require_env env "CONTRACT_ORACLE" in
  let? key_hex := require_env env "ORACLE_SIGNING_KEY" in
  let? seed := decode_key_hex key_hex in
  let oracle_address := stellar_address_from_seed seed in
  let? poll_interval_secs := parse_u64_env env "ORACLE_POLL_INTERVAL_SECS" 30 in
  let? chessdotcom_poll_interval_secs :=
    parse_u64_env env "ORACLE_CHESSDOTCOM_POLL_INTERVAL_SECS" 60 in
  let? max_retries := parse_u32_env env "ORACLE_MAX_RETRIES" 5 in
  let? retry_base_delay_secs := parse_u64_env env "ORACLE_RETRY_BASE_DELAY_SECS" 10 in
  let? reconciliation_interval_secs := parse_u64_env env "ORACLE_RECONCILIATION_INTERVAL_SECS" 60 in
  let? dead_letter_max_entries := parse_usize_env env "ORACLE_DEAD_LETTER_MAX_ENTRIES" 1000 in
  let? max_fee_stroops := parse_u32_env env "ORACLE_MAX_FEE_STROOPS" 1000000 in
  inr (mkOracleConfig rpc_url network_passphrase contract_escrow contract_oracle seed oracle_address
    (non_empty (env "LICHESS_API_TOKEN")) (non_empty (env "CHESSDOTCOM_API_KEY"))
    poll_interval_secs chessdotcom_poll_interval_secs max_retries retry_base_delay_secs
    (default "./oracle-queue" (env "ORACLE_QUEUE_DIR")) reconciliation_interval_secs
    dead_letter_max_entries max_fee_stroops (default "0.0.0.0:8000" (env "ORACLE_HTTP_ADDR"))
    (non_empty (env "METRICS_AUTH_USERNAME")) (non_empty (env "METRICS_AUTH_PASSWORD"))).
End Load.

(** [fmt] of [Debug], through [debug_struct]; [quote] is [Debug] of a string. *)
Definition debug_config (quote : string -> string) (c : OracleConfig) : string :=
  let set_or_none (o : option string) :=
    match o with Some _ => "Some(" +:+ quote "<set>" +:+ ")" | None => "None" end in
  "OracleConfig { rpc_url: " +:+ quote (rpc_url c) +:+
  ", network_passphrase: " +:+ quote (network_passphrase c) +:+
  ", contract_escrow: " +:+ quote (contract_escrow c) +:+
  ", contract_oracle: " +:+ quote (contract_oracle c) +:+
  ", oracle_signing_key: " +:+ quote "<redacted>" +:+
  ", oracle_address: " +:+ quote (oracle_address c) +:+
  ", lichess_api_token: " +:+ set_or_none (lichess_api_token c) +:+
  ", chessdotcom_api_key: " +:+ set_or_none (chessdotcom_api_key c) +:+
  ", poll_interval_secs: " +:+ pretty (poll_interval_secs c) +:+
  ", chessdotcom_poll_interval_secs: " +:+ pretty (chessdotcom_poll_interval_secs c) +:+
  ", max_retries: " +:+ pretty (max_retries c) +:+
  ", retry_base_delay_secs: " +:+ pretty (retry_base_delay_secs c) +:+
  ", queue_dir: " +:+ quote (queue_dir c) +:+
  ", reconciliation_interval_secs: " +:+ pretty (reconciliation_interval_secs c) +:+
  ", dead_letter_max_entries: " +:+ pretty (dead_letter_max_entries c) +:+
  ", max_fee_stroops: " +:+ pretty (max_fee_stroops c) +:+
  ", http_addr: " +:+ quote (http_addr c) +:+
  ", metrics_auth_username: " +:+ set_or_none (metrics_auth_username c) +:+
  ", metrics_auth_password: " +:+ quote "<redacted>" +:+ " }".

(** [load_dotenv]: the lines of a [.env] file, applied to the environment. *)
Definition dotenv_line (env : Env) (line : string) : Env :=
  let line := trim line in
  if String.eqb line "" || starts_with (chars line) (chars "#") then env
  else match split_once "=" line with
       | Some (key, val) =>
           match env (trim key) with
           | Some _ => env
           | None => fun name => if String.eqb name (trim key) then Some (trim val) else env name
           end
       | None => env
       end.
Definition load_dotenv (lines : list string) (env : Env) : Env := fold_left dotenv_line lines env.

End Settings.

(** ** Probes *)

Module Probes.

(** [Display] of the errors a probe can end with; [status_text] is that of a status
    code. *)
Definition service_error_text (e : OracleServiceError) : string :=
  match e with
  | Config m => "configuration error: " +:+ m
  | Transport m => "transport error: " +:+ m
  | RpcError m => "RPC error: " +:+ m
  | SimulateError m => "simulate transaction error: " +:+ m
  | ServiceTypes.SendError m => "send transaction error: " +:+ m
  | TxFailed m => "transaction failed on-chain: " +:+ m
  | XdrError m => "XDR encoding/decoding error: " +:+ m
  | QueueIo m => "queue I/O error: " +:+ m
  end.

Section Texts.
Context (status_text : Z -> string) (debug_duration : Z -> string).

Definition lichess_error_text (e : LichessError) : string :=
  match e with
  | L_InvalidGameId => "invalid lichess game id"
  | L_Http e => "http request failed: " +:+ e
  | L_Timeout => "request timed out"
  | L_RateLimited r => "rate limited by lichess; retry after " +:+ debug_duration r
  | L_ConcurrencyLimitReached => "concurrency limit reached for lichess"
  | L_HttpStatus s => "lichess returned non-success status: " +:+ status_text s
  | L_GameNotFound => "game not found"
  | L_GameNotFinished => "game result is not available yet"
  | L_InvalidResponse => "game is missing result fields or is in an unknown state"
  end.

Definition chess_com_error_text (e : ChessComError) : string :=
  match e with
  | C_InvalidGameId => "invalid chess.com game id"
  | C_Http e => "http request failed: " +:+ e
  | C_Timeout => "request timed out"
  | C_RateLimited r => "rate limited by chess.com; retry after " +:+ debug_duration r
  | C_ConcurrencyLimitReached => "concurrency limit reached for chess.com"
  | C_HttpStatus s => "chess.com returned non-success status: " +:+ status_text s
  | C_GameNotFound => "game not found"
  | C_InvalidResponse => "game is missing result fields or is in an unknown state"
  | C_GameNotFinished => "game result is not available yet"
  end.
End Texts.

(** [LichessClient::health_check] and [ChessComClient::health_check]: what becomes of
    the answer of the platform, a status or a failure to send. *)
Definition lichess_health_check (sent : SendError + Z) : LichessError + unit :=
  match sent with
  | inl TimedOut => inl L_Timeout
  | inl (SendFailed e) => inl (L_Http e)
  | inr status => if is_success status then inr tt else inl (L_HttpStatus status)
  end.
Definition chess_com_health_check (sent : SendError + Z) : ChessComError + unit :=
  match sent with
  | inl TimedOut => inl C_Timeout
  | inl (SendFailed e) => inl (C_Http e)
  | inr status => if is_success status then inr tt else inl (C_HttpStatus status)
  end.

Section Contract.
Context {Auth Data W : Type} `{Libraries Auth Data} `{Rpc W}.
Context (address_to_base64 : ScAddress -> string + string).

Definition ledger_key (address_xdr : string) : string := "AAAAAAxQAAAAAA==" +:+ address_xdr.

Definition contract_health_check (contract_id : string) : Call W unit :=
  contract_bytes ← lift (decode_contract_id contract_id);
  address_xdr ← lift (match address_to_base64 (ContractAddress contract_bytes) with
                      | inl e => inl (XdrError e)
                      | inr x => inr x
                      end);
  _ ← rpc_call "getLedgerEntries" (VObject [("keys", VArray [VString (ledger_key address_xdr)])]);
  mret tt.
End Contract.

End Probes.

(** ** Health *)

Module Health.

Inductive CheckStatus := Up | Degraded | Down | RateLimited | Unknown.
Inductive HealthStatus := Healthy | HDegraded | Unhealthy.
Inductive CanaryStatus := Pending | Passed | CFailed.

#[global] Instance CheckStatus_eq : EqDecision CheckStatus.
Proof. solve_decision. Defined.
#[global] Instance HealthStatus_eq : EqDecision HealthStatus.
Proof. solve_decision. Defined.

(** [Display], and the names [serde] gives with [rename_all = "lowercase"]. *)
Definition check_status_text (s : CheckStatus) : string :=
  match s with
  | Up => "up" | Degraded => "degraded" | Down => "down"
  | RateLimited => "rate_limited" | Unknown => "unknown"
  end.
Definition check_status_json (s : CheckStatus) : string :=
  match s with
  | Up => "up" | Degraded => "degraded" | Down => "down"
  | RateLimited => "ratelimited" | Unknown => "unknown"
  end.
Definition health_status_text (s : HealthStatus) : string :=
  match s with Healthy => "healthy" | HDegraded => "degraded" | Unhealthy => "unhealthy" end.
Definition canary_status_text (s : CanaryStatus) : string :=
  match s with Pending => "pending" | Passed => "passed" | CFailed => "failed" end.

Record CheckResult := mkCheckResult {
  check_status : CheckStatus;
  latency_ms : Z;
  last_checked_at : Z;
  consecutive_failures : Z;
  details : option string
}.

Record HealthChecks := mkHealthChecks {
  stellar_rpc : CheckResult;
  escrow_contract : CheckResult;
  oracle_contract : CheckResult;
  lichess_api : CheckResult;
  chess_com_api : CheckResult
}.

Record HealthCheckerState := mkHealthCheckerState {
  checks : HealthChecks;
  canary_status : CanaryStatus;
  canary_details : option string;
  last_check_at : Z;
  started_at : Z
}.

Record HealthCheckResponse := mkHealthCheckResponse {
  status : HealthStatus;
  service_ready : bool;
  network : string;
  r_contract_escrow : string;
  r_contract_oracle : string;
  r_oracle_address : string;
  r_checks : HealthChecks;
  r_canary_status : CanaryStatus;
  r_canary_details : option string;
  last_full_check_at : Z;
  uptime_seconds : Z
}.

Definition new (now : Z) : HealthCheckerState :=
  let unknown := mkCheckResult Unknown 0 now 0 (Some "not yet checked") in
  mkHealthCheckerState (mkHealthChecks unknown unknown unknown unknown unknown) Pending None now now.

(** What [tokio::time::timeout] gives of a probe: its answer, or nothing within five
    seconds; with the milliseconds it took and the time it was over. *)
Record Probe (E : Type) := mkProbe { answer : option (E + unit); elapsed : Z; over : Z }.
Arguments mkProbe {E}.
Arguments answer {E}.
Arguments elapsed {E}.
Arguments over {E}.

(** The three arms of a check. *)
Definition check_of {E} (failure : E -> CheckStatus * string) (p : Probe E) : CheckResult :=
  match answer p with
  | Some (inr _) => mkCheckResult Up (elapsed p) (over p) 0 None
  | Some (inl e) => mkCheckResult (failure e).1 (elapsed p) (over p) 1 (Some (failure e).2)
  | None => mkCheckResult Down 5000 (over p) 1 (Some "timeout")
  end.

Definition check_stellar_rpc : Probe OracleServiceError -> CheckResult :=
  check_of (fun e => (Down, "RPC error: " +:+ Probes.service_error_text e)).
Definition check_escrow_contract : Probe OracleServiceError -> CheckResult :=
  check_of (fun e => (Down, "Contract error: " +:+ Probes.service_error_text e)).
Definition check_oracle_contract : Probe OracleServiceError -> CheckResult :=
  check_of (fun e => (Down, "Contract error: " +:+ Probes.service_error_text e)).

(** [e.to_string().contains("rate")]. *)
Definition platform_failure (text : string) : CheckStatus * string :=
  (if contains_text text "rate" then RateLimited else Down, "API error: " +:+ text).

Section Checks.
Context (status_text debug_duration : Z -> string).

Definition check_lichess_api : Probe LichessError -> CheckResult :=
  check_of (fun e => platform_failure (Probes.lichess_error_text status_text debug_duration e)).
Definition check_chess_com_api : Probe ChessComError -> CheckResult :=
  check_of (fun e => platform_failure (Probes.chess_com_error_text status_text debug_duration e)).

(** What one round of [check_all] finds. *)
Record Round := mkRound {
  rpc_probe : Probe OracleServiceError;
  escrow_probe : Probe OracleServiceError;
  oracle_probe : Probe OracleServiceError;
  lichess_probe : Probe LichessError;
  chess_com_probe : Probe ChessComError;
  finished : Z
}.

Definition check_all (r : Round) (st : HealthCheckerState) : HealthCheckerState :=
  mkHealthCheckerState
    (mkHealthChecks (check_stellar_rpc (rpc_probe r)) (check_escrow_contract (escrow_probe r))
       (check_oracle_contract (oracle_probe r)) (check_lichess_api (lichess_probe r))
       (check_chess_com_api (chess_com_probe r)))
    (canary_status st) (canary_details st) (finished r) (started_at st).
End Checks.

(** Times are in seconds here; [now] is the system clock. *)
Definition status_of (env : Settings.Env) (cfg : Settings.OracleConfig) (now : Z)
    (st : HealthCheckerState) : HealthCheckResponse :=
  let c := checks st in
  let critical := [check_status (stellar_rpc c); check_status (escrow_contract c);
                   check_status (oracle_contract c)] in
  let overall := if bool_decide (Down ∈ critical) then Unhealthy
                 else if bool_decide (Degraded ∈ critical) then HDegraded else Healthy in
  let ready := bool_decide (overall = Healthy) &&
    negb (bool_decide (check_status (stellar_rpc c) = Unknown)) &&
    negb (bool_decide (check_status (escrow_contract c) = Unknown)) &&
    negb (bool_decide (check_status (oracle_contract c) = Unknown)) in
  mkHealthCheckResponse overall ready (default "testnet" (env "STELLAR_NETWORK"))
    (Settings.contract_escrow cfg) (Settings.contract_oracle cfg) (Settings.oracle_address cfg)
    c (canary_status st) (canary_details st) (last_check_at st) (Z.max 0 (now - started_at st)).

(** [GET /health]. *)
Definition health_check (r : HealthCheckResponse) : Z :=
  if bool_decide (status r = Unhealthy) then 503 else 200.

End Health.

(** ** Metrics *)

Module Metrics.

Definition constant_time_eq (a b : list ascii) : bool :=
  if negb (Nat.eqb (length a) (length b)) then false else bool_decide (a = b).

Definition strip_prefix (prefix : string) (s : string) : option string :=
  if starts_with (chars s) (chars prefix)
  then Some (of_chars (drop (String.length prefix) (chars s))) else None.

Section Auth.
Context (base64_decode : string -> option (list ascii)).

(** [header]: the [Authorization] header, when there is one and it is text. *)
Definition check_basic_auth (header : option string) (expected_user expected_password : string) : bool :=
  match header with
  | None => false
  | Some header =>
      match match strip_prefix "Basic " header with
            | Some v => Some v
            | None => strip_prefix "basic " header
            end with
      | None => false
      | Some encoded =>
          match base64_decode (trim encoded) with
          | None => false
          | Some decoded =>
              match split_once_chars ":" decoded with
              | None => false
              | Some (user, password) =>
                  constant_time_eq user (chars expected_user) &&
                  constant_time_eq password (chars expected_password)
              end
          end
      end
  end.

(** The credentials [main] keeps: both variables or none. *)
Definition metrics_auth (cfg : Settings.OracleConfig) : option (string * string) :=
  match Settings.metrics_auth_username cfg, Settings.metrics_auth_password cfg with
  | Some username, Some password => Some (username, password)
  | _, _ => None
  end.

(** [metrics_handler]: the status. *)
Definition metrics_handler (auth : option (string * string)) (authorization : option string) : Z :=
  match auth with
  | Some (username, password) =>
      if check_basic_auth authorization username password then 200 else 401
  | None => 200
  end.
End Auth.
End Metrics.

(** ** The slash relay *)

Module Relay.

Record SlashSignal := mkSlashSignal { dispute_id : Z; oracle_address : string; slash_amount : Z }.

#[global] Instance SlashSignal_eq : EqDecision SlashSignal.
Proof. solve_decision. Defined.
#[global] Instance SlashSignal_countable : Countable SlashSignal.
Proof.
  apply (inj_countable' (fun s => (dispute_id s, oracle_address s, slash_amount s))
           (fun '(d, o, a) => mkSlashSignal d o a)). by intros [].
Defined.

(** The processed signals and the [oracle_slash_total] counter. *)
Record SlashRelay := mkSlashRelay { processed_signals : gset SlashSignal; oracle_slash_total : Z }.

Definition new (counter : Z) : SlashRelay := mkSlashRelay ∅ counter.
Definition is_already_processed (signal : SlashSignal) (r : SlashRelay) : bool :=
  bool_decide (signal ∈ processed_signals r).
Definition mark_as_processed (signal : SlashSignal) (r : SlashRelay) : SlashRelay :=
  let inserted := negb (bool_decide (signal ∈ processed_signals r)) in
  mkSlashRelay ({[signal]} ∪ processed_signals r)
    (if inserted then oracle_slash_total r + 1 else oracle_slash_total r).
Definition processed_count (r : SlashRelay) : nat := size (processed_signals r).

End Relay.

(** ** The application *)

Module App.

Record AppState := mkAppState {
  health : Health.HealthCheckerState;
  rate_limiter : RateLimit.RateLimitState;
  waf : gmap string Waf.BurstEntry;
  metrics_auth : option (string * string)
}.

Record Request := mkRequest {
  method : string;
  path : string;
  guarded : Waf.HttpRequest;
  x_api_key : option string;
  authorization : option string
}.

(** The readings of the clocks a request causes. *)
Record Readings := mkReadings {
  waf_created : Z;
  waf_checked : Z;
  ip_clocks : RateLimit.Clocks;
  key_clocks : RateLimit.Clocks;
  now : Z
}.

Section Serve.
Context (parse_ip : string -> option IpAddr) (ip_text : IpAddr -> string).
Context (base64_decode : string -> option (list ascii)).
Context (env : Settings.Env) (cfg : Settings.OracleConfig).

(** The routes answer [GET] (and [HEAD]); the status of the answer. *)
Definition route (rd : Readings) (req : Request) (st : AppState) : Z :=
  let get status := if one_of (method req) ["GET"; "HEAD"] then status else 405 in
  if String.eqb (path req) "/health"
  then get (Health.health_check (Health.status_of env cfg (now rd) (health st)))
  else if String.eqb (path req) "/metrics"
  then get (Metrics.metrics_handler base64_decode (metrics_auth st) (authorization req))
  else if one_of (path req) ["/api/docs"; "/api/openapi.yaml"] then get 200
  else 404.

(** The firewall outermost, then the rate limiter, then the routes. *)
Definition serve (rd : Readings) (req : Request) (st : AppState)
  : AppState * (Waf.Verdict + RateLimit.Response) :=
  match Waf.waf_middleware parse_ip ip_text (waf_created rd) (waf_checked rd) (guarded req) (waf st) with
  | (burst, Waf.Pass) =>
      let next := RateLimit.mkResponse (route rd req st) ∅ VNull in
      match RateLimit.rate_limit_middleware parse_ip ip_text (ip_clocks rd) (key_clocks rd)
              (RateLimit.mkHttpRequest (Waf.x_forwarded_for (guarded req)) (x_api_key req)
                 (Waf.peer (guarded req))) next (rate_limiter st) with
      | (limits, response) =>
          (mkAppState (health st) limits burst (metrics_auth st), inr response)
      end
  | (burst, verdict) =>
      (mkAppState (health st) (rate_limiter st) burst (metrics_auth st), inl verdict)
  end.
End Serve.
End App.

(** ** What a configuration that loads holds *)

Section Config.
Import Settings.
Context (hex_decode : string -> string + list Z) (address_of : list Z -> string).

Lemma parse_env_range max env name dflt n :
  0 <= dflt <= max -> parse_env max env name dflt = inr n -> 0 <= n <= max.
Proof.
  unfold parse_env. intros Hd. destruct (env name) as [v|]; [|by intros [= <-]].
  destruct (parse_uint max v) as [m|] eqn:E; intros [= <-].
  apply parse_uint_range in E; lia.
Qed.

(** Names with a passphrase of their own. *)
Definition known_networks : list string := ["mainnet"; "testnet"; "futurenet"; "standalone"; "local"].

Lemma network_passphrase_known env p :
  network_passphrase_of env = inr p ->
  env "STELLAR_NETWORK_PASSPHRASE" = Some p \/
  (env "STELLAR_NETWORK_PASSPHRASE" = None /\ default "testnet" (env "STELLAR_NETWORK") ∈ known_networks).
Proof.
  unfold network_passphrase_of. destruct (env "STELLAR_NETWORK_PASSPHRASE"); [intros [= ->]; by left|].
  generalize (default "testnet" (env "STELLAR_NETWORK")). intros n Hp. right. split; [done|].
  unfold known_networks. repeat rewrite elem_of_cons.
  repeat match type of Hp with
         | context [String.eqb n ?x] => destruct (String.eqb_spec n x); [tauto|]
         end.
  discriminate Hp.
Qed.

Ltac load_steps :=
  repeat match goal with
         | H : context [match ?t with inl e => inl e | inr x => _ end] |- _ =>
             destruct t eqn:?; [discriminate H|]
         end.

End Config.


(** the configuration is logged at start-up without its secrets: the text does not
    depend on the signing key, the platform tokens or the metrics credentials, only on
    whether the optional ones are set. *)
Theorem secrets_redacted quote (c : Settings.OracleConfig) key
    (token platform_key user : string -> string) password :
  Settings.debug_config quote c =
  Settings.debug_config quote
    (Settings.mkOracleConfig (Settings.rpc_url c) (Settings.network_passphrase c)
       (Settings.contract_escrow c) (Settings.contract_oracle c) key (Settings.oracle_address c)
       (token <$> Settings.lichess_api_token c) (platform_key <$> Settings.chessdotcom_api_key c)
       (Settings.poll_interval_secs c) (Settings.chessdotcom_poll_interval_secs c)
       (Settings.max_retries c) (Settings.retry_base_delay_secs c) (Settings.queue_dir c)
       (Settings.reconciliation_interval_secs c) (Settings.dead_letter_max_entries c)
       (Settings.max_fee_stroops c) (Settings.http_addr c)
       (user <$> Settings.metrics_auth_username c) password).
Proof.
  destruct c as [? ? ? ? ? ? t k ? ? ? ? ? ? ? ? ? u p]. by destruct t, k, u.
Qed.

(** A variable that is set keeps its value whatever the [.env] file says. *)
Lemma dotenv_keeps lines : forall (env : Settings.Env) name v,
  env name = Some v -> Settings.load_dotenv lines env name = Some v.
Proof.
  induction lines as [|line lines IH]; intros env name v Hv; [done|].
  apply IH. unfold Settings.dotenv_line. destruct (_ || _); [done|].
  destruct (split_once _ _) as [[key val]|]; [|done].
  destruct (env (trim key)) eqn:E; [done|].
  destruct (String.eqb_spec name (trim key)) as [->|]; [congruence|done].
Qed.

(** ** Who can read the metrics *)

Lemma split_once_first sep (l a b : list ascii) :
  split_once_chars sep l = Some (a, b) <-> l = (a ++ sep :: b)%list /\ sep ∉ a.
Proof.
  rewrite list_elem_of_In. split; [apply split_once_some|]. intros [-> Hn]. by apply split_once_cons.
Qed.

Lemma same_bytes_spec a b : Metrics.constant_time_eq a b = true <-> a = b.
Proof.
  unfold Metrics.constant_time_eq. destruct (Nat.eqb_spec (length a) (length b)) as [|Hn]; cbn.
  - by rewrite bool_decide_eq_true.
  - split; [done|]. by intros ->.
Qed.

Section Scraping.
Context (base64_decode : string -> option (list ascii)).

(** The credentials a header carries. *)
Definition carries (authorization : option string) (decoded : list ascii) : Prop :=
  exists h encoded, authorization = Some h /\
    match Metrics.strip_prefix "Basic " h with
    | Some v => Some v
    | None => Metrics.strip_prefix "basic " h
    end = Some encoded /\
    base64_decode (trim encoded) = Some decoded.

Lemma basic_auth_exact authorization user password :
  Metrics.check_basic_auth base64_decode authorization user password = true <->
  ":"%char ∉ chars user /\ carries authorization (chars user ++ ":"%char :: chars password)%list.
Proof.
  unfold Metrics.check_basic_auth, carries. destruct authorization as [h|]; [|naive_solver].
  destruct (match Metrics.strip_prefix "Basic " h with Some v => Some v | None => _ end)
    as [encoded|] eqn:Ep; [|naive_solver].
  destruct (base64_decode (trim encoded)) as [decoded|] eqn:Ed.
  - destruct (split_once_chars ":" decoded) as [[u p]|] eqn:Es.
    + rewrite andb_true_iff, !same_bytes_spec. apply split_once_first in Es as [-> Hn]. split.
      * intros [-> ->]. split; [done|]. eauto.
      * intros (Hu & h' & e' & [= <-] & He & Hd). rewrite Ep in He. injection He as <-.
        rewrite Ed in Hd. injection Hd as Hd.
        assert (Es : split_once_chars ":" (u ++ ":"%char :: p) = Some (chars user, chars password))
          by (rewrite Hd; by apply split_once_first).
        assert (Es' : split_once_chars ":" (u ++ ":"%char :: p) = Some (u, p))
          by (by apply split_once_first). rewrite Es in Es'. by injection Es'.
    + split; [done|]. intros (Hu & h' & e' & [= <-] & He & Hd). rewrite Ep in He. injection He as <-.
      rewrite Ed in Hd. injection Hd as ->.
      assert (split_once_chars ":" (chars user ++ ":"%char :: chars password)
              = Some (chars user, chars password)) by (by apply split_once_first). congruence.
  - split; [done|]. intros (Hu & h' & e' & [= <-] & He & Hd). rewrite Ep in He. injection He as <-.
    congruence.
Qed.
End Scraping.



(** The names [main.rs] gives for the variables are not the ones that are read. *)
Lemma documented_names_ignored hex_decode address_of env c :
  env "METRICS_AUTH_USERNAME" = None ->
  Settings.load hex_decode address_of env = inr c -> Metrics.metrics_auth c = None.
Proof.
  intros He Hload. unfold Settings.load in Hload.
  repeat match goal with
         | H : context [match ?t with inl e => inl e | inr x => _ end] |- _ =>
             destruct t; [discriminate H|]
         end.
  injection Hload as <-. unfold Metrics.metrics_auth. cbn. by rewrite He.
Qed.

(** ** What the health endpoint says *)

Section HealthReport.
Import Health.
Context (status_text debug_duration : Z -> string).

(** A probe that was answered in time and well. *)
Definition passed {E} (p : Probe E) : bool :=
  match answer p with Some (inr _) => true | _ => false end.

Lemma critical_check {E} (text : E -> string) p :
  check_status (check_of (fun e => (Down, text e)) p) = if passed p then Up else Down.
Proof. unfold check_of, passed. by destruct (answer p) as [[e|[]]|]. Qed.

Lemma failures_at_most_one {E} (failure : E -> CheckStatus * string) p :
  consecutive_failures (check_of failure p) = if passed p then 0 else 1.
Proof. unfold check_of, passed. by destruct (answer p) as [[e|[]]|]. Qed.

(** The checker after some rounds, the newest last. *)
Definition checked (start : Z) (rounds : list Round) : HealthCheckerState :=
  fold_left (fun st r => check_all status_text debug_duration r st) rounds (new start).


(** Before the first round everything is unknown, which counts as healthy. *)
Lemma health_before_first_round start env cfg now :
  status (status_of env cfg now (new start)) = Healthy /\
  service_ready (status_of env cfg now (new start)) = false.
Proof. done. Qed.

(** A platform that answers [429 Too Many Requests] is reported down, not rate limited:
    the text of that error does not say [rate]. *)
Lemma too_many_requests_is_down elapsed over :
  status_text 429 = "429 Too Many Requests" ->
  check_status (check_lichess_api status_text debug_duration
    (mkProbe (Some (Probes.lichess_health_check (inr 429))) elapsed over)) = Down /\
  check_status (check_chess_com_api status_text debug_duration
    (mkProbe (Some (Probes.chess_com_health_check (inr 429))) elapsed over)) = Down.
Proof. intros Ht. split; cbn; rewrite Ht; by vm_compute. Qed.

(** The name of a status in the answer is not always the one it is displayed with. *)
Lemma check_status_names s : check_status_json s = check_status_text s <-> s <> RateLimited.
Proof. by destruct s. Qed.
End HealthReport.

(** ** The relay counts each signal once *)

Definition relayed (counter : Z) (signals : list Relay.SlashSignal) : Relay.SlashRelay :=
  fold_left (fun r s => Relay.mark_as_processed s r) signals (Relay.new counter).

Lemma relayed_from signals : forall r,
  let r' := fold_left (fun r s => Relay.mark_as_processed s r) signals r in
  Relay.processed_signals r' = list_to_set signals ∪ Relay.processed_signals r /\
  Relay.oracle_slash_total r' - Z.of_nat (size (Relay.processed_signals r'))
    = Relay.oracle_slash_total r - Z.of_nat (size (Relay.processed_signals r)).
Proof.
  induction signals as [|s signals IH]; intros r; cbn [fold_left list_to_set].
  - split; [set_solver|done].
  - destruct (IH (Relay.mark_as_processed s r)) as [H1 H2]. split; [rewrite H1; cbn; set_solver|].
    rewrite H2. unfold Relay.mark_as_processed. cbn. case_bool_decide as Hs; cbn.
    + replace ({[s]} ∪ Relay.processed_signals r) with (Relay.processed_signals r) by set_solver. done.
    + rewrite size_union by set_solver. rewrite size_singleton. lia.
Qed.

(** Signals replayed in any order and number are counted once each, and known
    afterwards. *)
Lemma relay_idempotent counter signals signal :
  Relay.oracle_slash_total (relayed counter signals)
    = counter + Z.of_nat (size (list_to_set signals : gset Relay.SlashSignal)) /\
  (Relay.is_already_processed signal (relayed counter signals) = true <-> signal ∈ signals).
Proof.
  destruct (relayed_from signals (Relay.new counter)) as [H1 H2]. fold (relayed counter signals) in *.
  cbn in H1, H2. rewrite union_empty_r_L in H1. rewrite H1 in H2. split.
  - rewrite size_empty in H2. lia.
  - unfold Relay.is_already_processed. rewrite bool_decide_eq_true, H1. apply elem_of_list_to_set.
Qed.

(** ** The layers of the application *)

(** a request the firewall rejects costs nothing: it reaches no handler and takes no
    token of its address or API key; and a request that is let through is answered by
    the rate limiter alone, with 429, or by its route with the route's status. *)
Theorem firewall_before_limiter parse_ip ip_text base64_decode env cfg rd req st :
  match App.serve parse_ip ip_text base64_decode env cfg rd req st with
  | (st', inl verdict) =>
      verdict <> Waf.Pass /\ App.rate_limiter st' = App.rate_limiter st
  | (st', inr response) =>
      snd (Waf.waf_middleware parse_ip ip_text (App.waf_created rd) (App.waf_checked rd)
             (App.guarded req) (App.waf st)) = Waf.Pass /\
      (RateLimit.status response = 429 \/
       RateLimit.status response = App.route base64_decode env cfg rd req st)
  end /\
  App.health (fst (App.serve parse_ip ip_text base64_decode env cfg rd req st)) = App.health st.
Proof.
  unfold App.serve. destruct (Waf.waf_middleware _ _ _ _ _ _) as [burst verdict].
  destruct verdict; [|by split..]. unfold RateLimit.rate_limit_middleware.
  destruct (RateLimit.check_ip _ _ _) as [ips [[retry|rem] reset]]; cbn; [by auto|].
  destruct (App.x_api_key req) as [key|]; cbn; [|by auto].
  destruct (RateLimit.check_key _ _ _) as [keys [[retry|rem'] reset']]; cbn; by auto.
Qed.

(** ** The key of a contract probe *)

(** The alphabet of base64, and padding only at the end. *)
Definition is_base64 (s : string) : bool :=
  let body := List.filter (fun c => negb (bool_decide (c = "="%char))) (chars s) in
  let pad := (String.length s - length body)%nat in
  Nat.eqb (Nat.modulo (String.length s) 4) 0 && Nat.leb pad 2 &&
  bool_decide (chars s = body ++ repeat "="%char pad).

(** The key asked for is two base64 texts one after the other, which is none. *)
Lemma ledger_key_malformed x : x <> "" -> is_base64 x = true -> is_base64 (Probes.ledger_key x) = false.
Proof.
  intros Hx. unfold is_base64, Probes.ledger_key. set (np := fun c : ascii => _).
  rewrite !andb_true_iff, Nat.eqb_eq, Nat.leb_le, bool_decide_eq_true. intros [[Hm Hp] _].
  apply andb_false_iff. right. apply bool_decide_eq_false. intros E.
  assert (Hb : List.filter np (chars ("AAAAAAxQAAAAAA==" +:+ x))
               = chars "AAAAAAxQAAAAAA" ++ List.filter np (chars x)) by done.
  rewrite Hb in E. set (pad := (_ - _)%nat) in E.
  assert (E' : "="%char :: "="%char :: chars x = List.filter np (chars x) ++ repeat "="%char pad)
    by (by apply (app_inv_head (chars "AAAAAAxQAAAAAA"))).
  destruct (List.filter np (chars x)) as [|c l] eqn:Ef.
  - assert (String.length x <> 0%nat) by (by destruct x). cbn in Hp.
    assert (Hmod : (String.length x < 4)%nat) by lia. rewrite Nat.mod_small in Hm by done. lia.
  - injection E' as E1 _. assert (Hc : In c (List.filter np (chars x))) by (rewrite Ef; by left).
    apply filter_In in Hc as [_ Hc]. subst c. done.
Qed.
