(* ===== verification/Strkey.v ===== *)
(** Stellar addresses as the event indexer reads them, the first part of
    [services/event-indexer/src/validation.rs]: base32 decoding, the CRC16-XMODEM
    checksum and the validation of account and contract addresses.  An error is its
    field and the kind of reason its text gives.

    Then what the checksum catches: since base32 decoding and the CRC are linear over
    exclusive or, two accepted addresses differ by a pattern whose checksum vanishes,
    and no single mistyped character nor swap of neighbours is one. *)
From stdpp Require Import base list strings.
From Stdlib Require Import ZArith Lia Ascii.
From S2P Require Import Prelude Text.

Local Open Scope Z_scope.

Definition STELLAR_ADDRESS_LEN : nat := 56.
Definition VERSION_BYTE_ACCOUNT : Z := Z.shiftl 6 3.
Definition VERSION_BYTE_CONTRACT : Z := Z.shiftl 2 3.

(** Why a value is rejected: the kinds of message. *)
Inductive Reason :=
  | MustNotBeEmpty
  | WrongLength (expected actual : nat)
  | MustBeUpperCase
  | NotBase32 (found : ascii)
  | WrongPayloadLength
  | WrongVersion (allowed : list Z) (prefix : option ascii)
  | InvalidChecksum
  | NegativeAmount
  | SignedAmount
  | FractionalAmount
  | DigitsOnly
  | AmountTooLarge
  | ZeroAmount
  | TooLong (max : nat)
  | BadCharacter (found : ascii)
  | NegativeId
  | NotWhole
  | OutOfRange
  | NotOneOf (got : string)
  | LimitOutOfRange (got : Z)
  | NegativeOffset (got : Z)
  | InvertedRange
  | NotADate (got : string).

Record ValidationError := mkValidationError { field : string; reason : Reason }.
Notation validation A := (ValidationError + A)%type.

Definition reject {A} (f : string) (r : Reason) : validation A := inl (mkValidationError f r).

(** ** The checksum *)

(** One round of the inner loop, on a [u16]. *)
Definition crc_bit (crc : Z) : Z :=
  if negb (Z.land crc 32768 =? 0)
  then Z.lxor (Z.land (Z.shiftl crc 1) 65535) 4129
  else Z.land (Z.shiftl crc 1) 65535.

Definition crc_byte (crc byte : Z) : Z :=
  Nat.iter 8 crc_bit (Z.lxor crc (Z.land (Z.shiftl byte 8) 65535)).

Definition crc16_xmodem (data : list Z) : Z := foldl crc_byte 0 data.

(** ** Base32 *)

Definition BASE32_ALPHABET : list ascii := chars "ABCDEFGHIJKLMNOPQRSTUVWXYZ234567".

Fixpoint position (c : ascii) (l : list ascii) : option Z :=
  match l with
  | [] => None
  | x :: rest => if bool_decide (x = c) then Some 0 else Z.succ <$> position c rest
  end.

(** The loop's state: the [u16] buffer, the count of unread bits, the output. *)
Record Decoder := mkDecoder { buffer : Z; bits : Z; out : list Z }.

Definition decode_index (d : Decoder) (index : Z) : Decoder :=
  let buffer := Z.lor (Z.land (Z.shiftl (buffer d) 5) 65535) index in
  let bits := bits d + 5 in
  if 8 <=? bits then
    mkDecoder buffer (bits - 8) (out d ++ [Z.land (Z.shiftr buffer (bits - 8)) 255])
  else mkDecoder buffer bits (out d).

Fixpoint indexes (f : string) (l : list ascii) : validation (list Z) :=
  match l with
  | [] => inr []
  | c :: rest =>
      match position c BASE32_ALPHABET with
      | None => reject f (NotBase32 c)
      | Some i => match indexes f rest with inl e => inl e | inr ixs => inr (i :: ixs) end
      end
  end.

Definition decode_indexes (ixs : list Z) : list Z := out (foldl decode_index (mkDecoder 0 0 []) ixs).

(** The source decodes while it reads; the result, or the first bad character, is
    the same. *)
Definition base32_decode (f value : string) : validation (list Z) :=
  match indexes f (chars value) with
  | inl e => inl e
  | inr ixs => inr (decode_indexes ixs)
  end.

(** ** Addresses *)

Definition from_le_bytes (lo hi : Z) : Z := Z.lor lo (Z.shiftl hi 8).

Definition validate_strkey (f value : string) (allowed : list Z) : validation string :=
  if String.eqb value "" then reject f MustNotBeEmpty
  else if negb (Nat.eqb (String.length value) STELLAR_ADDRESS_LEN)
  then reject f (WrongLength STELLAR_ADDRESS_LEN (String.length value))
  else if existsb is_ascii_lowercase (chars value) then reject f MustBeUpperCase
  else match base32_decode f value with
  | inl e => inl e
  | inr decoded =>
      if negb (Nat.eqb (length decoded) 35) then reject f WrongPayloadLength
      else if negb (existsb (Z.eqb (nth 0 decoded 0)) allowed)
      then reject f (WrongVersion allowed (head (chars value)))
      else if negb (crc16_xmodem (take 33 decoded) =?
                    from_le_bytes (nth 33 decoded 0) (nth 34 decoded 0))
      then reject f InvalidChecksum
      else inr value
  end.

Definition validate_stellar_address (f value : string) : validation string :=
  validate_strkey f value [VERSION_BYTE_ACCOUNT; VERSION_BYTE_CONTRACT].
Definition validate_account_address (f value : string) : validation string :=
  validate_strkey f value [VERSION_BYTE_ACCOUNT].
Definition validate_contract_address (f value : string) : validation string :=
  validate_strkey f value [VERSION_BYTE_CONTRACT].

Example valid_account :
  validate_account_address "player"
    "GAAZI4TCR3TY5OJHCTJC2A4QSY6CJWJH5IAJTGKIN2ER7LBNVKOCCWN7" =
  inr "GAAZI4TCR3TY5OJHCTJC2A4QSY6CJWJH5IAJTGKIN2ER7LBNVKOCCWN7".
Proof. vm_compute. reflexivity. Qed.

Notation xors := (zip_with Z.lxor).

(** ** Linearity *)

Ltac by_bits :=
  apply Z.bits_inj'; intros n Hn;
  repeat (rewrite Z.lxor_spec || rewrite Z.land_spec || rewrite Z.lor_spec ||
          (rewrite Z.shiftl_spec by lia) || (rewrite Z.shiftr_spec by lia)).

Lemma high_bit crc : negb (Z.land crc 32768 =? 0) = Z.testbit crc 15.
Proof.
  change 32768 with (2 ^ 15). destruct (Z.testbit crc 15) eqn:E.
  - apply negb_true_iff, Z.eqb_neq. intros H. apply (f_equal (fun x => Z.testbit x 15)) in H.
    rewrite Z.land_spec, Z.pow2_bits_true, E, Z.testbit_0_l in H by lia. done.
  - apply negb_false_iff, Z.eqb_eq. apply Z.bits_inj'. intros n Hn.
    rewrite Z.land_spec, Z.testbit_0_l. destruct (decide (n = 15)) as [->|Hne]; [by rewrite E|].
    by rewrite Z.pow2_bits_false, andb_false_r by lia.
Qed.

Lemma crc_bit_linear a b : crc_bit (Z.lxor a b) = Z.lxor (crc_bit a) (crc_bit b).
Proof.
  unfold crc_bit. rewrite !high_bit, Z.lxor_spec.
  destruct (Z.testbit a 15), (Z.testbit b 15); cbn; by_bits;
    destruct (Z.testbit a (n - 1)), (Z.testbit b (n - 1)), (Z.testbit 65535 n), (Z.testbit 4129 n);
    done.
Qed.

Lemma crc_bits_linear k a b :
  Nat.iter k crc_bit (Z.lxor a b) = Z.lxor (Nat.iter k crc_bit a) (Nat.iter k crc_bit b).
Proof. induction k as [|k IH]; [done|]. cbn. rewrite <-crc_bit_linear. f_equal. apply IH. Qed.

Lemma crc_byte_linear c1 c2 b1 b2 :
  crc_byte (Z.lxor c1 c2) (Z.lxor b1 b2) = Z.lxor (crc_byte c1 b1) (crc_byte c2 b2).
Proof.
  unfold crc_byte. rewrite <-crc_bits_linear. f_equal. by_bits.
  destruct (Z.testbit c1 n), (Z.testbit c2 n), (Z.testbit b1 (n - 8)), (Z.testbit b2 (n - 8)),
    (Z.testbit 65535 n); done.
Qed.

Lemma crc_fold_linear l1 l2 c1 c2 :
  length l1 = length l2 ->
  foldl crc_byte (Z.lxor c1 c2) (xors l1 l2) =
    Z.lxor (foldl crc_byte c1 l1) (foldl crc_byte c2 l2).
Proof.
  revert l2 c1 c2. induction l1 as [|b1 l1 IH]; intros [|b2 l2] c1 c2 Hl; try done. cbn [foldl zip_with].
  rewrite crc_byte_linear. apply IH. by injection Hl.
Qed.

Lemma crc_linear l1 l2 :
  length l1 = length l2 ->
  crc16_xmodem (xors l1 l2) = Z.lxor (crc16_xmodem l1) (crc16_xmodem l2).
Proof. apply (crc_fold_linear l1 l2 0 0). Qed.

Definition small (i : Z) : Prop := 0 <= i < 32.

Lemma small_lxor i j : small i -> small j -> small (Z.lxor i j).
Proof.
  intros Hi Hj. assert (Hpos : 0 <= Z.lxor i j) by (unfold small in *; apply Z.lxor_nonneg; lia).
  split; [done|]. destruct (Z.eq_dec (Z.lxor i j) 0) as [->|Hne]; [lia|].
  assert (Hlog : forall x, small x -> Z.log2 x < 5).
  { intros x Hx. destruct (Z.eq_dec x 0) as [->|]; [done|].
    unfold small in Hx. apply Z.log2_lt_pow2; lia. }
  apply (Z.log2_lt_pow2 _ 5); [lia|].
  pose proof (Z.log2_lxor i j ltac:(apply Hi) ltac:(apply Hj)).
  pose proof (Hlog i Hi). pose proof (Hlog j Hj). lia.
Qed.

(** Two decoders in step, and the decoder of the difference. *)
Definition xor_decoder (d1 d2 : Decoder) : Decoder :=
  mkDecoder (Z.lxor (buffer d1) (buffer d2)) (bits d1) (xors (out d1) (out d2)).

Lemma index_bit i n : 0 <= i < 32 -> 5 <= n -> Z.testbit i n = false.
Proof.
  intros Hi Hn. apply Z.testbit_false; [lia|]. rewrite Z.div_small; [done|].
  assert (2 ^ 5 <= 2 ^ n) by (apply Z.pow_le_mono_r; lia). lia.
Qed.

(** Shifting makes room: the new index is or-ed into zeros. *)
Lemma push_index b i :
  0 <= i < 32 -> Z.lor (Z.land (Z.shiftl b 5) 65535) i = Z.lxor (Z.land (Z.shiftl b 5) 65535) i.
Proof.
  intros Hi. by_bits. destruct (Z.lt_ge_cases n 5).
  - rewrite (Z.testbit_neg_r b) by lia. by destruct (Z.testbit i n).
  - rewrite (index_bit i n) by lia. by destruct (Z.testbit b (n - 5) && Z.testbit 65535 n).
Qed.

Lemma zip_with_snoc (l1 l2 : list Z) x y :
  length l1 = length l2 -> xors (l1 ++ [x]) (l2 ++ [y]) = xors l1 l2 ++ [Z.lxor x y].
Proof. intros Hl. by rewrite zip_with_app. Qed.

Lemma decode_index_linear d1 d2 i1 i2 :
  bits d1 = bits d2 -> length (out d1) = length (out d2) -> 0 <= bits d1 ->
  0 <= i1 < 32 -> 0 <= i2 < 32 ->
  decode_index (xor_decoder d1 d2) (Z.lxor i1 i2) =
    xor_decoder (decode_index d1 i1) (decode_index d2 i2).
Proof.
  intros Hb Hl Hpos H1 H2. unfold decode_index, xor_decoder; cbn [buffer bits out]. rewrite <-Hb.
  pose proof (small_lxor i1 i2 H1 H2) as Hx.
  rewrite !push_index by done.
  set (b1 := Z.lxor (Z.land (Z.shiftl (buffer d1) 5) 65535) i1).
  set (b2 := Z.lxor (Z.land (Z.shiftl (buffer d2) 5) 65535) i2).
  assert (Hbuf : Z.lxor (Z.land (Z.shiftl (Z.lxor (buffer d1) (buffer d2)) 5) 65535) (Z.lxor i1 i2)
                 = Z.lxor b1 b2).
  { subst b1 b2. by_bits. destruct (Z.testbit (buffer d1) (n - 5)), (Z.testbit (buffer d2) (n - 5)),
      (Z.testbit 65535 n), (Z.testbit i1 n), (Z.testbit i2 n); done. }
  rewrite Hbuf. destruct (8 <=? bits d1 + 5) eqn:E; cbn; [|done]. f_equal.
  zbool. rewrite zip_with_snoc by done. f_equal. f_equal. by_bits.
  destruct (Z.testbit b1 (n + (bits d1 + 5 - 8))), (Z.testbit b2 (n + (bits d1 + 5 - 8))),
    (Z.testbit 255 n); done.
Qed.

Lemma decode_index_shape d i :
  0 <= bits d < 8 -> 0 <= bits (decode_index d i) < 8 /\
  bits (decode_index d i) = (if 8 <=? bits d + 5 then bits d + 5 - 8 else bits d + 5) /\
  length (out (decode_index d i)) =
    (length (out d) + if (8 <=? bits d + 5)%Z then 1 else 0)%nat.
Proof.
  intros Hb. unfold decode_index. destruct (8 <=? bits d + 5) eqn:E; zbool; cbn;
    rewrite ?length_app; cbn; lia.
Qed.

Lemma decode_fold_linear l1 l2 d1 d2 :
  length l1 = length l2 -> Forall small l1 -> Forall small l2 ->
  bits d1 = bits d2 -> length (out d1) = length (out d2) -> 0 <= bits d1 < 8 ->
  let e1 := foldl decode_index d1 l1 in let e2 := foldl decode_index d2 l2 in
  foldl decode_index (xor_decoder d1 d2) (xors l1 l2) = xor_decoder e1 e2 /\
  length (out e1) = length (out e2).
Proof.
  cbv zeta. revert l2 d1 d2. induction l1 as [|i1 l1 IH]; intros [|i2 l2] d1 d2 Hl H1 H2 Hb Ho Hr;
    try done. apply Forall_cons in H1 as [Hi1 H1]. apply Forall_cons in H2 as [Hi2 H2]. cbn.
  rewrite decode_index_linear by (done || lia).
  destruct (decode_index_shape d1 i1 Hr) as (Hr1 & Hb1 & Ho1).
  destruct (decode_index_shape d2 i2 ltac:(lia)) as (Hr2 & Hb2 & Ho2).
  apply IH; [by injection Hl|done|done|by rewrite Hb1, Hb2, Hb|by rewrite Ho1, Ho2, Hb, Ho|done].
Qed.

Lemma decode_linear l1 l2 :
  length l1 = length l2 -> Forall small l1 -> Forall small l2 ->
  decode_indexes (xors l1 l2) = xors (decode_indexes l1) (decode_indexes l2) /\
  length (decode_indexes l1) = length (decode_indexes l2).
Proof.
  intros Hl H1 H2. unfold decode_indexes.
  destruct (decode_fold_linear l1 l2 (mkDecoder 0 0 []) (mkDecoder 0 0 []) Hl H1 H2) as [He Ho];
    [done|done|done|]. change (xor_decoder _ _) with (mkDecoder 0 0 []) in He at 1.
  by rewrite He.
Qed.

(** ** The checksum of an address *)

(** What a decoded address's checksum is off by. *)
Definition syndrome (decoded : list Z) : Z :=
  Z.lxor (crc16_xmodem (take 33 decoded)) (from_le_bytes (nth 33 decoded 0) (nth 34 decoded 0)).

Definition byte (b : Z) : Prop := 0 <= b < 256.

Lemma byte_bit b n : byte b -> 8 <= n -> Z.testbit b n = false.
Proof.
  intros Hb Hn. apply Z.testbit_false; [lia|]. rewrite Z.div_small; [done|].
  assert (2 ^ 8 <= 2 ^ n) by (apply Z.pow_le_mono_r; lia). unfold byte in Hb. lia.
Qed.

Lemma from_le_bytes_linear a0 a1 b0 b1 :
  byte a0 -> byte b0 -> byte (Z.lxor a0 b0) ->
  from_le_bytes (Z.lxor a0 b0) (Z.lxor a1 b1) =
    Z.lxor (from_le_bytes a0 a1) (from_le_bytes b0 b1).
Proof.
  intros Ha Hb Hx. unfold from_le_bytes. by_bits. destruct (Z.lt_ge_cases n 8) as [H8|H8].
  - rewrite (Z.testbit_neg_r a1), (Z.testbit_neg_r b1) by lia.
    by destruct (Z.testbit a0 n), (Z.testbit b0 n).
  - by rewrite (byte_bit a0 n), (byte_bit b0 n) by (done || lia).
Qed.

Lemma decode_bytes ixs d :
  Forall byte (out d) -> Forall byte (out (foldl decode_index d ixs)).
Proof.
  revert d. induction ixs as [|i ixs IH]; intros d Hd; [done|]. cbn. apply IH.
  unfold decode_index. case_match; cbn; [|done]. apply Forall_app. split; [done|].
  constructor; [|done]. unfold byte. change 255 with (Z.ones 8). rewrite Z.land_ones by lia.
  apply Z.mod_pos_bound. lia.
Qed.

Lemma nth_xors n l1 l2 :
  length l1 = length l2 -> nth n (xors l1 l2) 0 = Z.lxor (nth n l1 0) (nth n l2 0).
Proof.
  revert n l2. induction l1 as [|x l1 IH]; intros n [|y l2] Hl; try done.
  - by destruct n.
  - destruct n; cbn; [done|]. apply IH. by injection Hl.
Qed.

Lemma take_xors n l1 l2 : take n (xors l1 l2) = xors (take n l1) (take n l2).
Proof.
  revert n l2. induction l1 as [|x l1 IH]; intros n l2; [by destruct n|].
  destruct n as [|n], l2 as [|y l2]; cbn; try done. by rewrite IH.
Qed.

Lemma nth_byte n l : Forall byte l -> byte (nth n l 0).
Proof.
  intros Hl. destruct (Nat.lt_ge_cases n (length l)) as [Hn|Hn].
  - rewrite Forall_forall in Hl. apply Hl, list_elem_of_In, nth_In. lia.
  - rewrite nth_overflow by lia. unfold byte. lia.
Qed.

Lemma syndrome_linear l1 l2 :
  length l1 = length l2 -> Forall small l1 -> Forall small l2 ->
  syndrome (decode_indexes (xors l1 l2)) =
    Z.lxor (syndrome (decode_indexes l1)) (syndrome (decode_indexes l2)).
Proof.
  intros Hl H1 H2. destruct (decode_linear l1 l2 Hl H1 H2) as [Hd Hlen].
  assert (Hb : forall l, Forall byte (decode_indexes l)) by (intros l; by apply decode_bytes).
  unfold syndrome. rewrite Hd, take_xors, !nth_xors, crc_linear by (rewrite ?length_take; lia).
  rewrite from_le_bytes_linear.
  - by_bits. by repeat destruct (Z.testbit _ n).
  - apply nth_byte, Hb.
  - apply nth_byte, Hb.
  - rewrite <-nth_xors, <-Hd by done. apply nth_byte, Hb.
Qed.

(** ** Accepted addresses *)

Lemma position_range c l i : position c l = Some i -> 0 <= i < Z.of_nat (length l).
Proof.
  revert i. induction l as [|x l IH]; intros i; cbn; [done|]. case_match; [intros [= <-]; lia|].
  destruct (position c l) as [j|] eqn:E; cbn; [|done]. intros [= <-]. specialize (IH j eq_refl). lia.
Qed.

Lemma position_lookup c l i : position c l = Some i -> l !! Z.to_nat i = Some c.
Proof.
  revert i. induction l as [|x l IH]; intros i; cbn; [done|].
  destruct (bool_decide (x = c)) eqn:E; zbool; [intros [= <-]; by subst|].
  destruct (position c l) as [j|] eqn:Ej; cbn; [|done]. intros [= <-].
  pose proof (position_range _ _ _ Ej). replace (Z.to_nat (Z.succ j)) with (S (Z.to_nat j)) by lia.
  by apply IH.
Qed.

Lemma indexes_spec f l ixs :
  indexes f l = inr ixs <-> Forall2 (fun c i => position c BASE32_ALPHABET = Some i) l ixs.
Proof.
  revert ixs. induction l as [|c l IH]; intros ixs; cbn [indexes].
  - split; [intros [= <-]; constructor|by inversion 1].
  - destruct (position c BASE32_ALPHABET) as [i|] eqn:E;
      [|split; [discriminate|inversion 1; congruence]].
    destruct (indexes f l) as [e|js]; split.
    + discriminate.
    + inversion 1 as [|? ? ? ? _ Hl]; subst. apply IH in Hl. discriminate.
    + intros [= <-]. constructor; [done|by apply IH].
    + inversion 1 as [|? ? ? ? Hp Hl]; subst. apply IH in Hl. congruence.
Qed.

Lemma small_indexes l ixs :
  Forall2 (fun c i => position c BASE32_ALPHABET = Some i) l ixs -> Forall small ixs.
Proof.
  induction 1 as [|c i l ixs Hp _ IH]; constructor; [|done].
  by apply position_range in Hp.
Qed.

Lemma length_chars v : length (chars v) = String.length v.
Proof. induction v; cbn; congruence. Qed.

Notation reads := (Forall2 (fun c i => position c BASE32_ALPHABET = Some i)).

Lemma reads_functional l ixs ixs' : reads l ixs -> reads l ixs' -> ixs = ixs'.
Proof.
  intros H H'. apply (indexes_spec "") in H, H'. congruence.
Qed.

(** An address is 56 base32 characters that decode to an allowed version byte, a key
    and their checksum. *)
Definition strkey (allowed : list Z) (v : string) : Prop :=
  exists ixs, reads (chars v) ixs /\ length ixs = 56%nat /\
    In (nth 0 (decode_indexes ixs) 0) allowed /\ syndrome (decode_indexes ixs) = 0.

Lemma decoded_length ixs :
  Forall small ixs -> length ixs = 56%nat -> length (decode_indexes ixs) = 35%nat.
Proof.
  intros Hs Hl. destruct (decode_linear ixs (replicate 56 0)) as [_ ->].
  - by rewrite Hl.
  - done.
  - repeat (constructor; [unfold small; lia|]). constructor.
  - reflexivity.
Qed.

Lemma reads_upper l ixs : reads l ixs -> existsb is_ascii_lowercase l = false.
Proof.
  intros H. apply not_true_iff_false. intros E. apply existsb_exists in E as (c & Hc & E).
  apply list_elem_of_In, list_elem_of_lookup in Hc as [k Hk].
  destruct (Forall2_lookup_l _ _ _ _ _ H Hk) as (i & _ & Hi). apply position_lookup in Hi.
  assert (Hall : forallb (fun x => negb (is_ascii_lowercase x)) BASE32_ALPHABET = true) by reflexivity.
  rewrite forallb_forall in Hall. apply list_elem_of_lookup_2, list_elem_of_In in Hi.
  specialize (Hall c Hi). by rewrite E in Hall.
Qed.

Lemma syndrome_zero decoded :
  syndrome decoded = 0 <->
  (crc16_xmodem (take 33 decoded) =? from_le_bytes (nth 33 decoded 0) (nth 34 decoded 0)) = true.
Proof.
  unfold syndrome. rewrite Z.eqb_eq. split; [apply Z.lxor_eq|intros ->; apply Z.lxor_nilpotent].
Qed.

Lemma strkey_exact f v allowed r :
  validate_strkey f v allowed = inr r <-> r = v /\ strkey allowed v.
Proof.
  unfold validate_strkey, strkey, base32_decode. split.
  - destruct (String.eqb v ""); [discriminate|].
    destruct (Nat.eqb_spec (String.length v) STELLAR_ADDRESS_LEN) as [Hl|]; cbn [negb]; [|discriminate].
    destruct (existsb _ _); [discriminate|].
    destruct (indexes f (chars v)) as [e|ixs] eqn:Hix; [discriminate|]. apply indexes_spec in Hix.
    destruct (Nat.eqb _ 35); cbn [negb]; [|discriminate].
    destruct (existsb _ allowed) eqn:Ha; cbn [negb]; [|discriminate].
    destruct (_ =? _) eqn:E; cbn [negb]; [|discriminate]. intros [= <-]. split; [done|].
    exists ixs. apply syndrome_zero in E. apply existsb_exists in Ha as (x & Hx & Ex). zbool.
    subst x. split_and!; try done.
    rewrite <-(Forall2_length _ _ _ Hix). etransitivity; [apply length_chars|exact Hl].
  - intros [-> (ixs & Hr & Hl & Ha & Hs)].
    assert (Hlen : String.length v = STELLAR_ADDRESS_LEN)
      by (rewrite <-length_chars, (Forall2_length _ _ _ Hr); exact Hl).
    destruct (String.eqb_spec v "") as [->|_]; [discriminate|].
    rewrite Hlen. cbn [Nat.eqb negb STELLAR_ADDRESS_LEN]. rewrite (reads_upper _ _ Hr).
    rewrite (proj2 (indexes_spec f _ _) Hr), decoded_length by (done || by eapply small_indexes).
    cbn [Nat.eqb negb]. rewrite (proj2 (existsb_exists _ _)) by (eexists; split; [exact Ha|apply Z.eqb_refl]).
    apply syndrome_zero in Hs. rewrite Hs. done.
Qed.

(** Two accepted addresses differ by a pattern with no checksum. *)
Lemma accepted_difference f f' v v' allowed allowed' r r' :
  validate_strkey f v allowed = inr r -> validate_strkey f' v' allowed' = inr r' ->
  exists ixs ixs', reads (chars v) ixs /\ reads (chars v') ixs' /\
    Forall small ixs /\ Forall small ixs' /\ length ixs = 56%nat /\ length ixs' = 56%nat /\
    syndrome (decode_indexes (xors ixs ixs')) = 0.
Proof.
  intros Hv Hv'. apply strkey_exact in Hv as [_ (ixs & Hi & Hl & _ & Hz)].
  apply strkey_exact in Hv' as [_ (ixs' & Hi' & Hl' & _ & Hz')].
  pose proof (small_indexes _ _ Hi). pose proof (small_indexes _ _ Hi').
  exists ixs, ixs'. split_and!; try done.
  rewrite syndrome_linear by (done || lia). by rewrite Hz, Hz'.
Qed.

(** ** Typing errors *)

(** One wrong character, and two neighbours swapped, as patterns of index
    differences. *)
Definition one_error (p : nat) (d : Z) : list Z := replicate p 0 ++ [d] ++ replicate (55 - p) 0.
Definition swap_error (p : nat) (d : Z) : list Z := replicate p 0 ++ [d; d] ++ replicate (54 - p) 0.

Definition detected (pattern : nat -> Z -> list Z) (p : nat) : bool :=
  forallb (fun d => negb (syndrome (decode_indexes (pattern p (Z.of_nat d))) =? 0)) (seq 1 31).

Lemma one_errors_detected : forallb (detected one_error) (seq 0 56) = true.
Proof. vm_compute. reflexivity. Qed.

Lemma swap_errors_detected : forallb (detected swap_error) (seq 0 55) = true.
Proof. vm_compute. reflexivity. Qed.

Lemma detected_spec pattern n p d :
  forallb (detected pattern) (seq 0 n) = true -> (p < n)%nat -> 0 < d < 32 ->
  syndrome (decode_indexes (pattern p d)) <> 0.
Proof.
  intros H Hp Hd. rewrite forallb_forall in H.
  specialize (H p ltac:(apply in_seq; lia)). unfold detected in H. rewrite forallb_forall in H.
  specialize (H (Z.to_nat d) ltac:(apply in_seq; lia)). rewrite Z2Nat.id in H by lia.
  by apply negb_true_iff, Z.eqb_neq in H.
Qed.

Lemma xors_self l : xors l l = replicate (length l) 0.
Proof. induction l as [|x l IH]; cbn; [done|]. by rewrite Z.lxor_nilpotent, IH. Qed.

Lemma index_difference c c' i i' :
  position c BASE32_ALPHABET = Some i -> position c' BASE32_ALPHABET = Some i' -> c <> c' ->
  0 < Z.lxor i i' < 32.
Proof.
  intros H H' Hne. pose proof (position_range _ _ _ H). pose proof (position_range _ _ _ H').
  destruct (small_lxor i i') as [Hlo Hhi]; [done|done|]. split; [|done].
  destruct (Z.eq_dec (Z.lxor i i') 0) as [E|]; [|lia]. apply Z.lxor_eq in E as ->.
  apply position_lookup in H, H'. congruence.
Qed.

Lemma one_error_difference pre c c' post ixs ixs' :
  c <> c' -> length (pre ++ c :: post) = 56%nat ->
  reads (pre ++ c :: post) ixs -> reads (pre ++ c' :: post) ixs' ->
  exists d, 0 < d < 32 /\ xors ixs ixs' = one_error (length pre) d.
Proof.
  intros Hne Hlen H H'.
  apply Forall2_app_inv_l in H as (j & k & Hj & Hk & ->). inversion Hk as [|? i ? k2 Hi Hk2]; subst.
  apply Forall2_app_inv_l in H' as (j' & k' & Hj' & Hk' & ->).
  inversion Hk' as [|? i' ? k2' Hi' Hk2']; subst.
  rewrite (reads_functional _ _ _ Hj' Hj), (reads_functional _ _ _ Hk2' Hk2).
  exists (Z.lxor i i'). split; [by eapply index_difference|].
  rewrite zip_with_app by done. cbn [zip_with]. rewrite !xors_self.
  rewrite <-(Forall2_length _ _ _ Hj), <-(Forall2_length _ _ _ Hk2).
  unfold one_error. rewrite length_app in Hlen. cbn in Hlen. cbn [app]. do 3 f_equal. lia.
Qed.

Lemma swap_error_difference pre c c' post ixs ixs' :
  c <> c' -> length (pre ++ c :: c' :: post) = 56%nat ->
  reads (pre ++ c :: c' :: post) ixs -> reads (pre ++ c' :: c :: post) ixs' ->
  exists d, 0 < d < 32 /\ xors ixs ixs' = swap_error (length pre) d.
Proof.
  intros Hne Hlen H H'.
  apply Forall2_app_inv_l in H as (j & k & Hj & Hk & ->). inversion Hk as [|? i ? k1 Hi Hk1]; subst.
  inversion Hk1 as [|? i2 ? k2 Hi2 Hk2]; subst.
  apply Forall2_app_inv_l in H' as (j' & k' & Hj' & Hk' & ->).
  inversion Hk' as [|? i2' ? k1' Hi2' Hk1']; subst. inversion Hk1' as [|? i' ? k2' Hi' Hk2']; subst.
  rewrite (reads_functional _ _ _ Hj' Hj), (reads_functional _ _ _ Hk2' Hk2).
  rewrite Hi in Hi'. injection Hi' as <-. rewrite Hi2 in Hi2'. injection Hi2' as <-.
  exists (Z.lxor i i2). split; [by eapply index_difference|].
  rewrite zip_with_app by done. cbn [zip_with]. rewrite !xors_self, (Z.lxor_comm i2 i).
  rewrite <-(Forall2_length _ _ _ Hj), <-(Forall2_length _ _ _ Hk2).
  unfold swap_error. rewrite length_app in Hlen. cbn in Hlen. cbn [app]. do 4 f_equal. lia.
Qed.

(** C31: an accepted Stellar address with one character replaced by another, or with
    two different neighbouring characters swapped, is rejected: whatever the
    character, the position, the field and the address kinds asked for, the checksum
    catches every such typing error. *)
Theorem typo_rejected f f' v v' allowed allowed' r pre c c' post :
  validate_strkey f v allowed = inr r -> c <> c' ->
  (chars v = pre ++ c :: post /\ chars v' = pre ++ c' :: post) \/
  (chars v = pre ++ c :: c' :: post /\ chars v' = pre ++ c' :: c :: post) ->
  exists e, validate_strkey f' v' allowed' = inl e.
Proof.
  intros Hv Hne Htypo. destruct (validate_strkey f' v' allowed') as [e|r'] eqn:Hv'; [by exists e|].
  exfalso. destruct (accepted_difference _ _ _ _ _ _ _ _ Hv Hv')
    as (ixs & ixs' & Hi & Hi' & _ & _ & Hl & _ & Hz).
  apply Forall2_length in Hi as Hlen. rewrite Hl in Hlen.
  destruct Htypo as [[E E']|[E E']]; rewrite E in Hi, Hlen; rewrite E' in Hi'.
  - destruct (one_error_difference _ _ _ _ _ _ Hne Hlen Hi Hi') as (d & Hd & Hx).
    rewrite Hx in Hz. revert Hz. apply (detected_spec _ 56); [exact one_errors_detected| |done].
    rewrite length_app in Hlen. cbn in Hlen. lia.
  - destruct (swap_error_difference _ _ _ _ _ _ Hne Hlen Hi Hi') as (d & Hd & Hx).
    rewrite Hx in Hz. revert Hz. apply (detected_spec _ 55); [exact swap_errors_detected| |done].
    rewrite length_app in Hlen. cbn in Hlen. lia.
Qed.

Lemma typo_rejected_witness :
  exists e, validate_account_address "player"
    "GAAZI4TCR3TY5OJHCTJC2A4QSY6CJWJH5IAJTGKIN2ER7LBNVKOCCWM7" = inl e.
Proof.
  apply (typo_rejected "player" "player"
    "GAAZI4TCR3TY5OJHCTJC2A4QSY6CJWJH5IAJTGKIN2ER7LBNVKOCCWN7" _ [VERSION_BYTE_ACCOUNT] _
    "GAAZI4TCR3TY5OJHCTJC2A4QSY6CJWJH5IAJTGKIN2ER7LBNVKOCCWN7"
    (chars "GAAZI4TCR3TY5OJHCTJC2A4QSY6CJWJH5IAJTGKIN2ER7LBNVKOCCW") "N"%char "M"%char
    (chars "7")).
  - vm_compute. reflexivity.
  - discriminate.
  - left. split; reflexivity.
Defined.
