(* ===== verification/IndexerTypes.v ===== *)
(** The event indexer's data, [services/event-indexer/src/models.rs]: indexed events,
    match summaries, query filters and analytics, with times in nanoseconds; then the
    player transaction history, [transactions.rs]: the kinds of transaction, how an
    event's name is classified, the [ILIKE] patterns the database is asked for, sorting,
    page windows and pages. *)
From stdpp Require Import base list strings.
From Stdlib Require Import ZArith SpecFloat Lia Ascii.
From S2P Require Import Prelude Text.

Local Open Scope Z_scope.

Inductive MatchStatus :=
  | StatusPending
  | StatusActive
  | StatusCompleted
  | StatusCancelled
  | StatusExpired.

Inductive IndexedWinner :=
  | WinnerPlayer1
  | WinnerPlayer2
  | WinnerDraw.

Record IndexedEvent := mkIndexedEvent {
  ev_id : string;
  ev_ledger_sequence : Z;
  ev_match_id : Z;
  ev_event_type : string;
  ev_player1 : option string;
  ev_player2 : option string;
  ev_status : option string;
  ev_winner : option string;
  ev_stake_amount : option string;
  ev_token : option string;
  ev_game_id : option string;
  ev_platform : option string;
  ev_timestamp : Z;
  ev_txn_hash : option string;
  ev_event_index_in_txn : option Z;
  ev_reorg_invalidated_at : option Z
}.

Record MatchInfo := mkMatchInfo {
  mi_match_id : Z;
  mi_player1 : string;
  mi_player2 : string;
  mi_status : MatchStatus;
  mi_winner : option IndexedWinner;
  mi_stake_amount : string;
  mi_token : string;
  mi_game_id : string;
  mi_platform : string;
  mi_created_ledger : Z;
  mi_completed_ledger : option Z;
  mi_events : list IndexedEvent
}.

Record QueryFilters := mkQueryFilters {
  qf_player_address : option string;
  qf_status : option MatchStatus;
  qf_start_date : option Z;
  qf_end_date : option Z;
  qf_limit : option Z;
  qf_offset : option Z
}.

Record AnalyticsOverview := mkAnalyticsOverview {
  ao_total_matches : Z;
  ao_total_volume : string;
  ao_average_stake : string;
  ao_completed_matches : Z;
  ao_cancelled_matches : Z
}.

(** [win_rate] is an [f64]. *)
Record PlayerAnalytics := mkPlayerAnalytics {
  pa_player_address : string;
  pa_total_matches : Z;
  pa_wins : Z;
  pa_losses : Z;
  pa_draws : Z;
  pa_win_rate : spec_float;
  pa_total_winnings : string;
  pa_match_history : list MatchInfo;
  pa_total : Z
}.

Record TokenAnalytics := mkTokenAnalytics {
  ta_token_address : string;
  ta_total_volume : string;
  ta_match_count : Z;
  ta_average_stake : string;
  ta_match_history : list MatchInfo;
  ta_total : Z
}.

#[export] Instance MatchStatus_eq_dec : EqDecision MatchStatus.
Proof. solve_decision. Defined.
#[export] Instance IndexedWinner_eq_dec : EqDecision IndexedWinner.
Proof. solve_decision. Defined.
#[export] Instance IndexedEvent_eq_dec : EqDecision IndexedEvent.
Proof. solve_decision. Defined.

#[export] Instance IndexedEvent_eta : Eta IndexedEvent := fun e =>
  mkIndexedEvent (ev_id e) (ev_ledger_sequence e) (ev_match_id e) (ev_event_type e)
    (ev_player1 e) (ev_player2 e) (ev_status e) (ev_winner e) (ev_stake_amount e)
    (ev_token e) (ev_game_id e) (ev_platform e) (ev_timestamp e) (ev_txn_hash e)
    (ev_event_index_in_txn e) (ev_reorg_invalidated_at e).

Definition MIN_PAGE_LIMIT : Z := 1.
Definition MAX_PAGE_LIMIT : Z := 1000.
Definition DEFAULT_PAGE_LIMIT : Z := 100.

Definition lowered (s : string) : string := map_chars to_ascii_lowercase s.

(** ** Transaction types *)

Inductive TransactionType := TxDeposit | TxPayout | TxFee.

#[export] Instance TransactionType_eq_dec : EqDecision TransactionType.
Proof. solve_decision. Defined.

Definition type_as_str (t : TransactionType) : string :=
  match t with TxDeposit => "deposit" | TxPayout => "payout" | TxFee => "fee" end.

Definition ALL : list TransactionType := [TxDeposit; TxPayout; TxFee].

Definition parse_type (raw : string) : option TransactionType :=
  let s := lowered (trim raw) in
  if one_of s ["deposit"; "deposits"] then Some TxDeposit
  else if one_of s ["payout"; "payouts"] then Some TxPayout
  else if one_of s ["fee"; "fees"] then Some TxFee
  else None.

Definition event_name_markers (t : TransactionType) : list string :=
  match t with
  | TxDeposit => ["deposit"; "funded"]
  | TxPayout => ["completed"; "finalized"; "claim"; "payout"; "resolved"]
  | TxFee => ["fee"; "cancelled"; "expired"]
  end.

Definition sql_patterns (t : TransactionType) : list string :=
  map (fun m => "%" ++ m ++ "%")%string (event_name_markers t).

Definition matches_type (event_type : string) (t : TransactionType) : bool :=
  existsb (contains_text (lowered event_type)) (event_name_markers t).

Definition from_event_type (event_type : string) : option TransactionType :=
  find (matches_type event_type) ALL.

Definition all_sql_patterns : list string := flat_map sql_patterns ALL.

(** ** Sorting *)

Inductive TransactionSortField := SortTimestamp | SortAmount | SortMatchId | SortType.

Definition parse_sort_field (raw : string) : option TransactionSortField :=
  let s := lowered (trim raw) in
  if one_of s ["timestamp"; "date"; "time"] then Some SortTimestamp
  else if one_of s ["amount"] then Some SortAmount
  else if one_of s ["match_id"; "match"] then Some SortMatchId
  else if one_of s ["type"; "tx_type"] then Some SortType
  else None.

Inductive SortOrder := Asc | Desc.

Definition parse_sort_order (raw : string) : option SortOrder :=
  let s := lowered (trim raw) in
  if one_of s ["asc"; "ascending"] then Some Asc
  else if one_of s ["desc"; "descending"] then Some Desc
  else None.

(** ** Filters *)

Record TransactionHistoryFilters := mkFilters {
  tf_player_address : string;
  tf_tx_type : option TransactionType;
  tf_token : option string;
  tf_from_date : option Z;
  tf_to_date : option Z;
  tf_completed_after : option Z;
  tf_completed_before : option Z;
  tf_limit : Z;
  tf_offset : Z;
  tf_sort_by : TransactionSortField;
  tf_sort_order : SortOrder
}.

Definition new_filters (player_address : string) : TransactionHistoryFilters :=
  mkFilters player_address None None None None None None DEFAULT_PAGE_LIMIT 0
    SortTimestamp Desc.

Definition clamped (f : TransactionHistoryFilters) : TransactionHistoryFilters :=
  mkFilters (tf_player_address f) (tf_tx_type f) (tf_token f) (tf_from_date f) (tf_to_date f)
    (tf_completed_after f) (tf_completed_before f)
    (clamp MIN_PAGE_LIMIT MAX_PAGE_LIMIT (tf_limit f)) (Z.max (tf_offset f) 0)
    (tf_sort_by f) (tf_sort_order f).

Definition event_type_patterns (f : TransactionHistoryFilters) : list string :=
  match tf_tx_type f with
  | Some t => sql_patterns t
  | None => all_sql_patterns
  end.

(** ** Records and pages *)

Record TransactionRecord := mkTransactionRecord {
  tr_match_id : Z;
  tr_timestamp : Z;
  tr_tx_type : TransactionType;
  tr_amount : string;
  tr_token : string;
  tr_event_id : string;
  tr_event_type : string;
  tr_ledger_sequence : Z
}.

Record TransactionPage := mkTransactionPage {
  tp_transactions : list TransactionRecord;
  tp_total : Z;
  tp_limit : Z;
  tp_offset : Z;
  tp_has_more : bool
}.

Definition new_page (transactions : list TransactionRecord) (total limit offset : Z)
    : TransactionPage :=
  mkTransactionPage transactions total limit offset
    (clamp i64_min i64_max (offset + Z.of_nat (length transactions)) <? total).
