(* ===== verification/Validation.v ===== *)
(** Request validation, the rest of [services/event-indexer/src/validation.rs]: the
    validators of amounts, identifiers, names, page windows and dates, the decoding of
    a query string, and the guard in front of every handler.

    The two date parsers of the [chrono] crate are parameters. *)
From stdpp Require Import base list strings.
From Stdlib Require Import ZArith Lia Ascii.
From S2P Require Import Prelude Text Strkey IndexerTypes.

Local Open Scope Z_scope.

Definition MAX_TOKEN_AMOUNT : Z := i64_max.
Definition MAX_GAME_ID_LEN : nat := 64.
Definition MAX_TOKEN_LEN : nat := 56.

Definition has_char (s : string) (c : ascii) : bool := existsb (fun x => bool_decide (x = c)) (chars s).
Definition first_is (s : string) (c : ascii) : bool := starts_with (chars s) [c].

(** ** Amounts and identifiers *)

Definition validate_token_amount (f raw : string) : validation Z :=
  let trimmed := trim raw in
  if String.eqb trimmed "" then reject f MustNotBeEmpty
  else if first_is trimmed "-" then reject f NegativeAmount
  else if first_is trimmed "+" then reject f SignedAmount
  else if has_char trimmed "." || has_char trimmed "," then reject f FractionalAmount
  else if negb (all_chars is_ascii_digit trimmed) then reject f DigitsOnly
  else match parse_uint i128_max trimmed with
  | None => reject f AmountTooLarge
  | Some amount =>
      if amount =? 0 then reject f ZeroAmount
      else if MAX_TOKEN_AMOUNT <? amount then reject f AmountTooLarge
      else inr amount
  end.

Definition game_id_char (c : ascii) : bool :=
  is_ascii_alphanumeric c || bool_decide (c = "-"%char) || bool_decide (c = "_"%char).
Definition token_char (c : ascii) : bool :=
  is_ascii_alphanumeric c || bool_decide (c = ":"%char) || bool_decide (c = "-"%char)
  || bool_decide (c = "_"%char).

(** The error carries the first byte of the offending character. *)
Definition validate_game_id (f value : string) : validation string :=
  if String.eqb value "" then reject f MustNotBeEmpty
  else if Nat.ltb MAX_GAME_ID_LEN (String.length value)
  then reject f (TooLong MAX_GAME_ID_LEN)
  else match find (fun c => negb (game_id_char c)) (chars value) with
  | Some bad => reject f (BadCharacter bad)
  | None => inr value
  end.

Definition validate_match_id (f raw : string) : validation Z :=
  let trimmed := trim raw in
  if String.eqb trimmed "" then reject f MustNotBeEmpty
  else if first_is trimmed "-" then reject f NegativeId
  else if negb (all_chars is_ascii_digit trimmed) then reject f NotWhole
  else match parse_u64 trimmed with
  | None => reject f OutOfRange
  | Some n => inr n
  end.

Definition validate_token (f value : string) : validation string :=
  if String.eqb value "" then reject f MustNotBeEmpty
  else if Nat.ltb MAX_TOKEN_LEN (String.length value)
  then reject f (TooLong MAX_TOKEN_LEN)
  else if Nat.eqb (String.length value) STELLAR_ADDRESS_LEN
  then validate_contract_address f value
  else match find (fun c => negb (token_char c)) (chars value) with
  | Some bad => reject f (BadCharacter bad)
  | None => inr value
  end.

(** ** Names *)

Definition validate_match_status (f raw : string) : validation MatchStatus :=
  let s := lowered (trim raw) in
  if String.eqb s "pending" then inr StatusPending
  else if String.eqb s "active" then inr StatusActive
  else if String.eqb s "completed" then inr StatusCompleted
  else if String.eqb s "cancelled" then inr StatusCancelled
  else if String.eqb s "expired" then inr StatusExpired
  else reject f (NotOneOf s).

Definition ok_or {A} (o : option A) (f raw : string) : validation A :=
  match o with Some x => inr x | None => reject f (NotOneOf raw) end.

Definition validate_transaction_type (f raw : string) : validation TransactionType :=
  ok_or (parse_type raw) f raw.
Definition validate_sort_by (f raw : string) : validation TransactionSortField :=
  ok_or (parse_sort_field raw) f raw.
Definition validate_sort_order (f raw : string) : validation SortOrder :=
  ok_or (parse_sort_order raw) f raw.

(** ** Page windows and ledgers *)

Definition parse_whole (f raw : string) : validation Z :=
  let trimmed := trim raw in
  if String.eqb trimmed "" then reject f MustNotBeEmpty
  else match parse_i64 trimmed with
  | None => reject f NotWhole
  | Some n => inr n
  end.

Definition validate_limit (f raw : string) : validation Z :=
  match parse_whole f raw with
  | inl e => inl e
  | inr value =>
      if negb (in_range MIN_PAGE_LIMIT MAX_PAGE_LIMIT value)
      then reject f (LimitOutOfRange value) else inr value
  end.

Definition validate_offset (f raw : string) : validation Z :=
  match parse_whole f raw with
  | inl e => inl e
  | inr value => if value <? 0 then reject f (NegativeOffset value) else inr value
  end.

Definition validate_ledger_sequence (f raw : string) : validation Z :=
  let trimmed := trim raw in
  if String.eqb trimmed "" then reject f MustNotBeEmpty
  else if negb (all_chars is_ascii_digit trimmed) then reject f NotWhole
  else match parse_uint u32_max trimmed with
  | None => reject f OutOfRange
  | Some n => inr n
  end.

Definition validate_range (f : string) (low high : option Z) : validation unit :=
  match low, high with
  | Some a, Some b => if b <? a then reject f InvertedRange else inr tt
  | _, _ => inr tt
  end.
Definition validate_ledger_range : option Z -> option Z -> validation unit :=
  validate_range "completed_after".
Definition validate_date_range : option Z -> option Z -> validation unit :=
  validate_range "from_date".

(** ** Query strings *)

(** [char::to_digit(16)]. *)
Definition hex_value (c : ascii) : option Z :=
  if is_ascii_digit c then Some (code c - 48)
  else if (65 <=? code c) && (code c <=? 70) then Some (code c - 55)
  else if (97 <=? code c) && (code c <=? 102) then Some (code c - 87)
  else None.

Fixpoint percent_bytes (l : list ascii) : list ascii :=
  match l with
  | [] => []
  | c :: l1 =>
      if bool_decide (c = "+"%char) then " "%char :: percent_bytes l1
      else if bool_decide (c = "%"%char) then
        match l1 with
        | h :: l2 =>
            match l2 with
            | o :: l3 =>
                match hex_value h, hex_value o with
                | Some hi, Some lo => ascii_of_nat (Z.to_nat (hi * 16 + lo)) :: percent_bytes l3
                | _, _ => c :: percent_bytes l1
                end
            | [] => c :: percent_bytes l1
            end
        | [] => [c]
        end
      else c :: percent_bytes l1
  end.
Definition percent_decode (value : string) : string := from_utf8_lossy (percent_bytes (chars value)).

Definition query_pair (part : string) : string * string :=
  match split_once "=" part with
  | Some (k, v) => (percent_decode k, percent_decode v)
  | None => (percent_decode part, EmptyString)
  end.
Definition parse_query_pairs (query : string) : list (string * string) :=
  map query_pair (List.filter (fun part => negb (String.eqb part "")) (split "&" query)).

Section Dates.
Context (parse_from_rfc3339 parse_naive_date : string -> option Z).

Definition validate_date (f raw : string) : validation Z :=
  let trimmed := trim raw in
  if String.eqb trimmed "" then reject f MustNotBeEmpty
  else match parse_from_rfc3339 trimmed with
  | Some dt => inr dt
  | None =>
      match parse_naive_date trimmed with
      | Some date => inr date
      | None => reject f (NotADate trimmed)
      end
  end.

(** [Result::map] to the unit. *)
Definition checked_only {A} (r : validation A) : validation unit :=
  match r with inl e => inl e | inr _ => inr tt end.

Definition validate_query_param (key value : string) : validation unit :=
  if String.eqb (trim value) "" then inr tt
  else if one_of key ["player_address"; "player"; "address"]
  then checked_only (validate_stellar_address key value)
  else if one_of key ["status"] then checked_only (validate_match_status key value)
  else if one_of key ["limit"] then checked_only (validate_limit key value)
  else if one_of key ["offset"] then checked_only (validate_offset key value)
  else if one_of key ["game_id"] then checked_only (validate_game_id key value)
  else if one_of key ["token"] then checked_only (validate_token key value)
  else if one_of key ["amount"; "stake_amount"] then checked_only (validate_token_amount key value)
  else if one_of key ["match_id"] then checked_only (validate_match_id key value)
  else if one_of key ["type"; "tx_type"] then checked_only (validate_transaction_type key value)
  else if one_of key ["sort_by"] then checked_only (validate_sort_by key value)
  else if one_of key ["sort_order"; "order"] then checked_only (validate_sort_order key value)
  else if one_of key ["from_date"; "to_date"; "start_date"; "end_date"]
  then checked_only (validate_date key value)
  else inr tt.

Fixpoint validate_params (pairs : list (string * string)) : validation unit :=
  match pairs with
  | [] => inr tt
  | (key, value) :: rest =>
      match validate_query_param key value with
      | inl e => inl e
      | inr _ => validate_params rest
      end
  end.

Definition lookup_date (pairs : list (string * string)) (names : list string) : option Z :=
  match find (fun '(k, v) => one_of k names && negb (String.eqb (trim v) "")) pairs with
  | Some (k, v) => match validate_date k v with inl _ => None | inr d => Some d end
  | None => None
  end.

Definition validate_query_string (query : string) : validation unit :=
  let pairs := parse_query_pairs query in
  match validate_params pairs with
  | inl e => inl e
  | inr _ =>
      validate_date_range (lookup_date pairs ["from_date"; "start_date"])
        (lookup_date pairs ["to_date"; "end_date"])
  end.

Definition path_segments (path : string) : list string :=
  List.filter (fun s => negb (String.eqb s "")) (split "/" path).

Definition validate_path (path : string) : validation unit :=
  match path_segments path with
  | [a; id] =>
      if one_of a ["match"; "events"] then checked_only (validate_match_id "match_id" id)
      else if String.eqb a "matches" && negb (one_of id ["active"; "pending"])
      then checked_only (validate_match_id "match_id" id)
      else inr tt
  | [a; b; c] =>
      if String.eqb a "transactions" && String.eqb b "player"
      then checked_only (validate_account_address "player_address" c)
      else if String.eqb a "players" && String.eqb c "matches"
      then checked_only (validate_account_address "player_address" b)
      else inr tt
  | _ => inr tt
  end.

(** A rejected request is answered with its error and a 400; any other goes to the
    handler, [next]. *)
Definition validate_request {Response} (bad_request : ValidationError -> Response)
    (next : string -> option string -> Response) (path : string) (query : option string)
    : Response :=
  match validate_path path with
  | inl e => bad_request e
  | inr _ =>
      match query with
      | None => next path query
      | Some q =>
          match validate_query_string q with
          | inl e => bad_request e
          | inr _ => next path query
          end
      end
  end.
End Dates.
