(* ===== verification/ValidationSpec.v ===== *)
(** What the request guard promises: the text of a number denotes the value the
    handlers get, a query string decodes to the pairs a client encoded, and a request
    reaches its handler exactly when its path and every recognised parameter are
    well-formed. *)
From stdpp Require Import base list strings.
From Stdlib Require Import ZArith Lia Ascii.
From S2P Require Import Prelude Text Strkey IndexerTypes Validation.

Local Open Scope Z_scope.

(** ** Decimal texts *)

Definition digit_value (c : ascii) : Z := code c - 48.
Definition digits_value (acc : Z) (l : list ascii) : Z :=
  foldl (fun a c => a * 10 + digit_value c) acc l.

Lemma digits_value_mono acc l :
  0 <= acc -> forallb is_ascii_digit l = true -> acc <= digits_value acc l.
Proof.
  revert acc. induction l as [|c l IH]; intros acc Ha Hl; cbn in *; [lia|].
  apply andb_true_iff in Hl as [Hc Hl]. unfold is_ascii_digit in Hc. zbool.
  etransitivity; [|apply IH; [unfold digit_value; lia|done]]. unfold digit_value. lia.
Qed.

(** Reading digits with the overflow check at every step is reading them all and
    checking the value once. *)
Lemma parse_digits_exact max acc l n :
  0 <= acc <= max ->
  parse_digits max acc l = Some n <->
  forallb is_ascii_digit l = true /\ n = digits_value acc l /\ n <= max.
Proof.
  revert acc. induction l as [|c l IH]; intros acc Ha; cbn.
  - split; [intros [= <-]|intros (_ & -> & _)]; intuition lia.
  - destruct (is_ascii_digit c) eqn:Hc; cbn; [|intuition done].
    assert (Hd : 0 <= digit_value c) by (unfold is_ascii_digit, digit_value in *; zbool; lia).
    destruct (acc * 10 + (code c - 48) <=? max) eqn:E; zbool.
    + apply IH. unfold digit_value in *. lia.
    + split; [done|]. intros (Hl & -> & Hle). exfalso.
      pose proof (digits_value_mono (acc * 10 + digit_value c) l ltac:(lia) Hl) as Hm.
      unfold digits_value, digit_value in *. lia.
Qed.

(** The text [s] denotes the number [n] in decimal. *)
Definition denotes (s : string) (n : Z) : Prop :=
  s <> "" /\ all_chars is_ascii_digit s = true /\ n = digits_value 0 (chars s).

Lemma parse_uint_digits max s n :
  0 <= max -> all_chars is_ascii_digit s = true ->
  parse_uint max s = Some n <-> denotes s n /\ n <= max.
Proof.
  intros Hm Hd. unfold denotes, parse_uint, all_chars in *. destruct s as [|c s]; cbn [chars] in *.
  - split; [done|intros [[? _] _]; done].
  - rewrite bool_decide_false; [|intros ->; by apply andb_true_iff in Hd as [Hd _]].
    rewrite parse_digits_exact by lia. intuition done.
Qed.

Lemma digits_unsigned s c :
  all_chars is_ascii_digit s = true -> is_ascii_digit c = false -> first_is s c = false.
Proof.
  intros Hs Hc. destruct (first_is s c) eqn:E; [|done]. unfold first_is in E.
  apply starts_with_spec in E as [b E]. unfold all_chars in Hs. rewrite E in Hs. cbn in Hs.
  apply andb_true_iff in Hs as [Hs _]. congruence.
Qed.

Lemma digits_has_char s c :
  all_chars is_ascii_digit s = true -> is_ascii_digit c = false -> has_char s c = false.
Proof.
  unfold all_chars, has_char. intros Hs Hc. apply not_true_iff_false. intros E.
  apply existsb_exists in E as (x & Hx & E). zbool. subst x. rewrite forallb_forall in Hs.
  specialize (Hs c Hx). congruence.
Qed.

Lemma token_amount_spec f raw n :
  validate_token_amount f raw = inr n <-> denotes (trim raw) n /\ 1 <= n <= i64_max.
Proof.
  unfold validate_token_amount. set (t := trim raw).
  destruct (all_chars is_ascii_digit t) eqn:Hd; cycle 1.
  { split; [|intros [(_ & Hd' & _) _]; congruence]. cbn [negb].
    repeat (case_match; try discriminate). }
  rewrite !digits_unsigned, !digits_has_char by done. cbn [negb orb].
  destruct (String.eqb_spec t "") as [E|Hne];
    [split; [discriminate|intros [[? _] _]; done]|].
  destruct (parse_uint i128_max t) as [a|] eqn:Hp; cycle 1.
  - split; [discriminate|]. intros [Hn Hr]. exfalso.
    assert (parse_uint i128_max t = Some n) by
      (apply parse_uint_digits; [done|done|split; [done|unfold i64_max, i128_max in *; lia]]).
    congruence.
  - apply parse_uint_digits in Hp as [Ha Hle]; [|done|done].
    assert (Hpos : 0 <= a).
    { destruct Ha as (_ & _ & ->). apply digits_value_mono; [lia|done]. }
    destruct (a =? 0) eqn:E0; zbool; [split; [discriminate|]|].
    + intros [(_ & _ & En) Hr]. destruct Ha as (_ & _ & Ea). lia.
    + unfold MAX_TOKEN_AMOUNT. destruct (i64_max <? a) eqn:E1; zbool.
      * split; [discriminate|]. intros [(_ & _ & En) Hr]. destruct Ha as (_ & _ & Ea). lia.
      * split; [intros [= <-]; split; [done|lia]|]. intros [(_ & _ & En) Hr].
        destruct Ha as (_ & _ & Ea). by rewrite En, Ea.
Qed.

(** ** Query strings *)

(** A client's encoder: letters, digits and the four unreserved marks as they are,
    every other byte as its two hexadecimal digits. *)
Definition unreserved (c : ascii) : bool :=
  is_ascii_alphanumeric c || existsb (fun x => bool_decide (x = c)) (chars "-_.~").
Definition hex_digit (n : Z) : ascii :=
  ascii_of_nat (Z.to_nat (if n <? 10 then 48 + n else 55 + n)).
Definition encode_byte (c : ascii) : list ascii :=
  if unreserved c then [c] else ["%"%char; hex_digit (code c / 16); hex_digit (code c mod 16)].
Definition percent_encode (s : string) : list ascii := flat_map encode_byte (chars s).

Fixpoint join (sep : ascii) (pieces : list (list ascii)) : list ascii :=
  match pieces with
  | [] => []
  | [p] => p
  | p :: rest => p ++ sep :: join sep rest
  end.
Definition render_pair (kv : string * string) : list ascii :=
  percent_encode kv.1 ++ "="%char :: percent_encode kv.2.
Definition render_query (pairs : list (string * string)) : string :=
  of_chars (join "&" (map render_pair pairs)).

(** Every byte comes back, and none of the separators appears in its encoding. *)
Lemma decode_byte c l : percent_bytes (encode_byte c ++ l) = c :: percent_bytes l.
Proof. by destruct c as [[] [] [] [] [] [] [] []]. Qed.

Lemma encode_byte_plain c : forallb (fun x => negb (one_of (String x "") ["&"; "="])) (encode_byte c) = true.
Proof. by destruct c as [[] [] [] [] [] [] [] []]. Qed.

Lemma decode_encode s : percent_bytes (percent_encode s) = chars s.
Proof.
  unfold percent_encode. induction (chars s) as [|c l IH]; cbn [flat_map]; [done|].
  by rewrite decode_byte, IH.
Qed.

Lemma encode_plain s c : one_of (String c "") ["&"; "="] = true -> ~ In c (percent_encode s).
Proof.
  intros Hc Hin. unfold percent_encode in Hin. apply in_flat_map in Hin as (x & _ & Hin).
  pose proof (encode_byte_plain x) as H. rewrite forallb_forall in H. specialize (H c Hin).
  by rewrite Hc in H.
Qed.

Lemma split_plain sep l : ~ In sep l -> split_chars sep l = [l].
Proof.
  induction l as [|c l IH]; cbn; intros H; [done|]. rewrite bool_decide_false by (intros ->; auto).
  by rewrite IH by auto.
Qed.

Lemma split_cons sep l rest :
  ~ In sep l -> split_chars sep (l ++ sep :: rest) = l :: split_chars sep rest.
Proof.
  induction l as [|c l IH]; cbn; intros H.
  - by rewrite bool_decide_true.
  - rewrite bool_decide_false by (intros ->; auto). by rewrite IH by auto.
Qed.

Lemma split_join sep pieces :
  pieces <> [] -> Forall (fun p => ~ In sep p) pieces -> split_chars sep (join sep pieces) = pieces.
Proof.
  induction pieces as [|p rest IH]; [done|]. intros _ H. apply Forall_cons in H as [Hp H].
  destruct rest as [|q rest]; [by apply split_plain|].
  change (join sep (p :: q :: rest)) with (p ++ sep :: join sep (q :: rest)).
  rewrite split_cons by done. by rewrite IH.
Qed.

Lemma render_pair_plain kv : ~ In "&"%char (render_pair kv).
Proof.
  unfold render_pair. rewrite in_app_iff. cbn. intros [H|[H|H]];
    [by apply encode_plain in H|discriminate|by apply encode_plain in H].
Qed.

Definition utf8 (s : string) : Prop := utf8_lossy (chars s) = chars s.

Lemma percent_roundtrip s : utf8 s -> percent_decode (of_chars (percent_encode s)) = s.
Proof.
  intros Hs. unfold percent_decode. rewrite String.list_ascii_of_string_of_list_ascii, decode_encode.
  unfold from_utf8_lossy. rewrite Hs. apply String.string_of_list_ascii_of_string.
Qed.

Lemma pair_roundtrip kv :
  utf8 kv.1 -> utf8 kv.2 -> query_pair (of_chars (render_pair kv)) = kv.
Proof.
  intros Hk Hv. destruct kv as [k v]; cbn [fst snd] in *.
  unfold query_pair, split_once, render_pair. cbn [fst snd].
  rewrite String.list_ascii_of_string_of_list_ascii, split_once_cons by (by apply encode_plain).
  by rewrite !percent_roundtrip.
Qed.

Lemma of_chars_nonempty l : l <> [] -> String.eqb (of_chars l) "" = false.
Proof. by destruct l. Qed.

Lemma render_pair_nonempty kv : render_pair kv <> [].
Proof. unfold render_pair. by destruct (percent_encode kv.1). Qed.

(** C32: the pairs a client encodes into a query string are the pairs the guard reads
    from it, in order, whatever bytes of UTF-8 text their names and values hold,
    separators, spaces, percent signs and empty strings included. *)
Theorem query_roundtrip pairs :
  Forall (fun kv => utf8 kv.1 /\ utf8 kv.2) pairs ->
  parse_query_pairs (render_query pairs) = pairs.
Proof.
  intros Hu. destruct (decide (pairs = [])) as [->|Hne]; [done|].
  unfold parse_query_pairs, render_query, split.
  rewrite String.list_ascii_of_string_of_list_ascii, split_join.
  - rewrite map_map. clear Hne. induction Hu as [|kv pairs [Hk Hv] _ IH]; [done|]. cbn [map List.filter].
    rewrite of_chars_nonempty by apply render_pair_nonempty. cbn [negb map].
    by rewrite pair_roundtrip, IH.
  - by destruct pairs.
  - apply Forall_forall. intros p Hp. apply list_elem_of_In, in_map_iff in Hp as (kv & <- & _).
    apply render_pair_plain.
Qed.

Lemma query_roundtrip_witness :
  parse_query_pairs (render_query [("game id", "a&b=c%+"); ("", "")]) =
    [("game id", "a&b=c%+"); ("", "")].
Proof.
  apply (query_roundtrip [("game id", "a&b=c%+"); ("", "")]).
  repeat constructor; cbn; unfold utf8; reflexivity.
Defined.

(** ** Identifiers and names *)

Definition text_of (p : ascii -> bool) (max : nat) (s : string) : Prop :=
  s <> "" /\ (String.length s <= max)%nat /\ all_chars p s = true.

Lemma find_bad (p : ascii -> bool) l : find (fun c => negb (p c)) l = None <-> forallb p l = true.
Proof.
  induction l as [|c l IH]; cbn; [done|]. destruct (p c); cbn; [exact IH|done].
Qed.

Lemma match_id_exact f raw n :
  validate_match_id f raw = inr n <-> denotes (trim raw) n /\ n <= u64_max.
Proof.
  unfold validate_match_id. set (t := trim raw).
  destruct (all_chars is_ascii_digit t) eqn:Hd; cycle 1.
  { split; [|intros [(_ & Hd' & _) _]; congruence]. cbn [negb].
    repeat (case_match; try discriminate). }
  rewrite digits_unsigned by done. cbn [negb].
  destruct (String.eqb_spec t "") as [E|Hne];
    [split; [discriminate|intros [[? _] _]; done]|].
  unfold parse_u64. rewrite <-parse_uint_digits by done.
  destruct (parse_uint u64_max t); split; intros [=]; by subst.
Qed.

Lemma game_id_exact f v r :
  validate_game_id f v = inr r <-> r = v /\ text_of game_id_char MAX_GAME_ID_LEN v.
Proof.
  unfold validate_game_id, text_of, all_chars. rewrite <-find_bad.
  destruct (String.eqb_spec v "") as [->|Hne]; [split; [discriminate|intuition done]|].
  destruct (Nat.ltb_spec MAX_GAME_ID_LEN (String.length v));
    [split; [discriminate|intros (_ & _ & ? & _); lia]|].
  destruct (find _ _); [split; [discriminate|intuition done]|].
  split; [intros [= <-]; intuition lia|intuition congruence].
Qed.

Lemma token_exact f v r :
  validate_token f v = inr r <->
  r = v /\ (strkey [VERSION_BYTE_CONTRACT] v \/
            (text_of token_char MAX_TOKEN_LEN v /\ String.length v <> STELLAR_ADDRESS_LEN)).
Proof.
  unfold validate_token, text_of, all_chars, validate_contract_address. rewrite <-find_bad.
  assert (Hlen : strkey [VERSION_BYTE_CONTRACT] v -> String.length v = STELLAR_ADDRESS_LEN).
  { intros (ixs & Hr & Hl & _). rewrite <-length_chars, (Forall2_length _ _ _ Hr). exact Hl. }
  destruct (String.eqb_spec v "") as [->|Hne];
    [split; [discriminate|intros [_ [H|[[? _] _]]]; [by apply Hlen in H|done]]|].
  destruct (Nat.ltb_spec MAX_TOKEN_LEN (String.length v)) as [Hlt|Hle].
  { split; [discriminate|]. unfold MAX_TOKEN_LEN, STELLAR_ADDRESS_LEN in *.
    intros [_ [H|[(_ & ? & _) _]]]; [apply Hlen in H|]; lia. }
  destruct (Nat.eqb_spec (String.length v) STELLAR_ADDRESS_LEN) as [E|E].
  { rewrite strkey_exact. intuition done. }
  destruct (find _ _); split.
  - discriminate.
  - intros [_ [H|[(_ & _ & ?) _]]]; [by apply Hlen in H|done].
  - intros [= <-]. split; [done|]. right. done.
  - intros [-> _]. done.
Qed.

Lemma status_exact f raw :
  (exists m, validate_match_status f raw = inr m) <->
  In (lowered (trim raw)) ["pending"; "active"; "completed"; "cancelled"; "expired"].
Proof.
  unfold validate_match_status.
  repeat match goal with
  | |- context [String.eqb ?s ?n] =>
      destruct (String.eqb_spec s n) as [->|?]; [split; [intros _; cbn; tauto|by eexists]|]
  end.
  split; [intros [m [=]]|cbn; intuition congruence].
Qed.

Lemma limit_exact f raw n :
  validate_limit f raw = inr n <->
  parse_i64 (trim raw) = Some n /\ MIN_PAGE_LIMIT <= n <= MAX_PAGE_LIMIT.
Proof.
  unfold validate_limit, parse_whole, in_range.
  destruct (String.eqb_spec (trim raw) "") as [->|_]; [split; [discriminate|intros [[=] _]]|].
  destruct (parse_i64 (trim raw)) as [k|]; [|split; [discriminate|intros [[=] _]]].
  destruct (_ && _) eqn:E; cbn [negb]; zbool.
  - split; [intros [= <-]; split; [done|lia]|intros [[= <-] _]; done].
  - split; [discriminate|]. intros [[= ->] [? ?]]. apply andb_false_iff in E as [E|E]; zbool; lia.
Qed.

Lemma offset_exact f raw n :
  validate_offset f raw = inr n <-> parse_i64 (trim raw) = Some n /\ 0 <= n.
Proof.
  unfold validate_offset, parse_whole.
  destruct (String.eqb_spec (trim raw) "") as [->|_]; [split; [discriminate|intros [[=] _]]|].
  destruct (parse_i64 (trim raw)) as [k|]; [|split; [discriminate|intros [[=] _]]].
  destruct (k <? 0) eqn:E; zbool.
  - split; [discriminate|]. intros [[= ->] ?]. lia.
  - split; [intros [= <-]; split; [done|lia]|intros [[= <-] _]; done].
Qed.

Lemma one_of_spec s names : one_of s names = true <-> In s names.
Proof.
  unfold one_of. rewrite existsb_exists. split.
  - intros (x & Hx & E). apply String.eqb_eq in E as ->. done.
  - intros H. exists s. split; [done|apply String.eqb_refl].
Qed.

(** ** The guard *)

Section Guard.
Context (parse_from_rfc3339 parse_naive_date : string -> option Z).
Notation validate_date := (validate_date parse_from_rfc3339 parse_naive_date).
Notation lookup_date := (lookup_date parse_from_rfc3339 parse_naive_date).
Notation validate_query_param := (validate_query_param parse_from_rfc3339 parse_naive_date).
Notation validate_params := (validate_params parse_from_rfc3339 parse_naive_date).

Definition is_date (raw : string) : Prop :=
  trim raw <> "" /\
  (is_Some (parse_from_rfc3339 (trim raw)) \/ is_Some (parse_naive_date (trim raw))).

(** A parameter's value is well-formed for its name; any other name accepts any
    value. *)
Definition param_ok (key v : string) : Prop :=
  if one_of key ["player_address"; "player"; "address"]
  then strkey [VERSION_BYTE_ACCOUNT; VERSION_BYTE_CONTRACT] v
  else if one_of key ["status"]
  then In (lowered (trim v)) ["pending"; "active"; "completed"; "cancelled"; "expired"]
  else if one_of key ["limit"]
  then exists n, parse_i64 (trim v) = Some n /\ MIN_PAGE_LIMIT <= n <= MAX_PAGE_LIMIT
  else if one_of key ["offset"] then exists n, parse_i64 (trim v) = Some n /\ 0 <= n
  else if one_of key ["game_id"] then text_of game_id_char MAX_GAME_ID_LEN v
  else if one_of key ["token"]
  then strkey [VERSION_BYTE_CONTRACT] v \/
       (text_of token_char MAX_TOKEN_LEN v /\ String.length v <> STELLAR_ADDRESS_LEN)
  else if one_of key ["amount"; "stake_amount"]
  then exists n, denotes (trim v) n /\ 1 <= n <= i64_max
  else if one_of key ["match_id"] then exists n, denotes (trim v) n /\ n <= u64_max
  else if one_of key ["type"; "tx_type"] then is_Some (parse_type v)
  else if one_of key ["sort_by"] then is_Some (parse_sort_field v)
  else if one_of key ["sort_order"; "order"] then is_Some (parse_sort_order v)
  else if one_of key ["from_date"; "to_date"; "start_date"; "end_date"] then is_date v
  else True.

Definition path_ok (path : string) : Prop :=
  match path_segments path with
  | [a; id] =>
      In a ["match"; "events"] \/ (a = "matches" /\ ~ In id ["active"; "pending"]) ->
      exists n, denotes (trim id) n /\ n <= u64_max
  | [a; b; c] =>
      (a = "transactions" /\ b = "player" -> strkey [VERSION_BYTE_ACCOUNT] c) /\
      (a = "players" /\ c = "matches" -> strkey [VERSION_BYTE_ACCOUNT] b)
  | _ => True
  end.

Definition dates_ordered (pairs : list (string * string)) : Prop :=
  forall a b, lookup_date pairs ["from_date"; "start_date"] = Some a ->
    lookup_date pairs ["to_date"; "end_date"] = Some b -> a <= b.

Lemma checked_only_ok {A} (r : validation A) :
  checked_only r = inr tt <-> exists x, r = inr x.
Proof. destruct r; cbn; split; [discriminate|intros [? [=]]|by eexists|done]. Qed.

Lemma ok_or_exact {A} (o : option A) f raw : (exists x, ok_or o f raw = inr x) <-> is_Some o.
Proof. destruct o; cbn; split; [by eexists|by eexists|intros [? [=]]|intros [? [=]]]. Qed.

Lemma date_exact f raw : (exists d, validate_date f raw = inr d) <-> is_date raw.
Proof.
  unfold Validation.validate_date, is_date.
  destruct (String.eqb_spec (trim raw) "") as [E|Hne]; [split; [intros [? [=]]|intuition done]|].
  destruct (parse_from_rfc3339 (trim raw)); [split; [intros _; eauto|by eexists]|].
  destruct (parse_naive_date (trim raw)); [split; [intros _; eauto|by eexists]|].
  split; [intros [? [=]]|intros [_ [[? [=]]|[? [=]]]]].
Qed.

Lemma strkey_checked f v allowed :
  (exists r, validate_strkey f v allowed = inr r) <-> strkey allowed v.
Proof. split; [intros [r H]; by apply strkey_exact in H as [_ H]|].
  intros H. exists v. by apply strkey_exact.
Qed.

Lemma param_exact key v :
  trim v <> "" -> validate_query_param key v = inr tt <-> param_ok key v.
Proof.
  intros Hv. unfold Validation.validate_query_param, param_ok.
  rewrite (proj2 (String.eqb_neq _ _) Hv).
  repeat match goal with
  | |- (if ?b then _ else _) = _ <-> _ => destruct b; [rewrite checked_only_ok|]
  end.
  - apply strkey_checked.
  - apply status_exact.
  - setoid_rewrite limit_exact. done.
  - setoid_rewrite offset_exact. done.
  - setoid_rewrite game_id_exact. split; [intros (? & _ & H); exact H|by exists v].
  - setoid_rewrite token_exact. split; [intros (? & _ & H); exact H|by exists v].
  - setoid_rewrite token_amount_spec. done.
  - setoid_rewrite match_id_exact. done.
  - apply ok_or_exact.
  - apply ok_or_exact.
  - apply ok_or_exact.
  - apply date_exact.
  - done.
Qed.

Lemma params_exact pairs :
  validate_params pairs = inr tt <-> Forall (fun kv => trim kv.2 <> "" -> param_ok kv.1 kv.2) pairs.
Proof.
  induction pairs as [|[key v] pairs IH]; cbn [Validation.validate_params]; [done|].
  rewrite Forall_cons, <-IH. cbn [fst snd].
  destruct (decide (trim v = "")) as [E|Hv].
  - unfold Validation.validate_query_param at 1. rewrite E. cbn. intuition done.
  - rewrite <-(param_exact key v) by done.
    destruct (validate_query_param key v) as [e|[]]; intuition discriminate.
Qed.

Lemma range_exact f a b :
  validate_range f a b = inr tt <-> (forall x y, a = Some x -> b = Some y -> x <= y).
Proof.
  unfold validate_range. destruct a as [x|], b as [y|]; try (split; [intros _; congruence|done]).
  destruct (y <? x) eqn:E; zbool.
  - split; [discriminate|]. intros H. specialize (H x y eq_refl eq_refl). lia.
  - split; [intros _ ? ? [= <-] [= <-]; done|done].
Qed.

Lemma path_exact path : validate_path path = inr tt <-> path_ok path.
Proof.
  unfold validate_path, path_ok. destruct (path_segments path) as [|a [|b [|c [|]]]]; try done.
  - setoid_rewrite <-(match_id_exact "match_id" b). rewrite <-!one_of_spec.
    destruct (one_of a _) eqn:E1; [rewrite checked_only_ok; tauto|].
    destruct (String.eqb_spec a "matches") as [->|Hne]; cbn [andb].
    + destruct (one_of b _) eqn:E2; cbn [negb]; [intuition done|]. rewrite checked_only_ok.
      split; [done|]. intros H. apply H. right. done.
    + intuition discriminate.
  - destruct (String.eqb_spec a "transactions") as [->|]; cbn [andb].
    + destruct (String.eqb_spec b "player") as [->|].
      * unfold validate_account_address; rewrite checked_only_ok, strkey_checked. intuition congruence.
      * cbn. intuition congruence.
    + destruct (String.eqb_spec a "players") as [->|]; cbn [andb]; [|intuition done].
      destruct (String.eqb_spec c "matches") as [->|]; [|intuition done].
      unfold validate_account_address; rewrite checked_only_ok, strkey_checked. intuition done.
Qed.

(** C30: a request goes to its handler exactly when its path is well-formed, every
    recognised query parameter that is not blank has a value well-formed for its
    name, and the range its dates give is not inverted; it reaches the handler
    unchanged, and any other request is answered with an error. *)
Theorem guard_exact path query :
  let answer := validate_request parse_from_rfc3339 parse_naive_date inl
                  (fun p q => inr (p, q)) path query in
  (answer = inr (path, query) \/ exists e, answer = inl e) /\
  (answer = inr (path, query) <->
   path_ok path /\
   forall q, query = Some q ->
     Forall (fun kv => trim kv.2 <> "" -> param_ok kv.1 kv.2) (parse_query_pairs q) /\
     dates_ordered (parse_query_pairs q)).
Proof.
  cbv zeta. unfold validate_request. rewrite <-path_exact.
  destruct (validate_path path) as [e|[]]; [split; [eauto|intuition discriminate]|].
  destruct query as [q|]; [|split; [eauto|split; [intros _; split; [done|discriminate]|done]]].
  assert (Hq : validate_query_string parse_from_rfc3339 parse_naive_date q = inr tt <->
    Forall (fun kv => trim kv.2 <> "" -> param_ok kv.1 kv.2) (parse_query_pairs q) /\
    dates_ordered (parse_query_pairs q)).
  { unfold validate_query_string, validate_date_range, dates_ordered.
    rewrite <-params_exact, <-range_exact.
    destruct (validate_params (parse_query_pairs q)) as [e|[]].
    - split; [discriminate|intros [? _]; discriminate].
    - split; [done|]. by intros [_ ?]. }
  destruct (validate_query_string _ _ q) as [e|[]].
  - split; [eauto|]. split; [discriminate|]. intros [_ H]. specialize (H q eq_refl).
    apply Hq in H. discriminate.
  - split; [eauto|]. split; [|done]. intros _. split; [done|]. intros ? [= <-]. by apply Hq.
Qed.
End Guard.

(** an amount is accepted exactly when the trimmed text is a decimal number from
    one to [i64::MAX], and the handler gets that number; a sign, a fraction, any other
    character, zero and every larger number, however long, are rejected. *)
Theorem token_amount_exact f raw n :
  validate_token_amount f raw = inr n <-> denotes (trim raw) n /\ 1 <= n <= i64_max.
Proof. apply token_amount_spec. Qed.
