(* ===== verification/TransactionApi.v ===== *)
(** The transaction history endpoint of the event indexer: the conversion of raw query
    parameters into filters ([build_transaction_filters] of
    [services/event-indexer/src/api.rs]), the query over the [events] table
    ([query_player_transactions] of [db.rs]) and the handler that joins them.

    The table is the list of its rows, with ledgers and match ids as the signed
    columns they are stored in; the count and the page of one request see the same
    rows.  What PostgreSQL decides is a parameter: [ilike], its case-insensitive
    pattern match, and [order_by], which sorts rows, or reports an error, as for a
    stake that is not a number.

    Then what a client gets: the classifier and the database predicate agree on which
    events are transactions, so no selected row is dropped, and walking the pages by
    [has_more] yields every selected transaction exactly once, in the requested
    order. *)
From stdpp Require Import base list strings.
From Stdlib Require Import ZArith Lia Ascii.
From S2P Require Import Prelude Text Strkey IndexerTypes Validation ValidationSpec.

Local Open Scope Z_scope.

Definition as_u64 (x : Z) : Z := x mod 2 ^ 64.
Definition as_i32 (x : Z) : Z := (x + 2 ^ 31) mod 2 ^ 32 - 2 ^ 31.

(** ** Raw parameters *)

Record TransactionHistoryQuery := mkHistoryQuery {
  q_from_date : option string;
  q_to_date : option string;
  q_completed_after : option string;
  q_completed_before : option string;
  q_limit : option string;
  q_offset : option string;
  q_tx_type : option string;
  q_token : option string;
  q_sort_by : option string;
  q_sort_order : option string
}.

Definition non_empty (value : option string) : option string :=
  match value with
  | Some v => let t := trim v in if String.eqb t "" then None else Some t
  | None => None
  end.

(** A field that is validated when it is there. *)
Definition optional {A} (value : option string) (validate : string -> validation A)
    : validation (option A) :=
  match non_empty value with
  | None => inr None
  | Some raw => match validate raw with inl e => inl e | inr x => inr (Some x) end
  end.
Definition with_default {A} (value : option string) (validate : string -> validation A) (d : A)
    : validation A :=
  match non_empty value with
  | None => inr d
  | Some raw => validate raw
  end.

Notation "x <-? m ; k" := (match m with inl e => inl e | inr x => k end)
  (at level 80, m at next level, right associativity).

Definition build_transaction_filters (parse_from_rfc3339 parse_naive_date : string -> option Z)
    (player_address : string) (q : TransactionHistoryQuery) : validation TransactionHistoryFilters :=
  let date := validate_date parse_from_rfc3339 parse_naive_date in
  player <-? validate_account_address "player_address" player_address;
  tx_type <-? optional (q_tx_type q) (validate_transaction_type "type");
  token <-? optional (q_token q) (validate_token "token");
  from_date <-? optional (q_from_date q) (date "from_date");
  to_date <-? optional (q_to_date q) (date "to_date");
  _u <-? validate_date_range from_date to_date;
  after <-? optional (q_completed_after q) (validate_ledger_sequence "completed_after");
  before <-? optional (q_completed_before q) (validate_ledger_sequence "completed_before");
  _v <-? validate_ledger_range after before;
  limit <-? with_default (q_limit q) (validate_limit "limit") DEFAULT_PAGE_LIMIT;
  offset <-? with_default (q_offset q) (validate_offset "offset") 0;
  sort_by <-? with_default (q_sort_by q) (validate_sort_by "sort_by") SortTimestamp;
  sort_order <-? with_default (q_sort_order q) (validate_sort_order "sort_order") Desc;
  inr (mkFilters player tx_type token from_date to_date after before limit offset sort_by sort_order).

(** ** The query *)

Definition row_to_transaction (row : IndexedEvent) : option TransactionRecord :=
  match from_event_type (ev_event_type row) with
  | None => None
  | Some tx_type =>
      Some (mkTransactionRecord (as_u64 (ev_match_id row)) (ev_timestamp row) tx_type
        match ev_stake_amount row with
        | Some a => if String.eqb a "" then "0" else a
        | None => "0"
        end%string
        (default EmptyString (ev_token row)) (ev_id row) (ev_event_type row)
        (as_u32 (ev_ledger_sequence row)))
  end.

(** An optional condition of the [WHERE] clause. *)
Definition when {A} (o : option A) (p : A -> bool) : bool :=
  match o with Some x => p x | None => true end.

Inductive HistoryError :=
  | BadRequest (e : ValidationError)
  | DatabaseError.

Section Query.
Context (ilike : string -> string -> bool).
Context (order_by : TransactionSortField -> SortOrder -> list IndexedEvent -> option (list IndexedEvent)).

Definition selected (f : TransactionHistoryFilters) (row : IndexedEvent) : bool :=
  (bool_decide (ev_player1 row = Some (tf_player_address f))
   || bool_decide (ev_player2 row = Some (tf_player_address f)))
  && existsb (ilike (ev_event_type row)) (event_type_patterns f)
  && bool_decide (ev_reorg_invalidated_at row = None)
  && when (tf_token f) (fun token => bool_decide (ev_token row = Some token))
  && when (tf_from_date f) (fun from => from <=? ev_timestamp row)
  && when (tf_to_date f) (fun to => ev_timestamp row <=? to)
  && when (tf_completed_after f) (fun after => as_i32 after <=? ev_ledger_sequence row)
  && when (tf_completed_before f) (fun before => ev_ledger_sequence row <=? as_i32 before).

Definition query_player_transactions (events : list IndexedEvent) (f : TransactionHistoryFilters)
    : HistoryError + (list TransactionRecord * Z) :=
  let rows := List.filter (selected f) events in
  match order_by (tf_sort_by f) (tf_sort_order f) rows with
  | None => inl DatabaseError
  | Some sorted =>
      inr (omap row_to_transaction
             (take (Z.to_nat (tf_limit f)) (drop (Z.to_nat (tf_offset f)) sorted)),
           Z.of_nat (length rows))
  end.

(** The handler's answer for filters that were accepted. *)
Definition history_page (events : list IndexedEvent) (f : TransactionHistoryFilters)
    : HistoryError + TransactionPage :=
  match query_player_transactions events f with
  | inl e => inl e
  | inr (transactions, total) => inr (new_page transactions total (tf_limit f) (tf_offset f))
  end.

Definition get_player_transactions (parse_from_rfc3339 parse_naive_date : string -> option Z)
    (events : list IndexedEvent) (player_address : string) (q : TransactionHistoryQuery)
    : HistoryError + TransactionPage :=
  match build_transaction_filters parse_from_rfc3339 parse_naive_date player_address q with
  | inl e => inl (BadRequest e)
  | inr f => history_page events f
  end.
End Query.

(** ** Filters *)

Lemma with_default_inv {A} value (validate : string -> validation A) d x (P : A -> Prop) :
  with_default value validate d = inr x ->
  P d -> (forall raw y, validate raw = inr y -> P y) -> P x.
Proof. intros H Hd Hv. revert H. unfold with_default. case_match; [apply Hv|by intros [= <-]]. Qed.

(** Accepted filters hold a valid page window. *)
Lemma filters_window rfc naive player q f :
  build_transaction_filters rfc naive player q = inr f ->
  MIN_PAGE_LIMIT <= tf_limit f <= MAX_PAGE_LIMIT /\ 0 <= tf_offset f.
Proof.
  unfold build_transaction_filters. intros H.
  repeat match type of H with
  | context [match ?m with inl _ => _ | inr _ => _ end] => destruct m eqn:?; [discriminate H|]
  end.
  injection H as <-. cbn. split.
  - match goal with
    | Hw : with_default _ (validate_limit _) _ = inr _ |- _ => apply (with_default_inv _ _ _ _ (fun z => MIN_PAGE_LIMIT <= z <= MAX_PAGE_LIMIT) Hw)
    end.
    + unfold MIN_PAGE_LIMIT, MAX_PAGE_LIMIT, DEFAULT_PAGE_LIMIT. lia.
    + intros raw y Hy. by apply limit_exact in Hy as [_ Hy].
  - match goal with
    | Hw : with_default _ (validate_offset _) _ = inr _ |- _ =>
        apply (with_default_inv _ _ _ _ (fun z => 0 <= z) Hw)
    end; [lia|]. intros raw y Hy. by apply offset_exact in Hy as [_ Hy].
Qed.

Section History.
Context (ilike : string -> string -> bool).
Context (order_by : TransactionSortField -> SortOrder -> list IndexedEvent -> option (list IndexedEvent)).

(** A pattern between two percent signs matches the texts that contain it, whatever
    the case of their letters. *)
Hypothesis ilike_infix : forall s m, all_chars is_ascii_lowercase m = true ->
  ilike s ("%" ++ m ++ "%") = true <-> exists a b, chars (lowered s) = a ++ chars m ++ b.

(** Sorting permutes the rows. *)
Hypothesis order_by_perm : forall by_field order rows sorted,
  order_by by_field order rows = Some sorted -> Permutation sorted rows.

(** ** Classification *)

Lemma ilike_marker s m :
  all_chars is_ascii_lowercase m = true -> ilike s ("%" ++ m ++ "%") = contains_text (lowered s) m.
Proof.
  intros Hm. apply eq_true_iff_eq. rewrite ilike_infix by done. symmetry. apply contains_text_spec.
Qed.

Lemma existsb_map {A B} (f : A -> B) p l : existsb p (map f l) = existsb (fun x => p (f x)) l.
Proof. induction l as [|x l IH]; cbn; [done|by rewrite IH]. Qed.

Lemma type_patterns e t : existsb (ilike e) (sql_patterns t) = matches_type e t.
Proof.
  unfold sql_patterns, matches_type. rewrite existsb_map.
  by destruct t; cbn; rewrite !ilike_marker by done.
Qed.

Lemma all_patterns e : existsb (ilike e) all_sql_patterns = existsb (matches_type e) ALL.
Proof.
  unfold all_sql_patterns, ALL. cbn [flat_map existsb]. rewrite !existsb_app, !type_patterns.
  done.
Qed.

Lemma classified_all e : is_Some (from_event_type e) <-> existsb (matches_type e) ALL = true.
Proof.
  unfold from_event_type. rewrite existsb_exists. split.
  - intros [t Ht]. apply find_some in Ht. eauto.
  - intros (t & Ht & Hm). destruct (find _ _) eqn:E; [by eexists|].
    by rewrite (find_none _ _ E t Ht) in Hm.
Qed.

(** Whatever the type asked for, a selected event is a transaction. *)
Lemma selected_classified f row :
  selected ilike f row = true -> exists r, row_to_transaction row = Some r /\ tr_event_id r = ev_id row.
Proof.
  unfold selected. intros H. assert (Hp : existsb (ilike (ev_event_type row)) (event_type_patterns f) = true)
    by (zbool; done). clear H.
  assert (Hc : is_Some (from_event_type (ev_event_type row))).
  { apply classified_all. unfold event_type_patterns in Hp.
    destruct (tf_tx_type f) as [t|]; [|by rewrite <-all_patterns].
    rewrite type_patterns in Hp. apply existsb_exists. exists t. split; [|done].
    destruct t; cbn; tauto. }
  destruct Hc as [t Ht]. unfold row_to_transaction. rewrite Ht. eauto.
Qed.

(** ** Pages *)

Definition at_offset (f : TransactionHistoryFilters) (o : Z) : TransactionHistoryFilters :=
  mkFilters (tf_player_address f) (tf_tx_type f) (tf_token f) (tf_from_date f) (tf_to_date f)
    (tf_completed_after f) (tf_completed_before f) (tf_limit f) o (tf_sort_by f) (tf_sort_order f).

(** A client that asks for the next page while the last one says there is more. *)
Fixpoint walk (events : list IndexedEvent) (fuel : nat) (f : TransactionHistoryFilters)
    : option (list TransactionRecord) :=
  match fuel with
  | O => None
  | S fuel =>
      match history_page ilike order_by events f with
      | inl _ => None
      | inr page =>
          if tp_has_more page
          then (fun rest => tp_transactions page ++ rest) <$>
                 walk events fuel (at_offset f (tf_offset f + tf_limit f))
          else Some (tp_transactions page)
      end
  end.

Lemma omap_all {A B} (g : A -> option B) l :
  Forall (fun x => is_Some (g x)) l -> length (omap g l) = length l.
Proof.
  induction 1 as [|x l [y Hy] _ IH]; [done|]. cbn. rewrite Hy. cbn. by rewrite IH.
Qed.

Lemma walk_from events f sorted fuel o :
  1 <= tf_limit f -> 0 <= o -> Z.of_nat (length events) <= i64_max ->
  order_by (tf_sort_by f) (tf_sort_order f) (List.filter (selected ilike f) events) = Some sorted ->
  Forall (fun row => is_Some (row_to_transaction row)) sorted ->
  (length sorted <= length events)%nat -> (length sorted < Z.to_nat o + fuel)%nat ->
  length (List.filter (selected ilike f) events) = length sorted ->
  o <= Z.of_nat (length sorted) ->
  walk events fuel (at_offset f o) = Some (omap row_to_transaction (drop (Z.to_nat o) sorted)).
Proof.
  intros Hl Ho Hmax Hsort Hall Hle Hfuel Htotal Hin. revert o Ho Hfuel Hin.
  induction fuel as [|fuel IH]; intros o Ho Hfuel Hin; [lia|]. cbn [walk].
  unfold history_page, query_player_transactions.
  change (selected ilike (at_offset f o)) with (selected ilike f). cbn [tf_sort_by tf_sort_order at_offset].
  rewrite Hsort. cbn [tf_limit tf_offset at_offset new_page tp_has_more tp_transactions].
  rewrite omap_all by (apply Forall_take, Forall_drop, Hall).
  rewrite length_take, length_drop, Htotal.
  set (n := Z.of_nat (Nat.min _ _)).
  assert (Hn : n = Z.min (tf_limit f) (Z.of_nat (length sorted) - o)) by (subst n; lia).
  assert (Hc : clamp i64_min i64_max (o + n) = o + n).
  { unfold clamp. assert (i64_min <= 0) by done. lia. }
  rewrite Hc. destruct (o + n <? Z.of_nat (length sorted)) eqn:E; zbool.
  - assert (n = tf_limit f) by lia. change (at_offset (at_offset f o) ?x) with (at_offset f x).
    rewrite IH by lia. cbn. f_equal.
    replace (Z.to_nat (o + tf_limit f)) with (Z.to_nat o + Z.to_nat (tf_limit f))%nat by lia.
    rewrite <-drop_drop. rewrite <-omap_app, take_drop. done.
  - f_equal. rewrite take_ge; [done|]. rewrite length_drop. lia.
Qed.

(** C29: a client whose filters are accepted and who asks for page after page while
    [has_more] is set gets, within one request per event and one more, every selected
    transaction exactly once in the order the database gives, and no selected row is
    dropped by the classifier: their number is the total every page reports. *)
Theorem history_walk_complete rfc naive player q events f sorted :
  build_transaction_filters rfc naive player q = inr f ->
  Z.of_nat (length events) <= i64_max ->
  order_by (tf_sort_by f) (tf_sort_order f) (List.filter (selected ilike f) events) = Some sorted ->
  exists records, walk events (S (length events)) (at_offset f 0) = Some records /\
    map tr_event_id records = map ev_id sorted /\
    Permutation (map tr_event_id records) (map ev_id (List.filter (selected ilike f) events)) /\
    forall o, exists page, history_page ilike order_by events (at_offset f o) = inr page /\
      tp_total page = Z.of_nat (length records).
Proof.
  intros Hf Hmax Hsort. apply filters_window in Hf as [[Hlim _] _].
  pose proof (order_by_perm _ _ _ _ Hsort) as Hperm.
  assert (Hall : Forall (fun row => exists r, row_to_transaction row = Some r /\ tr_event_id r = ev_id row) sorted).
  { apply Forall_forall. intros row Hrow. apply selected_classified with f.
    rewrite Hperm in Hrow. apply list_elem_of_In, filter_In in Hrow as [_ Hrow]. done. }
  assert (Hlen : (length sorted <= length events)%nat).
  { rewrite (Permutation_length Hperm). apply List.filter_length_le. }
  exists (omap row_to_transaction sorted).
  assert (Hids : map tr_event_id (omap row_to_transaction sorted) = map ev_id sorted).
  { clear -Hall. induction Hall as [|row l (r & Hr & Hid) _ IH]; [done|]. cbn. rewrite Hr. cbn.
    by rewrite Hid, IH. }
  split_and!.
  - replace sorted with (drop (Z.to_nat 0) sorted) at 1 by done. apply walk_from; try done; try lia.
    + eapply Forall_impl; [exact Hall|]. intros row (r & Hr & _). by eexists.
    + by rewrite <-(Permutation_length Hperm).
  - done.
  - rewrite Hids. by apply Permutation_map.
  - intros o. unfold history_page, query_player_transactions.
    change (selected ilike (at_offset f o)) with (selected ilike f). cbn [tf_sort_by tf_sort_order at_offset].
    rewrite Hsort. eexists. split; [reflexivity|]. cbn.
    apply (f_equal length) in Hids. rewrite !length_map in Hids. rewrite Hids.
    by rewrite (Permutation_length Hperm).
Qed.
End History.

(** ** A pattern matcher that the hypothesis holds of *)

(** [LIKE]: a percent sign stands for any text, an underscore for one character. *)
Fixpoint like (p : list ascii) : list ascii -> bool :=
  match p with
  | [] => fun l => match l with [] => true | _ :: _ => false end
  | c :: p =>
      if bool_decide (c = "%"%char)
      then fix any l := like p l || match l with [] => false | _ :: l => any l end
      else fun l =>
        match l with
        | [] => false
        | x :: l => (bool_decide (c = "_"%char) || bool_decide (x = c)) && like p l
        end
  end.
Definition like_ignoring_case (s p : string) : bool := like (chars (lowered p)) (chars (lowered s)).

Lemma like_any l : like ["%"%char] l = true.
Proof. induction l as [|x l IH]; [done|]. exact IH. Qed.

Lemma like_prefix m l :
  forallb is_ascii_lowercase m = true -> like (m ++ ["%"%char]) l = starts_with l m.
Proof.
  revert l. induction m as [|c m IH]; intros l Hm; [cbn [app]; rewrite like_any; by destruct l|].
  cbn [forallb] in Hm. apply andb_true_iff in Hm as [Hc Hm]. cbn [app like].
  rewrite bool_decide_false by (by intros ->). destruct l as [|x l]; [done|].
  rewrite (bool_decide_false (c = "_"%char)) by (by intros ->). cbn. by rewrite IH.
Qed.

Lemma like_infix m l :
  forallb is_ascii_lowercase m = true -> like ("%"%char :: m ++ ["%"%char]) l = contains_chars l m.
Proof.
  intros Hm. cbn [like]. rewrite bool_decide_true by done.
  induction l as [|x l IH]; cbn [contains_chars]; rewrite <-(like_prefix m) by done.
  - destruct m; reflexivity.
  - rewrite <-IH. by destruct (like (m ++ ["%"%char]) (x :: l)).
Qed.

Lemma lowercase_fixed l : forallb is_ascii_lowercase l = true -> map to_ascii_lowercase l = l.
Proof.
  induction l as [|c l IH]; cbn; [done|]. rewrite andb_true_iff. intros [Hc Hl]. rewrite IH by done.
  f_equal. unfold to_ascii_lowercase, is_ascii_lowercase, is_ascii_uppercase in *.
  destruct (_ && _) eqn:E in |- *; [|done]. zbool. lia.
Qed.

Lemma chars_app a b : chars (a ++ b)%string = chars a ++ chars b.
Proof.
  induction a as [|c a IH]; [done|]. change (c :: chars (a ++ b)%string = c :: chars a ++ chars b).
  by rewrite IH.
Qed.

Lemma like_ignoring_case_infix s m : all_chars is_ascii_lowercase m = true ->
  like_ignoring_case s ("%" ++ m ++ "%") = true <-> exists a b, chars (lowered s) = a ++ chars m ++ b.
Proof.
  intros Hm. unfold like_ignoring_case. unfold lowered at 1.
  rewrite chars_map_chars, !chars_app, !map_app, (lowercase_fixed (chars m)) by done.
  change (map to_ascii_lowercase (chars "%")) with ["%"%char]. cbn [app].
  rewrite like_infix by done. apply contains_text_spec.
Qed.

(** ** A history of two transactions *)

Definition a_player : string := "GAAZI4TCR3TY5OJHCTJC2A4QSY6CJWJH5IAJTGKIN2ER7LBNVKOCCWN7".

Definition an_event (id event_type : string) (ledger : Z) : IndexedEvent :=
  mkIndexedEvent id ledger 1 event_type (Some a_player) None None None (Some "100") None None None
    ledger None (Some 0) None.

Definition some_events : list IndexedEvent :=
  [an_event "a" "match:created" 5; an_event "b" "match:Deposit" 6; an_event "c" "match:completed" 7].

Definition one_per_page : TransactionHistoryQuery :=
  mkHistoryQuery None None None None (Some "1") None None None None None.

Definition no_dates (_ : string) : option Z := None.

Lemma history_walk_complete_witness :
  exists records,
    walk like_ignoring_case (fun _ _ rows => Some (rev rows)) some_events 4
      (mkFilters a_player None None None None None None 1 0 SortTimestamp Desc) = Some records /\
    map tr_event_id records = ["c"; "b"].
Proof.
  destruct (history_walk_complete like_ignoring_case (fun _ _ rows => Some (rev rows))
    like_ignoring_case_infix
    (fun _ _ rows sorted H => eq_ind _ (fun l => Permutation l rows)
       (Permutation_sym (Permutation_rev rows)) _ (f_equal (fun o => default [] o) H))
    no_dates no_dates a_player one_per_page some_events
    (mkFilters a_player None None None None None None 1 0 SortTimestamp Desc)
    [an_event "c" "match:completed" 7; an_event "b" "match:Deposit" 6])
    as (records & Hw & Hids & _).
  - vm_compute. reflexivity.
  - vm_compute. discriminate.
  - vm_compute. reflexivity.
  - exists records. split; [exact Hw|exact Hids].
Defined.

(** ** Two classifications *)

(** The admin's change of the fee schedule moves no funds, and is classified as a fee. *)
Example admin_event_is_a_fee : from_event_type "admin:fee_tiers_set" = Some TxFee.
Proof. reflexivity. Qed.

(** The largest accepted ledger bound is compared as minus one. *)
Example ledger_bound_wraps :
  validate_ledger_sequence "completed_before" "4294967295" = inr 4294967295 /\
  as_i32 4294967295 = -1.
Proof. vm_compute. done. Qed.
