(* ===== verification/EventCache.v ===== *)
(** The event indexer's in-process cache of events,
    [services/event-indexer/src/cache.rs]: an ordered map of at most [max_size]
    entries, oldest first, with an index from matches to the cached events; then what
    it promises: its size, the agreement of the match index with the entries,
    least-recently-inserted eviction and bounded staleness, and what an event that is
    inserted twice does to the match index.

    [IndexMap] is the list of its pairs in order.  The clock is an argument of the
    operations that read it, in nanoseconds. *)
From stdpp Require Import base list strings sets.
From Stdlib Require Import ZArith Lia.
From S2P Require Import Prelude IndexerTypes TransactionApi.

Local Open Scope Z_scope.

Definition nanos_per_second : Z := 1000000000.

(** ** Ordered maps *)

Definition index_get {K V} `{EqDecision K} (k : K) (m : list (K * V)) : option V :=
  snd <$> find (fun kv => bool_decide (kv.1 = k)) m.
Definition index_contains {K V} `{EqDecision K} (k : K) (m : list (K * V)) : bool :=
  existsb (fun kv => bool_decide (kv.1 = k)) m.

(** [shift_remove]: the pairs behind move up. *)
Definition shift_remove {K V} `{EqDecision K} (k : K) (m : list (K * V)) : list (K * V) :=
  List.filter (fun kv => negb (bool_decide (kv.1 = k))) m.

(** [insert] replaces the value in place or appends the pair. *)
Fixpoint index_insert {K V} `{EqDecision K} (k : K) (v : V) (m : list (K * V)) : list (K * V) :=
  match m with
  | [] => [(k, v)]
  | kv :: rest => if bool_decide (kv.1 = k) then (k, v) :: rest else kv :: index_insert k v rest
  end.

(** ** The cache *)

Record CachedEntry := mkCachedEntry { event : IndexedEvent; inserted_at : Z }.

Record EventCache := mkEventCache {
  events : list (string * CachedEntry);
  match_index : list (Z * list string);
  max_size : nat;
  ttl_secs : Z
}.

(** [None] is the panic of the assertion. *)
Definition with_ttl (max_size : nat) (ttl_secs : Z) : option EventCache :=
  if Nat.ltb 0 max_size then Some (mkEventCache [] [] max_size ttl_secs) else None.
Definition new (max_size : nat) : option EventCache := with_ttl max_size 300.

Definition remove_from_match_index (event_id : string) (index : list (Z * list string))
    : list (Z * list string) :=
  List.filter (fun kv => match kv.2 with [] => false | _ :: _ => true end)
    (map (fun kv => (kv.1, List.filter (fun id => negb (bool_decide (id = event_id))) kv.2)) index).

(** Making room for an event: its own entry goes, or else the oldest one of a full
    cache. *)
Definition make_room (event_id : string) (c : EventCache) : EventCache :=
  if index_contains event_id (events c)
  then mkEventCache (shift_remove event_id (events c)) (match_index c) (max_size c) (ttl_secs c)
  else if Nat.leb (max_size c) (length (events c)) then
    match events c with
    | [] => c
    | (evicted_id, _) :: rest =>
        mkEventCache rest (remove_from_match_index evicted_id (match_index c)) (max_size c)
          (ttl_secs c)
    end
  else c.

Definition push_index (match_id : Z) (event_id : string) (index : list (Z * list string))
    : list (Z * list string) :=
  index_insert match_id (default [] (index_get match_id index) ++ [event_id]) index.

Definition insert (now : Z) (e : IndexedEvent) (c : EventCache) : EventCache :=
  let c := make_room (ev_id e) c in
  mkEventCache (index_insert (ev_id e) (mkCachedEntry e now) (events c))
    (push_index (ev_match_id e) (ev_id e) (match_index c)) (max_size c) (ttl_secs c).

(** [num_seconds] rounds towards zero; the cast to [u64] wraps a negative age. *)
Definition is_expired (now : Z) (c : EventCache) (inserted_at : Z) : bool :=
  ttl_secs c <=? as_u64 ((now - inserted_at) ÷ nanos_per_second).

Definition get (now : Z) (event_id : string) (c : EventCache) : option IndexedEvent :=
  match index_get event_id (events c) with
  | Some entry => if is_expired now c (inserted_at entry) then None else Some (event entry)
  | None => None
  end.

Definition get_by_match (now match_id : Z) (c : EventCache) : list IndexedEvent :=
  match index_get match_id (match_index c) with
  | Some ids => omap (fun id => get now id c) ids
  | None => []
  end.

Definition remove (event_id : string) (c : EventCache) : EventCache :=
  if index_contains event_id (events c)
  then mkEventCache (shift_remove event_id (events c))
         (remove_from_match_index event_id (match_index c)) (max_size c) (ttl_secs c)
  else c.

Definition clear (c : EventCache) : EventCache := mkEventCache [] [] (max_size c) (ttl_secs c).

Definition size (c : EventCache) : nat := length (events c).

(** ** Ordered maps: lemmas *)

Section IndexMap.
Context {K V : Type} `{EqDecision K}.
Implicit Types m : list (K * V).

Lemma index_contains_spec k m : index_contains k m = true <-> In k (map fst m).
Proof.
  unfold index_contains. rewrite existsb_exists, in_map_iff. split.
  - intros ([k' v] & Hin & E). zbool. by exists (k', v).
  - intros ([k' v] & <- & Hin). exists (k', v). split; [done|]. by apply bool_decide_eq_true.
Qed.

Lemma shift_remove_keys k m :
  map fst (shift_remove k m) = List.filter (fun x => negb (bool_decide (x = k))) (map fst m).
Proof.
  unfold shift_remove. induction m as [|kv m IH]; cbn; [done|].
  case_match; cbn; by rewrite IH.
Qed.

Lemma index_insert_new k v m : ~ In k (map fst m) -> index_insert k v m = m ++ [(k, v)].
Proof.
  induction m as [|kv m IH]; cbn; [done|]. intros Hn.
  rewrite bool_decide_false by (intros E; apply Hn; auto). by rewrite IH by auto.
Qed.

Lemma index_insert_keys k v m :
  map fst (index_insert k v m) = map fst m ++ (if index_contains k m then [] else [k]).
Proof.
  unfold index_contains. induction m as [|kv m IH]; cbn; [done|].
  destruct (bool_decide (kv.1 = k)) eqn:E; cbn; [|by rewrite IH].
  zbool. subst. by rewrite app_nil_r.
Qed.

Lemma index_get_insert k v m k' :
  index_get k' (index_insert k v m) = if bool_decide (k' = k) then Some v else index_get k' m.
Proof.
  unfold index_get. induction m as [|kv m IH]; cbn.
  - rewrite (bool_decide_ext (k = k') (k' = k)) by done. by case_match.
  - destruct (bool_decide (kv.1 = k)) eqn:E; cbn; zbool.
    + subst k. rewrite (bool_decide_ext (kv.1 = k') (k' = kv.1)) by done.
      destruct (bool_decide (k' = kv.1)) eqn:E'; [done|]. reflexivity.
    + destruct (bool_decide (kv.1 = k')) eqn:E'; zbool; [|exact IH].
      subst k'. by rewrite bool_decide_false by done.
Qed.

Lemma index_get_In k v m : index_get k m = Some v -> In (k, v) m.
Proof.
  unfold index_get. intros H. destruct (find _ _) as [[k' v']|] eqn:E; [|done].
  injection H as ->. apply find_some in E as [Hin E]. zbool. cbn in E. by subst.
Qed.

Lemma index_get_NoDup k v m : List.NoDup (map fst m) -> In (k, v) m -> index_get k m = Some v.
Proof.
  unfold index_get. induction m as [|[k' v'] m IH]; cbn; [done|]. intros Hnd Hin.
  apply NoDup_cons_iff in Hnd as [Hn Hnd]. destruct Hin as [[= -> ->]|Hin].
  - by rewrite bool_decide_true.
  - rewrite bool_decide_false; [by apply IH|]. intros ->. apply Hn. apply in_map_iff. by exists (k, v).
Qed.
End IndexMap.

Notation keys c := (map fst (events c)).

(** ** Runs *)

Inductive CacheOp :=
  | Insert (now : Z) (e : IndexedEvent)
  | Remove (event_id : string)
  | Clear.

Definition step (c : EventCache) (op : CacheOp) : EventCache :=
  match op with
  | Insert now e => insert now e c
  | Remove id => remove id c
  | Clear => clear c
  end.

(** ** The invariant *)

Record consistent (c : EventCache) : Prop := {
  positive : (0 < max_size c)%nat;
  bounded : (length (events c) <= max_size c)%nat;
  keys_nodup : List.NoDup (keys c);
  keyed : forall id en, In (id, en) (events c) -> ev_id (event en) = id;
  index_nodup : List.NoDup (map fst (match_index c));
  index_sound : forall m ids id, In (m, ids) (match_index c) -> In id ids -> In id (keys c);
  index_complete : forall id en, In (id, en) (events c) ->
    exists ids, In (ev_match_id (event en), ids) (match_index c) /\ In id ids
}.

Lemma filter_ne_In (id x : string) l :
  In x (List.filter (fun y => negb (bool_decide (y = id))) l) <-> In x l /\ x <> id.
Proof.
  rewrite filter_In. split; intros [Hx H]; (split; [done|]).
  - zbool. done.
  - apply negb_true_iff, bool_decide_eq_false. done.
Qed.

Lemma NoDup_filter_ne (id : string) l :
  List.NoDup l -> List.NoDup (List.filter (fun y : string => negb (bool_decide (y = id))) l).
Proof. apply List.NoDup_filter. Qed.

Lemma keys_snoc {A} (l : list A) x : List.NoDup l -> ~ In x l -> List.NoDup (l ++ [x]).
Proof.
  intros Hl Hx. apply List.NoDup_app; [done|repeat constructor; intros []|]. by intros y Hy [<-|[]].
Qed.

Lemma shift_remove_In id (en : string * CachedEntry) m :
  In en (shift_remove id m) <-> In en m /\ en.1 <> id.
Proof.
  unfold shift_remove. rewrite filter_In. split; intros [Hx H]; (split; [done|]).
  - zbool. done.
  - apply negb_true_iff, bool_decide_eq_false. done.
Qed.

Lemma removed_index_In id m ids index :
  In (m, ids) (remove_from_match_index id index) ->
  exists ids0, In (m, ids0) index /\ ids = List.filter (fun y => negb (bool_decide (y = id))) ids0.
Proof.
  unfold remove_from_match_index. rewrite filter_In, in_map_iff.
  intros [([m' ids0] & [= <- <-] & Hin) _]. eauto.
Qed.

Lemma removed_index_keeps id x m ids index :
  In (m, ids) index -> In x ids -> x <> id ->
  exists ids', In (m, ids') (remove_from_match_index id index) /\ In x ids'.
Proof.
  intros Hin Hx Hne. exists (List.filter (fun y => negb (bool_decide (y = id))) ids).
  assert (Hx' : In x (List.filter (fun y => negb (bool_decide (y = id))) ids)) by (by apply filter_ne_In).
  split; [|done]. unfold remove_from_match_index. apply filter_In. split.
  - apply in_map_iff. by exists (m, ids).
  - cbn. by destruct (List.filter _ ids).
Qed.

Lemma removed_index_nodup id index :
  List.NoDup (map fst index) -> List.NoDup (map fst (remove_from_match_index id index)).
Proof.
  intros H. unfold remove_from_match_index.
  replace (map fst index) with
    (map fst (map (fun kv => (kv.1, List.filter (fun y => negb (bool_decide (y = id))) kv.2)) index)) in H
    by (by rewrite map_map).
  revert H. generalize (map (fun kv => (kv.1, List.filter (fun y => negb (bool_decide (y = id))) kv.2)) index).
  intros l. induction l as [|kv l IH]; cbn; [done|]. intros H. apply NoDup_cons_iff in H as [Hn H].
  case_match; cbn; [|by apply IH]. constructor; [|by apply IH].
  intros Hin. apply Hn. apply in_map_iff in Hin as (x & <- & Hx). apply filter_In in Hx as [Hx _].
  apply in_map_iff. by exists x.
Qed.

(** Dropping an entry with its references keeps the cache consistent. *)
Lemma drop_entry_consistent c id rest :
  consistent c ->
  (forall en, In en rest <-> In en (events c) /\ en.1 <> id) -> List.NoDup (map fst rest) ->
  (length rest <= length (events c))%nat ->
  consistent (mkEventCache rest (remove_from_match_index id (match_index c)) (max_size c) (ttl_secs c)).
Proof.
  intros H Hrest Hnd Hlen. destruct H as [Hp Hb _ Hk Hi Hs Hc]. constructor; cbn; try done.
  - lia.
  - intros x en Hin. apply Hrest in Hin as [Hin _]. by apply Hk.
  - by apply removed_index_nodup.
  - intros m ids x Hin Hx. apply removed_index_In in Hin as (ids0 & Hin & ->).
    apply filter_ne_In in Hx as [Hx Hne]. specialize (Hs _ _ _ Hin Hx).
    apply in_map_iff in Hs as ([x' en] & <- & Hen). apply in_map_iff. exists (x', en).
    split; [done|]. by apply Hrest.
  - intros x en Hin. apply Hrest in Hin as [Hin Hne]. destruct (Hc _ _ Hin) as (ids & Hids & Hx).
    by eapply removed_index_keeps.
Qed.

Lemma shift_remove_nodup id (m : list (string * CachedEntry)) :
  List.NoDup (map fst m) -> List.NoDup (map fst (shift_remove id m)).
Proof. intros H. rewrite shift_remove_keys. by apply NoDup_filter_ne. Qed.

Lemma shift_remove_length id (m : list (string * CachedEntry)) :
  (length (shift_remove id m) <= length m)%nat.
Proof. apply List.filter_length_le. Qed.

Lemma shift_remove_shorter id (m : list (string * CachedEntry)) :
  In id (map fst m) -> (length (shift_remove id m) < length m)%nat.
Proof.
  intros E. apply in_map_iff in E as ([k v] & Hk & Hin). apply in_split in Hin as (l1 & l2 & ->).
  unfold shift_remove. rewrite List.filter_app, length_app. cbn. cbn in Hk.
  rewrite bool_decide_true by done. cbn. rewrite length_app. cbn.
  pose proof (shift_remove_length id l1) as H1. pose proof (shift_remove_length id l2) as H2.
  unfold shift_remove in *. lia.
Qed.

Lemma remove_consistent id c : consistent c -> consistent (remove id c).
Proof.
  intros H. unfold remove. case_match; [|done]. apply drop_entry_consistent; [done| | |].
  - intros en. apply shift_remove_In.
  - apply shift_remove_nodup, H.
  - apply shift_remove_length.
Qed.

(** Appending an event that has no entry, to a cache with room. *)
Lemma append_consistent now e c :
  (0 < max_size c)%nat -> (length (events c) < max_size c)%nat -> List.NoDup (keys c) ->
  ~ In (ev_id e) (keys c) ->
  (forall id en, In (id, en) (events c) -> ev_id (event en) = id) ->
  List.NoDup (map fst (match_index c)) ->
  (forall m ids id, In (m, ids) (match_index c) -> In id ids -> id = ev_id e \/ In id (keys c)) ->
  (forall id en, In (id, en) (events c) ->
    exists ids, In (ev_match_id (event en), ids) (match_index c) /\ In id ids) ->
  consistent (mkEventCache (index_insert (ev_id e) (mkCachedEntry e now) (events c))
    (push_index (ev_match_id e) (ev_id e) (match_index c)) (max_size c) (ttl_secs c)).
Proof.
  intros Hp Hb Hnd Hnew Hk Hi Hs Hc.
  set (ids1 := default [] (index_get (ev_match_id e) (match_index c)) ++ [ev_id e]).
  assert (Hi' : List.NoDup (map fst (push_index (ev_match_id e) (ev_id e) (match_index c)))).
  { unfold push_index. rewrite index_insert_keys. destruct (index_contains _ _) eqn:E;
      [by rewrite app_nil_r|]. apply keys_snoc; [done|]. intros Hx. apply index_contains_spec in Hx. congruence. }
  assert (Hget : forall m ids, In (m, ids) (push_index (ev_match_id e) (ev_id e) (match_index c)) <->
    (m = ev_match_id e /\ ids = ids1) \/ (m <> ev_match_id e /\ In (m, ids) (match_index c))).
  { intros m ids. split.
    - intros Hin. apply index_get_NoDup in Hin; [|done]. unfold push_index in Hin.
      rewrite index_get_insert in Hin. case_match eqn:E; zbool; [left; by injection Hin as <-|right].
      split; [done|by apply index_get_In].
    - intros [[-> ->]|[Hne Hin]]; apply index_get_In; unfold push_index; rewrite index_get_insert.
      + by rewrite bool_decide_true.
      + rewrite bool_decide_false by done. by apply index_get_NoDup. }
  rewrite index_insert_new by done. constructor; cbn [events match_index max_size]; try done.
  - rewrite length_app. cbn. lia.
  - rewrite map_app. by apply keys_snoc.
  - intros id en Hin. apply in_app_iff in Hin as [Hin|[[= <- <-]|[]]]; [by apply Hk|done].
  - intros m ids id Hin Hid. rewrite map_app, in_app_iff. cbn.
    apply Hget in Hin as [[-> ->]|[_ Hin]].
    + apply in_app_iff in Hid as [Hid|[<-|[]]]; [|by right; left].
      destruct (index_get (ev_match_id e) (match_index c)) as [ids0|] eqn:E; [|done].
      apply index_get_In in E. destruct (Hs _ _ _ E Hid) as [->|?]; [by right; left|by left].
    + destruct (Hs _ _ _ Hin Hid) as [->|?]; [by right; left|by left].
  - intros id en Hin. apply in_app_iff in Hin as [Hin|[[= <- <-]|[]]].
    + destruct (Hc _ _ Hin) as (ids & Hids & Hid).
      destruct (decide (ev_match_id (event en) = ev_match_id e)) as [E|Hne].
      * exists ids1. split; [apply Hget; left; by rewrite E|]. apply in_app_iff. left.
        rewrite E in Hids. apply index_get_NoDup in Hids; [|done]. by rewrite Hids.
      * exists ids. split; [apply Hget; by right|done].
    + exists ids1. split; [apply Hget; by left|]. apply in_app_iff. right. by left.
Qed.

Lemma evict_In (id : string) (en0 : CachedEntry) rest en :
  List.NoDup (map fst ((id, en0) :: rest)) ->
  In en rest <-> In en ((id, en0) :: rest) /\ en.1 <> id.
Proof.
  cbn. intros H. apply NoDup_cons_iff in H as [Hn _]. split.
  - intros Hin. split; [by right|]. intros <-. apply Hn, in_map_iff. by exists en.
  - intros [[<-|Hin] Hne]; [done|done].
Qed.

Lemma insert_consistent now e c : consistent c -> consistent (insert now e c).
Proof.
  intros H. unfold insert, make_room. destruct (index_contains (ev_id e) (events c)) eqn:E.
  - apply index_contains_spec in E. destruct H as [Hp Hb Hnd Hk Hi Hs Hc].
    pose proof (shift_remove_shorter (ev_id e) (events c) E) as Hlt.
    set (c1 := mkEventCache (shift_remove (ev_id e) (events c)) (match_index c) (max_size c) (ttl_secs c)).
    apply (append_consistent now e c1); subst c1; cbn; try done.
    + lia.
    + by apply shift_remove_nodup.
    + rewrite shift_remove_keys. intros Hin. by apply filter_ne_In in Hin as [_ ?].
    + intros id en Hin. apply shift_remove_In in Hin as [Hin _]. by apply Hk.
    + intros m ids id Hin Hid. rewrite shift_remove_keys, filter_ne_In.
      destruct (decide (id = ev_id e)); [by left|right]. split; [by eapply Hs|done].
    + intros id en Hin. apply shift_remove_In in Hin as [Hin _]. by apply Hc.
  - assert (Hnew : ~ In (ev_id e) (keys c))
      by (intros Hin; apply index_contains_spec in Hin; congruence).
    destruct (Nat.leb_spec (max_size c) (length (events c))) as [Hfull|Hroom].
    + destruct (events c) as [|[id en0] rest] eqn:Hev; [cbn in Hfull; pose proof (positive _ H); lia|].
      assert (H' := drop_entry_consistent c id rest H).
      rewrite Hev in H'. pose proof (keys_nodup _ H) as Hnd. rewrite Hev in Hnd.
      specialize (H' (fun en => evict_In id en0 rest en Hnd)).
      specialize (H' (proj2 (proj1 (NoDup_cons_iff _ _) Hnd)) ltac:(cbn; lia)).
      destruct H' as [Hp _ Hnd' Hk Hi Hs Hc].
      apply (append_consistent now e
        (mkEventCache rest (remove_from_match_index id (match_index c)) (max_size c) (ttl_secs c)));
        cbn in *; try done.
      * pose proof (bounded _ H) as Hb. rewrite Hev in Hb. cbn in Hb. lia.
      * intros Hin. apply Hnew. by right.
      * intros m ids x Hin Hx. right. by eapply Hs.
    + destruct H as [Hp Hb Hnd Hk Hi Hs Hc]. apply append_consistent; try done.
      intros m ids x Hin Hx. right. by eapply Hs.
Qed.

Lemma step_consistent c op : consistent c -> consistent (step c op).
Proof.
  intros H. destruct op; cbn; [by apply insert_consistent|by apply remove_consistent|].
  destruct H as [Hp _ _ _ _ _ _]. constructor; cbn; try done; try constructor. lia.
Qed.

Lemma run_consistent c ops : consistent c -> consistent (foldl step c ops).
Proof.
  revert c. induction ops as [|op ops IH]; intros c H; [done|]. cbn. apply IH. by apply step_consistent.
Qed.

Lemma step_size c op : max_size (step c op) = max_size c.
Proof.
  destruct op; cbn; [unfold make_room; repeat case_match; done|unfold remove; by case_match|done].
Qed.

Lemma run_size c ops : max_size (foldl step c ops) = max_size c.
Proof. revert c. induction ops as [|op ops IH]; intros c; [done|]. cbn. by rewrite IH, step_size. Qed.

Lemma new_consistent n ttl c : with_ttl n ttl = Some c -> consistent c.
Proof.
  unfold with_ttl. destruct (Nat.ltb_spec 0 n); [|done]. intros [= <-].
  constructor; cbn; try done; try constructor. lia.
Qed.

Lemma find_by_id c now id e :
  consistent c -> get now id c = Some e -> ev_id e = id /\ In e (get_by_match now (ev_match_id e) c).
Proof.
  intros H Hg. unfold get in Hg. destruct (index_get id (events c)) as [en|] eqn:E; [|done].
  destruct (is_expired now c (inserted_at en)) eqn:Ex; [done|]. injection Hg as <-.
  pose proof (index_get_In _ _ _ E) as Hin. split; [by apply (keyed _ H)|].
  destruct (index_complete _ H _ _ Hin) as (ids & Hids & Hid).
  apply index_get_NoDup in Hids; [|apply (index_nodup _ H)].
  unfold get_by_match. rewrite Hids. apply list_elem_of_In, list_elem_of_omap.
  exists id. split; [by apply list_elem_of_In|]. unfold get. by rewrite E, Ex.
Qed.

(** whatever is inserted, removed and cleared, in any order and at any times, the
    cache holds at most [max_size] events; an event it answers for by id it also lists
    under the event's match, and an event it lists under any match it answers for by
    id, so the match index never names an evicted event nor misses a cached one. *)
Theorem cache_consistent n ttl c ops now id e m :
  with_ttl n ttl = Some c ->
  let c' := foldl step c ops in
  (size c' <= n)%nat /\
  (get now id c' = Some e -> ev_id e = id /\ In e (get_by_match now (ev_match_id e) c')) /\
  (In e (get_by_match now m c') -> get now (ev_id e) c' = Some e).
Proof.
  intros Hn. cbv zeta. pose proof (run_consistent c ops (new_consistent _ _ _ Hn)) as H.
  assert (Hm : max_size (foldl step c ops) = n).
  { rewrite run_size. unfold with_ttl in Hn. destruct (Nat.ltb 0 n); [|done]. by injection Hn as <-. }
  split; [rewrite <-Hm; apply (bounded _ H)|]. split; [by apply find_by_id|].
  unfold get_by_match. destruct (index_get m _) as [ids|]; [|done].
  intros Hin. apply list_elem_of_In, list_elem_of_omap in Hin as (x & _ & Hx).
  by destruct (find_by_id _ _ _ _ H Hx) as [-> _].
Qed.

Lemma cache_consistent_witness :
  exists c, with_ttl 1 300 = Some c /\
  let e := mkIndexedEvent "a" 1 7 "match:created" None None None None None None None None 0 None None None in
  let c' := foldl step c [Insert 0 (mkIndexedEvent "b" 1 8 "x" None None None None None None None None
                                      0 None None None); Insert 0 e] in
  get 0 "a" c' = Some e /\ In e (get_by_match 0 7 c').
Proof.
  eexists. split; [reflexivity|]. cbv zeta.
  set (e := mkIndexedEvent "a" _ _ _ _ _ _ _ _ _ _ _ _ _ _ _).
  set (b := mkIndexedEvent "b" _ _ _ _ _ _ _ _ _ _ _ _ _ _ _).
  assert (Hg : get 0 "a" (foldl step (mkEventCache [] [] 1 300) [Insert 0 b; Insert 0 e]) = Some e)
    by (vm_compute; reflexivity).
  split; [exact Hg|].
  destruct (cache_consistent 1 300 (mkEventCache [] [] 1 300) [Insert 0 b; Insert 0 e] 0 "a" e 7 eq_refl)
    as (_ & H & _).
  exact (proj2 (H Hg)).
Defined.

(** ** Eviction order *)

(** The distinct ids of a sequence, each at its last occurrence. *)
Fixpoint last_distinct (l : list string) : list string :=
  match l with
  | [] => []
  | x :: rest => if bool_decide (x ∈ rest) then last_distinct rest else x :: last_distinct rest
  end.

(** The last [n] elements. *)
Definition newest (n : nat) (l : list string) : list string := drop (length l - n) l.

Notation without id := (List.filter (fun y : string => negb (bool_decide (y = id)))).

Lemma last_distinct_snoc l x : last_distinct (l ++ [x]) = without x (last_distinct l) ++ [x].
Proof.
  induction l as [|y l IH]; cbn [app last_distinct].
  - rewrite bool_decide_false by set_solver. done.
  - rewrite IH. destruct (decide (y ∈ l)) as [Hy|Hy].
    + rewrite !bool_decide_true by set_solver. done.
    + rewrite (bool_decide_false (y ∈ l)) by done. destruct (decide (y = x)) as [->|Hne].
      * rewrite bool_decide_true by set_solver. cbn. by rewrite bool_decide_true.
      * rewrite bool_decide_false by set_solver. cbn. by rewrite bool_decide_false.
Qed.

Lemma last_distinct_sub l x : In x (last_distinct l) -> In x l.
Proof.
  induction l as [|y l IH]; cbn; [done|]. case_match; cbn; [auto|]. intros [->|?]; auto.
Qed.

Lemma last_distinct_nodup l : List.NoDup (last_distinct l).
Proof.
  induction l as [|y l IH]; cbn; [constructor|]. case_match eqn:E; [done|]. zbool.
  constructor; [|done]. intros Hin. apply E, list_elem_of_In, last_distinct_sub, Hin.
Qed.

Lemma without_absent x l : ~ In x l -> without x l = l.
Proof.
  induction l as [|y l IH]; cbn; [done|]. intros H. rewrite bool_decide_false by auto. cbn.
  by rewrite IH by auto.
Qed.

Lemma without_length x l : List.NoDup l -> In x l -> length l = S (length (without x l)).
Proof.
  induction l as [|y l IH]; cbn; [done|]. intros Hnd Hin. apply NoDup_cons_iff in Hnd as [Hn Hnd].
  destruct (bool_decide (y = x)) eqn:E; zbool; cbn.
  - subst. by rewrite without_absent.
  - f_equal. apply IH; [done|]. by destruct Hin.
Qed.

(** What one insertion does to the newest [n] ids. *)
Lemma newest_touch n d x :
  (0 < n)%nat -> List.NoDup d ->
  newest n (without x d ++ [x]) =
    (if bool_decide (x ∈ newest n d) then without x (newest n d)
     else if Nat.leb n (length (newest n d)) then tail (newest n d) else newest n d) ++ [x].
Proof.
  intros Hn Hnd. unfold newest.
  assert (Hsplit : d = take (length d - n) d ++ drop (length d - n) d) by (by rewrite take_drop).
  set (a := take (length d - n) d) in *. set (s := drop (length d - n) d) in *.
  assert (Hs : length s = Nat.min n (length d)) by (subst s; rewrite length_drop; lia).
  assert (Ha : length a = (length d - n)%nat) by (subst a; rewrite length_take; lia).
  clearbody a s. subst d. rewrite List.filter_app.
  apply NoDup_app_remove_l in Hnd as Hnds. rewrite length_app in *.
  destruct (decide (x ∈ s)) as [Hx|Hx].
  - rewrite bool_decide_true by done. apply list_elem_of_In in Hx.
    apply NoDup_ListNoDup, NoDup_app in Hnd as (_ & Hdis & _).
    assert (Hxa : ~ In x a) by (intros Hxa; apply list_elem_of_In in Hxa, Hx; by apply (Hdis x)).
    rewrite (without_absent x a) by done. pose proof (without_length x s Hnds Hx) as Hl.
    rewrite <-app_assoc. rewrite drop_app_length'; [done|]. rewrite !length_app. cbn. lia.
  - rewrite bool_decide_false by done. rewrite (without_absent x s) by (by rewrite <-list_elem_of_In).
    destruct (Nat.leb_spec n (length s)) as [Hf|Hr].
    + destruct s as [|y s]; [cbn in Hf; lia|]. cbn [tail].
      replace ((without x a ++ y :: s) ++ [x]) with ((without x a ++ [y]) ++ s ++ [x])
        by (by rewrite <-!app_assoc).
      rewrite drop_app_length'; [done|]. rewrite !length_app in *. cbn in *. lia.
    + assert (length a = 0)%nat by lia. destruct a; [|done]. cbn.
      by replace (length s + 1 - n)%nat with 0%nat by lia.
Qed.

Lemma contains_elem id c : index_contains id (events c) = bool_decide (id ∈ keys c).
Proof.
  apply eq_true_iff_eq. rewrite index_contains_spec, bool_decide_eq_true. symmetry. apply list_elem_of_In.
Qed.

Lemma insert_keys now e c :
  consistent c ->
  keys (insert now e c) =
    (if bool_decide (ev_id e ∈ keys c) then without (ev_id e) (keys c)
     else if Nat.leb (max_size c) (length (keys c)) then tail (keys c) else keys c) ++ [ev_id e].
Proof.
  intros H. unfold insert. cbn [events]. rewrite index_insert_new.
  - rewrite map_app. cbn [map fst]. f_equal. unfold make_room.
    rewrite contains_elem, length_map. case_match; [apply shift_remove_keys|].
    case_match; [|done]. destruct (events c) as [|[id en] rest] eqn:E; cbn; [by rewrite E|done].
  - unfold make_room. rewrite contains_elem. case_match eqn:E; cbn [events].
    + rewrite shift_remove_keys. intros Hin. by apply filter_ne_In in Hin as [_ ?].
    + apply bool_decide_eq_false in E. rewrite list_elem_of_In in E.
      destruct (Nat.leb (max_size c) (length (events c))); [|exact E].
      destruct (events c) as [|[id en] rest] eqn:Hev; [by rewrite Hev|]. cbn in *. auto.
Qed.

Lemma newest_snoc n ids x :
  (0 < n)%nat ->
  newest n (last_distinct (ids ++ [x])) =
    (if bool_decide (x ∈ newest n (last_distinct ids)) then without x (newest n (last_distinct ids))
     else if Nat.leb n (length (newest n (last_distinct ids))) then tail (newest n (last_distinct ids))
     else newest n (last_distinct ids)) ++ [x].
Proof. intros Hn. rewrite last_distinct_snoc. by apply newest_touch, last_distinct_nodup. Qed.

(** after any sequence of insertions the cache holds exactly the [max_size] events
    inserted most recently, in the order of their last insertion: a full cache evicts
    the event that was inserted the longest ago, and inserting an event again renews
    it. *)
Theorem cache_keeps_newest n ttl c (inserted : list (Z * IndexedEvent)) :
  with_ttl n ttl = Some c ->
  keys (foldl (fun c te => insert te.1 te.2 c) c inserted) =
    newest n (last_distinct (map (fun te => ev_id te.2) inserted)).
Proof.
  intros Hc. induction inserted as [|[now e] l IH] using rev_ind.
  - cbn. unfold with_ttl in Hc. case_match; [|done]. by injection Hc as <-.
  - assert (Hrun : foldl (fun c te => insert te.1 te.2 c) c l =
                   foldl step c (map (fun te => Insert te.1 te.2) l)).
    { clear. revert c. induction l as [|te l IH]; intros c; [done|]. cbn. apply IH. }
    assert (Hm : max_size c = n /\ (0 < n)%nat).
    { unfold with_ttl in Hc. destruct (Nat.ltb_spec 0 n); [|done]. by injection Hc as <-. }
    destruct Hm as [Hm Hpos].
    rewrite foldl_snoc, map_app. cbn [map fst snd]. rewrite insert_keys, newest_snoc by
      (done || (rewrite Hrun; by apply run_consistent, (new_consistent n ttl))).
    assert (Hsz : max_size (foldl (fun c te => insert te.1 te.2 c) c l) = n)
      by (by rewrite Hrun, run_size).
    by rewrite Hsz, IH.
Qed.

Lemma cache_keeps_newest_witness :
  exists c, with_ttl 2 300 = Some c /\
  let e := fun id => mkIndexedEvent id 1 1 "t" None None None None None None None None 0 None None None in
  keys (foldl (fun c te => insert te.1 te.2 c) c [(0, e "a"); (1, e "b"); (2, e "a"); (3, e "c")]) =
    ["a"; "c"].
Proof.
  eexists. split; [reflexivity|]. cbv zeta.
  refine (eq_trans (cache_keeps_newest 2 300 _ [(0, _); (1, _); (2, _); (3, _)] eq_refl) _).
  vm_compute. reflexivity.
Defined.

(** ** Staleness *)

Lemma get_fresh now id c e :
  get now id c = Some e ->
  exists t, index_get id (events c) = Some (mkCachedEntry e t) /\
    as_u64 ((now - t) ÷ nanos_per_second) < ttl_secs c.
Proof.
  unfold get, is_expired. destruct (index_get id (events c)) as [[ev t]|]; [|done]. cbn.
  case_match eqn:E; [done|]. intros [= <-]. zbool. eauto.
Qed.

(** ** An event inserted twice *)

(** The index lists an event once per insertion. *)
Fixpoint insert_again (now : Z) (e : IndexedEvent) (n : nat) (c : EventCache) : EventCache :=
  match n with
  | O => c
  | S n => insert now e (insert_again now e n c)
  end.

Lemma insert_again_state now e n c m ttl :
  with_ttl m ttl = Some c ->
  insert_again now e (S n) c =
    mkEventCache [(ev_id e, mkCachedEntry e now)]
      [(ev_match_id e, replicate (S n) (ev_id e))] m ttl.
Proof.
  unfold with_ttl. destruct (Nat.ltb_spec 0 m) as [Hm|]; [|done]. intros [= <-].
  induction n as [|n IH]; cbn [insert_again] in *.
  - unfold insert, make_room. cbn. destruct m; [lia|]. done.
  - rewrite IH. unfold insert, make_room. cbn [events index_contains existsb fst].
    rewrite bool_decide_true by done. cbn [orb shift_remove List.filter fst negb]. unfold shift_remove.
    cbn [List.filter fst]. rewrite bool_decide_true by done.
    cbn [negb events index_insert match_index max_size ttl_secs]. unfold push_index, index_get.
    cbn [find fst snd index_insert]. rewrite bool_decide_true by done. cbn [fmap option_fmap option_map default snd].
    f_equal. f_equal. f_equal. unfold id. by rewrite <-replicate_S_end.
Qed.

Lemma omap_copies {A B} (f : A -> option B) x y k :
  f x = Some y -> omap f (replicate k x) = replicate k y.
Proof. intros Hf. induction k as [|k IH]; [done|]. cbn. rewrite Hf. by rewrite <-IH. Qed.

(** an event that is inserted again is listed again under its match: after [n + 1]
    insertions a cache of any size holds one entry for it and answers the query for its
    match with [n + 1] copies, so the match index is not bounded by [max_size]. *)
Theorem reinsertion_lists_copies now e n c m ttl :
  with_ttl m ttl = Some c -> 0 < ttl ->
  size (insert_again now e (S n) c) = 1%nat /\
  get_by_match now (ev_match_id e) (insert_again now e (S n) c) = replicate (S n) e.
Proof.
  intros Hc Ht. rewrite (insert_again_state _ _ _ _ _ _ Hc). split; [done|].
  unfold get_by_match. cbn [match_index]. unfold index_get at 1. cbn [find fst].
  rewrite bool_decide_true by done. cbn [fmap option_fmap option_map snd].
  assert (Hg : get now (ev_id e) (mkEventCache [(ev_id e, mkCachedEntry e now)]
      [(ev_match_id e, replicate (S n) (ev_id e))] m ttl) = Some e).
  { unfold get, index_get. cbn [events find fst]. rewrite bool_decide_true by done. cbn.
    unfold is_expired. cbn [ttl_secs]. rewrite Z.sub_diag.
    change (as_u64 (0 ÷ nanos_per_second)) with 0. by rewrite (proj2 (Z.leb_gt _ _) Ht). }
  by apply omap_copies.
Qed.

Lemma reinsertion_lists_copies_witness :
  exists c, new 10 = Some c /\
  let e := mkIndexedEvent "a" 1 7 "match:created" None None None None None None None None 0 None None None in
  get_by_match 5 7 (insert 5 e (insert 5 e c)) = [e; e].
Proof.
  exists (mkEventCache [] [] 10 300). split; [reflexivity|]. intros e.
  exact (proj2 (reinsertion_lists_copies 5 e 1 (mkEventCache [] [] 10 300) 10 300 eq_refl eq_refl)).
Defined.
