(* ===== verification/EventStore.v ===== *)
(** The event indexer's database, [services/event-indexer/src/db.rs]: the [events]
    table, the match state folded from it, schema initialisation, ingestion, the
    invalidation of reorganised ledgers and the reads of matches and events.

    A table is the list of its rows, or the map from its key; a row holds the columns
    as they are stored, so ledgers, match ids and event indexes are cast on the way in
    and out.  [matches] has one of two layouts, after the two [CREATE TABLE] statements
    of [init_schema], and a statement that names a column the table lacks fails.  Other
    failures of the database are the argument [fails]; a transaction that fails is
    rolled back.  [DISTINCT ON] keeps a first row of each group in the given order; which
    one of several equal rows is PostgreSQL's choice, the parameter [first_by]. *)
From stdpp Require Import base list strings gmap sorting.
From Stdlib Require Import ZArith QArith Qround Lia.
From S2P Require Import Prelude Text F64 IndexerTypes TransactionApi.

Local Open Scope Z_scope.

Definition as_i64 (x : Z) : Z := (x + 2 ^ 63) mod 2 ^ 64 - 2 ^ 63.
Definition as_i16 (x : Z) : Z := (x + 2 ^ 15) mod 2 ^ 16 - 2 ^ 15.
Definition as_u16 (x : Z) : Z := x mod 2 ^ 16.
Definition u16_max : Z := 65535.

(** ** Rows *)

(** The columns an event is written to. *)
Definition event_row (e : IndexedEvent) : IndexedEvent :=
  mkIndexedEvent (ev_id e) (as_i32 (ev_ledger_sequence e)) (as_i64 (ev_match_id e)) (ev_event_type e)
    (ev_player1 e) (ev_player2 e) (ev_status e) (ev_winner e) (ev_stake_amount e) (ev_token e)
    (ev_game_id e) (ev_platform e) (ev_timestamp e) (ev_txn_hash e)
    (as_i16 <$> ev_event_index_in_txn e) (ev_reorg_invalidated_at e).

Definition row_to_event (r : IndexedEvent) : IndexedEvent :=
  mkIndexedEvent (ev_id r) (as_u32 (ev_ledger_sequence r)) (as_u64 (ev_match_id r)) (ev_event_type r)
    (ev_player1 r) (ev_player2 r) (ev_status r) (ev_winner r) (ev_stake_amount r) (ev_token r)
    (ev_game_id r) (ev_platform r) (ev_timestamp r) (ev_txn_hash r)
    (as_u16 <$> ev_event_index_in_txn r) (ev_reorg_invalidated_at r).

(** A row of [matches] as the first [CREATE TABLE] has it. *)
Record MatchRow := mkMatchRow {
  m_player1 : option string;
  m_player2 : option string;
  m_stake_amount : option string;
  m_token : option string;
  m_game_id : option string;
  m_platform : option string;
  m_created_ledger : option Z;
  m_status : option string;
  m_winner : option string;
  m_last_ledger : Z;
  m_last_event_index : option Z
}.

(** A row as the second one has it. *)
Record CompletedRow := mkCompletedRow {
  c_player1 : option string;
  c_player2 : option string;
  c_status : option string;
  c_winner : option string;
  c_stake_amount : option string;
  c_token : option string;
  c_game_id : option string;
  c_platform : option string;
  c_created_ledger : option Z;
  c_completed_ledger : option Z
}.

Inductive MatchesTable :=
  | NoTable
  | Incremental (rows : gmap Z MatchRow)
  | Completed (rows : gmap Z CompletedRow).

Record Store := mkStore {
  st_events : list IndexedEvent;
  st_matches : MatchesTable;
  st_reorgs : list (string * Z * string * Z)
}.

(** ** Folding an event into its match *)

Definition is_created (e : IndexedEvent) : bool := contains_text (ev_event_type e) "created".

(** [(ledger, COALESCE(index, -1))], compared as SQL compares rows. *)
Definition rank (ledger : Z) (index : option Z) : Z * Z := (ledger, default (-1) index).
Definition rank_le (a b : Z * Z) : bool := (a.1 <? b.1) || ((a.1 =? b.1) && (a.2 <=? b.2)).

(** The row the [INSERT] of [apply_event_to_match] proposes, from the stored event. *)
Definition proposed (r : IndexedEvent) : MatchRow :=
  let created f := if is_created r then f else None in
  mkMatchRow (created (ev_player1 r)) (created (ev_player2 r)) (created (ev_stake_amount r))
    (created (ev_token r)) (created (ev_game_id r)) (created (ev_platform r))
    (if is_created r then Some (ev_ledger_sequence r) else None)
    (ev_status r) (ev_winner r) (ev_ledger_sequence r) (ev_event_index_in_txn r).

Definition is_earlier_created (excluded m : MatchRow) : bool :=
  match m_created_ledger excluded with
  | None => false
  | Some l => match m_created_ledger m with None => true | Some l0 => l <? l0 end
  end.
Definition is_latest (excluded m : MatchRow) : bool :=
  rank_le (rank (m_last_ledger m) (m_last_event_index m))
          (rank (m_last_ledger excluded) (m_last_event_index excluded)).

Definition merge_row (excluded m : MatchRow) : MatchRow :=
  let c := if is_earlier_created excluded m then excluded else m in
  let l := if is_latest excluded m then excluded else m in
  mkMatchRow (m_player1 c) (m_player2 c) (m_stake_amount c) (m_token c) (m_game_id c) (m_platform c)
    (m_created_ledger c) (m_status l) (m_winner l) (m_last_ledger l) (m_last_event_index l).

Definition apply_event_to_match (r : IndexedEvent) (rows : gmap Z MatchRow) : gmap Z MatchRow :=
  <[ev_match_id r := match rows !! ev_match_id r with
                     | Some m => merge_row (proposed r) m
                     | None => proposed r
                     end]> rows.

(** The second, older upsert, for the other layout. *)
Definition coalesce {A} (a b : option A) : option A := match a with Some _ => a | None => b end.
Definition greatest (a b : option Z) : option Z :=
  match a, b with
  | Some x, Some y => Some (Z.max x y)
  | _, _ => coalesce a b
  end.
Definition upsert_row (r : IndexedEvent) (old : option CompletedRow) : CompletedRow :=
  let ex := mkCompletedRow (ev_player1 r) (ev_player2 r) (ev_status r) (ev_winner r)
    (ev_stake_amount r) (ev_token r) (ev_game_id r) (ev_platform r)
    (if is_created r then Some (ev_ledger_sequence r) else None) (Some (ev_ledger_sequence r)) in
  match old with
  | None => ex
  | Some m =>
      mkCompletedRow (coalesce (c_player1 ex) (c_player1 m)) (coalesce (c_player2 ex) (c_player2 m))
        (coalesce (c_status ex) (c_status m)) (coalesce (c_winner ex) (c_winner m))
        (coalesce (c_stake_amount ex) (c_stake_amount m)) (coalesce (c_token ex) (c_token m))
        (coalesce (c_game_id ex) (c_game_id m)) (coalesce (c_platform ex) (c_platform m))
        (coalesce (c_created_ledger m) (c_created_ledger ex))
        (greatest (c_completed_ledger m) (c_completed_ledger ex))
  end.

(** ** Ingestion *)

Inductive Statement :=
  | AcquireConnection
  | BeginTransaction
  | InsertEvent
  | ApplyEvent
  | CommitTransaction
  | UpsertMatchState
  | InvalidateEvents
  | RebuildMatches
  | LogReorg
  | SelectRows
  | CreationMissing
  | LoadProgress
  | ClearCursor
  | SaveProgress
  | ReadLastLedger
  | RecordError.

Notation dbresult A := (Statement + A)%type.

Definition upsert_match_state (fails : Statement -> bool) (e : IndexedEvent) (s : Store)
    : Store * dbresult unit :=
  let r := event_row e in
  match st_matches s with
  | Completed rows =>
      if fails UpsertMatchState then (s, inl UpsertMatchState)
      else (mkStore (st_events s)
              (Completed (<[ev_match_id r := upsert_row r (rows !! ev_match_id r)]> rows))
              (st_reorgs s), inr tt)
  | _ => (s, inl UpsertMatchState)
  end.

Definition has_event (id : string) (events : list IndexedEvent) : bool :=
  existsb (fun r => bool_decide (ev_id r = id)) events.

(** Before [init_schema] there are no tables at all. *)
Definition no_table (s : Store) : bool :=
  match st_matches s with NoTable => true | _ => false end.

(** The transaction of [insert_event]: the row, unless its id is taken, and the match
    state. *)
Definition insert_transaction (fails : Statement -> bool) (e : IndexedEvent) (s : Store)
    : dbresult Store :=
  if fails BeginTransaction then inl BeginTransaction
  else if fails InsertEvent || no_table s then inl InsertEvent
  else
    let r := event_row e in
    let inserted := negb (has_event (ev_id r) (st_events s)) in
    let events := if inserted then st_events s ++ [r] else st_events s in
    if inserted && bool_decide (ev_reorg_invalidated_at e = None) then
      match st_matches s with
      | Incremental rows =>
          if fails ApplyEvent then inl ApplyEvent
          else if fails CommitTransaction then inl CommitTransaction
          else inr (mkStore events (Incremental (apply_event_to_match r rows)) (st_reorgs s))
      | _ => inl ApplyEvent
      end
    else if fails CommitTransaction then inl CommitTransaction
    else inr (mkStore events (st_matches s) (st_reorgs s)).

Definition insert_event (fails : Statement -> bool) (e : IndexedEvent) (s : Store)
    : Store * dbresult unit :=
  if fails AcquireConnection then (s, inl AcquireConnection)
  else match insert_transaction fails e s with
  | inl err => (s, inl err)
  | inr s1 => upsert_match_state fails e s1
  end.

(** ** Rebuilding a match from the surviving events *)

(** [ORDER BY ledger_sequence DESC, event_index_in_txn DESC NULLS LAST]. *)
Definition latest_first (a b : IndexedEvent) : bool :=
  (ev_ledger_sequence b <? ev_ledger_sequence a) ||
  ((ev_ledger_sequence b =? ev_ledger_sequence a) &&
   match ev_event_index_in_txn a, ev_event_index_in_txn b with
   | _, None => true
   | None, Some _ => false
   | Some x, Some y => y <=? x
   end).

(** [ORDER BY ledger_sequence ASC, event_index_in_txn ASC NULLS FIRST]. *)
Definition earliest_first (a b : IndexedEvent) : bool :=
  (ev_ledger_sequence a <? ev_ledger_sequence b) ||
  ((ev_ledger_sequence a =? ev_ledger_sequence b) &&
   match ev_event_index_in_txn a, ev_event_index_in_txn b with
   | None, _ => true
   | Some _, None => false
   | Some x, Some y => x <=? y
   end).

Definition surviving (m : Z) (events : list IndexedEvent) : list IndexedEvent :=
  List.filter (fun r => (ev_match_id r =? m) && bool_decide (ev_reorg_invalidated_at r = None)) events.

Section Rebuild.
Context (first_by : (IndexedEvent -> IndexedEvent -> bool) -> list IndexedEvent -> option IndexedEvent).

Definition rebuild_row (m : Z) (events : list IndexedEvent) : option MatchRow :=
  match first_by latest_first (surviving m events) with
  | None => None
  | Some l =>
      let c := first_by earliest_first (List.filter is_created (surviving m events)) in
      Some (mkMatchRow (c ≫= ev_player1) (c ≫= ev_player2) (c ≫= ev_stake_amount) (c ≫= ev_token)
              (c ≫= ev_game_id) (c ≫= ev_platform) (ev_ledger_sequence <$> c)
              (ev_status l) (ev_winner l) (ev_ledger_sequence l) (ev_event_index_in_txn l))
  end.

(** Deleting the rows of some matches and inserting the rebuilt ones. *)
Definition rebuild_matches (ids : list Z) (events : list IndexedEvent) (rows : gmap Z MatchRow)
    : gmap Z MatchRow :=
  foldr (fun m rows => match rebuild_row m events with
                       | Some row => <[m := row]> rows
                       | None => delete m rows
                       end) rows ids.

Definition in_ledgers (start_ledger end_ledger : Z) (r : IndexedEvent) : bool :=
  in_range (as_i32 start_ledger) (as_i32 end_ledger) (ev_ledger_sequence r)
  && bool_decide (ev_reorg_invalidated_at r = None).

Definition mark_events_as_invalid (fails : Statement -> bool) (now : Z) (contract_id : string)
    (start_ledger end_ledger : Z) (reason : string) (s : Store) : Store * dbresult Z :=
  let hit := List.filter (in_ledgers start_ledger end_ledger) (st_events s) in
  let events := map (fun r => if in_ledgers start_ledger end_ledger r
                              then r <| ev_reorg_invalidated_at := Some now |> else r) (st_events s) in
  let ids := list_to_set (C := gset Z) (map ev_match_id hit) in
  let count := Z.of_nat (length hit) in
  let log := st_reorgs s ++ [(contract_id, as_i32 start_ledger, reason, as_i32 count)] in
  if fails AcquireConnection then (s, inl AcquireConnection)
  else if fails BeginTransaction then (s, inl BeginTransaction)
  else if fails InvalidateEvents || no_table s then (s, inl InvalidateEvents)
  else
    match (match elements ids with
           | [] => Some (st_matches s)
           | _ => match st_matches s with
                  | Incremental rows =>
                      if fails RebuildMatches then None
                      else Some (Incremental (rebuild_matches (elements ids) events rows))
                  | _ => None
                  end
           end) with
    | None => (s, inl RebuildMatches)
    | Some matches =>
        if fails LogReorg then (s, inl LogReorg)
        else if fails CommitTransaction then (s, inl CommitTransaction)
        else (mkStore events matches log, inr count)
    end.

(** ** The schema *)

(** The tables are created unless they are there; then matches without a row are
    rebuilt. *)
Definition init_schema (fails : Statement -> bool) (s : Store) : Store * dbresult unit :=
  if fails AcquireConnection then (s, inl AcquireConnection)
  else if fails BeginTransaction then (s, inl BeginTransaction)
  else
    match st_matches s with
    | Completed _ => (s, inl RebuildMatches)
    | NoTable | Incremental _ =>
        let rows := match st_matches s with Incremental rows => rows | _ => ∅ end in
        let missing := filter (fun m => rows !! m = None) (map ev_match_id (st_events s)) in
        if fails RebuildMatches then (s, inl RebuildMatches)
        else if fails CommitTransaction then (s, inl CommitTransaction)
        else (mkStore (st_events s) (Incremental (rebuild_matches missing (st_events s) rows))
                (st_reorgs s), inr tt)
    end.
End Rebuild.

(** ** Reads *)

(** A read ends, fails, or panics.  [sort] orders rows as the [ORDER BY] of the query
    does, and [arrange] is the order of a query that has none. *)
Inductive Outcome (A : Type) :=
  | Done (a : A)
  | Failed (at_ : Statement)
  | Panicked.
Arguments Done {A} a.
Arguments Failed {A} at_.
Arguments Panicked {A}.

(** [row_to_event] reads sixteen columns; reading past the last one panics. *)
Definition read_rows (columns : nat) (rows : list IndexedEvent) : Outcome (list IndexedEvent) :=
  match rows with
  | [] => Done []
  | _ :: _ => if Nat.leb 16 columns then Done (map row_to_event rows) else Panicked
  end.

Definition rows_of_match (match_id : Z) (s : Store) : list IndexedEvent :=
  List.filter (fun r => ev_match_id r =? as_i64 match_id) (st_events s).

(** The statement selects fourteen columns. *)
Definition get_events_by_match (fails : Statement -> bool)
    (sort : list IndexedEvent -> list IndexedEvent) (match_id : Z) (s : Store)
    : Outcome (list IndexedEvent) :=
  if fails SelectRows || no_table s then Failed SelectRows
  else read_rows 14 (sort (rows_of_match match_id s)).

(** [LIMIT] and [OFFSET] must not be negative. *)
Definition page {A} (limit offset : option Z) (rows : list A) : Outcome (list A) :=
  if when limit (fun n => 0 <=? n) && when offset (fun n => 0 <=? n)
  then
    let rows := match offset with Some n => drop (Z.to_nat n) rows | None => rows end in
    Done match limit with Some n => take (Z.to_nat n) rows | None => rows end
  else Failed SelectRows.

#[export] Instance Outcome_bind : MBind Outcome := fun A B f o =>
  match o with
  | Done a => f a
  | Failed at_ => Failed at_
  | Panicked => Panicked
  end.

(** A query fails when the database does, or when there is no table. *)
Definition select {A} (fails : Statement -> bool) (s : Store) (o : Outcome A) : Outcome A :=
  if fails SelectRows || no_table s then Failed SelectRows else o.

Definition get_events_by_match_paginated (fails : Statement -> bool)
    (sort : list IndexedEvent -> list IndexedEvent) (match_id limit offset : Z) (s : Store)
    : Outcome (list IndexedEvent) :=
  rows ← select fails s (page (Some limit) (Some offset) (sort (rows_of_match match_id s)));
  read_rows 16 rows.

Definition parse_status (status : option string) : MatchStatus :=
  match status with
  | Some s =>
      if String.eqb s "active" then StatusActive
      else if String.eqb s "completed" then StatusCompleted
      else if String.eqb s "cancelled" then StatusCancelled
      else if String.eqb s "expired" then StatusExpired
      else StatusPending
  | None => StatusPending
  end.

Definition parse_winner (winner : string) : option IndexedWinner :=
  if String.eqb winner "player1" then Some WinnerPlayer1
  else if String.eqb winner "player2" then Some WinnerPlayer2
  else if String.eqb winner "draw" then Some WinnerDraw
  else None.

Definition build_match_info (fails : Statement -> bool)
    (sort : list IndexedEvent -> list IndexedEvent) (match_id : Z) (s : Store)
    : Outcome (option MatchInfo) :=
  if fails SelectRows then Failed SelectRows
  else match st_matches s with
  | Incremental rows =>
      match rows !! as_i64 match_id with
      | None => Done None
      | Some row =>
          match m_created_ledger row with
          | None => Failed CreationMissing
          | Some created_ledger =>
              match get_events_by_match fails sort match_id s with
              | Failed e => Failed e
              | Panicked => Panicked
              | Done events =>
                  Done (Some (mkMatchInfo match_id (default EmptyString (m_player1 row)) (default EmptyString (m_player2 row))
                    (parse_status (m_status row)) (m_winner row ≫= parse_winner)
                    (default EmptyString (m_stake_amount row)) (default EmptyString (m_token row))
                    (default EmptyString (m_game_id row)) (default EmptyString (m_platform row))
                    (as_u32 created_ledger) (Some (as_u32 (m_last_ledger row))) events))
              end
          end
      end
  | _ => Failed SelectRows
  end.

Definition get_match_by_id := build_match_info.

(** ** Queries over the event log *)

Definition status_text (s : MatchStatus) : string :=
  match s with
  | StatusPending => "pending"
  | StatusActive => "active"
  | StatusCompleted => "completed"
  | StatusCancelled => "cancelled"
  | StatusExpired => "expired"
  end.

Definition has_status (s : MatchStatus) (r : IndexedEvent) : bool :=
  bool_decide (ev_status r = Some (status_text s)).
Definition names (player : string) (r : IndexedEvent) : bool :=
  bool_decide (ev_player1 r = Some player) || bool_decide (ev_player2 r = Some player).
Definition in_period (start_date end_date : option Z) (r : IndexedEvent) : bool :=
  when start_date (fun start => start <=? ev_timestamp r)
  && when end_date (fun end_ => ev_timestamp r <=? end_).
Definition not_invalidated (r : IndexedEvent) : bool := bool_decide (ev_reorg_invalidated_at r = None).

Definition query_events (fails : Statement -> bool) (sort : list IndexedEvent -> list IndexedEvent)
    (f : QueryFilters) (s : Store) : Outcome (list IndexedEvent) :=
  let rows := List.filter (fun r => when (qf_player_address f) (fun p => names p r)
                                    && when (qf_status f) (fun st => has_status st r)
                                    && in_period (qf_start_date f) (qf_end_date f) r) (st_events s) in
  rows ← select fails s (page (qf_limit f) (qf_offset f) (sort rows));
  read_rows 16 rows.

Definition distinct_ids (rows : list IndexedEvent) : list Z := remove_dups (map ev_match_id rows).
Definition descending : list Z -> list Z := merge_sort Z.ge.

(** The summaries of some matches, those that are unknown left out. *)
Fixpoint build_all (fails : Statement -> bool) (sort : list IndexedEvent -> list IndexedEvent)
    (ids : list Z) (s : Store) : Outcome (list MatchInfo) :=
  match ids with
  | [] => Done []
  | id :: rest =>
      info ← build_match_info fails sort (as_u64 id) s;
      infos ← build_all fails sort rest s;
      Done (option_list info ++ infos)
  end.

Definition get_matches_by_status (fails : Statement -> bool)
    (sort : list IndexedEvent -> list IndexedEvent) (arrange : list Z -> list Z)
    (status : option MatchStatus) (s : Store) : Outcome (list MatchInfo) :=
  let rows := List.filter (fun r => when status (fun st => has_status st r)) (st_events s) in
  ids ← select fails s (Done (arrange (distinct_ids rows)));
  build_all fails sort ids s.

Definition get_matches_by_player (fails : Statement -> bool)
    (sort : list IndexedEvent -> list IndexedEvent) (player_address : string)
    (status : option MatchStatus) (limit offset : Z) (s : Store) : Outcome (list MatchInfo * Z) :=
  let rows := List.filter (fun r => names player_address r && when status (fun st => has_status st r))
                (st_events s) in
  total ← select fails s (Done (Z.of_nat (length (distinct_ids rows))));
  ids ← select fails s (page (Some limit) (Some offset) (descending (distinct_ids rows)));
  infos ← build_all fails sort ids s;
  Done (infos, total).

Definition ping (fails : Statement -> bool) : Outcome unit :=
  if fails SelectRows then Failed SelectRows else Done tt.

Definition total_event_count (fails : Statement -> bool) (s : Store) : Outcome Z :=
  select fails s (Done (Z.of_nat (length (st_events s)))).

Definition get_latest_ledger (fails : Statement -> bool) (s : Store) : Outcome (option Z) :=
  select fails s (Done (as_u32 <$> foldr (fun r m => greatest (Some (ev_ledger_sequence r)) m)
                                     None (st_events s))).

(** ** Analytics *)

(** [NUMERIC] is the rationals, without its infinities; the cast from text is a
    parameter, and so is the text of a number. *)
Section Analytics.
Context (to_numeric : string -> option Q) (show_numeric : Q -> string).

(** [ROUND(x, 0)], halves away from zero. *)
Definition round_numeric (x : Q) : Z :=
  if Qle_bool 0 x then Qfloor (x + (1 # 2)) else Qceiling (x - (1 # 2)).
Definition sum_numeric (l : list Q) : Q := foldr Qplus 0%Q l.
Definition average_numeric (l : list Q) : Q :=
  match l with
  | [] => 0%Q
  | _ => inject_Z (round_numeric (sum_numeric l / inject_Z (Z.of_nat (length l))))
  end.

(** A cast that fails is an error of the query. *)
Definition casts (l : list string) : Outcome (list Q) :=
  match mapM to_numeric l with Some l => Done l | None => Failed SelectRows end.

Definition count_matches (p : IndexedEvent -> bool) (rows : list IndexedEvent) : Z :=
  Z.of_nat (length (distinct_ids (List.filter p rows))).

Definition staked (r : IndexedEvent) : bool := bool_decide (is_Some (ev_stake_amount r)).

Definition analytics_overview (fails : Statement -> bool) (start_date end_date : option Z) (s : Store)
    : Outcome AnalyticsOverview :=
  let rows := List.filter (fun r => not_invalidated r && staked r && in_period start_date end_date r)
                (st_events s) in
  stakes ← select fails s (casts (omap ev_stake_amount rows));
  Done (mkAnalyticsOverview (count_matches (fun _ => true) rows) (show_numeric (sum_numeric stakes))
          (show_numeric (average_numeric stakes)) (count_matches (has_status StatusCompleted) rows)
          (count_matches (has_status StatusCancelled) rows)).

Definition won_by (player : string) (r : IndexedEvent) : bool :=
  (bool_decide (ev_winner r = Some "player1") && bool_decide (ev_player1 r = Some player))
  || (bool_decide (ev_winner r = Some "player2") && bool_decide (ev_player2 r = Some player)).
Definition lost_by (player : string) (r : IndexedEvent) : bool :=
  (bool_decide (ev_winner r = Some "player2") && bool_decide (ev_player1 r = Some player))
  || (bool_decide (ev_winner r = Some "player1") && bool_decide (ev_player2 r = Some player)).
Definition drawn (r : IndexedEvent) : bool := bool_decide (ev_winner r = Some "draw").

Definition win_rate (wins losses draws : Z) : f64 :=
  let played := wins + losses + draws in
  if 0 <? played
  then f64_mul (f64_div (f64_of wins) (f64_of played)) (f64_of 100)
  else f64_of 0.

Definition analytics_player (fails : Statement -> bool) (sort : list IndexedEvent -> list IndexedEvent)
    (player_address : string) (limit offset : Z) (start_date end_date : option Z) (s : Store)
    : Outcome PlayerAnalytics :=
  let rows := List.filter (fun r => names player_address r && not_invalidated r
                                    && in_period start_date end_date r) (st_events s) in
  won ← select fails s (casts (omap ev_stake_amount (List.filter (won_by player_address) rows)));
  let total_matches := count_matches (fun _ => true) rows in
  let wins := count_matches (won_by player_address) rows in
  let losses := count_matches (lost_by player_address) rows in
  let draws := count_matches drawn rows in
  ids ← select fails s (page (Some limit) (Some offset) (descending (distinct_ids rows)));
  match_history ← build_all fails sort ids s;
  Done (mkPlayerAnalytics player_address total_matches wins losses draws (win_rate wins losses draws)
          (show_numeric (sum_numeric (map (fun x => x * 2)%Q won))) match_history total_matches).

Definition analytics_token (fails : Statement -> bool) (sort : list IndexedEvent -> list IndexedEvent)
    (token_address : string) (limit offset : Z) (start_date end_date : option Z) (s : Store)
    : Outcome TokenAnalytics :=
  let of_token := List.filter (fun r => bool_decide (ev_token r = Some token_address) && not_invalidated r
                                        && in_period start_date end_date r) (st_events s) in
  let rows := List.filter staked of_token in
  stakes ← select fails s (casts (omap ev_stake_amount rows));
  let match_count := count_matches (fun _ => true) rows in
  ids ← select fails s (page (Some limit) (Some offset) (descending (distinct_ids of_token)));
  match_history ← build_all fails sort ids s;
  Done (mkTokenAnalytics token_address (show_numeric (sum_numeric stakes)) match_count
          (show_numeric (average_numeric stakes)) match_history match_count).
End Analytics.
