(* ===== verification/EventStoreSpec.v ===== *)
(** The materialised match state against the event log: in every reachable store the
    row of a match takes its status from a latest surviving event and its creation
    fields from an earliest surviving creation, in whatever order the events arrived;
    stores that ingested the same events agree.  And what the two layouts of the
    [matches] table do to ingestion and to the match summary. *)
From stdpp Require Import base list sets strings gmap.
From Stdlib Require Import ZArith Lia.
From S2P Require Import Prelude Text IndexerTypes TransactionApi EventStore.

Local Open Scope Z_scope.

(** A database on which no statement fails. *)
Notation never := (fun _ : Statement => false).

(** ** Ranks *)

Notation rank_of r := (rank (ev_ledger_sequence r) (ev_event_index_in_txn r)).

Lemma rank_le_spec a b : rank_le a b = true <-> a.1 < b.1 \/ (a.1 = b.1 /\ a.2 <= b.2).
Proof. unfold rank_le. rewrite orb_true_iff, andb_true_iff, Z.ltb_lt, Z.eqb_eq, Z.leb_le. done. Qed.

Lemma rank_le_refl a : rank_le a a = true.
Proof. apply rank_le_spec. lia. Qed.

Lemma rank_le_trans a b c : rank_le a b = true -> rank_le b c = true -> rank_le a c = true.
Proof. rewrite !rank_le_spec. lia. Qed.

Lemma rank_le_total a b : rank_le a b = false -> rank_le b a = true.
Proof. intros H. apply not_true_iff_false in H. rewrite rank_le_spec in *. lia. Qed.

(** ** The specification of a row *)

Definition status_from (l : IndexedEvent) (row : MatchRow) : Prop :=
  m_status row = ev_status l /\ m_winner row = ev_winner l /\
  m_last_ledger row = ev_ledger_sequence l /\ m_last_event_index row = ev_event_index_in_txn l.

Definition creation_from (c : IndexedEvent) (row : MatchRow) : Prop :=
  m_player1 row = ev_player1 c /\ m_player2 row = ev_player2 c /\
  m_stake_amount row = ev_stake_amount c /\ m_token row = ev_token c /\
  m_game_id row = ev_game_id c /\ m_platform row = ev_platform c /\
  m_created_ledger row = Some (ev_ledger_sequence c).

Definition no_creation (row : MatchRow) : Prop :=
  m_player1 row = None /\ m_player2 row = None /\ m_stake_amount row = None /\
  m_token row = None /\ m_game_id row = None /\ m_platform row = None /\ m_created_ledger row = None.

(** A latest event, and an earliest creation if there is one. *)
Definition latest_of (events : list IndexedEvent) (l : IndexedEvent) : Prop :=
  In l events /\ forall x, In x events -> rank_le (rank_of x) (rank_of l) = true.
Definition earliest_creation_of (events : list IndexedEvent) (c : IndexedEvent) : Prop :=
  In c events /\ is_created c = true /\
  forall x, In x events -> is_created x = true -> ev_ledger_sequence c <= ev_ledger_sequence x.

Definition materialised (events : list IndexedEvent) (row : MatchRow) : Prop :=
  (exists l, latest_of events l /\ status_from l row) /\
  ((exists c, earliest_creation_of events c /\ creation_from c row) \/
   ((forall x, In x events -> is_created x = false) /\ no_creation row)).

Lemma proposed_materialised r : materialised [r] (proposed r).
Proof.
  split.
  - exists r. split; [split; [by left|intros x [<-|[]]; apply rank_le_refl]|done].
  - unfold proposed, creation_from, no_creation. destruct (is_created r) eqn:E; [left|right].
    + exists r. split; [|done]. split_and!; [by left|done|]. intros x [<-|[]] _. lia.
    + split; [by intros x [<-|[]]|done].
Qed.

Lemma merge_status events row r :
  (exists l, latest_of events l /\ status_from l row) ->
  exists l, latest_of (events ++ [r]) l /\ status_from l (merge_row (proposed r) row).
Proof.
  intros (l & [Hin Hmax] & Hs & Hw & Hl & Hi). unfold merge_row, is_latest. cbn [m_last_ledger m_last_event_index proposed].
  rewrite Hl, Hi. destruct (rank_le (rank_of l) (rank_of r)) eqn:E.
  - exists r. split; [split|done].
    + apply in_app_iff. right. by left.
    + intros x Hx. apply in_app_iff in Hx as [Hx|[<-|[]]]; [|apply rank_le_refl].
      eapply rank_le_trans; [by apply Hmax|done].
  - exists l. split; [split|done].
    + apply in_app_iff. by left.
    + intros x Hx. apply in_app_iff in Hx as [Hx|[<-|[]]]; [by apply Hmax|by apply rank_le_total].
Qed.

Lemma merge_creation events row r :
  let has events row :=
    (exists c, earliest_creation_of events c /\ creation_from c row) \/
    ((forall x, In x events -> is_created x = false) /\ no_creation row) in
  has events row -> has (events ++ [r]) (merge_row (proposed r) row).
Proof.
  cbv zeta. unfold merge_row, is_earlier_created. intros H.
  destruct (is_created r) eqn:Er; cbn [m_created_ledger proposed]; rewrite Er.
  - destruct H as [(c & (Hin & Hc & Hmin) & Hf)|[Hnone Hf]].
    + left. pose proof (proj2 (proj2 (proj2 (proj2 (proj2 (proj2 Hf)))))) as Hl. rewrite Hl.
      destruct (ev_ledger_sequence r <? ev_ledger_sequence c) eqn:E; zbool.
      * exists r. split; [split_and!; [apply in_app_iff; right; by left|done|]|].
        -- intros x Hx Hxc. apply in_app_iff in Hx as [Hx|[<-|[]]]; [|lia].
           specialize (Hmin x Hx Hxc). lia.
        -- unfold creation_from, proposed. cbn. by rewrite Er.
      * exists c. split; [split_and!; [apply in_app_iff; by left|done|]|exact Hf].
        intros x Hx Hxc. apply in_app_iff in Hx as [Hx|[<-|[]]]; [by apply Hmin|done].
    + left. pose proof (proj2 (proj2 (proj2 (proj2 (proj2 (proj2 Hf)))))) as Hl. rewrite Hl.
      exists r. split; [split_and!; [apply in_app_iff; right; by left|done|]|].
      * intros x Hx Hxc. apply in_app_iff in Hx as [Hx|[<-|[]]]; [|lia].
        rewrite Hnone in Hxc by done. done.
      * unfold creation_from, proposed. cbn. by rewrite Er.
  - destruct H as [(c & (Hin & Hc & Hmin) & Hf)|[Hnone Hf]].
    + left. exists c. split; [split_and!; [apply in_app_iff; by left|done|]|exact Hf].
      intros x Hx Hxc. apply in_app_iff in Hx as [Hx|[<-|[]]]; [by apply Hmin|congruence].
    + right. split; [|exact Hf]. intros x Hx. apply in_app_iff in Hx as [Hx|[<-|[]]]; [by apply Hnone|done].
Qed.

Lemma merge_materialised events row r :
  materialised events row -> materialised (events ++ [r]) (merge_row (proposed r) row).
Proof. intros [Hl Hc]. split; [by apply merge_status|by apply merge_creation]. Qed.

(** ** Rebuilding *)

Section Rebuild.
Context (first_by : (IndexedEvent -> IndexedEvent -> bool) -> list IndexedEvent -> option IndexedEvent).

(** [DISTINCT ON] keeps a row that comes first in the order. *)
Hypothesis first_by_spec : forall le l,
  (forall a b, le a b = false -> le b a = true) ->
  (forall a b c, le a b = true -> le b c = true -> le a c = true) ->
  match first_by le l with
  | None => l = []
  | Some e => In e l /\ forall x, In x l -> le e x = true
  end.

(** Event indexes are counted from zero, so a missing one comes before them all. *)
Definition counted (r : IndexedEvent) : Prop := forall i, ev_event_index_in_txn r = Some i -> 0 <= i.

Lemma latest_first_spec a b :
  latest_first a b = true <->
  ev_ledger_sequence b < ev_ledger_sequence a \/
  (ev_ledger_sequence b = ev_ledger_sequence a /\
   match ev_event_index_in_txn a, ev_event_index_in_txn b with
   | _, None => True
   | None, Some _ => False
   | Some x, Some y => y <= x
   end).
Proof.
  unfold latest_first. rewrite orb_true_iff, andb_true_iff, Z.ltb_lt, Z.eqb_eq.
  destruct (ev_event_index_in_txn a), (ev_event_index_in_txn b); rewrite ?Z.leb_le; intuition done.
Qed.

Lemma earliest_first_spec a b :
  earliest_first a b = true <->
  ev_ledger_sequence a < ev_ledger_sequence b \/
  (ev_ledger_sequence a = ev_ledger_sequence b /\
   match ev_event_index_in_txn a, ev_event_index_in_txn b with
   | None, _ => True
   | Some _, None => False
   | Some x, Some y => x <= y
   end).
Proof.
  unfold earliest_first. rewrite orb_true_iff, andb_true_iff, Z.ltb_lt, Z.eqb_eq.
  destruct (ev_event_index_in_txn a), (ev_event_index_in_txn b); rewrite ?Z.leb_le; intuition done.
Qed.

Lemma first_latest l :
  match first_by latest_first l with
  | None => l = []
  | Some e => In e l /\ forall x, In x l -> latest_first e x = true
  end.
Proof.
  apply first_by_spec.
  - intros a b H. apply not_true_iff_false in H. rewrite latest_first_spec in *.
    destruct (ev_event_index_in_txn a), (ev_event_index_in_txn b); lia.
  - intros a b c. rewrite !latest_first_spec.
    destruct (ev_event_index_in_txn a), (ev_event_index_in_txn b), (ev_event_index_in_txn c); lia.
Qed.

Lemma first_earliest l :
  match first_by earliest_first l with
  | None => l = []
  | Some e => In e l /\ forall x, In x l -> earliest_first e x = true
  end.
Proof.
  apply first_by_spec.
  - intros a b H. apply not_true_iff_false in H. rewrite earliest_first_spec in *.
    destruct (ev_event_index_in_txn a), (ev_event_index_in_txn b); lia.
  - intros a b c. rewrite !earliest_first_spec.
    destruct (ev_event_index_in_txn a), (ev_event_index_in_txn b), (ev_event_index_in_txn c); lia.
Qed.

Lemma latest_first_rank a b :
  counted a -> counted b -> latest_first a b = true -> rank_le (rank_of b) (rank_of a) = true.
Proof.
  rewrite latest_first_spec, rank_le_spec. unfold counted, rank. cbn. intros Ha Hb.
  destruct (ev_event_index_in_txn a) as [x|], (ev_event_index_in_txn b) as [y|]; cbn; try lia.
  specialize (Ha x eq_refl). lia.
Qed.

(** What a match's entry in the table must be. *)
Definition entry_ok (events : list IndexedEvent) (entry : option MatchRow) : Prop :=
  match entry with
  | None => events = []
  | Some row => materialised events row
  end.

Lemma rebuild_ok m events :
  Forall counted events -> entry_ok (surviving m events) (rebuild_row first_by m events).
Proof.
  intros Hall. unfold rebuild_row. pose proof (first_latest (surviving m events)) as Hl.
  destruct (first_by latest_first _) as [l|]; [|exact Hl]. destruct Hl as [Hin Hmax]. cbn.
  assert (Hcount : forall x, In x (surviving m events) -> counted x).
  { intros x Hx. apply filter_In in Hx as [Hx _]. rewrite Forall_forall in Hall.
    by apply Hall, list_elem_of_In. }
  split.
  - exists l. split; [|done]. split; [done|]. intros x Hx. apply latest_first_rank; auto.
  - pose proof (first_earliest (List.filter is_created (surviving m events))) as Hc.
    destruct (first_by earliest_first _) as [c|].
    + left. destruct Hc as [Hc Hmin]. apply filter_In in Hc as [Hc Hcc]. exists c. split; [|done].
      split_and!; [done|done|]. intros x Hx Hxc.
      specialize (Hmin x (proj2 (filter_In _ _ _) (conj Hx Hxc))).
      rewrite earliest_first_spec in Hmin. lia.
    + right. split; [|done]. intros x Hx. destruct (is_created x) eqn:E; [|done].
      assert (Hin' : In x (List.filter is_created (surviving m events))) by (by apply filter_In).
      by rewrite Hc in Hin'.
Qed.

Lemma lookup_rebuild ids events rows m :
  rebuild_matches first_by ids events rows !! m =
    if bool_decide (m ∈ ids) then rebuild_row first_by m events else rows !! m.
Proof.
  unfold rebuild_matches. induction ids as [|i ids IH]; [done|]. cbn [foldr].
  destruct (decide (m = i)) as [->|Hne].
  - rewrite bool_decide_true by set_solver.
    destruct (rebuild_row first_by i events); [apply lookup_insert_eq|apply lookup_delete_eq].
  - rewrite (bool_decide_ext (m ∈ i :: ids) (m ∈ ids)) by set_solver. rewrite <-IH.
    destruct (rebuild_row first_by i events);
      [by rewrite lookup_insert_ne|by rewrite lookup_delete_ne].
Qed.

(** ** The invariant *)

Definition store_ok (s : Store) : Prop :=
  Forall counted (st_events s) /\
  exists rows, st_matches s = Incremental rows /\
    forall m, entry_ok (surviving m (st_events s)) (rows !! m).

Lemma surviving_app m l1 l2 : surviving m (l1 ++ l2) = surviving m l1 ++ surviving m l2.
Proof. apply List.filter_app. Qed.

(** An event that is written gets an index the column can hold. *)
Definition ingestible (e : IndexedEvent) : Prop :=
  forall i, ev_event_index_in_txn e = Some i -> 0 <= i < 2 ^ 15.

Lemma event_row_counted e : ingestible e -> counted (event_row e).
Proof.
  intros He i. cbn. destruct (ev_event_index_in_txn e) as [j|] eqn:E; [|done]. intros [= <-].
  specialize (He j E). unfold as_i16. rewrite Z.mod_small by lia. lia.
Qed.

Lemma transaction_ok fails e s s' :
  ingestible e -> store_ok s -> insert_transaction fails e s = inr s' -> store_ok s'.
Proof.
  intros He [Hc (rows & Hm & Hrows)]. unfold insert_transaction, no_table. rewrite Hm.
  destruct (fails BeginTransaction); [done|]. destruct (fails InsertEvent || false); [done|].
  set (r := event_row e). destruct (has_event (ev_id r) (st_events s)) eqn:Hid; cbn [negb andb].
  { destruct (fails CommitTransaction); [done|]. intros [= <-]. split; [done|]. by exists rows. }
  assert (Hc' : Forall counted (st_events s ++ [r])).
  { apply Forall_app. split; [done|]. constructor; [by apply event_row_counted|constructor]. }
  destruct (bool_decide (ev_reorg_invalidated_at e = None)) eqn:Hr.
  - destruct (fails ApplyEvent); [done|]. destruct (fails CommitTransaction); [done|].
    intros [= <-]. split; [done|]. eexists. split; [reflexivity|]. intros m. cbn [st_events].
    rewrite surviving_app. unfold apply_event_to_match. cbn [surviving List.filter].
    change (ev_reorg_invalidated_at r) with (ev_reorg_invalidated_at e). rewrite Hr, andb_true_r.
    destruct (Z.eqb_spec (ev_match_id r) m) as [<-|Hne].
    + rewrite lookup_insert_eq. specialize (Hrows (ev_match_id r)).
      destruct (rows !! ev_match_id r) as [row|]; cbn in *; [by apply merge_materialised|].
      rewrite Hrows. apply proposed_materialised.
    + rewrite lookup_insert_ne, app_nil_r by done. apply Hrows.
  - destruct (fails CommitTransaction); [done|]. intros [= <-]. split; [done|]. exists rows.
    split; [done|]. intros m. cbn [st_events]. rewrite surviving_app. cbn [surviving List.filter].
    change (ev_reorg_invalidated_at r) with (ev_reorg_invalidated_at e).
    rewrite Hr, andb_false_r, app_nil_r. apply Hrows.
Qed.

Lemma insert_ok fails e s : ingestible e -> store_ok s -> store_ok (insert_event fails e s).1.
Proof.
  intros He Hs. unfold insert_event. destruct (fails AcquireConnection); [done|].
  destruct (insert_transaction fails e s) as [err|s1] eqn:E; [done|].
  apply transaction_ok in E as [Hc (rows & Hm & Hrows)]; [|done|done].
  unfold upsert_match_state. rewrite Hm. split; [done|]. by exists rows.
Qed.

(** Invalidation leaves the events of other matches alone. *)
Lemma surviving_map_other m f events :
  (forall r, ev_match_id (f r) = ev_match_id r) ->
  (forall r, In r events -> ev_match_id r = m -> f r = r) ->
  surviving m (map f events) = surviving m events.
Proof.
  intros Hid Hf. unfold surviving. induction events as [|r events IH]; cbn; [done|].
  rewrite IH by (intros; apply Hf; [by right|done]). rewrite Hid.
  destruct (Z.eqb_spec (ev_match_id r) m) as [E|]; cbn; [|done]. by rewrite Hf by (by left || done).
Qed.

Lemma invalidate_ok fails now contract a b reason s :
  store_ok s -> store_ok (mark_events_as_invalid first_by fails now contract a b reason s).1.
Proof.
  intros Hs. assert (Hs0 := Hs). destruct Hs as [Hc (rows & Hm & Hrows)].
  unfold mark_events_as_invalid. set (f := fun r => if in_ledgers a b r then _ else r).
  set (ids := list_to_set (C := gset Z) _).
  destruct (fails AcquireConnection); [done|]. destruct (fails BeginTransaction); [done|].
  destruct (fails InvalidateEvents || no_table s); [done|].
  assert (Hf : forall r, ev_match_id (f r) = ev_match_id r /\ ev_event_index_in_txn (f r) = ev_event_index_in_txn r)
    by (intros r; subst f; cbv beta; by case_match).
  assert (Hc' : Forall counted (map f (st_events s))).
  { apply Forall_map. eapply Forall_impl; [exact Hc|]. intros r Hr i. rewrite (proj2 (Hf r)). apply Hr. }
  assert (Hother : forall m, m ∉ ids -> surviving m (map f (st_events s)) = surviving m (st_events s)).
  { intros m Hnot. apply surviving_map_other; [apply Hf|]. intros r Hr E. subst f; cbv beta.
    destruct (in_ledgers a b r) eqn:Ein; [|done]. exfalso. apply Hnot. subst ids.
    apply elem_of_list_to_set, list_elem_of_In, in_map_iff. exists r. split; [done|]. by apply filter_In. }
  assert (Hdone : forall rows' : gmap Z MatchRow, (forall m, rows' !! m = if bool_decide (m ∈ elements ids)
      then rebuild_row first_by m (map f (st_events s)) else rows !! m) ->
    forall m, entry_ok (surviving m (map f (st_events s))) (rows' !! m)).
  { intros rows' Hrows' m. rewrite Hrows'. case_bool_decide as Hin; [by apply rebuild_ok|].
    rewrite Hother by set_solver. apply Hrows. }
  destruct (elements ids) as [|i l] eqn:Hids.
  - destruct (fails LogReorg); [done|]. destruct (fails CommitTransaction); [done|].
    split; [done|]. exists rows. split; [done|]. apply Hdone. done.
  - rewrite Hm. destruct (fails RebuildMatches); [done|]. destruct (fails LogReorg); [done|].
    destruct (fails CommitTransaction); [done|]. split; [done|]. eexists. split; [reflexivity|].
    apply Hdone. intros m. apply lookup_rebuild.
Qed.

Lemma init_ok fails s : store_ok s -> store_ok (init_schema first_by fails s).1.
Proof.
  intros Hs. assert (Hs0 := Hs). destruct Hs as [Hc (rows & Hm & Hrows)]. unfold init_schema. rewrite Hm.
  destruct (fails AcquireConnection); [done|]. destruct (fails BeginTransaction); [done|].
  destruct (fails RebuildMatches); [done|]. destruct (fails CommitTransaction); [done|].
  split; [done|]. eexists. split; [reflexivity|]. intros m. cbn [st_events].
  rewrite lookup_rebuild. case_bool_decide; [by apply rebuild_ok|apply Hrows].
Qed.

(** A database that was set up from nothing, and whatever happens to it then. *)
Definition empty_store : Store := mkStore [] NoTable [].

Inductive store_step : Store -> Store -> Prop :=
  | step_insert fails e s : ingestible e -> store_step s (insert_event fails e s).1
  | step_invalidate fails now contract a b reason s :
      store_step s (mark_events_as_invalid first_by fails now contract a b reason s).1
  | step_init fails s : store_step s (init_schema first_by fails s).1.

Definition reachable_store (s : Store) : Prop :=
  exists fails s0, init_schema first_by fails empty_store = (s0, inr tt) /\ rtc store_step s0 s.

Lemma reachable_ok s : reachable_store s -> store_ok s.
Proof.
  intros (fails & s0 & H0 & Hr). assert (Hok : store_ok s0).
  { unfold init_schema in H0. cbn in H0. repeat (case_match; [discriminate|]). injection H0 as <-.
    split; [constructor|]. eexists. split; [reflexivity|]. intros m. by rewrite lookup_empty. }
  clear H0. induction Hr as [|s s1 s2 Hstep _ IH]; [done|]. apply IH.
  destruct Hstep; [by apply insert_ok|by apply invalidate_ok|by apply init_ok].
Qed.

(** C23: whatever events are ingested, in any order and any number of times, whatever
    ledgers are invalidated, and whichever statements fail, a match has a row exactly
    when one of its events survives, and the row has the status of a latest surviving
    event and the creation fields of an earliest surviving creation. *)
Theorem matches_materialised s m :
  reachable_store s ->
  exists rows, st_matches s = Incremental rows /\
    (rows !! m = None <-> surviving m (st_events s) = []) /\
    forall row, rows !! m = Some row -> materialised (surviving m (st_events s)) row.
Proof.
  intros Hs. apply reachable_ok in Hs as [_ (rows & Hm & Hrows)]. exists rows. split; [done|].
  specialize (Hrows m). destruct (rows !! m) as [row|]; cbn in Hrows; split.
  - split; [done|]. intros E. rewrite E in Hrows. by destruct Hrows as [(l & [[] _] & _) _].
  - by intros ? [= <-].
  - done.
  - done.
Qed.

(** ** Ingestion and summaries on a fresh database *)

Lemma insert_adds fails e s rows :
  st_matches s = Incremental rows -> (forall at_, fails at_ = false) ->
  has_event (ev_id e) (st_events s) = false ->
  st_events (insert_event fails e s).1 = st_events s ++ [event_row e].
Proof.
  intros Hm Hf Hnew. unfold insert_event, insert_transaction, no_table. rewrite !Hf, Hm. cbn [orb].
  change (ev_id (event_row e)) with (ev_id e). rewrite Hnew. cbn [negb andb].
  destruct (bool_decide _); unfold upsert_match_state; cbn; by rewrite ?Hm.
Qed.

Lemma insert_reports_failure fails e s rows :
  st_matches s = Incremental rows -> exists at_, (insert_event fails e s).2 = inl at_.
Proof.
  intros Hm. unfold insert_event. destruct (fails AcquireConnection); [by eexists|].
  destruct (insert_transaction fails e s) as [err|s1] eqn:E; [by eexists|].
  assert (Hinc : exists rows1, st_matches s1 = Incremental rows1).
  { unfold insert_transaction, no_table in E. rewrite Hm in E.
    repeat (case_match; try discriminate); injection E as <-; eauto. }
  destruct Hinc as [rows1 Hinc]. unfold upsert_match_state. rewrite Hinc. by eexists.
Qed.

(** Ingestion stores at most the event, invalidation stores nothing. *)
Lemma insert_ids fails e s r :
  In r (st_events (insert_event fails e s).1) ->
  In (ev_id r) (map ev_id (st_events s)) \/ ev_id r = ev_id e.
Proof.
  unfold insert_event, insert_transaction, upsert_match_state. intros H.
  repeat (case_match; simplify_eq; cbn in H); try (by left; apply in_map);
    apply in_app_iff in H as [H|[<-|[]]]; first [by left; apply in_map | by right].
Qed.

Lemma invalidate_ids fails now contract a b reason s :
  map ev_id (st_events (mark_events_as_invalid first_by fails now contract a b reason s).1) =
  map ev_id (st_events s).
Proof.
  unfold mark_events_as_invalid. repeat (case_match; simplify_eq; try done); cbn;
    rewrite map_map; apply map_ext; intros r; by destruct (in_ledgers a b r).
Qed.

(** on a database the service itself set up, [insert_event] never reports success,
    although it stores a new event: its transaction is committed, and the statement
    that follows names a column the table does not have.  A match summary is never
    served either: the events of the match are read past their last column. *)
Theorem fresh_database_fails s fails e sort match_id :
  reachable_store s -> (forall l, Permutation (sort l) l) ->
  (exists at_, (insert_event fails e s).2 = inl at_) /\
  ((forall at_, fails at_ = false) -> has_event (ev_id e) (st_events s) = false ->
     st_events (insert_event fails e s).1 = st_events s ++ [event_row e]) /\
  (forall info, build_match_info fails sort match_id s <> Done (Some info)).
Proof.
  intros Hs Hsort. apply reachable_ok in Hs as [_ (rows & Hm & Hrows)]. split_and!.
  - by eapply insert_reports_failure.
  - intros Hf Hnew. by eapply insert_adds.
  - intros info. unfold build_match_info. destruct (fails SelectRows) eqn:Hf; [done|]. rewrite Hm.
    destruct (rows !! as_i64 match_id) as [row|] eqn:Hrow; [|done].
    destruct (m_created_ledger row); [|done]. unfold get_events_by_match. rewrite Hf.
    unfold no_table. rewrite Hm. cbn [orb].
    specialize (Hrows (as_i64 match_id)). rewrite Hrow in Hrows. destruct Hrows as [(l & [Hin _] & _) _].
    assert (Hl : In l (sort (rows_of_match match_id s))).
    { apply (Permutation_in _ (Permutation_sym (Hsort _))). apply filter_In in Hin as [Hin Hc].
      apply filter_In. split; [done|]. by apply andb_true_iff in Hc as [Hc _]. }
    unfold read_rows. by destruct (sort _).
Qed.
End Rebuild.

(** ** The order of arrival *)

Definition fresh_store : Store := mkStore [] (Incremental ∅) [].
Definition ingest (evs : list IndexedEvent) (s : Store) : Store :=
  foldl (fun s e => (insert_event never e s).1) s evs.

(** No two events of a match compete for its status or for its creation fields. *)
Definition distinct_ranks (rows : list IndexedEvent) : Prop :=
  (forall x y, In x rows -> In y rows -> rank_of x = rank_of y -> x = y) /\
  (forall x y, In x rows -> In y rows -> is_created x = true -> is_created y = true ->
     ev_ledger_sequence x = ev_ledger_sequence y -> x = y).

Lemma rank_le_antisym a b : rank_le a b = true -> rank_le b a = true -> a = b.
Proof. rewrite !rank_le_spec. destruct a, b; cbn. intros. f_equal; lia. Qed.

Lemma materialised_unique rows rows' row row' :
  Permutation rows rows' -> distinct_ranks rows ->
  materialised rows row -> materialised rows' row' -> row = row'.
Proof.
  intros Hp [Hr Hcr] [(l & [Hl Hlm] & Hsl) Hc] [(l' & [Hl' Hlm'] & Hsl') Hc'].
  assert (Hin : forall x, In x rows <-> In x rows')
    by (intros x; split; apply Permutation_in; [done|by symmetry]).
  assert (l = l') as <-.
  { apply Hr; [done|by apply Hin|]. apply rank_le_antisym; [apply Hlm'|apply Hlm]; by apply Hin. }
  destruct Hsl as (S1 & S2 & S3 & S4), Hsl' as (S1' & S2' & S3' & S4').
  destruct Hc as [(c & (Hci & Hcc & Hcm) & Hf)|[Hn Hf]], Hc' as [(c' & (Hci' & Hcc' & Hcm') & Hf')|[Hn' Hf']].
  - assert (c = c') as <-.
    { apply Hcr; [done|by apply Hin|done|done|].
      apply Z.le_antisymm; [apply Hcm; [by apply Hin|done]|apply Hcm'; [by apply Hin|done]]. }
    destruct row, row', Hf as (?&?&?&?&?&?&?), Hf' as (?&?&?&?&?&?&?); cbn in *; congruence.
  - rewrite Hn' in Hcc by (by apply Hin). done.
  - rewrite Hn in Hcc' by (by apply Hin). done.
  - destruct row, row', Hf as (?&?&?&?&?&?&?), Hf' as (?&?&?&?&?&?&?); cbn in *; congruence.
Qed.

Lemma has_event_spec id events : has_event id events = true <-> In id (map ev_id events).
Proof.
  unfold has_event. rewrite existsb_exists, in_map_iff. split.
  - intros (r & Hr & E). zbool. eauto.
  - intros (r & <- & Hr). exists r. split; [done|]. by apply bool_decide_eq_true.
Qed.

Lemma ingest_ok evs s : Forall ingestible evs -> store_ok s -> store_ok (ingest evs s).
Proof.
  unfold ingest. revert s. induction evs as [|e evs IH]; intros s He Hs; [done|].
  apply Forall_cons in He as [He Hes]. cbn [foldl]. apply IH; [done|]. by apply insert_ok.
Qed.

Lemma ingest_log evs s :
  Forall ingestible evs -> store_ok s -> List.NoDup (map ev_id (st_events s) ++ map ev_id evs) ->
  st_events (ingest evs s) = st_events s ++ map event_row evs.
Proof.
  unfold ingest. revert s. induction evs as [|e evs IH]; intros s He Hs Hnd; cbn [map foldl];
    [by rewrite app_nil_r|]. apply Forall_cons in He as [He Hes]. cbn in Hnd.
  assert (Hadd : st_events (insert_event never e s).1 = st_events s ++ [event_row e]).
  { destruct Hs as [_ (rows & Hm & _)]. eapply insert_adds; [done|done|].
    apply not_true_iff_false. rewrite has_event_spec. intros Hin.
    apply List.NoDup_remove_2 in Hnd. apply Hnd, in_app_iff. by left. }
  rewrite IH; [|done|by apply insert_ok|].
  - rewrite Hadd, <-app_assoc. done.
  - rewrite Hadd, map_app, <-app_assoc. exact Hnd.
Qed.

Lemma fresh_ok : store_ok fresh_store.
Proof. split; [constructor|]. exists ∅. split; [done|]. intros m. by rewrite lookup_empty. Qed.

Lemma surviving_perm m rows rows' :
  Permutation rows rows' -> Permutation (surviving m rows) (surviving m rows').
Proof.
  unfold surviving. induction 1; cbn; repeat case_match; try done; try (by constructor).
  by etransitivity.
Qed.


(** ** Instances *)

(** A choice of the first row: the first one in the table among equals. *)
Definition pick_first (le : IndexedEvent -> IndexedEvent -> bool) (l : list IndexedEvent)
    : option IndexedEvent :=
  foldr (fun x best => match best with
                       | None => Some x
                       | Some y => if le x y then Some x else Some y
                       end) None l.

Lemma pick_first_spec le l :
  (forall a b, le a b = false -> le b a = true) ->
  (forall a b c, le a b = true -> le b c = true -> le a c = true) ->
  match pick_first le l with
  | None => l = []
  | Some e => In e l /\ forall x, In x l -> le e x = true
  end.
Proof.
  intros Htotal Htrans. assert (Hrefl : forall a, le a a = true)
    by (intros a; destruct (le a a) eqn:E; [done|pose proof (Htotal _ _ E); congruence]).
  unfold pick_first. induction l as [|x l IH]; [done|]. cbn [foldr].
  destruct (foldr _ None l) as [y|].
  - destruct IH as [Hy Hmin]. destruct (le x y) eqn:E.
    + split; [by left|]. intros z [<-|Hz]; [done|]. eapply Htrans; [done|by apply Hmin].
    + split; [by right|]. intros z [<-|Hz]; [by apply Htotal|by apply Hmin].
  - subst l. split; [by left|]. by intros z [<-|[]].
Qed.

Definition log_event (id event_type : string) (ledger : Z) (status : option string) : IndexedEvent :=
  mkIndexedEvent id ledger 1 event_type (Some "G1") (Some "G2") status None (Some "100") None None None
    ledger None (Some 0) None.

Definition three_events : list IndexedEvent :=
  [log_event "c" "match:completed" 7 (Some "completed"); log_event "a" "match:created" 5 (Some "pending");
   log_event "b" "match:activated" 6 (Some "active")].

Lemma ingestible_three : Forall ingestible three_events.
Proof. repeat (constructor; [intros i [= <-]; lia|]). constructor. Qed.

Lemma reachable_three : reachable_store pick_first (ingest three_events fresh_store).
Proof.
  exists never, fresh_store. split; [reflexivity|]. pose proof ingestible_three as H. revert H.
  unfold ingest, three_events. cbn [foldl]. rewrite !Forall_cons. intros (H1 & H2 & H3 & _).
  eapply rtc_l; [exact (step_insert pick_first never _ _ H1)|].
  eapply rtc_l; [exact (step_insert pick_first never _ _ H2)|].
  eapply rtc_l; [exact (step_insert pick_first never _ _ H3)|]. apply rtc_refl.
Qed.

Lemma matches_materialised_witness :
  exists rows row, st_matches (ingest three_events fresh_store) = Incremental rows /\
    rows !! 1 = Some row /\ m_status row = Some "completed" /\ m_created_ledger row = Some 5 /\
    materialised (surviving 1 (map event_row three_events)) row.
Proof.
  destruct (matches_materialised pick_first pick_first_spec (ingest three_events fresh_store) 1
    reachable_three) as (rows & Hm & _ & Hrow).
  vm_compute in Hm. injection Hm as <-. do 2 eexists.
  split_and!; try (vm_compute; reflexivity). exact (Hrow _ eq_refl).
Defined.

Lemma fresh_database_fails_witness :
  exists at_, (insert_event never (log_event "d" "match:expired" 9 None)
    (ingest three_events fresh_store)).2 = inl at_.
Proof.
  exact (proj1 (fresh_database_fails pick_first pick_first_spec (ingest three_events fresh_store) never
    (log_event "d" "match:expired" 9 None) (fun l => l) 1 reachable_three (fun l => Permutation_refl l))).
Defined.

