(* ===== verification/Leader.v ===== *)
(** Leader election among the replicas of the event indexer,
    [services/event-indexer/src/leader.rs]: the lease in the [leader_state] table, its
    acquisition and its release; then how far apart two acquisitions are, that a holder
    cannot renew, and what a late release does.

    The table maps [instance_id] to [held_until], in nanoseconds.  An instance reads its
    own clock to compute the end of its lease and the database compares it with its
    own; both readings are arguments, as is a failure of the database. *)
From stdpp Require Import base list strings gmap sorting.
From Stdlib Require Import ZArith Lia.
From S2P Require Import Prelude.

Local Open Scope Z_scope.

Definition nanos : Z := 1000000000.
Definition leader_key : string := "__leader__".

Notation LeaderTable := (gmap string Z).

Record LeaderElection := mkLeaderElection {
  instance_id : string;
  ttl_secs : Z;
  is_leader : bool
}.

Definition new (id : string) (ttl : Z) : LeaderElection := mkLeaderElection id ttl false.

(** The upsert: the row is written when it is missing, expired, or bears the
    instance's own id. *)
Definition claim_lease (db_now held_until : Z) (id : string) (t : LeaderTable) : LeaderTable * Z :=
  match t !! leader_key with
  | None => (<[leader_key := held_until]> t, 1)
  | Some held =>
      if (held <? db_now) || String.eqb leader_key id
      then (<[leader_key := held_until]> t, 1) else (t, 0)
  end.

Definition try_acquire_inner (fails : bool) (now db_now : Z) (e : LeaderElection) (t : LeaderTable)
    : LeaderTable * option bool :=
  if fails then (t, None)
  else
    let '(t, rows_affected) := claim_lease db_now (now + ttl_secs e * nanos) (instance_id e) t in
    (* the row that is read back is the one whose key is "__leader__" *)
    let current_holder := leader_key in
    (t, Some ((0 <? rows_affected) || String.eqb current_holder (instance_id e))).

Definition with_leader (b : bool) (e : LeaderElection) : LeaderElection :=
  mkLeaderElection (instance_id e) (ttl_secs e) b.

Definition try_acquire (fails : bool) (now db_now : Z) (e : LeaderElection) (t : LeaderTable)
    : LeaderTable * LeaderElection * bool :=
  match try_acquire_inner fails now db_now e t with
  | (t, Some acquired) => (t, with_leader acquired e, acquired)
  | (t, None) => (t, with_leader false e, false)
  end.

(** Only an instance that believes it leads releases; the row is deleted whoever
    holds it. *)
Definition release (fails : bool) (e : LeaderElection) (t : LeaderTable) : LeaderTable * LeaderElection :=
  if is_leader e then (if fails then t else delete leader_key t, with_leader false e) else (t, e).

(** ** How far apart acquisitions are *)

Record Attempt := mkAttempt {
  a_fails : bool;
  a_now : Z;
  a_db_now : Z;
  a_instance : LeaderElection
}.

Definition lease_end (a : Attempt) : Z := a_now a + ttl_secs (a_instance a) * nanos.

(** The attempts of a sequence that succeed. *)
Fixpoint successes (attempts : list Attempt) (t : LeaderTable) : list Attempt :=
  match attempts with
  | [] => []
  | a :: rest =>
      let '(t', _, acquired) := try_acquire (a_fails a) (a_now a) (a_db_now a) (a_instance a) t in
      if acquired then a :: successes rest t' else successes rest t'
  end.

Lemma try_acquire_cases a t :
  instance_id (a_instance a) <> leader_key ->
  try_acquire (a_fails a) (a_now a) (a_db_now a) (a_instance a) t =
    if a_fails a then (t, with_leader false (a_instance a), false)
    else match t !! leader_key with
         | Some held =>
             if held <? a_db_now a
             then (<[leader_key := lease_end a]> t, with_leader true (a_instance a), true)
             else (t, with_leader false (a_instance a), false)
         | None => (<[leader_key := lease_end a]> t, with_leader true (a_instance a), true)
         end.
Proof.
  intros Hid. unfold try_acquire, try_acquire_inner, claim_lease. destruct (a_fails a); [done|].
  assert (E : String.eqb leader_key (instance_id (a_instance a)) = false)
    by (apply String.eqb_neq; congruence). rewrite E.
  destruct (t !! leader_key) as [held|]; [|done]. by destruct (held <? a_db_now a).
Qed.

Lemma successes_spaced attempts t :
  Forall (fun a => instance_id (a_instance a) <> leader_key) attempts ->
  Sorted (fun a b => lease_end a < a_db_now b) (successes attempts t) /\
  (forall held b, t !! leader_key = Some held -> head (successes attempts t) = Some b -> held < a_db_now b).
Proof.
  revert t. induction attempts as [|a rest IH]; intros t Hid; [split; [constructor|done]|].
  apply Forall_cons in Hid as [Ha Hid]. cbn [successes]. rewrite try_acquire_cases by done.
  assert (Hwin : Sorted (fun a b => lease_end a < a_db_now b)
                   (a :: successes rest (<[leader_key := lease_end a]> t))).
  { destruct (IH (<[leader_key := lease_end a]> t) Hid) as [Hs Hh]. constructor; [done|].
    destruct (successes rest _) as [|b l]; constructor. apply (Hh (lease_end a) b); [|done].
    apply lookup_insert_eq. }
  destruct (a_fails a); [by apply IH|]. destruct (t !! leader_key) as [held|] eqn:Ht.
  - destruct (held <? a_db_now a) eqn:E; zbool.
    + split; [exact Hwin|]. intros ? b [= <-] [= <-]. done.
    + destruct (IH t Hid) as [Hs Hh]. split; [done|]. intros ? b [= <-]. by apply Hh.
  - split; [exact Hwin|done].
Qed.



(** The holder's own heartbeat is refused, and it stops leading. *)
Lemma no_renewal now db_now e t held :
  instance_id e <> leader_key -> t !! leader_key = Some held -> db_now <= held ->
  try_acquire false now db_now e t = (t, with_leader false e, false).
Proof.
  intros Hid Ht Hle. pose proof (try_acquire_cases (mkAttempt false now db_now e) t Hid) as H.
  cbn [a_fails a_now a_db_now a_instance] in H. rewrite H, Ht. by rewrite (proj2 (Z.ltb_ge _ _) Hle).
Qed.

(** A leader whose lease has run out and who shuts down deletes its successor's lease:
    the second instance still leads when a third one takes over. *)
Example late_release_two_leaders :
  let '(t1, one, _) := try_acquire false 0 0 (new "one" 30) ∅ in
  let '(t2, two, _) := try_acquire false (31 * nanos) (31 * nanos) (new "two" 30) t1 in
  let '(t3, _) := release false one t2 in
  let '(_, three, _) := try_acquire false (32 * nanos) (32 * nanos) (new "three" 30) t3 in
  is_leader two = true /\ is_leader three = true.
Proof. vm_compute. done. Qed.
