(* ===== verification/ApiCache.v ===== *)
(** The event indexer's response cache, [services/event-indexer/src/api_cache.rs]: the
    keys, the times to live, the three backends, reads, writes and invalidation; then
    what a hit tells, whatever the requests and failures before it.

    The clock is an argument, in nanoseconds, and so is the environment variable that
    tunes one time to live.  Redis is an interface ([Redis], [RedisLaws]): what the
    server holds is a map from keys to deadlines and payloads, an answered command does
    what it says, and a command that fails may or may not have been carried out.
    Serialisation ([Codec]) is an interface to [serde_json]. *)
From stdpp Require Import base list strings gmap pretty.
From Stdlib Require Import ZArith Lia.
From S2P Require Import Prelude Text IndexerTypes.

Local Open Scope Z_scope.

(** ** Times to live, in seconds *)

Definition PENDING_MATCHES_TTL_SECS : Z := 10.
Definition MATCH_TTL_SECS : Z := 5.
Definition ANALYTICS_TTL_SECS : Z := 60.
Definition DEFAULT_ACTIVE_MATCH_CACHE_TTL_SECS : Z := 5.
Definition COMPLETED_MATCH_CACHE_TTL_SECS : Z := 300.

(** [var] is INDEXER_ACTIVE_MATCH_CACHE_TTL_SECS. *)
Definition active_match_ttl (var : option string) : Z :=
  match (v ← var; parse_u64 (trim v)) with
  | Some secs => if 0 <? secs then secs else DEFAULT_ACTIVE_MATCH_CACHE_TTL_SECS
  | None => DEFAULT_ACTIVE_MATCH_CACHE_TTL_SECS
  end.

Definition ttl_for_status (var : option string) (status : MatchStatus) : Z :=
  match status with
  | StatusActive => active_match_ttl var
  | StatusCompleted | StatusCancelled | StatusExpired => COMPLETED_MATCH_CACHE_TTL_SECS
  | StatusPending => MATCH_TTL_SECS
  end.

(** ** Keys *)

Definition KEY_PREFIX : string := "cm:api".
Definition ANALYTICS_STATS : string := "stats".
Definition ANALYTICS_KEYS : list string := [ANALYTICS_STATS].

Definition match_key (match_id : Z) : string := KEY_PREFIX +:+ ":match:" +:+ pretty match_id.

Definition status_suffix (status : option MatchStatus) : string :=
  match status with
  | None => "all"
  | Some StatusPending => "pending"
  | Some StatusActive => "active"
  | Some StatusCompleted => "completed"
  | Some StatusCancelled => "cancelled"
  | Some StatusExpired => "expired"
  end.
Definition matches_key (status : option MatchStatus) : string :=
  KEY_PREFIX +:+ ":matches:" +:+ status_suffix status.
Definition analytics_key (name : string) : string := KEY_PREFIX +:+ ":analytics:" +:+ name.

Definition all_match_list_keys : list string :=
  [matches_key None; matches_key (Some StatusPending); matches_key (Some StatusActive);
   matches_key (Some StatusCompleted); matches_key (Some StatusCancelled);
   matches_key (Some StatusExpired)].
Definition all_analytics_keys : list string := map analytics_key ANALYTICS_KEYS.

(** ** Backends *)

Definition ns_per_sec : Z := 1000000000.

(** What a store holds: a deadline and a payload per key. *)
Notation Entries := (gmap string (Z * string)).

Definition live (now : Z) (key : string) (m : Entries) : option string :=
  match m !! key with
  | Some (deadline, payload) => if deadline <=? now then None else Some payload
  | None => None
  end.
Definition delete_all (keys : list string) (m : Entries) : Entries := foldr delete m keys.

(** The process-local store; an expired entry that is read is dropped. *)
Definition memory_get (now : Z) (key : string) (m : Entries) : Entries * option string :=
  match m !! key with
  | Some (deadline, payload) => if deadline <=? now then (delete key m, None) else (m, Some payload)
  | None => (m, None)
  end.
Definition memory_set (now : Z) (key payload : string) (ttl_secs : Z) (m : Entries) : Entries :=
  <[key := (now + ttl_secs * ns_per_sec, payload)]> m.
Definition memory_len (now : Z) (m : Entries) : nat :=
  size (filter (fun e : string * (Z * string) => now < e.2.1) m).

(** Redis; a command ends in an error or an answer. *)
Class Redis (R : Type) := {
  redis_get : Z -> string -> R -> R * (unit + option string);
  redis_set_ex : Z -> string -> string -> Z -> R -> R * (unit + unit);
  redis_del : Z -> list string -> R -> R * (unit + unit)
}.

Class RedisLaws (R : Type) `{Redis R} := {
  holds : R -> Entries;
  redis_get_answer now k r r' v : redis_get now k r = (r', inr v) -> v = live now k (holds r);
  redis_get_holds now k r : holds (redis_get now k r).1 = holds r;
  redis_set_answer now k p ttl r r' :
    redis_set_ex now k p ttl r = (r', inr tt) -> holds r' = memory_set now k p ttl (holds r);
  redis_set_error now k p ttl r r' :
    redis_set_ex now k p ttl r = (r', inl tt) ->
    holds r' = holds r \/ holds r' = memory_set now k p ttl (holds r);
  redis_del_answer now ks r r' :
    redis_del now ks r = (r', inr tt) -> holds r' = delete_all ks (holds r);
  redis_del_error now ks r r' :
    redis_del now ks r = (r', inl tt) -> holds r' = holds r \/ holds r' = delete_all ks (holds r)
}.

Inductive Backend (R : Type) :=
  | Disabled
  | Memory (m : Entries)
  | RedisBackend (r : R).
Arguments Disabled {R}.
Arguments Memory {R} m.
Arguments RedisBackend {R} r.

Record ApiCache (R : Type) := mkApiCache {
  backend : Backend R;
  hits : Z;
  misses : Z;
  invalidations : Z;
  errors : Z
}.
Arguments mkApiCache {R}.
Arguments backend {R}.
Arguments hits {R}.
Arguments misses {R}.
Arguments invalidations {R}.
Arguments errors {R}.

(** Values as JSON. *)
Class Codec (T : Type) := {
  encode : T -> option string;
  decode : string -> option T;
  decode_encode x p : encode x = Some p -> decode p = Some x
}.

Section Cache.
Context {R : Type} `{Redis R}.
Implicit Types c : ApiCache R.

Definition in_memory : ApiCache R := mkApiCache (Memory ∅) 0 0 0 0.
Definition disabled : ApiCache R := mkApiCache Disabled 0 0 0 0.

(** [open] is the connection to the server at start-up. *)
Definition connect (open : string -> option R) (redis_url : string) : option (ApiCache R) :=
  (fun r => mkApiCache (RedisBackend r) 0 0 0 0) <$> open redis_url.
Definition from_config (open : string -> option R) (redis_url : option string) : ApiCache R :=
  match redis_url with
  | Some url => if String.eqb (trim url) "" then in_memory else default in_memory (connect open url)
  | None => in_memory
  end.

Definition is_enabled c : bool := match backend c with Disabled => false | _ => true end.
Definition is_shared c : bool := match backend c with RedisBackend _ => true | _ => false end.
Definition backend_name c : string :=
  match backend c with
  | Disabled => "disabled"
  | Memory _ => "memory"
  | RedisBackend _ => "redis"
  end.
Definition local_len (now : Z) c : option nat :=
  match backend c with Memory m => Some (memory_len now m) | _ => None end.

Definition with_backend (b : Backend R) c : ApiCache R :=
  mkApiCache b (hits c) (misses c) (invalidations c) (errors c).
Definition count_hit c : ApiCache R :=
  mkApiCache (backend c) (hits c + 1) (misses c) (invalidations c) (errors c).
Definition count_miss c : ApiCache R :=
  mkApiCache (backend c) (hits c) (misses c + 1) (invalidations c) (errors c).
Definition count_invalidation c : ApiCache R :=
  mkApiCache (backend c) (hits c) (misses c) (invalidations c + 1) (errors c).
Definition record_error c : ApiCache R :=
  mkApiCache (backend c) (hits c) (misses c) (invalidations c) (errors c + 1).

Definition delete_keys (now : Z) (keys : list string) c : ApiCache R :=
  match keys with
  | [] => c
  | _ =>
      match backend c with
      | Disabled => c
      | Memory m => with_backend (Memory (delete_all keys m)) c
      | RedisBackend r =>
          let '(r, answer) := redis_del now keys r in
          let c := with_backend (RedisBackend r) c in
          match answer with inl _ => record_error c | inr _ => c end
      end
  end.

Definition get_json {T} `{Codec T} (now : Z) (key : string) c : ApiCache R * option T :=
  match backend c with
  | Disabled => (count_miss c, None)
  | _ =>
      let '(c, raw) :=
        match backend c with
        | Disabled => (c, None)
        | Memory m => let '(m, v) := memory_get now key m in (with_backend (Memory m) c, v)
        | RedisBackend r =>
            let '(r, answer) := redis_get now key r in
            let c := with_backend (RedisBackend r) c in
            match answer with inl _ => (record_error c, None) | inr v => (c, v) end
        end in
      match raw with
      | Some payload =>
          match decode payload with
          | Some value => (count_hit c, Some value)
          | None => (delete_keys now [key] (count_miss (record_error c)), None)
          end
      | None => (count_miss c, None)
      end
  end.

Definition set_json {T} `{Codec T} (now : Z) (key : string) (value : T) (ttl : Z) c : ApiCache R :=
  match encode value with
  | None => record_error c
  | Some payload =>
      let ttl_secs := Z.max ttl 1 in
      match backend c with
      | Disabled => c
      | Memory m => with_backend (Memory (memory_set now key payload ttl_secs m)) c
      | RedisBackend r =>
          let '(r, answer) := redis_set_ex now key payload ttl_secs r in
          let c := with_backend (RedisBackend r) c in
          match answer with inl _ => record_error c | inr _ => c end
      end
  end.

Definition invalidated_keys (match_id : Z) : list string :=
  match_key match_id :: all_match_list_keys ++ all_analytics_keys.

Definition invalidate_match (now match_id : Z) c : ApiCache R :=
  if is_enabled c then count_invalidation (delete_keys now (invalidated_keys match_id) c) else c.

Definition invalidate_lists_and_analytics (now : Z) c : ApiCache R :=
  if is_enabled c
  then count_invalidation (delete_keys now (all_match_list_keys ++ all_analytics_keys) c) else c.

Definition clear_responses (now : Z) c : ApiCache R :=
  count_invalidation
    match backend c with
    | Disabled => c
    | Memory _ => with_backend (Memory ∅) c
    | RedisBackend _ => invalidate_lists_and_analytics now c
    end.
End Cache.

(** ** What the cache holds *)

Section Holds.
Context {R : Type} `{RedisLaws R}.
Implicit Types c : ApiCache R.

Definition entries c : Entries :=
  match backend c with
  | Disabled => ∅
  | Memory m => m
  | RedisBackend r => holds r
  end.

Lemma lookup_delete_all ks (m : Entries) k :
  delete_all ks m !! k = if bool_decide (k ∈ ks) then None else m !! k.
Proof.
  unfold delete_all. induction ks as [|k' ks IH]; cbn [foldr]; [done|].
  destruct (decide (k = k')) as [->|Hne].
  - rewrite bool_decide_true by set_solver. apply lookup_delete_eq.
  - rewrite lookup_delete_ne by done. rewrite IH.
    by rewrite (bool_decide_ext (k ∈ k' :: ks) (k ∈ ks)) by set_solver.
Qed.

(** A deletion is carried out unless it is reported as an error, and then perhaps. *)
Lemma delete_keys_entries now ks c :
  (errors (delete_keys now ks c) = errors c ->
     entries (delete_keys now ks c) = delete_all ks (entries c)) /\
  (entries (delete_keys now ks c) = entries c \/
   entries (delete_keys now ks c) = delete_all ks (entries c)).
Proof.
  unfold delete_keys. destruct ks as [|k ks]; [split; [done|by left]|].
  destruct (backend c) as [|m|r] eqn:Hb.
  - assert (Ec : entries c = ∅) by (unfold entries; by rewrite Hb).
    split; [|by left]. intros _. rewrite Ec. apply map_eq. intros k'.
    rewrite lookup_delete_all, lookup_empty. by case_match.
  - assert (Ec : entries c = m) by (unfold entries; by rewrite Hb). rewrite Ec.
    split; [done|by right].
  - assert (Ec : entries c = holds r) by (unfold entries; by rewrite Hb). rewrite Ec.
    destruct (redis_del now (k :: ks) r) as [r' [[]|[]]] eqn:E; cbn.
    + split; [lia|]. by apply redis_del_error in E.
    + apply redis_del_answer in E. split; [done|by right].
Qed.

Lemma set_entries {T} `{Codec T} now key (v : T) ttl payload c :
  encode v = Some payload ->
  entries (set_json now key v ttl c) = entries c \/
  entries (set_json now key v ttl c) = memory_set now key payload (Z.max ttl 1) (entries c).
Proof.
  intros He. unfold set_json. rewrite He. destruct (backend c) as [|m|r] eqn:Hb.
  - by left.
  - right. unfold entries. by rewrite Hb.
  - assert (Ec : entries c = holds r) by (unfold entries; by rewrite Hb). rewrite Ec.
    destruct (redis_set_ex now key payload (Z.max ttl 1) r) as [r' [[]|[]]] eqn:E; cbn.
    + by apply redis_set_error in E.
    + right. by apply redis_set_answer in E.
Qed.

(** A read only ever drops entries. *)
Lemma get_entries {T} `{Codec T} now key c :
  entries (get_json (T := T) now key c).1 ⊆ entries c.
Proof.
  unfold get_json, entries at 2. destruct (backend c) as [|m|r] eqn:Hb.
  - cbn. unfold entries. cbn. by rewrite Hb.
  - unfold memory_get. destruct (m !! key) as [[d p]|]; [|cbn; done].
    destruct (d <=? now); [apply delete_subseteq|]. destruct (decode p); [done|].
    etransitivity; [|reflexivity]. cbn. apply delete_subseteq.
  - destruct (redis_get now key r) as [r' a] eqn:E.
    pose proof (redis_get_holds now key r) as Hh. rewrite E in Hh. cbn in Hh.
    destruct a as [|[p|]]; [by cbn; rewrite Hh| |by cbn; rewrite Hh].
    destruct (decode p); [by cbn; rewrite Hh|]. cbn [fst].
    match goal with |- entries (delete_keys _ _ ?c1) ⊆ _ =>
      assert (Hc : entries c1 = holds r) by (cbn; exact Hh);
      destruct (delete_keys_entries now [key] c1) as [_ [->| ->]] end; rewrite Hc; [done|].
    apply delete_subseteq.
Qed.

(** A hit is what is held and has not expired. *)
Lemma get_hit {T} `{Codec T} now key c c' (v : T) :
  get_json now key c = (c', Some v) ->
  exists d p, entries c !! key = Some (d, p) /\ now < d /\ decode p = Some v.
Proof.
  unfold get_json, entries. destruct (backend c) as [|m|r]; [done| |].
  - unfold memory_get. destruct (m !! key) as [[d p]|] eqn:E; [|done].
    destruct (d <=? now) eqn:Ed; [done|]. destruct (decode p) eqn:Hd; [|done]. intros [= _ <-].
    zbool. eauto.
  - destruct (redis_get now key r) as [r' [|[p|]]] eqn:E; [done| |done].
    destruct (decode p) eqn:Hd; [|done]. intros [= _ <-].
    apply redis_get_answer in E. unfold live in E.
    destruct (holds r !! key) as [[d p']|]; [|done]. destruct (d <=? now) eqn:Ed; [done|].
    injection E as ->. zbool. eauto.
Qed.
End Holds.

(** ** Histories *)

Inductive Call :=
  | Stored (now : Z) (key payload : string) (ttl_secs : Z)
  | Dropped (keys : list string).

Section History.
Context {R : Type} `{RedisLaws R}.

(** The cache after a sequence of requests; a deletion that was reported as an error
    leaves no trace in the history. *)
Inductive history : list Call -> ApiCache R -> Prop :=
  | history_start c : entries c = ∅ -> history [] c
  | history_get T (C : Codec T) now key h c :
      history h c -> history h (get_json (T := T) now key c).1
  | history_set T (C : Codec T) now key (v : T) ttl payload h c :
      encode v = Some payload -> history h c ->
      history (h ++ [Stored now key payload (Z.max ttl 1)]) (set_json now key v ttl c)
  | history_drop now keys h c :
      history h c ->
      history (if errors (delete_keys now keys c) =? errors c then h ++ [Dropped keys] else h)
        (delete_keys now keys c)
  | history_count h c : history h c -> history h (count_invalidation c).

Definition sourced (h : list Call) (key : string) (deadline : Z) (payload : string) : Prop :=
  exists before t ttl after, h = before ++ Stored t key payload ttl :: after /\
    deadline = t + ttl * ns_per_sec /\ (forall keys, In (Dropped keys) after -> key ∉ keys).

Lemma sourced_snoc h key d p call :
  sourced h key d p -> (forall keys, call = Dropped keys -> key ∉ keys) -> sourced (h ++ [call]) key d p.
Proof.
  intros (b & t & ttl & a & -> & Hd & Ha) Hc. exists b, t, ttl, (a ++ [call]).
  rewrite <-app_assoc. split_and!; [done|done|]. intros keys Hin.
  apply in_app_iff in Hin as [Hin|[->|[]]]; [by apply Ha|by apply Hc].
Qed.

Lemma history_sourced h c :
  history h c -> forall key d p, entries c !! key = Some (d, p) -> sourced h key d p.
Proof.
  induction 1 as [c Hc|T C now key h c _ IH|T C now key v ttl payload h c He _ IH|now keys h c _ IH|h c _ IH];
    intros k d p Hk.
  - by rewrite Hc, lookup_empty in Hk.
  - apply IH. eapply lookup_weaken; [exact Hk|]. apply get_entries.
  - destruct (set_entries now key v ttl payload c He) as [E|E]; rewrite E in Hk.
    + apply sourced_snoc; [by apply IH|done].
    + unfold memory_set in Hk. destruct (decide (k = key)) as [->|Hne].
      * rewrite lookup_insert_eq in Hk. injection Hk as <- <-.
        exists h, now, (Z.max ttl 1), []. split_and!; [done|done|by intros keys []].
      * rewrite lookup_insert_ne in Hk by done. apply sourced_snoc; [by apply IH|done].
  - destruct (delete_keys_entries now keys c) as [Hok Hor]. destruct (_ =? _) eqn:E; zbool.
    + rewrite Hok, lookup_delete_all in Hk by done. case_bool_decide as Hin; [done|].
      apply sourced_snoc; [by apply IH|]. by intros ? [= <-].
    + destruct Hor as [Ho|Ho]; rewrite Ho in Hk; [by apply IH|].
      rewrite lookup_delete_all in Hk. case_match; [done|by apply IH].
  - by apply IH.
Qed.

(** C27: whatever was cached, read and invalidated before, and whichever Redis commands
    failed, a hit returns a value that was stored under its key less than its time to
    live ago, with no deletion of the key reported as done since. *)
Theorem served_fresh {T} `{Codec T} h c c' now key (v : T) :
  history h c -> get_json now key c = (c', Some v) ->
  exists before t payload ttl after, h = before ++ Stored t key payload ttl :: after /\
    decode payload = Some v /\ now < t + ttl * ns_per_sec /\
    (forall keys, In (Dropped keys) after -> key ∉ keys).
Proof.
  intros Hh Hg. destruct (get_hit _ _ _ _ _ Hg) as (d & p & Hk & Hd & Hdec).
  destruct (history_sourced _ _ Hh _ _ _ Hk) as (b & t & ttl & a & -> & -> & Ha).
  exists b, t, p, ttl, a. done.
Qed.
End History.

(** ** Instances *)

(** A Redis that never fails. *)
#[global] Instance steady_redis : Redis Entries := {|
  redis_get now k r := (r, inr (live now k r));
  redis_set_ex now k p ttl r := (memory_set now k p ttl r, inr tt);
  redis_del now ks r := (delete_all ks r, inr tt)
|}.

#[global] Instance steady_redis_laws : RedisLaws Entries.
Proof.
  refine {| holds := fun r => r |}; cbn.
  - by intros now k r r' v [= <- <-].
  - done.
  - by intros now k p ttl r r' [= <-].
  - done.
  - by intros now ks r r' [= <-].
  - done.
Defined.

#[global] Instance text_codec : Codec string := {| encode := Some; decode := Some; decode_encode := fun x p H => eq_sym H |}.

Lemma served_fresh_witness :
  exists before t payload ttl after,
    [Stored 0 "k" "v" 10] = before ++ Stored t "k" payload ttl :: after /\
    5 < t + ttl * ns_per_sec /\ payload = "v".
Proof.
  set (c := set_json (R := Entries) 0 "k" "v" 10 in_memory).
  destruct (served_fresh (R := Entries) [Stored 0 "k" "v" 10] c (count_hit c) 5 "k" "v")
    as (b & t & p & ttl & a & Hh & Hp & Ht & _).
  - apply (history_set string text_codec 0 "k" "v" 10 "v" []); [reflexivity|].
    apply history_start. reflexivity.
  - vm_compute. reflexivity.
  - exists b, t, p, ttl, a. split_and!; [exact Hh|exact Ht|]. cbn in Hp. congruence.
Defined.
