(* ===== verification/Ingestion.v ===== *)
(** Ingestion of contract events, [services/event-indexer/src/rpc.rs] with
    [id_gen.rs] and the ingestion state of [db.rs]: the answers of the RPC server, the
    parsing of an event, its identifier, one poll, and one round of the poller; then
    what these do to the store.

    The server is a function from the requested start ledger and cursor to its answer,
    SHA-256 and the printer of JSON values are parameters.  The readings of the clock
    within one poll are equal.  [fails k] says which statements of the [k]-th database
    call of a poll fail; the calls that load and save the progress are statements of
    their own, at [fails 0].  The workspace builds with overflow checks, so an index or
    a ledger that overflows ends the poller's task ([Stopped]). *)
From stdpp Require Import base list sets strings gmap.
From Stdlib Require Import ZArith Lia Ascii.
From S2P Require Import Leader.
From S2P Require Import Prelude Text IndexerTypes TransactionApi EventCache EventStore.
From S2P Require Import EventStoreSpec ApiCache.

Local Open Scope Z_scope.

(** ** Event identifiers *)

(** [to_be_bytes] of a number of [n] bytes. *)
Fixpoint to_be_bytes (n : nat) (x : Z) : list Z :=
  match n with
  | O => []
  | S n => to_be_bytes n (x / 256) ++ [x mod 256]
  end.

Definition event_id_preimage (ledger : Z) (txn_hash : string) (event_index : Z) : list Z :=
  to_be_bytes 4 ledger ++ map code (chars txn_hash) ++ to_be_bytes 2 event_index.

(** A poll ends, fails with an error, or panics. *)
Inductive Polled (A : Type) :=
  | Polled_ok (a : A)
  | Polled_error (e : string)
  | Stopped.
Arguments Polled_ok {A} a.
Arguments Polled_error {A} e.
Arguments Stopped {A}.

Section Ingestion.
Context (sha256_hex : list Z -> string).
Context (show_value : Value -> string).
Context {R : Type} `{Redis R}.

Definition compute_event_id (ledger : Z) (txn_hash : string) (event_index : Z) : string :=
  sha256_hex (event_id_preimage ledger txn_hash event_index).

(** ** The RPC client *)

Record GetEventsResponse := mkGetEventsResponse {
  r_events : list Value;
  r_next_cursor : option string
}.

(** What the HTTP layer gives: a failure with its text, or the body of a successful
    answer. *)
Definition make_request (answer : string + Value) : string + Value :=
  match answer with
  | inl e => inl e
  | inr json =>
      match get_field "error" json with
      | Some error => inl ("RPC error: " +:+ show_value error)
      | None => inr (default VNull (get_field "result" json))
      end
  end.

Definition cursor_error (error : Value) : option string :=
  let msg := default EmptyString (get_field "message" error ≫= as_str) in
  let code := default 0 (get_field "code" error ≫= as_i64_value) in
  let lower := map_chars to_ascii_lowercase msg in
  if contains_text lower "cursor" &&
     (contains_text lower "not found" || contains_text lower "too old"
      || contains_text lower "invalid" || contains_text lower "expired" || (code =? -32602))
  then Some msg else None.

Definition get_events (answer : string + Value) : string + GetEventsResponse :=
  match make_request answer with
  | inl e => inl e
  | inr result =>
      match (error ← get_field "error" result; cursor_error error) with
      | Some msg => inl ("CursorInvalid: " +:+ msg)
      | None =>
          inr (mkGetEventsResponse (default [] (get_field "events" result ≫= as_array))
                 (get_field "cursor" result ≫= as_str))
      end
  end.

(** ** Parsing *)

Definition text_at (data : list Value) (i : nat) : option string := data !! i ≫= as_str.

Definition event_status (event_type : string) (data : list Value) : option string * option string :=
  if contains_text event_type "created" then (Some "pending", None)
  else if contains_text event_type "activated" then (Some "active", None)
  else if contains_text event_type "completed" then (Some "completed", text_at data 1)
  else if contains_text event_type "cancelled" then (Some "cancelled", None)
  else if contains_text event_type "expired" then (Some "expired", None)
  else (None, None).

Definition parse_event (v : Value) (index now : Z) : option IndexedEvent :=
  ledger ← get_field "ledger" v ≫= as_u64_value;
  txn_hash ← get_field "txnMeta" v ≫= as_str;
  event ← get_field "event" v;
  topics ← get_field "topics" event ≫= as_array;
  if Nat.ltb (length topics) 2 then None
  else
    let namespace := default "unknown"%string (text_at topics 0) in
    let name := default "unknown"%string (text_at topics 1) in
    let event_type := namespace +:+ ":" +:+ name in
    let data := default [] (get_field "data" event ≫= as_array) in
    let '(status, winner) := event_status event_type data in
    let ledger := as_u32 ledger in
    Some (mkIndexedEvent (compute_event_id ledger txn_hash index) ledger
      (default 0 (text_at data 0 ≫= parse_u64)) event_type (text_at data 1) (text_at data 2)
      status winner (text_at data 3) (text_at data 4) (text_at data 5) (text_at data 6)
      now (Some txn_hash) (Some index) None).

(** ** The ingestion state *)

Record IngestionState := mkIngestionState {
  last_polled_ledger : option Z;
  last_polled_cursor : option string;
  last_error : option string
}.

Record Indexer := mkIndexer {
  ix_store : Store;
  ix_progress : gmap string IngestionState;
  ix_cache : EventCache;
  ix_responses : ApiCache R;
  ix_indexed : Z
}.

Definition get_ingestion_state (contract : string) (w : Indexer) : IngestionState :=
  match ix_progress w !! contract with
  | Some s => mkIngestionState (as_u32 <$> last_polled_ledger s) (last_polled_cursor s) (last_error s)
  | None => mkIngestionState None None None
  end.
Definition get_latest_polled_ledger (contract : string) (w : Indexer) : option Z :=
  last_polled_ledger (get_ingestion_state contract w).

Definition with_progress (contract : string) (s : IngestionState) (w : Indexer) : Indexer :=
  mkIndexer (ix_store w) (<[contract := s]> (ix_progress w)) (ix_cache w) (ix_responses w) (ix_indexed w).

(** The two functions of this name: one writes the cursor, the other leaves it. *)
Definition update_ingestion_state (contract : string) (ledger : Z) (cursor error : option string)
    (w : Indexer) : Indexer :=
  with_progress contract (mkIngestionState (Some (as_i32 ledger)) cursor error) w.
Definition update_ingestion_ledger (contract : string) (ledger : Z) (error : option string)
    (w : Indexer) : Indexer :=
  with_progress contract
    (mkIngestionState (Some (as_i32 ledger)) (s ← ix_progress w !! contract; last_polled_cursor s) error) w.

(** ** One poll *)

Context (first_by : (IndexedEvent -> IndexedEvent -> bool) -> list IndexedEvent -> option IndexedEvent).

Definition with_store (s : Store) (w : Indexer) : Indexer :=
  mkIndexer s (ix_progress w) (ix_cache w) (ix_responses w) (ix_indexed w).
Definition with_responses (c : ApiCache R) (w : Indexer) : Indexer :=
  mkIndexer (ix_store w) (ix_progress w) (ix_cache w) c (ix_indexed w).

(** An event at or before the last polled ledger is taken for a reorganisation. *)
Definition detect_reorg (fails : Statement -> bool) (now : Z) (contract : string)
    (last_polled : option Z) (e : IndexedEvent) (w : Indexer) : Indexer * Polled unit :=
  match last_polled with
  | Some last =>
      if ev_ledger_sequence e <=? last then
        match mark_events_as_invalid first_by fails now contract (ev_ledger_sequence e) last
                "ledger_backtrack" (ix_store w) with
        | (s, inl _) => (with_store s w, Polled_error "mark_events_as_invalid failed")
        | (s, inr _) =>
            (with_responses (invalidate_lists_and_analytics now (ix_responses w)) (with_store s w),
             Polled_ok tt)
        end
      else (w, Polled_ok tt)
  | None => (w, Polled_ok tt)
  end.

Definition ingest_one (fails_mark fails_insert : Statement -> bool) (now : Z) (contract : string)
    (last_polled : option Z) (e : IndexedEvent) (w : Indexer) : Indexer * Polled unit :=
  match detect_reorg fails_mark now contract last_polled e w with
  | (w, Polled_ok _) =>
      match insert_event fails_insert e (ix_store w) with
      | (s, inl _) => (with_store s w, Polled_error "insert_event failed")
      | (s, inr _) =>
          (mkIndexer s (ix_progress w) (insert now e (ix_cache w))
             (invalidate_match now (ev_match_id e) (ix_responses w)) (ix_indexed w + 1), Polled_ok tt)
      end
  | (w, failed) => (w, failed)
  end.

Fixpoint ingest_events (fails : nat -> Statement -> bool) (now : Z) (contract : string)
    (last_polled : option Z) (k : nat) (index : Z) (max_ledger : option Z) (events : list Value)
    (w : Indexer) : Indexer * Polled (option Z) :=
  match events with
  | [] => (w, Polled_ok max_ledger)
  | v :: rest =>
      match parse_event v index now with
      | None => ingest_events fails now contract last_polled k index max_ledger rest w
      | Some e =>
          match ingest_one (fails k) (fails (S k)) now contract last_polled e w with
          | (w, Polled_ok _) =>
              if index =? u16_max then (w, Stopped)
              else ingest_events fails now contract last_polled (S (S k)) (index + 1)
                     (Some (ev_ledger_sequence e)) rest w
          | (w, Polled_error err) => (w, Polled_error err)
          | (w, Stopped) => (w, Stopped)
          end
      end
  end.

(** What the server gives, and whether the fallback was taken. *)
Definition fetch_events (server : option Z -> option string -> string + Value)
    (fallback_start_ledger : Z) (poll_start : option Z) (cursor : option string)
    : bool * (string + GetEventsResponse) :=
  match get_events (server poll_start cursor) with
  | inr resp => (false, inr resp)
  | inl e =>
      if bool_decide (is_Some cursor) && contains_text e "CursorInvalid"
      then (true, get_events (server (Some fallback_start_ledger) None))
      else (false, inl e)
  end.

Definition poll_events (fails : nat -> Statement -> bool)
    (server : option Z -> option string -> string + Value) (fallback_start_ledger now : Z)
    (contract : string) (w : Indexer) : Indexer * Polled (option Z) :=
  if fails O LoadProgress then (w, Polled_error "get_ingestion_state failed")
  else
    let state := get_ingestion_state contract w in
    let last_polled := last_polled_ledger state in
    if bool_decide (last_polled = Some u32_max) then (w, Stopped)
    else
      match fetch_events server fallback_start_ledger ((fun l => l + 1) <$> last_polled)
              (last_polled_cursor state) with
      | (_, inl e) => (w, Polled_error e)
      | (fell_back, inr resp) =>
          if fell_back && fails O ClearCursor then (w, Polled_error "update_ingestion_state failed")
          else
            let w := if fell_back then update_ingestion_state contract fallback_start_ledger None None w
                     else w in
            match r_events resp with
            | [] => (w, Polled_ok None)
            | _ =>
                match ingest_events fails now contract last_polled 0 0 None (r_events resp) w with
                | (w, Polled_ok (Some ledger)) =>
                    if fails O SaveProgress then (w, Polled_error "update_ingestion_state failed")
                    else (update_ingestion_state contract ledger (r_next_cursor resp) None w,
                          Polled_ok (Some ledger))
                | (w, other) => (w, other)
                end
            end
      end.

(** What the leader does in one round of [event_poller]; the second component tells
    whether the task goes on. *)
Definition poll_round (fails : nat -> Statement -> bool)
    (server : option Z -> option string -> string + Value) (fallback_start_ledger now : Z)
    (contract : string) (w : Indexer) : Indexer * bool :=
  let last_ledger := if fails O ReadLastLedger then None else get_latest_polled_ledger contract w in
  match poll_events fails server fallback_start_ledger now contract w with
  | (w, Polled_ok _) => (w, true)
  | (w, Polled_error e) =>
      (if fails O RecordError then w
       else update_ingestion_ledger contract (default 0 last_ledger) (Some e) w, true)
  | (w, Stopped) => (w, false)
  end.

(** One round of [event_poller]: the election, the event cache emptied when leadership
    is lost, and the poll of the leader. *)
Definition event_poller_round (fails : nat -> Statement -> bool) (election_fails : bool) (db_now : Z)
    (server : option Z -> option string -> string + Value) (fallback_start_ledger now : Z)
    (contract : string) (was_leader : bool) (election : LeaderElection) (t : LeaderTable) (w : Indexer)
    : LeaderTable * LeaderElection * bool * (Indexer * bool) :=
  let '(t, election, leads) := try_acquire election_fails now db_now election t in
  let w := if was_leader && negb leads
           then mkIndexer (ix_store w) (ix_progress w) (clear (ix_cache w)) (ix_responses w) (ix_indexed w)
           else w in
  (t, election, leads,
   if leads then poll_round fails server fallback_start_ledger now contract w else (w, true)).
End Ingestion.

(** ** Identifiers *)

Lemma to_be_bytes_length n x : length (to_be_bytes n x) = n.
Proof. revert x. induction n as [|n IH]; intros x; cbn; [done|]. rewrite length_app, IH. cbn. lia. Qed.

Lemma to_be_bytes_inj n x y :
  0 <= x < 256 ^ Z.of_nat n -> 0 <= y < 256 ^ Z.of_nat n -> to_be_bytes n x = to_be_bytes n y -> x = y.
Proof.
  revert x y. induction n as [|n IH]; intros x y Hx Hy E; [cbn in *; lia|]. cbn [to_be_bytes] in E.
  apply app_inj_2 in E as [E1 [= E2]]; [|done].
  rewrite Nat2Z.inj_succ, Z.pow_succ_r in Hx, Hy by lia.
  apply IH in E1; [|split; [apply Z.div_pos; lia|apply Z.div_lt_upper_bound; lia]..].
  rewrite (Z.div_mod x 256), (Z.div_mod y 256) by lia. by rewrite E1, E2.
Qed.

Lemma codes_inj s s' : map code (chars s) = map code (chars s') -> s = s'.
Proof.
  intros E. rewrite <-(String.string_of_list_ascii_of_string s), <-(String.string_of_list_ascii_of_string s').
  f_equal. revert E. generalize (chars s) as l, (chars s') as l'. intros l.
  induction l as [|c l IH]; intros [|c' l'] E; try done. injection E as Ec El. f_equal; [|by apply IH].
  unfold code in Ec. apply Nat2Z.inj in Ec.
  rewrite <-(ascii_nat_embedding c), <-(ascii_nat_embedding c'). by rewrite Ec.
Qed.

Lemma preimage_inj l l' t t' i i' :
  0 <= l < 2 ^ 32 -> 0 <= l' < 2 ^ 32 -> 0 <= i < 2 ^ 16 -> 0 <= i' < 2 ^ 16 ->
  event_id_preimage l t i = event_id_preimage l' t' i' -> l = l' /\ t = t' /\ i = i'.
Proof.
  intros Hl Hl' Hi Hi' E. unfold event_id_preimage in E.
  apply app_inj_1 in E as [E1 E]; [|by rewrite !to_be_bytes_length].
  apply app_inj_2 in E as [E2 E3]; [|by rewrite !to_be_bytes_length].
  split_and!; [by eapply (to_be_bytes_inj 4)|by apply codes_inj|by eapply (to_be_bytes_inj 2)].
Qed.

(** two events have the same identifier only if they have the same ledger,
    transaction and index, or their encodings are a collision of SHA-256: the encoding
    of the three loses nothing. *)
Theorem event_id_collision sha256_hex l l' t t' i i' :
  is_u32 l -> is_u32 l' -> 0 <= i < 2 ^ 16 -> 0 <= i' < 2 ^ 16 ->
  compute_event_id sha256_hex l t i = compute_event_id sha256_hex l' t' i' ->
  (l = l' /\ t = t' /\ i = i') \/
  (event_id_preimage l t i <> event_id_preimage l' t' i' /\
   sha256_hex (event_id_preimage l t i) = sha256_hex (event_id_preimage l' t' i')).
Proof.
  unfold is_u32, u32_max. intros Hl Hl' Hi Hi' E.
  destruct (decide (event_id_preimage l t i = event_id_preimage l' t' i')) as [Ep|Hne]; [left|by right].
  by apply preimage_inj in Ep; [|lia..].
Qed.

Lemma event_id_collision_witness :
  let show := fun l => of_chars (map (fun z => ascii_of_nat (Z.to_nat z)) l) in
  compute_event_id show 7 "ab" 1 = compute_event_id show 7 "ab" 1 /\
  ((7 = 7 /\ "ab"%string = "ab"%string /\ 1 = 1) \/
   (event_id_preimage 7 "ab" 1 <> event_id_preimage 7 "ab" 1 /\
    show (event_id_preimage 7 "ab" 1) = show (event_id_preimage 7 "ab" 1))).
Proof.
  intros show. split; [reflexivity|].
  apply (event_id_collision show 7 7 "ab" "ab" 1 1); first [reflexivity | split; vm_compute; congruence].
Defined.

(** ** What the poller makes of the store *)

Section Stall.
Context (sha256_hex : list Z -> string) (show_value : Value -> string).
Context {R : Type} `{Redis R}.
Context (first_by : (IndexedEvent -> IndexedEvent -> bool) -> list IndexedEvent -> option IndexedEvent).
Hypothesis first_by_spec : forall le l,
  (forall a b, le a b = false -> le b a = true) ->
  (forall a b c, le a b = true -> le b c = true -> le a c = true) ->
  match first_by le l with
  | None => l = []
  | Some e => In e l /\ forall x, In x l -> le e x = true
  end.
Implicit Types w : Indexer (R := R).

(** The identifier of the first event of an answer that can be read. *)
Fixpoint first_id (events : list Value) (now : Z) : option string :=
  match events with
  | [] => None
  | v :: rest =>
      match parse_event sha256_hex v 0 now with
      | Some e => Some (ev_id e)
      | None => first_id rest now
      end
  end.

(** From [w] to [w'] nothing was counted, cached or recorded, and only an event with
    the given identifier may have been stored. *)
Definition stalled (id : option string) w w' : Prop :=
  store_ok (ix_store w') /\ ix_progress w' = ix_progress w /\ ix_cache w' = ix_cache w /\
  ix_indexed w' = ix_indexed w /\
  forall r, In r (st_events (ix_store w')) ->
    In (ev_id r) (map ev_id (st_events (ix_store w))) \/ Some (ev_id r) = id.

Lemma stalled_refl id w : store_ok (ix_store w) -> stalled id w w.
Proof. intros Hs. split_and!; try done. intros r Hr. left. by apply in_map. Qed.

Lemma detect_reorg_stalled id fails now contract last e w :
  store_ok (ix_store w) ->
  exists w' p, detect_reorg first_by fails now contract last e w = (w', p) /\ stalled id w w' /\ p <> Stopped.
Proof.
  intros Hs. assert (Hsame : exists w' (p : Polled unit), (w, Polled_ok tt) = (w', p) /\
    stalled id w w' /\ p <> Stopped).
  { do 2 eexists. split; [reflexivity|]. split; [by apply stalled_refl|done]. }
  unfold detect_reorg. destruct last as [last|]; [|exact Hsame].
  destruct (_ <=? _); [|exact Hsame]. clear Hsame.
  pose proof (invalidate_ok first_by first_by_spec fails now contract (ev_ledger_sequence e) last
    "ledger_backtrack" _ Hs) as Hok.
  pose proof (invalidate_ids first_by fails now contract (ev_ledger_sequence e) last
    "ledger_backtrack" (ix_store w)) as Hids.
  assert (Hst : forall w', ix_store w' = (mark_events_as_invalid first_by fails now contract
      (ev_ledger_sequence e) last "ledger_backtrack" (ix_store w)).1 ->
      ix_progress w' = ix_progress w -> ix_cache w' = ix_cache w -> ix_indexed w' = ix_indexed w ->
      stalled id w w').
  { intros w' E Ep Ec Ei. split_and!; try done; [by rewrite E|]. intros r Hr. left.
    rewrite <-Hids, <-E. by apply in_map. }
  destruct (mark_events_as_invalid _ _ _ _ _ _ _ _) as [s [err|n]]; cbn in Hst;
    (do 2 eexists; split_and!; [reflexivity|by apply Hst|done]).
Qed.

Lemma ingest_one_stalled fails1 fails2 now contract last e w :
  ingestible e -> store_ok (ix_store w) ->
  exists w' err, ingest_one first_by fails1 fails2 now contract last e w = (w', Polled_error err) /\
    stalled (Some (ev_id e)) w w'.
Proof.
  intros He Hs. unfold ingest_one.
  destruct (detect_reorg_stalled (Some (ev_id e)) fails1 now contract last e w Hs)
    as (w1 & [[]|err|] & -> & Hw1 & Hp); [|by eauto|done].
  destruct Hw1 as (Hs1 & Hpr & Hc & Hi & Hr).
  assert (exists rows, st_matches (ix_store w1) = Incremental rows) as [rows Hm]
    by (destruct Hs1 as [_ (rows & Hm & _)]; eauto).
  pose proof (insert_reports_failure fails2 e _ _ Hm) as [at_ Hat].
  pose proof (insert_ok fails2 e _ He Hs1) as Hok.
  pose proof (insert_ids fails2 e (ix_store w1)) as Hids.
  destruct (insert_event fails2 e (ix_store w1)) as [s res]. cbn in Hat, Hok, Hids. subst res.
  do 2 eexists. split; [reflexivity|]. split_and!; try done. intros r Hin. cbn in Hin.
  destruct (Hids r Hin) as [Hold| ->]; [|by right].
  apply in_map_iff in Hold as (r0 & <- & Hr0). by apply Hr.
Qed.

Lemma parsed_ingestible v now e : parse_event sha256_hex v 0 now = Some e -> ingestible e.
Proof.
  unfold parse_event. intros H1 i Hi.
  repeat (apply bind_Some in H1 as (? & _ & H1)).
  case_match; [done|]. case_match. injection H1 as <-. cbn in Hi. injection Hi as <-. lia.
Qed.

Lemma ingest_events_stalled fails now contract last k events w :
  store_ok (ix_store w) ->
  exists w' p, ingest_events sha256_hex first_by fails now contract last k 0 None events w = (w', p) /\
    stalled (first_id events now) w w' /\ (p = Polled_ok None \/ exists err, p = Polled_error err).
Proof.
  intros Hs. induction events as [|v rest IH]; cbn [ingest_events first_id];
    [do 2 eexists; split; [reflexivity|]; split; [by apply stalled_refl|by left]|].
  destruct (parse_event sha256_hex v 0 now) as [e|] eqn:E; [|exact IH].
  destruct (ingest_one_stalled (fails k) (fails (S k)) now contract last e w
    (parsed_ingestible _ _ _ E) Hs) as (w' & err & -> & Hw). eauto 8.
Qed.

Record Round := mkRound {
  rd_fails : nat -> Statement -> bool;
  rd_server : option Z -> option string -> string + Value;
  rd_fallback : Z;
  rd_now : Z
}.

Definition run_round (contract : string) w (r : Round) : Indexer * bool :=
  poll_round sha256_hex show_value first_by (rd_fails r) (rd_server r) (rd_fallback r) (rd_now r) contract w.
Definition run_rounds (contract : string) (rounds : list Round) w : Indexer :=
  foldl (fun w r => (run_round contract w r).1) w rounds.

(** No ledger is recorded as polled, or ledger zero; and no cursor. *)
Definition at_start (contract : string) w : Prop :=
  ix_progress w !! contract = None \/
  exists err, ix_progress w !! contract = Some (mkIngestionState (Some 0) None err).

Lemma at_start_state contract w :
  at_start contract w ->
  last_polled_cursor (get_ingestion_state contract w) = None /\
  (last_polled_ledger (get_ingestion_state contract w) = None \/
   last_polled_ledger (get_ingestion_state contract w) = Some 0).
Proof. unfold get_ingestion_state. intros [->|[err ->]]; cbn; auto. Qed.

(** A stored row is one of [w]'s, or the first of an answer to a request from the start. *)
Definition old_or_first w (r : Round) (row : IndexedEvent) : Prop :=
  In (ev_id row) (map ev_id (st_events (ix_store w))) \/
  exists start resp, (start = None \/ start = Some 1) /\
    get_events show_value (rd_server r start None) = inr resp /\
    first_id (r_events resp) (rd_now r) = Some (ev_id row).

Definition same_but_store w w' : Prop :=
  store_ok (ix_store w') /\ ix_cache w' = ix_cache w /\ ix_indexed w' = ix_indexed w.

Lemma poll_events_stalled contract w r :
  store_ok (ix_store w) -> at_start contract w ->
  exists w' p, poll_events sha256_hex show_value first_by (rd_fails r) (rd_server r) (rd_fallback r)
      (rd_now r) contract w = (w', p) /\ p <> Stopped /\
    same_but_store w w' /\ ix_progress w' = ix_progress w /\
    forall row, In row (st_events (ix_store w')) -> old_or_first w r row.
Proof.
  intros Hs Hat. assert (Hsame : forall p : Polled (option Z), p <> Stopped ->
    exists w' p', (w, p) = (w', p') /\ p' <> Stopped /\ same_but_store w w' /\
      ix_progress w' = ix_progress w /\ forall row, In row (st_events (ix_store w')) -> old_or_first w r row).
  { intros p Hp. do 2 eexists. split_and!; try done. intros row Hr. left. by apply in_map. }
  unfold poll_events. destruct (rd_fails r 0 LoadProgress); [by apply Hsame|].
  destruct (at_start_state _ _ Hat) as [-> Hl].
  rewrite bool_decide_false by (destruct Hl as [->| ->]; done).
  unfold fetch_events. cbn [bool_decide]. rewrite (bool_decide_false (is_Some None)) by (by intros [? ?]).
  destruct (get_events show_value _) as [err|resp] eqn:Hg; cbn [andb]; [by apply Hsame|].
  destruct (r_events resp) as [|v vs] eqn:Hev; [by apply Hsame|]. rewrite <-Hev in *.
  destruct (ingest_events_stalled (rd_fails r) (rd_now r) contract
    (last_polled_ledger (get_ingestion_state contract w)) 0 (r_events resp) w Hs)
    as (w' & p & -> & (Hs' & Hpr & Hc & Hi & Hrows) & Hp).
  assert (forall row, In row (st_events (ix_store w')) -> old_or_first w r row) as Hof.
  { intros row Hr. destruct (Hrows row Hr) as [Hold|Hid]; [by left|right].
    eexists _, resp. split_and!; [|exact Hg|done]. destruct Hl as [->| ->]; auto. }
  destruct Hp as [->|[err ->]]; do 2 eexists; split_and!; try done.
Qed.

Lemma round_stalled contract w r :
  store_ok (ix_store w) -> at_start contract w ->
  exists w', run_round contract w r = (w', true) /\ same_but_store w w' /\ at_start contract w' /\
    forall row, In row (st_events (ix_store w')) -> old_or_first w r row.
Proof.
  intros Hs Hat. unfold run_round, poll_round, get_latest_polled_ledger.
  destruct (poll_events_stalled contract w r Hs Hat) as (w' & p & -> & Hp & Hsame & Hpr & Hof).
  assert (Hat' : at_start contract w') by (unfold at_start; rewrite Hpr; exact Hat).
  destruct p as [a|err|]; [by eauto| |done]. eexists. split; [reflexivity|].
  destruct (rd_fails r 0 RecordError); [done|]. split; [exact Hsame|]. split; [|exact Hof].
  right. exists (Some err). unfold update_ingestion_ledger, with_progress. cbn [ix_progress].
  rewrite lookup_insert_eq. do 2 f_equal.
  - destruct (rd_fails r 0 ReadLastLedger); [done|].
    by destruct (at_start_state _ _ Hat) as [_ [->| ->]].
  - by destruct Hat' as [->|[e ->]].
Qed.

(** on a database the service set up itself the poller never gets past its first
    event: whatever the server answers and whichever statements fail, no poll counts,
    caches or records an event, the recorded ledger stays absent or zero, and the only
    rows that are ever added are the first readable events of answers to requests from
    the start. *)
Theorem ingestion_stalls contract rounds w :
  reachable_store first_by (ix_store w) -> ix_progress w !! contract = None ->
  let w' := run_rounds contract rounds w in
  ix_indexed w' = ix_indexed w /\ ix_cache w' = ix_cache w /\
  (get_latest_polled_ledger contract w' = None \/ get_latest_polled_ledger contract w' = Some 0) /\
  (forall row, In row (st_events (ix_store w')) ->
     In (ev_id row) (map ev_id (st_events (ix_store w))) \/
     exists r start resp, In r rounds /\ (start = None \/ start = Some 1) /\
       get_events show_value (rd_server r start None) = inr resp /\
       first_id (r_events resp) (rd_now r) = Some (ev_id row)).
Proof.
  intros Hs Hp. apply (reachable_ok first_by first_by_spec) in Hs. cbv zeta.
  assert (Hat : at_start contract w) by (by left). clear Hp. revert w Hs Hat.
  induction rounds as [|r rounds IH]; intros w Hs Hat; cbn [run_rounds foldl].
  { split_and!; try done; [by apply at_start_state|]. intros row Hr. left. by apply in_map. }
  destruct (round_stalled contract w r Hs Hat) as (w1 & -> & (Hs1 & Hc1 & Hi1) & Hat1 & Hof).
  cbn [fst]. destruct (IH w1 Hs1 Hat1) as (Hi & Hc & Hl & Hrows).
  split_and!; [exact (eq_trans Hi Hi1)|exact (eq_trans Hc Hc1)|exact Hl|]. intros row Hr.
  destruct (Hrows row Hr) as [Hold|(r' & start & resp & Hin & Hrest)].
  - apply in_map_iff in Hold as (row1 & Hid & Hr1). destruct (Hof row1 Hr1) as [H0|(start & resp & H0)].
    + left. by rewrite <-Hid.
    + right. exists r, start, resp. rewrite <-Hid. split; [by left|exact H0].
  - right. exists r', start, resp. split; [by right|exact Hrest].
Qed.
End Stall.

(** A server that always gives the same two events of ledger 5. *)
Definition sample_value (match_id : string) : Value :=
  VObject [("ledger", VNumber 5); ("txnMeta", VString "ab");
           ("event", VObject [("topics", VArray [VString "match"; VString "created"]);
                              ("data", VArray [VString match_id; VString "G1"; VString "G2"; VString "100"])])].
Definition sample_server (_ : option Z) (_ : option string) : string + Value :=
  inr (VObject [("result", VObject [("events", VArray [sample_value "1"; sample_value "2"]);
                                    ("cursor", VString "c1")])]).
Definition sample_hash (l : list Z) : string := of_chars (map (fun z => ascii_of_nat (Z.to_nat z)) l).
Definition no_text (_ : Value) : string := "".
Definition no_faults (_ : nat) : Statement -> bool := never.

#[local] Instance no_redis : Redis unit := {|
  redis_get _ _ r := (r, inr None);
  redis_set_ex _ _ _ _ r := (r, inr tt);
  redis_del _ _ r := (r, inr tt)
|}.
Definition first_indexer : Indexer (R := unit) :=
  mkIndexer fresh_store ∅ (mkEventCache [] [] 10 60) in_memory 0.
Definition sample_rounds : list Round :=
  [mkRound no_faults sample_server 1 100; mkRound no_faults sample_server 1 110].

Lemma reachable_fresh : reachable_store pick_first fresh_store.
Proof. exists never, fresh_store. split; [reflexivity|apply rtc_refl]. Qed.

Lemma ingestion_stalls_witness :
  let w := run_rounds sample_hash no_text pick_first "C" sample_rounds first_indexer in
  length (st_events (ix_store w)) = 1%nat /\
  ix_indexed w = 0 /\ get_latest_polled_ledger "C" w = Some 0.
Proof.
  pose proof (ingestion_stalls sample_hash no_text pick_first pick_first_spec "C" sample_rounds
    first_indexer reachable_fresh eq_refl) as (Hi & _ & _ & _).
  split_and!; [vm_compute; reflexivity|exact Hi|vm_compute; reflexivity].
Defined.

(** ** An event at or before the last polled ledger *)

Notation valid r := (ev_reorg_invalidated_at r = None).

Lemma as_i32_small x : 0 <= x < 2 ^ 31 -> as_i32 x = x.
Proof. unfold as_i32. intros. rewrite Z.mod_small; lia. Qed.

Lemma in_ledgers_spec a b r :
  0 <= a < 2 ^ 31 -> 0 <= b < 2 ^ 31 ->
  in_ledgers a b r = true <-> a <= ev_ledger_sequence r <= b /\ valid r.
Proof.
  intros Ha Hb. unfold in_ledgers. rewrite !as_i32_small, andb_true_iff, bool_decide_eq_true by done.
  unfold in_range. rewrite andb_true_iff, !Z.leb_le. done.
Qed.

Lemma invalidate_runs first_by now contract a b reason s rows :
  st_matches s = Incremental rows ->
  exists s' n rows', mark_events_as_invalid first_by never now contract a b reason s = (s', inr n) /\
    st_matches s' = Incremental rows' /\
    st_events s' = map (fun r => if in_ledgers a b r
      then r <| ev_reorg_invalidated_at := Some now |> else r) (st_events s).
Proof.
  intros Hm. unfold mark_events_as_invalid, no_table. rewrite Hm. cbn [orb].
  destruct (elements _); do 3 eexists; (split; [reflexivity|]; split; [|reflexivity]); done.
Qed.

Lemma invalidated_valid now a b events r :
  0 <= a < 2 ^ 31 -> 0 <= b < 2 ^ 31 ->
  (In r (map (fun r => if in_ledgers a b r
     then r <| ev_reorg_invalidated_at := Some now |> else r) events) /\ valid r <->
   In r events /\ valid r /\ ~ a <= ev_ledger_sequence r <= b).
Proof.
  intros Ha Hb. rewrite in_map_iff. split.
  - intros [(r0 & Hr & Hin) Hv]. destruct (in_ledgers a b r0) eqn:Hl; subst r; [done|].
    split_and!; [done|done|]. intros Hc. by rewrite (proj2 (in_ledgers_spec a b r0 Ha Hb)) in Hl.
  - intros (Hin & Hv & Hout). split; [|done]. exists r. split; [|done].
    destruct (in_ledgers a b r) eqn:Hl; [|done]. by apply in_ledgers_spec in Hl as [? _].
Qed.

Lemma has_event_ids id l l' : map ev_id l = map ev_id l' -> has_event id l = has_event id l'.
Proof. intros E. apply eq_bool_prop_intro. rewrite !Is_true_true, !has_event_spec. by rewrite E. Qed.

Lemma insert_events e s rows :
  st_matches s = Incremental rows ->
  st_events (insert_event never e s).1 =
    st_events s ++ (if has_event (ev_id e) (st_events s) then [] else [event_row e]).
Proof.
  intros Hm. destruct (has_event (ev_id e) (st_events s)) eqn:Hh; [|by eapply insert_adds].
  unfold insert_event, insert_transaction, no_table. rewrite Hm. cbn [orb].
  change (ev_id (event_row e)) with (ev_id e). rewrite Hh. unfold upsert_match_state. cbn.
  by rewrite app_nil_r.
Qed.

(** an event at or before the last polled ledger undoes every stored event from its
    ledger to the last polled one, and is then stored itself only if it is new: an event
    that is delivered again is lost, and so is the earlier half of a ledger that is
    split over two answers. *)
Theorem backtrack_effect {R} `{Redis R} first_by now contract last e (w : Indexer (R := R)) rows r :
  st_matches (ix_store w) = Incremental rows ->
  0 <= ev_ledger_sequence e <= last -> last < 2 ^ 31 -> valid e ->
  let s' := ix_store (ingest_one first_by never never now contract (Some last) e w).1 in
  (In r (st_events s') /\ valid r <->
   (In r (st_events (ix_store w)) /\ valid r /\ ~ ev_ledger_sequence e <= ev_ledger_sequence r <= last) \/
   (r = event_row e /\ has_event (ev_id e) (st_events (ix_store w)) = false)).
Proof.
  intros Hm Hl Hlast Hv. cbv zeta. unfold ingest_one, detect_reorg.
  rewrite (proj2 (Z.leb_le _ _)) by lia.
  destruct (invalidate_runs first_by now contract (ev_ledger_sequence e) last "ledger_backtrack"
    (ix_store w) rows Hm) as (s1 & n & rows1 & E & Hm1 & Hev).
  pose proof (invalidate_ids first_by never now contract (ev_ledger_sequence e) last "ledger_backtrack"
    (ix_store w)) as Hids.
  rewrite E in Hids |- *. cbn [fst with_responses with_store ix_store] in *.
  pose proof (insert_events e s1 rows1 Hm1) as Hins. rewrite (has_event_ids _ _ _ Hids) in Hins.
  assert (Hst : forall w' : Indexer (R := R), ix_store w' = (insert_event never e s1).1 ->
    (In r (st_events (ix_store w')) /\ valid r <->
     (In r (st_events s1) /\ valid r) \/
     (r = event_row e /\ has_event (ev_id e) (st_events (ix_store w)) = false))).
  { intros w' ->. rewrite Hins, in_app_iff. destruct (has_event _ _); cbn; [naive_solver|].
    split; [|intros [?|[-> _]]; [naive_solver|split; [by right; left|exact Hv]]].
    intros [[?|[<-|[]]] ?]; [by left|by right]. }
  destruct (insert_event never e s1) as [s2 [err|[]]]; cbn [fst] in *;
    rewrite Hst by reflexivity; rewrite Hev, invalidated_valid by lia; done.
Qed.

Lemma backtrack_effect_witness :
  let w := mkIndexer (R := unit) (ingest three_events fresh_store) ∅ (mkEventCache [] [] 10 60) in_memory 0 in
  let e := log_event "c" "match:completed" 7 (Some "completed") in
  has_event "c" (st_events (ix_store w)) = true /\
  forall r, ~ (ev_id r = "c" /\ ev_ledger_sequence r = 7 /\
    In r (st_events (ix_store (ingest_one pick_first never never 50 "C" (Some 7) e w).1)) /\ valid r).
Proof.
  intros w e. split; [reflexivity|]. intros r (Hid & Hl & Hin & Hv).
  destruct (proj1 (backtrack_effect pick_first 50 "C" 7 e w _ r eq_refl ltac:(vm_compute; split; congruence)
    ltac:(lia) eq_refl) (conj Hin Hv)) as [(_ & _ & Hout)|[_ Hnew]].
  - apply Hout. rewrite Hl. vm_compute. split; congruence.
  - vm_compute in Hnew. discriminate.
Defined.

(** ** Types *)

(** The columns of [events] hold a row: INTEGER, BIGINT and SMALLINT. *)
Definition row_typed (r : IndexedEvent) : Prop :=
  - 2 ^ 31 <= ev_ledger_sequence r < 2 ^ 31 /\ - 2 ^ 63 <= ev_match_id r < 2 ^ 63 /\
  forall i, ev_event_index_in_txn r = Some i -> - 2 ^ 15 <= i < 2 ^ 15.

(** A signed column of [2 * h] values holds an unsigned number of that range. *)
Lemma signed_unsigned h x :
  0 < h -> 0 <= x < 2 * h -> ((x + h) mod (2 * h) - h) mod (2 * h) = x.
Proof.
  intros Hh Hx. rewrite Zminus_mod_idemp_l. replace (x + h - h) with x by lia. by apply Z.mod_small.
Qed.
Lemma signed_range h x : 0 < h -> - h <= (x + h) mod (2 * h) - h < h.
Proof. intros Hh. pose proof (Z.mod_pos_bound (x + h) (2 * h)). lia. Qed.

Lemma parsed_ranges sha256_hex v index now e :
  parse_event sha256_hex v index now = Some e ->
  is_u32 (ev_ledger_sequence e) /\ 0 <= ev_match_id e <= u64_max /\ ev_event_index_in_txn e = Some index.
Proof.
  unfold parse_event. intros E. repeat (apply bind_Some in E as (? & _ & E)).
  case_match; [done|]. case_match. injection E as <-. cbn. split_and!; [|try done..|done].
  - unfold is_u32, u32_max, as_u32. pose proof (Z.mod_pos_bound x 4294967296). lia.
  - destruct (text_at _ 0 ≫= parse_u64) as [m|] eqn:Hm; cbn; [|done].
    apply bind_Some in Hm as (t & _ & Hm). apply parse_uint_range in Hm; [lia|done].
  - destruct (text_at _ 0 ≫= parse_u64) as [m|] eqn:Hm; cbn; [|done].
    apply bind_Some in Hm as (t & _ & Hm). apply parse_uint_range in Hm; [lia|done].
Qed.

(** an event the poller reads, whatever the server sent, fits the columns it is
    written to, and reading its row back gives the event itself. *)
Theorem parsed_event_typed sha256_hex v index now e :
  0 <= index <= u16_max -> parse_event sha256_hex v index now = Some e ->
  row_typed (event_row e) /\ row_to_event (event_row e) = e.
Proof.
  intros Hi E. apply parsed_ranges in E as (Hl & Hm & Hidx). unfold is_u32, u32_max, u64_max, u16_max in *.
  split.
  - unfold row_typed. cbn. rewrite Hidx. split_and!; try apply (signed_range (2 ^ 31)); try lia;
      try apply (signed_range (2 ^ 63)); try lia.
    intros i [= <-]. apply (signed_range (2 ^ 15)). lia.
  - destruct e. cbn in *. subst. unfold row_to_event, event_row. cbn.
    unfold as_u32, as_i32, as_u64, as_i64, as_u16, as_i16. f_equal; [| |f_equal].
    + apply (signed_unsigned (2 ^ 31)); lia.
    + apply (signed_unsigned (2 ^ 63)); lia.
    + apply (signed_unsigned (2 ^ 15)); lia.
Qed.

Lemma parsed_event_typed_witness :
  exists e, parse_event sample_hash (sample_value "18446744073709551615") 0 100 = Some e /\
    ev_match_id (event_row e) = -1 /\ row_to_event (event_row e) = e.
Proof.
  eexists. split; [vm_compute; reflexivity|]. split; [vm_compute; reflexivity|].
  apply (parsed_event_typed sample_hash (sample_value "18446744073709551615") 0 100);
    [unfold u16_max; lia|vm_compute; reflexivity].
Defined.
