(* ===== verification/IndexerApi.v ===== *)
(** The event indexer's HTTP service, [services/event-indexer/src/api.rs] with [auth.rs]
    and the key of [config.rs]: the router, the API-key gate around the validation of
    requests, and the handlers, over the store, the event cache and the response cache
    the poller writes ([Ingestion]).

    A handler takes the state and gives the next one with a status code and an envelope,
    or panics ([None]).  Typed query extraction is axum's and serde's: the decoders are
    parameters, as are the texts of failures and the order of rows a query leaves open.
    [fails] says which database statements fail during one request; the whole request is
    at one reading of the clock. *)
From stdpp Require Import base list sorting strings gmap pretty.
From Stdlib Require Import ZArith QArith SpecFloat Lia Ascii.
From S2P Require Import Prelude Text F64 IndexerTypes IndexerConfig Strkey Validation ValidationSpec.
From S2P Require Import TransactionApi.
From S2P Require Import EventCache EventStore EventStoreSpec ApiCache Ingestion.

Local Open Scope Z_scope.

(** ** The API key *)

Definition API_KEY_HEADER : string := "X-Api-Key".

Definition path_starts (path prefix : string) : bool := starts_with (chars path) (chars prefix).

Definition is_protected_path (path : string) : bool :=
  String.eqb path "/stats" || path_starts path "/analytics/" || path_starts path "/transactions/".

(** The length of a mismatch is visible, nothing else of the comparison is. *)
Definition constant_time_eq (a b : string) : bool :=
  if Nat.eqb (String.length a) (String.length b)
  then foldl (fun acc xy => Z.lor acc (Z.lxor xy.1 xy.2)) 0
         (zip (map code (chars a)) (map code (chars b))) =? 0
  else false.

(** The key of [Config::from_env]: blank is unset, short is refused. *)
Definition api_key_from_env (var : option string) : string + option string :=
  match (k ← var; if String.eqb (trim k) "" then None else Some (trim k)) with
  | None => inr None
  | Some key =>
      if Nat.ltb (String.length key) IndexerSettings.MIN_API_KEY_LENGTH
      then inl "EVENT_INDEXER_API_KEY must be at least 16 characters"
      else inr (Some key)
  end.

(** [provided] is the header when it is there and is text. *)
Definition require_api_key {Response} (api_key : option string) (unauthorized : string -> Response)
    (next : Response) (path : string) (provided : option string) : Response :=
  if is_protected_path path then
    match api_key with
    | None => unauthorized "this endpoint requires an API key, but EVENT_INDEXER_API_KEY is not configured on this server"
    | Some expected =>
        if constant_time_eq (default EmptyString provided) expected then next
        else unauthorized "invalid or missing X-Api-Key header"
    end
  else next.

(** ** The router *)

Inductive Endpoint :=
  | Health
  | Metrics
  | ApiDocs
  | OpenApi
  | Events
  | MatchEvents (match_id : string)
  | Matches
  | ActiveMatches
  | PendingMatches
  | MatchSummary (match_id : string)
  | PlayerMatches (address : string)
  | PlayerTransactions (player_address : string)
  | Overview
  | PlayerStats (player_address : string)
  | TokenStats (token_address : string)
  | ServiceStats.

(** A fixed route is taken before one with a parameter, which matches any text but the
    empty one. *)
Definition parameter (raw : string) (e : string -> Endpoint) : option Endpoint :=
  if String.eqb raw "" then None else Some (e raw).

Definition route2 (a b : string) : option Endpoint :=
  if String.eqb a "api" then
    if String.eqb b "docs" then Some ApiDocs
    else if String.eqb b "openapi.yaml" then Some OpenApi else None
  else if String.eqb a "events" then parameter b MatchEvents
  else if String.eqb a "matches" then
    if String.eqb b "active" then Some ActiveMatches
    else if String.eqb b "pending" then Some PendingMatches
    else parameter b MatchSummary
  else if String.eqb a "match" then parameter b MatchSummary
  else if String.eqb a "analytics" && String.eqb b "overview" then Some Overview
  else None.

Definition route3 (a b c : string) : option Endpoint :=
  if String.eqb a "players" && String.eqb c "matches" then parameter b PlayerMatches
  else if String.eqb a "transactions" && String.eqb b "player" then parameter c PlayerTransactions
  else if String.eqb a "analytics" then
    if String.eqb b "player" then parameter c PlayerStats
    else if String.eqb b "token" then parameter c TokenStats else None
  else None.

Definition route1 (a : string) : option Endpoint :=
  if String.eqb a "health" then Some Health
  else if String.eqb a "metrics" then Some Metrics
  else if String.eqb a "events" then Some Events
  else if String.eqb a "matches" then Some Matches
  else if String.eqb a "stats" then Some ServiceStats
  else None.

Definition route (path : string) : option Endpoint :=
  match split "/" path with
  | [""; a] => route1 a
  | [""; a; b] => route2 a b
  | [""; a; b; c] => route3 a b c
  | _ => None
  end.

(** ** Requests and answers *)

Record ApiResponse (T : Type) := mkApiResponse {
  success : bool;
  data : option T;
  error : option string
}.
Arguments mkApiResponse {T}.
Arguments success {T}.
Arguments data {T}.
Arguments error {T}.

Definition OK : Z := 200.
Definition BAD_REQUEST : Z := 400.
Definition UNAUTHORIZED : Z := 401.
Definition NOT_FOUND : Z := 404.
Definition INTERNAL_SERVER_ERROR : Z := 500.
Definition SERVICE_UNAVAILABLE : Z := 503.

Definition found {T} (x : T) : Z * ApiResponse T := (OK, mkApiResponse true (Some x) None).
Definition refused {T} (status : Z) (message : string) : Z * ApiResponse T :=
  (status, mkApiResponse false None (Some message)).

Record EventQuery := mkEventQuery {
  eq_player_address : option string;
  eq_status : option MatchStatus;
  eq_limit : option Z;
  eq_offset : option Z
}.

Record MatchQuery := mkMatchQuery {
  mq_status : option MatchStatus;
  mq_offset : option Z;
  mq_limit : option Z;
  mq_after : option Z;
  mq_before : option Z
}.

Record PaginationQuery := mkPaginationQuery {
  pq_limit : option Z;
  pq_offset : option Z
}.

Record PlayerMatchesQuery := mkPlayerMatchesQuery {
  pm_status : option MatchStatus;
  pm_limit : option Z;
  pm_offset : option Z
}.

Record AnalyticsQuery := mkAnalyticsQuery {
  aq_limit : option Z;
  aq_offset : option Z;
  aq_start_date : option Z;
  aq_end_date : option Z
}.

(** [empty_i64_as_none], [empty_u64_as_none], [empty_status_as_none]: an empty value is
    an absent one; [None] of the outer option is a rejection. *)
Definition empty_as_none {A} (parse : string -> option A) (raw : option string) : option (option A) :=
  match raw with
  | None => Some None
  | Some s => if String.eqb s "" then Some None else Some <$> parse s
  end.
Definition empty_i64_as_none : option string -> option (option Z) := empty_as_none parse_i64.
Definition empty_u64_as_none : option string -> option (option Z) := empty_as_none parse_u64.

Record PlayerMatchesResponse := mkPlayerMatchesResponse {
  pr_matches : list MatchInfo;
  pr_total : Z;
  pr_limit : Z;
  pr_offset : Z
}.

Record Stats := mkStats {
  total_events : Z;
  cache_size : Z
}.

Record HealthResponse := mkHealthResponse {
  health_status : string;
  db_reachable : bool;
  rpc_reachable : bool;
  cache_backend : string;
  cache_shared : bool
}.

(** ** Pages of matches *)

#[export] Instance by_match_id_dec (a b : MatchInfo) : Decision (mi_match_id a <= mi_match_id b) :=
  decide (mi_match_id a <= mi_match_id b).
Definition sort_by_match_id : list MatchInfo -> list MatchInfo :=
  merge_sort (fun a b => mi_match_id a <= mi_match_id b).

Definition at_most {A} (limit : option Z) (l : list A) : list A :=
  match limit with
  | Some n => if 0 <? n then take (Z.to_nat n) l else l
  | None => l
  end.

Definition page_matches (q : MatchQuery) (matches : list MatchInfo) : list MatchInfo :=
  let matches := sort_by_match_id matches in
  match mq_after q, mq_before q with
  | None, None =>
      let offset := match mq_offset q with Some o => if 0 <=? o then o else 0 | None => 0 end in
      at_most (mq_limit q) (drop (Z.to_nat offset) matches)
  | after, before =>
      at_most (mq_limit q)
        (List.filter (fun m => when before (fun b => mi_match_id m <? b))
           (List.filter (fun m => when after (fun a => a <? mi_match_id m)) matches))
  end.

(** The [Debug] text of an optional number. *)
Definition debug_option (o : option Z) : string :=
  match o with
  | Some n => "Some(" +:+ pretty n +:+ ")"
  | None => "None"
  end.

Definition page_key (q : MatchQuery) : string :=
  matches_key (mq_status q) +:+ ":after=" +:+ debug_option (mq_after q) +:+
  ":before=" +:+ debug_option (mq_before q) +:+ ":offset=" +:+ debug_option (mq_offset q) +:+
  ":limit=" +:+ debug_option (mq_limit q).

(** ** Handlers *)

Section Handlers.
Context {R : Type} `{Redis R}.
Context `{Codec MatchInfo} `{Codec (list MatchInfo)} `{Codec Stats}.
Context (show_failure : Statement -> string).
Context (by_position by_ledger by_ledger_desc : list IndexedEvent -> list IndexedEvent).
Context (arrange : list Z -> list Z).
Context (to_numeric : string -> option Q) (show_numeric : Q -> string).
Notation State := (Indexer (R := R)).

(** What a request sees of its surroundings. *)
Context (fails : Statement -> bool) (now : Z).

Definition database_error {T} (at_ : Statement) : Z * ApiResponse T :=
  refused INTERNAL_SERVER_ERROR ("Database error: " +:+ show_failure at_).

(** The answer to a query of the database; a panic has none. *)
Definition answer {A T} (o : Outcome A) (done : A -> Z * ApiResponse T) : option (Z * ApiResponse T) :=
  match o with
  | Done a => Some (done a)
  | Failed at_ => Some (database_error at_)
  | Panicked => None
  end.

(** The ratio [metrics_handler] publishes. *)
Definition hit_rate (c : ApiCache R) : spec_float :=
  let total := hits c + misses c in
  if total =? 0 then f64_of 0 else f64_div (f64_of (hits c)) (f64_of total).

Definition health_check (rpc_ok : bool) (w : State) : Z * HealthResponse :=
  let db_reachable := match ping fails with Done _ => true | _ => false end in
  let shared := is_shared (ix_responses w) in
  let degraded := negb db_reachable || negb rpc_ok || negb shared in
  (if degraded then SERVICE_UNAVAILABLE else OK,
   mkHealthResponse (if degraded then "degraded" else "ok") db_reachable rpc_ok
     (backend_name (ix_responses w)) shared).

Definition get_events (q : EventQuery) (w : State) : option (Z * ApiResponse (list IndexedEvent)) :=
  let filters := mkQueryFilters (eq_player_address q) (eq_status q) None None
                   (Some (default 100 (eq_limit q))) (eq_offset q) in
  answer (query_events fails by_ledger_desc filters (ix_store w)) (fun evs =>
    match evs with
    | [] => refused NOT_FOUND "No events found"
    | _ => found evs
    end).

Definition get_match_events (match_id : Z) (pagination : PaginationQuery) (w : State)
    : option (Z * ApiResponse (list IndexedEvent)) :=
  let limit := default 100 (pq_limit pagination) in
  let offset := default 0 (pq_offset pagination) in
  let cached := match pq_limit pagination, pq_offset pagination with
                | None, None => get_by_match now match_id (ix_cache w)
                | _, _ => []
                end in
  match cached with
  | _ :: _ => Some (found cached)
  | [] =>
      answer (get_events_by_match_paginated fails by_ledger match_id limit offset (ix_store w)) (fun evs =>
        match evs with
        | [] => refused NOT_FOUND ("No events found for match " +:+ pretty match_id)
        | _ => found evs
        end)
  end.

(** A list of matches: from the response cache, or from the database and then cached
    under the same key. *)
Definition serve_list (key : string) (status : option MatchStatus)
    (select : list MatchInfo -> list MatchInfo) (w : State)
    : State * option (Z * ApiResponse (list MatchInfo)) :=
  let '(c, cached) := get_json (T := list MatchInfo) now key (ix_responses w) in
  let w := with_responses c w in
  match cached with
  | Some matches => (w, Some (found matches))
  | None =>
      match get_matches_by_status fails by_position arrange status (ix_store w) with
      | Done matches =>
          let paged := select matches in
          (with_responses (set_json now key paged PENDING_MATCHES_TTL_SECS (ix_responses w)) w,
           Some (found paged))
      | Failed at_ => (w, Some (database_error at_))
      | Panicked => (w, None)
      end
  end.

Definition get_matches (q : MatchQuery) : State -> State * option (Z * ApiResponse (list MatchInfo)) :=
  serve_list (page_key q) (mq_status q) (page_matches q).
(** The query of these two is decoded and not used. *)
Definition get_active_matches (_ : PaginationQuery) : State -> State * option (Z * ApiResponse (list MatchInfo)) :=
  serve_list (matches_key (Some StatusActive)) (Some StatusActive) (fun l => l).
Definition get_pending_matches (_ : PaginationQuery) : State -> State * option (Z * ApiResponse (list MatchInfo)) :=
  serve_list (matches_key (Some StatusPending)) (Some StatusPending) (fun l => l).

(** [ttl_var] is the environment variable of [active_match_ttl]. *)
Definition get_match_info (ttl_var : option string) (match_id : Z) (w : State)
    : State * option (Z * ApiResponse MatchInfo) :=
  let key := match_key match_id in
  let '(c, cached) := get_json (T := MatchInfo) now key (ix_responses w) in
  let w := with_responses c w in
  match cached with
  | Some info => (w, Some (found info))
  | None =>
      match get_match_by_id fails by_position match_id (ix_store w) with
      | Done (Some info) =>
          (with_responses (set_json now key info (ttl_for_status ttl_var (mi_status info))
                             (ix_responses w)) w, Some (found info))
      | Done None => (w, Some (refused NOT_FOUND ("Match " +:+ pretty match_id +:+ " not found")))
      | Failed at_ => (w, Some (database_error at_))
      | Panicked => (w, None)
      end
  end.

Definition get_player_matches (address : string) (q : PlayerMatchesQuery) (w : State)
    : option (Z * ApiResponse PlayerMatchesResponse) :=
  let limit := default 50 (pm_limit q) in
  let offset := default 0 (pm_offset q) in
  answer (get_matches_by_player fails by_position address (pm_status q) limit offset (ix_store w))
    (fun '(matches, total) => found (mkPlayerMatchesResponse matches total limit offset)).

(** A failed count is served, and cached, as zero. *)
Definition get_stats (w : State) : State * (Z * ApiResponse Stats) :=
  let key := analytics_key ANALYTICS_STATS in
  let '(c, cached) := get_json (T := Stats) now key (ix_responses w) in
  let w := with_responses c w in
  match cached with
  | Some stats => (w, found stats)
  | None =>
      let total := match total_event_count fails (ix_store w) with Done n => n | _ => 0 end in
      let stats := mkStats total (Z.of_nat (EventCache.size (ix_cache w))) in
      (with_responses (set_json now key stats ANALYTICS_TTL_SECS (ix_responses w)) w, found stats)
  end.

Definition overview_handler (q : AnalyticsQuery) (w : State) : option (Z * ApiResponse AnalyticsOverview) :=
  answer (analytics_overview to_numeric show_numeric fails (aq_start_date q) (aq_end_date q) (ix_store w))
    found.

Definition player_handler (player_address : string) (q : AnalyticsQuery) (w : State)
    : option (Z * ApiResponse PlayerAnalytics) :=
  let limit := Z.min (default 50 (aq_limit q)) 200 in
  let offset := Z.max (default 0 (aq_offset q)) 0 in
  answer (analytics_player to_numeric show_numeric fails by_position player_address limit offset
            (aq_start_date q) (aq_end_date q) (ix_store w)) found.

Definition token_handler (token_address : string) (q : AnalyticsQuery) (w : State)
    : option (Z * ApiResponse TokenAnalytics) :=
  let limit := Z.min (default 50 (aq_limit q)) 200 in
  let offset := Z.max (default 0 (aq_offset q)) 0 in
  answer (analytics_token to_numeric show_numeric fails by_position token_address limit offset
            (aq_start_date q) (aq_end_date q) (ix_store w)) found.
End Handlers.

(** ** The service *)

(** The layers of [build_router] around the handlers: the key first, then the
    validation of the request, then the route. *)
Definition serve {State Response} (parse_from_rfc3339 parse_naive_date : string -> option Z)
    (api_key : option string) (unauthorized : string -> Response)
    (bad_request : ValidationError -> Response) (not_found : Response)
    (handle : Endpoint -> option string -> State -> State * Response)
    (path : string) (query provided : option string) (w : State) : State * Response :=
  require_api_key api_key (fun message => (w, unauthorized message))
    (validate_request parse_from_rfc3339 parse_naive_date (fun e => (w, bad_request e))
       (fun path query => match route path with
                          | Some e => handle e query w
                          | None => (w, not_found)
                          end) path query)
    path provided.

(** ** The gate *)

(** The endpoints with financial data or aggregates over the whole table. *)
Definition sensitive (e : Endpoint) : bool :=
  match e with
  | PlayerTransactions _ | Overview | PlayerStats _ | TokenStats _ | ServiceStats => true
  | _ => false
  end.

Lemma fold_lor acc l :
  foldl (fun acc (xy : Z * Z) => Z.lor acc (Z.lxor xy.1 xy.2)) acc l = 0 <->
  acc = 0 /\ Forall (fun xy => xy.1 = xy.2) l.
Proof.
  revert acc. induction l as [|[x y] l IH]; intros acc; cbn [foldl fst snd].
  - split; [done|by intros [? _]].
  - rewrite IH, Z.lor_eq_0_iff, Z.lxor_eq_0_iff, Forall_cons. cbn. tauto.
Qed.

Lemma zip_equal (l l' : list Z) :
  length l = length l' -> Forall (fun xy => xy.1 = xy.2) (zip l l') -> l = l'.
Proof.
  revert l'. induction l as [|x l IH]; intros [|y l'] Hl Hf; try done. cbn in *.
  apply Forall_cons in Hf as [E Hf]. cbn in E. subst. f_equal. apply IH; [lia|done].
Qed.

Lemma chars_length s : length (chars s) = String.length s.
Proof. induction s; cbn; by f_equal. Qed.

Lemma constant_time_eq_spec a b : constant_time_eq a b = true <-> a = b.
Proof.
  unfold constant_time_eq. destruct (Nat.eqb_spec (String.length a) (String.length b)) as [Hl|Hl].
  - rewrite Z.eqb_eq, fold_lor. split.
    + intros [_ Hf]. apply codes_inj. apply zip_equal in Hf; [done|]. by rewrite !length_map, !chars_length.
    + intros ->. split; [done|]. generalize (map code (chars b)). intros l.
      induction l; cbn; constructor; done.
  - split; [done|]. by intros ->.
Qed.

Lemma join_split sep l : join sep (split_chars sep l) = l /\ split_chars sep l <> [].
Proof.
  induction l as [|c l [IH Hne]]; [done|]. cbn [split_chars]. case_bool_decide as E; [|].
  - subst. split; [|done]. destruct (split_chars sep l) as [|p ps]; [done|]. cbn in IH |- *. by rewrite IH.
  - destruct (split_chars sep l) as [|p ps]; [done|]. split; [|done]. cbn in IH |- *.
    destruct ps; cbn; by rewrite <-IH.
Qed.

Lemma split_path path pieces :
  split "/" path = pieces -> chars path = join "/" (map (fun p => chars p) pieces).
Proof.
  intros <-. unfold split. rewrite map_map, (map_ext _ (fun l => l)), map_id
    by (intros; apply String.list_ascii_of_string_of_list_ascii).
  symmetry. apply join_split.
Qed.

Lemma starts_with_app l m : starts_with (l ++ m) l = true.
Proof. induction l as [|c l IH]; [by destruct m|]. cbn. by rewrite bool_decide_true. Qed.

Lemma protected_below path :
  (exists rest, chars path = chars "/transactions/" ++ rest) \/
  (exists rest, chars path = chars "/analytics/" ++ rest) -> is_protected_path path = true.
Proof.
  unfold is_protected_path, path_starts.
  intros [[rest ->]|[rest ->]]; rewrite starts_with_app; by rewrite ?orb_true_r.
Qed.

Ltac each_name :=
  repeat match goal with
  | |- context [String.eqb ?x ?y] => destruct (String.eqb_spec x y); cbn [andb]
  end.

Lemma sensitive_protected path e :
  route path = Some e -> sensitive e = true -> is_protected_path path = true.
Proof.
  unfold route. destruct (split "/" path) as [|r [|a [|b [|c [|d ds]]]]] eqn:Es; try done;
    try (destruct r; done); (destruct r; [|done]); apply split_path in Es; intros Hr Hs.
  - assert (a = "stats") as -> by (revert Hr Hs; unfold route1; each_name; naive_solver).
    by rewrite <-(String.string_of_list_ascii_of_string path), Es.
  - assert (a = "analytics") as -> by (revert Hr Hs; unfold route2, parameter; each_name; naive_solver).
    apply protected_below. right. by exists (chars b).
  - assert (a = "transactions" \/ a = "analytics") as [-> | ->]
      by (revert Hr Hs; unfold route3, parameter; each_name; naive_solver);
      apply protected_below; [left|right]; by exists (chars b ++ "/"%char :: chars c).
Qed.

Lemma api_key_length var key k :
  api_key_from_env var = inr key -> key = Some k -> (IndexerSettings.MIN_API_KEY_LENGTH <= String.length k)%nat.
Proof.
  unfold api_key_from_env. intros E ->. case_match; [|done].
  destruct (Nat.ltb_spec (String.length s) IndexerSettings.MIN_API_KEY_LENGTH); [done|]. by injection E as <-.
Qed.

(** The key the gate is given is the one the configuration loads. *)
Lemma configured_key quote hostname uuid env c :
  IndexerSettings.from_env quote hostname uuid env = inr c ->
  api_key_from_env (env "EVENT_INDEXER_API_KEY") = inr (IndexerSettings.api_key c).
Proof.
  unfold IndexerSettings.from_env. intros Hload.
  repeat match goal with
         | H : context [match ?t with inl e => inl e | inr x => _ end] |- _ =>
             destruct t eqn:?; [discriminate H|]
         end.
  injection Hload as <-. cbn. unfold api_key_from_env. fold (IndexerSettings.non_blank (env "EVENT_INDEXER_API_KEY")).
  destruct (IndexerSettings.non_blank (env "EVENT_INDEXER_API_KEY")) as [key|]; [|done].
  match goal with H : context [Nat.ltb] |- _ =>
    apply IndexerSettings.check_ok, negb_true_iff in H; by rewrite H end.
Qed.



(** ** Walking the match list by cursor *)

Notation ids := (map mi_match_id).
Definition beyond (after : option Z) (i : Z) : bool := when after (fun a => a <? i).

Lemma beyond_spec after i : beyond after i = true <-> forall a, after = Some a -> a < i.
Proof. destruct after; cbn; [rewrite Z.ltb_lt|]; naive_solver. Qed.

(** The page after a cursor of a strictly sorted list. *)
Section Page.
Context (n : nat) (after : option Z) (l : list Z).
Hypothesis Hn : (0 < n)%nat.
Hypothesis Hl : StronglySorted Z.lt l.
Let p := take n (List.filter (beyond after) l).

Lemma filter_sorted f (k : list Z) : StronglySorted Z.lt k -> StronglySorted Z.lt (List.filter f k).
Proof.
  induction 1 as [|x k Hk IH Hx]; cbn; [constructor|]. destruct (f x); [|done]. constructor; [done|].
  rewrite Forall_forall in Hx |- *. intros y Hy. apply list_elem_of_In, filter_In in Hy as [Hy _].
  by apply Hx, list_elem_of_In.
Qed.

Lemma sorted_split (k k' : list Z) :
  StronglySorted Z.lt (k ++ k') ->
  StronglySorted Z.lt k /\ forall x y, In x k -> In y k' -> x < y.
Proof.
  induction k as [|z k IH]; cbn; [split; [constructor|done]|]. intros Hs.
  apply StronglySorted_inv in Hs as [Hs Hz]. destruct (IH Hs) as [Hk Hlt].
  rewrite Forall_app, !Forall_forall in Hz. destruct Hz as [Hz Hz']. split.
  - constructor; [done|]. by apply Forall_forall.
  - intros x y [<-|Hx] Hy; [by apply Hz', list_elem_of_In|by apply Hlt].
Qed.

Lemma page_split :
  exists rest, List.filter (beyond after) l = p ++ rest /\ StronglySorted Z.lt p /\
    forall x y, In x p -> In y rest -> x < y.
Proof.
  exists (drop n (List.filter (beyond after) l)). unfold p. rewrite take_drop. split; [done|].
  apply sorted_split. rewrite take_drop. by apply filter_sorted.
Qed.

Lemma page_beyond i : In i p -> beyond after i = true /\ In i l.
Proof.
  intros Hi. destruct page_split as (rest & E & _). apply and_comm, filter_In. rewrite E.
  apply in_app_iff. by left.
Qed.

Lemma page_empty i : p = [] -> In i l -> beyond after i = false.
Proof.
  intros Hp Hi. destruct (beyond after i) eqn:Hb; [|done]. exfalso.
  assert (Hin : In i (List.filter (beyond after) l)) by (by apply filter_In).
  unfold p in Hp. destruct n as [|k]; [lia|]. destruct (List.filter (beyond after) l); [done|discriminate Hp].
Qed.

Lemma last_in {A} (k : list A) z : last k = Some z -> exists k0, k = k0 ++ [z].
Proof. apply last_Some. Qed.

Lemma page_next z i :
  last p = Some z -> In i l -> beyond after i = true -> In i p \/ beyond (Some z) i = true.
Proof.
  intros Hz Hi Hb. destruct page_split as (rest & E & _ & Hlt).
  assert (Hin : In i (p ++ rest)) by (rewrite <-E; by apply filter_In).
  apply in_app_iff in Hin as [Hin|Hin]; [by left|right]. apply Z.ltb_lt, Hlt; [|done].
  apply last_in in Hz as [k0 ->]. apply in_app_iff. right. by left.
Qed.

Lemma page_below_last z x : last p = Some z -> In x p -> x <= z.
Proof.
  intros Hz Hx. destruct page_split as (rest & _ & Hs & _). apply last_in in Hz as [k0 Ek].
  rewrite Ek in Hs, Hx. apply sorted_split in Hs as [_ Hs].
  apply in_app_iff in Hx as [Hx|[<-|[]]]; [|lia]. specialize (Hs x z Hx (or_introl eq_refl)). lia.
Qed.
End Page.

Definition cursor_query (status : option MatchStatus) (limit : Z) (after : option Z) : MatchQuery :=
  mkMatchQuery status None (Some limit) after None.

Lemma sorted_ids t : List.NoDup (ids t) -> StronglySorted Z.lt (ids (sort_by_match_id t)).
Proof.
  intros Hnd. unfold sort_by_match_id. set (le := fun a b : MatchInfo => mi_match_id a <= mi_match_id b).
  assert (Hs : StronglySorted le (merge_sort le t)).
  { apply Sorted_StronglySorted; [intros a b c; unfold le; lia|]. apply Sorted_merge_sort.
    intros a b. unfold le. lia. }
  assert (Hnd' : List.NoDup (ids (merge_sort le t)))
    by (eapply Permutation_NoDup; [|exact Hnd]; apply Permutation_map; by rewrite merge_sort_Permutation).
  revert Hs Hnd'. generalize (merge_sort le t). intros l.
  induction 1 as [|x l Hl IH Hx]; cbn; [constructor|]. intros Hnd'. apply List.NoDup_cons_iff in Hnd' as [Hn Hnd'].
  constructor; [by apply IH|]. apply Forall_forall. intros i Hi. rewrite Forall_forall in Hx.
  apply list_elem_of_In, in_map_iff in Hi as (m & <- & Hm).
  assert (le x m) as Hle by (by apply Hx, list_elem_of_In). unfold le in Hle.
  destruct (Z.eq_dec (mi_match_id x) (mi_match_id m)) as [E|]; [|lia].
  exfalso. apply Hn. rewrite E. by apply in_map.
Qed.

Lemma sort_perm t : Permutation (sort_by_match_id t) t.
Proof. apply merge_sort_Permutation. Qed.

Lemma in_sorted_ids t i : In i (ids t) -> In i (ids (sort_by_match_id t)).
Proof. apply Permutation_in, Permutation_map, Permutation_sym, sort_perm. Qed.

Lemma map_filter_ids f (l : list MatchInfo) :
  ids (List.filter (fun m => f (mi_match_id m)) l) = List.filter f (ids l).
Proof. induction l as [|m l IH]; cbn; [done|]. destruct (f (mi_match_id m)); cbn; by rewrite IH. Qed.

Lemma filter_all {A} (l : list A) : List.filter (fun _ => true) l = l.
Proof. induction l; cbn; by f_equal. Qed.

Lemma page_ids status limit after t :
  0 < limit ->
  ids (page_matches (cursor_query status limit after) t) =
  take (Z.to_nat limit) (List.filter (beyond after) (ids (sort_by_match_id t))).
Proof.
  intros Hl. unfold page_matches, cursor_query, at_most. cbn.
  rewrite (proj2 (Z.ltb_lt 0 limit)) by done. destruct after as [a|].
  - cbn [when]. rewrite filter_all, <-map_filter_ids, firstn_map. done.
  - unfold beyond. cbn. rewrite filter_all, firstn_map. done.
Qed.

(** A client that asks for page after page, from the cursor of the last match it got,
    until a page is empty; every page is cut from the list of matches of its moment.
    The flag tells whether the end was reached. *)
Fixpoint cursor_walk (status : option MatchStatus) (limit : Z) (after : option Z)
    (tables : list (list MatchInfo)) : list MatchInfo * bool :=
  match tables with
  | [] => ([], false)
  | t :: rest =>
      let p := page_matches (cursor_query status limit after) t in
      match last p with
      | None => ([], true)
      | Some m =>
          let '(more, finished) := cursor_walk status limit (Some (mi_match_id m)) rest in
          (p ++ more, finished)
      end
  end.

Lemma last_map {A B} (f : A -> B) l : last (map f l) = f <$> last l.
Proof. induction l as [|x [|y l] IH]; [done|done|]. exact IH. Qed.

Lemma sorted_app (k k' : list Z) z :
  StronglySorted Z.lt k -> StronglySorted Z.lt k' ->
  (forall x, In x k -> x <= z) -> (forall y, In y k' -> z < y) -> StronglySorted Z.lt (k ++ k').
Proof.
  intros Hk Hk' Hz Hz'. induction Hk as [|x k Hk IH Hx]; cbn; [done|].
  constructor; [apply IH; intros; apply Hz; by right|]. rewrite Forall_app. split; [done|].
  apply Forall_forall. intros y Hy. apply list_elem_of_In, Hz' in Hy.
  specialize (Hz x (or_introl eq_refl)). lia.
Qed.

Section Walk.
Context (status : option MatchStatus) (limit : Z).
Hypothesis Hlimit : 0 < limit.

Lemma walk_step after t ts m :
  List.NoDup (ids t) ->
  let p := page_matches (cursor_query status limit after) t in
  last p = Some m ->
  StronglySorted Z.lt (ids p) /\
  (forall i, In i (ids p) -> beyond after i = true /\ i <= mi_match_id m) /\
  (forall i, In i (ids t) -> beyond after i = true ->
     In i (ids p) \/ beyond (Some (mi_match_id m)) i = true) /\
  cursor_walk status limit after (t :: ts) =
    (p ++ (cursor_walk status limit (Some (mi_match_id m)) ts).1,
     (cursor_walk status limit (Some (mi_match_id m)) ts).2).
Proof.
  intros Hnd p Hlast. pose proof (sorted_ids t Hnd) as Hs.
  assert (Hn : (0 < Z.to_nat limit)%nat) by lia.
  assert (Hz : last (ids p) = Some (mi_match_id m)) by (by rewrite last_map, Hlast).
  assert (Hids := page_ids status limit after t Hlimit). fold p in Hids. rewrite Hids in *. split_and!.
  - by destruct (page_split (Z.to_nat limit) after _ Hs) as (rest & _ & Hp & _).
  - intros i Hi. split; [by eapply page_beyond|by eapply page_below_last].
  - intros i Hi Hb. eapply page_next; try done. by apply in_sorted_ids.
  - cbn [cursor_walk]. fold p. rewrite Hlast. by destruct (cursor_walk _ _ _ ts).
Qed.

Lemma walk_end after t ts :
  List.NoDup (ids t) -> last (page_matches (cursor_query status limit after) t) = None ->
  cursor_walk status limit after (t :: ts) = ([], true) /\
  forall i, In i (ids t) -> beyond after i = false.
Proof.
  intros Hnd Hlast. split; [cbn [cursor_walk]; by rewrite Hlast|]. intros i Hi.
  apply last_None in Hlast. pose proof (page_ids status limit after t Hlimit) as E. rewrite Hlast in E.
  eapply (page_empty (Z.to_nat limit) after); [lia|by symmetry|].
  by apply in_sorted_ids.
Qed.

Lemma page_member q t m : In m (page_matches q t) -> In m t.
Proof.
  intros Hm. apply (Permutation_in _ (sort_perm t)). revert Hm. unfold page_matches, at_most.
  generalize (sort_by_match_id t). intros sorted.
  assert (Htake : forall n (l : list MatchInfo), In m (take n l) -> In m l)
    by (intros n l Hin; rewrite <-(take_drop n l); apply in_app_iff; by left).
  assert (Hdrop : forall n (l : list MatchInfo), In m (drop n l) -> In m l)
    by (intros n l Hin; rewrite <-(take_drop n l); apply in_app_iff; by right).
  intros Hm. repeat case_match; rewrite ?filter_In in *;
    first [by eapply Hdrop, Htake | by eapply Hdrop | apply Htake in Hm; rewrite !filter_In in Hm; tauto
          | tauto].
Qed.

Lemma walk_spec after tables :
  Forall (fun t => List.NoDup (ids t)) tables ->
  let '(got, finished) := cursor_walk status limit after tables in
  StronglySorted Z.lt (ids got) /\ (forall i, In i (ids got) -> beyond after i = true) /\
  (forall m, In m got -> In m (concat tables)) /\
  (finished = true -> forall i, beyond after i = true ->
     (forall t, In t tables -> In i (ids t)) -> In i (ids got)) /\
  (finished = false -> (length tables <= length got)%nat).
Proof.
  revert after. induction tables as [|t ts IH]; intros after Hall.
  { cbn. split_and!; try done. constructor. }
  apply Forall_cons in Hall as [Hnd Hall].
  destruct (last (page_matches (cursor_query status limit after) t)) as [m|] eqn:Hlast.
  - destruct (walk_step after t ts m Hnd Hlast) as (Hp & Hb & Hnext & ->).
    specialize (IH (Some (mi_match_id m)) Hall).
    destruct (cursor_walk status limit (Some (mi_match_id m)) ts) as [more finished]. cbn [fst snd].
    destruct IH as (Hs & Hbe & Hin & Hc & Hlen). rewrite map_app. split_and!.
    + apply (sorted_app _ _ (mi_match_id m)); [done|done|apply Hb|].
      intros i Hi. by apply Z.ltb_lt, Hbe.
    + intros i Hi. apply in_app_iff in Hi as [Hi|Hi]; [by apply Hb|]. apply Hbe in Hi.
      destruct (Hb (mi_match_id m)) as [Hm _].
      { apply last_Some in Hlast as [k ->]. rewrite map_app. apply in_app_iff. right. by left. }
      rewrite beyond_spec in Hm, Hi |- *. intros a Ha. specialize (Hm a Ha). specialize (Hi _ eq_refl). lia.
    + intros m' Hm'. cbn. apply in_app_iff in Hm' as [Hm'|Hm']; apply in_app_iff;
        [left; by eapply page_member|right; by apply Hin].
    + intros Hf i Hi Hall'. apply in_app_iff. destruct (Hnext i) as [?|Hm]; [apply Hall'; by left|done|by left|].
      right. apply Hc; [done|done|]. intros t' Ht'. apply Hall'. by right.
    + intros Hf. specialize (Hlen Hf). rewrite length_app. apply last_Some in Hlast as [k ->].
      rewrite length_app. cbn. lia.
  - destruct (walk_end after t ts Hnd Hlast) as [-> Hnone]. split_and!; try done; [constructor|].
    intros _ i Hi Hall'. rewrite (Hnone i) in Hi; [done|]. apply Hall'. by left.
Qed.
End Walk.

(** C26: paging through the match list by cursor is stable under concurrent changes:
    whatever happens to the list between the pages, a client that follows the cursors
    gets matches in strictly increasing order, so none twice, and only matches that were
    listed; it reaches the end if it asks for more pages than there ever are matches, and
    then it has every match that was listed throughout. *)
Theorem cursor_walk_stable status limit tables :
  0 < limit -> Forall (fun t => List.NoDup (ids t)) tables ->
  let '(got, finished) := cursor_walk status limit None tables in
  StronglySorted Z.lt (ids got) /\ (forall m, In m got -> In m (concat tables)) /\
  ((length (remove_dups (ids (concat tables))) < length tables)%nat -> finished = true) /\
  (finished = true -> forall i, (forall t, In t tables -> In i (ids t)) -> In i (ids got)).
Proof.
  intros Hl Hall. pose proof (walk_spec status limit Hl None tables Hall) as H.
  destruct (cursor_walk status limit None tables) as [got finished].
  destruct H as (Hs & _ & Hin & Hc & Hlen). split_and!; [done|done| |intros Hf i Hi; by apply Hc].
  intros Hlt. destruct finished; [done|]. specialize (Hlen eq_refl). exfalso.
  assert (Hnd : NoDup (ids got)).
  { clear -Hs. induction Hs as [|x l _ IH Hx]; constructor; [|done]. intros Hx'.
    rewrite Forall_forall in Hx. specialize (Hx x Hx'). lia. }
  assert (Hsub : ids got ⊆ remove_dups (ids (concat tables))).
  { intros i Hi. apply elem_of_remove_dups, list_elem_of_In. apply list_elem_of_In, in_map_iff in Hi as (m & <- & Hm).
    by apply in_map, Hin. }
  pose proof (submseteq_length _ _ (NoDup_submseteq _ _ Hnd Hsub)) as Hle. rewrite length_map in Hle. lia.
Qed.

Definition sample_info (i : Z) : MatchInfo :=
  mkMatchInfo i "G1" "G2" StatusActive None "100" "" "" "" 5 None [].

(** Match 3 appears, and match 1 disappears, between the pages. *)
Lemma cursor_walk_stable_witness :
  let tables := [map sample_info [4; 1; 2]; map sample_info [3; 4; 2]; map sample_info [3; 4; 2];
                 map sample_info [3; 4; 2]; map sample_info [3; 4; 2]] in
  cursor_walk None 1 None tables = (map sample_info [1; 2; 3; 4], true) /\
  In 4 (ids (cursor_walk None 1 None tables).1).
Proof.
  intros tables. split; [vm_compute; reflexivity|].
  pose proof (cursor_walk_stable None 1 tables ltac:(lia)) as H.
  destruct (cursor_walk None 1 None tables) as [got finished].
  destruct H as (_ & _ & Hf & Hc).
  - repeat (constructor; [repeat constructor; cbn; intuition discriminate|]). constructor.
  - apply Hc; [apply Hf; vm_compute; lia|]. intros t Ht.
    repeat destruct Ht as [<-|Ht]; [cbn; auto..|done].
Defined.

(** With offsets a match is missed when an earlier one disappears between the pages. *)
Example offset_pages_skip :
  let q offset := mkMatchQuery None (Some offset) (Some 1) None None in
  page_matches (q 0) (map sample_info [1; 2; 3]) ++ page_matches (q 1) (map sample_info [2; 3])
  = map sample_info [1; 3].
Proof. reflexivity. Qed.

(** ** Cached pages *)

Lemma page_key_kept q match_id : page_key q ∉ invalidated_keys match_id.
Proof.
  unfold page_key, invalidated_keys, all_match_list_keys, all_analytics_keys, match_key, matches_key.
  intros Hin. destruct q as [st o l a b]. cbn [mq_status mq_after mq_before mq_offset mq_limit] in Hin.
  destruct st as [[]|]; cbn [app map ANALYTICS_KEYS] in Hin; rewrite !elem_of_cons in Hin;
    repeat (destruct Hin as [Hin|Hin]; [discriminate Hin|]); by apply not_elem_of_nil in Hin.
Qed.

Lemma page_key_kept_lists q : page_key q ∉ all_match_list_keys ++ all_analytics_keys.
Proof. intros Hin. apply (page_key_kept q 0). unfold invalidated_keys. by apply list_elem_of_further. Qed.

Section StalePages.
Context {R : Type} `{Redis R}.
Context `{Codec MatchInfo} `{!Codec (list MatchInfo)} `{Codec Stats}.
Context (sha256_hex : list Z -> string) (show_value : Value -> string).
Context (first_by : (IndexedEvent -> IndexedEvent -> bool) -> list IndexedEvent -> option IndexedEvent).
Context (show_failure : Statement -> string).
Context (by_position : list IndexedEvent -> list IndexedEvent) (arrange : list Z -> list Z).

(** The process-local cache holds this entry for the page. *)
Definition caches_page (q : MatchQuery) (entry : Z * string) (c : ApiCache R) : Prop :=
  exists m, backend c = Memory m /\ m !! page_key q = Some entry.

Lemma caches_delete q entry now keys c :
  page_key q ∉ keys -> caches_page q entry c -> caches_page q entry (delete_keys now keys c).
Proof.
  intros Hk (m & Hb & Hm). unfold delete_keys. destruct keys as [|k ks]; [by exists m|]. rewrite Hb.
  eexists. split; [reflexivity|]. by rewrite lookup_delete_all, bool_decide_false.
Qed.

Lemma caches_invalidate q entry now match_id c :
  caches_page q entry c -> caches_page q entry (invalidate_match now match_id c).
Proof.
  intros Hc. unfold invalidate_match. destruct (is_enabled c); [|done].
  destruct (caches_delete q entry now _ c (page_key_kept q match_id) Hc) as (m & Hb & Hm). by exists m.
Qed.

Lemma caches_invalidate_lists q entry now c :
  caches_page q entry c -> caches_page q entry (invalidate_lists_and_analytics now c).
Proof.
  intros Hc. unfold invalidate_lists_and_analytics. destruct (is_enabled c); [|done].
  destruct (caches_delete q entry now _ c (page_key_kept_lists q) Hc) as (m & Hb & Hm). by exists m.
Qed.

Notation kept q entry w := (caches_page q entry (ix_responses w)).

Lemma caches_ingest q entry f1 f2 now contract last e (w : Indexer (R := R)) :
  kept q entry w -> kept q entry (ingest_one first_by f1 f2 now contract last e w).1.
Proof.
  intros Hw. assert (Hd : kept q entry (detect_reorg first_by f1 now contract last e w).1).
  { unfold detect_reorg. repeat (case_match; try done). by apply caches_invalidate_lists. }
  unfold ingest_one. destruct (detect_reorg _ _ _ _ _ _ w) as [w1 [a|err|]]; cbn [fst] in *; try done.
  destruct (insert_event _ _ _) as [s [err|[]]]; [done|]. by apply caches_invalidate.
Qed.

Lemma caches_ingest_all q entry fails now contract last k index max evs (w : Indexer (R := R)) :
  kept q entry w ->
  kept q entry (ingest_events sha256_hex first_by fails now contract last k index max evs w).1.
Proof.
  revert k index max w. induction evs as [|v evs IH]; intros k index max w Hw; cbn [ingest_events]; [done|].
  destruct (parse_event _ _ _ _) as [e|]; [|by apply IH].
  pose proof (caches_ingest q entry (fails k) (fails (S k)) now contract last e w Hw) as Hi.
  destruct (ingest_one _ _ _ _ _ _ _ w) as [w1 [a|err|]]; cbn [fst] in *; try done.
  destruct (index =? u16_max); [done|]. by apply IH.
Qed.

Lemma caches_round q entry contract r (w : Indexer (R := R)) :
  kept q entry w -> kept q entry (run_round sha256_hex show_value first_by contract w r).1.
Proof.
  intros Hw. assert (Hp : kept q entry (poll_events sha256_hex show_value first_by (rd_fails r)
    (rd_server r) (rd_fallback r) (rd_now r) contract w).1).
  { unfold poll_events. destruct (rd_fails r 0 LoadProgress); [done|]. case_match; [done|].
    destruct (fetch_events _ _ _ _ _) as [b [err|resp]]; [done|]. destruct (b && _); [done|].
    set (w1 := if b then _ else w). assert (kept q entry w1) as Hw1 by (subst w1; by destruct b).
    destruct (r_events resp) as [|v vs]; [done|].
    pose proof (caches_ingest_all q entry (rd_fails r) (rd_now r) contract
      (last_polled_ledger (get_ingestion_state contract w)) 0 0 None (v :: vs) w1 Hw1) as Hi.
    destruct (ingest_events _ _ _ _ _ _ _ _ _ _ _) as [w2 [[l|]|err|]]; cbn [fst] in *; try done.
    by destruct (rd_fails r 0 SaveProgress). }
  unfold run_round, poll_round. destruct (poll_events _ _ _ _ _ _ _ _ _) as [w1 [a|err|]]; cbn [fst] in *; try done.
  by destruct (rd_fails r 0 RecordError).
Qed.

Lemma caches_rounds q entry contract rounds (w : Indexer (R := R)) :
  kept q entry w -> kept q entry (run_rounds sha256_hex show_value first_by contract rounds w).
Proof.
  revert w. induction rounds as [|r rounds IH]; intros w Hw; [done|]. cbn [run_rounds foldl].
  by apply IH, caches_round.
Qed.

(** a page of [GET /matches] is not invalidated by the events it lists: once a page
    was computed and cached in the process, every request for it is answered with the
    same matches for the next ten seconds, whatever the poller ingests meanwhile. *)
Theorem page_outlives_events q fails fails' now now' contract rounds w w' m l payload :
  backend (ix_responses w) = Memory m -> m !! page_key q = None ->
  get_matches show_failure by_position arrange fails now q w = (w', Some (found l)) ->
  encode l = Some payload -> now <= now' < now + PENDING_MATCHES_TTL_SECS * ns_per_sec ->
  (get_matches show_failure by_position arrange fails' now' q
     (run_rounds sha256_hex show_value first_by contract rounds w')).2 = Some (found l).
Proof.
  intros Hb Hm Hg He Hnow.
  assert (Hc : kept q (now + PENDING_MATCHES_TTL_SECS * ns_per_sec, payload) w').
  { revert Hg. unfold get_matches, serve_list, get_json, memory_get. rewrite Hb, Hm. cbn [ix_responses with_responses].
    destruct (get_matches_by_status _ _ _ _ _); [|done|done]. unfold set_json. intros [= <- Hl].
    rewrite Hl, He. cbn [ix_responses backend count_miss with_backend]. eexists. split; [reflexivity|].
    apply lookup_insert_eq. }
  apply (caches_rounds q _ contract rounds) in Hc as (m' & Hb' & Hm').
  unfold get_matches, serve_list, get_json, memory_get. rewrite Hb', Hm'.
  rewrite (proj2 (Z.leb_gt _ _)) by lia. by rewrite (decode_encode _ _ He).
Qed.
End StalePages.

#[local] Existing Instance no_redis.
#[local] Instance list_codec : Codec (list MatchInfo).
Proof.
  refine {| encode l := match l with [] => Some "[]" | _ => None end;
            decode s := if String.eqb s "[]" then Some [] else None |}.
  intros [|] p; [by intros [= <-]|done].
Defined.

Lemma page_outlives_events_witness :
  let q := cursor_query None 10 None in
  (get_matches (fun _ => "") (fun l => l) (fun l => l) never 105 q
     (run_rounds sample_hash no_text pick_first "C" sample_rounds
        (get_matches (fun _ => "") (fun l => l) (fun l => l) never 100 q first_indexer).1)).2
  = Some (found []).
Proof.
  apply (page_outlives_events sample_hash no_text pick_first (fun _ => "") (fun l => l) (fun l => l)
    (cursor_query None 10 None) never never 100 105 "C" sample_rounds first_indexer _ ∅ [] "[]");
    try reflexivity.
  split; vm_compute; congruence.
Defined.

(** ** What the poller makes of the contract's events *)

(** A row the poller wrote, invalidated or not. *)
Definition polled (sha256_hex : list Z -> string) (r : IndexedEvent) : Prop :=
  exists v index now e flag, parse_event sha256_hex v index now = Some e /\
    r = event_row e <| ev_reorg_invalidated_at := flag |>.

Lemma event_status_winner t d : (event_status t d).2 = None \/ (event_status t d).2 = text_at d 1.
Proof. unfold event_status. repeat (case_match; [first [by left|by right]|]); by left. Qed.

Lemma polled_winner sha256_hex r x :
  polled sha256_hex r -> ev_winner r = Some x -> ev_player1 r = Some x.
Proof.
  intros (v & index & now & e & flag & E & ->). cbn. unfold parse_event in E.
  repeat (apply bind_Some in E as (? & _ & E)). case_match; [done|].
  match type of E with context [event_status ?t ?d] => pose proof (event_status_winner t d) as Hst;
    destruct (event_status t d) as [status winner] end.
  injection E as <-. cbn in *. destruct Hst as [-> | ->]; done.
Qed.

Lemma filter_none {A} (f : A -> bool) l : (forall x, In x l -> f x = false) -> List.filter f l = [].
Proof.
  induction l as [|x l IH]; cbn; [done|]. intros Hf. rewrite Hf by (by left).
  apply IH. intros y Hy. apply Hf. by right.
Qed.

(** no result is ever counted for a player: the poller takes the winner of a
    completed match also for its first player and the payout for its second, so for an
    address that is neither of the two the statistics have no win, no loss, no draw and
    no winnings, whatever was played. *)
Theorem results_never_counted sha256_hex to_numeric show_numeric fails sort player limit offset
    start_date end_date s a :
  (forall r, In r (st_events s) -> polled sha256_hex r) ->
  (forall r, In r (st_events s) -> ev_winner r <> None ->
     ev_winner r <> Some player /\ ev_player2 r <> Some player) ->
  analytics_player to_numeric show_numeric fails sort player limit offset start_date end_date s = Done a ->
  pa_wins a = 0 /\ pa_losses a = 0 /\ pa_draws a = 0 /\ pa_win_rate a = f64_of 0 /\
  pa_total_winnings a = show_numeric 0%Q.
Proof.
  intros Hpoll Hother. unfold analytics_player. set (rows := List.filter _ (st_events s)).
  assert (Hnone : forall r, In r rows -> ev_winner r = None).
  { intros r Hr. apply filter_In in Hr as [Hr Hf]. destruct (ev_winner r) as [x|] eqn:Hw; [|done].
    exfalso. pose proof (polled_winner _ _ _ (Hpoll r Hr) Hw) as H1.
    destruct (Hother r Hr) as [Hx H2]; [by rewrite Hw|]. unfold names in Hf.
    rewrite !andb_true_iff, orb_true_iff, !bool_decide_eq_true in Hf. destruct Hf as [[[E|E] _] _]; congruence. }
  assert (Hzero : forall f, (forall r, ev_winner r = None -> f r = false) -> List.filter f rows = [])
    by (intros f Hf; apply filter_none; auto).
  unfold count_matches. rewrite !(Hzero (won_by player)), !(Hzero (lost_by player)), !(Hzero drawn)
    by (unfold won_by, lost_by, drawn; intros r ->; done).
  unfold select. destruct (fails SelectRows || no_table s); [done|]. cbn.
  destruct (page _ _ _) as [l| |]; [|done..]. cbn. destruct (build_all _ _ _ _) as [h| |]; [|done..]. cbn.
  by intros [= <-].
Qed.

(** The event [raise_dispute] of the escrow contract publishes, as the server gives it. *)
Definition dispute_created (ledger : Z) (txn_hash dispute_id match_id disputer evidence bond : string) : Value :=
  VObject [("ledger", VNumber ledger); ("txnMeta", VString txn_hash);
           ("event", VObject [("topics", VArray [VString "dispute"; VString "created"]);
                              ("data", VArray [VString dispute_id; VString match_id; VString disputer;
                                               VString evidence; VString bond])])].

(** a dispute reopens an unrelated match in the index: the event of a new dispute
    is stored as the creation of the match whose number is the dispute's, so the row of
    that match, whatever had become of it, is pending again and has lost its winner. *)
Theorem dispute_reopens_match sha256_hex ledger txn_hash id d match_id disputer evidence bond now e s rows m :
  0 <= ledger < 2 ^ 31 -> parse_u64 id = Some d ->
  parse_event sha256_hex (dispute_created ledger txn_hash id match_id disputer evidence bond) 0 now = Some e ->
  st_matches s = Incremental rows -> has_event (ev_id e) (st_events s) = false ->
  rows !! as_i64 d = Some m -> m_last_ledger m < ledger ->
  exists rows' m', st_matches (insert_event never e s).1 = Incremental rows' /\
    rows' !! as_i64 d = Some m' /\ m_status m' = Some "pending"%string /\ m_winner m' = None.
Proof.
  intros Hl Hid Hp Hm Hnew Hrow Hlast.
  assert (He : ev_match_id e = d /\ ev_ledger_sequence e = ledger /\ ev_status e = Some "pending"%string /\
    ev_winner e = None /\ ev_reorg_invalidated_at e = None).
  { unfold parse_event in Hp. cbn in Hp. unfold as_u64_value, in_range in Hp.
    rewrite (proj2 (Z.leb_le 0 ledger)), (proj2 (Z.leb_le ledger u64_max)) in Hp by (unfold u64_max; lia).
    cbn in Hp. rewrite Hid in Hp. injection Hp as <-. cbn. unfold as_u32. rewrite Z.mod_small by lia. done. }
  destruct He as (Hd & Hle & Hs & Hw & Hv). unfold insert_event, insert_transaction, no_table. rewrite Hm.
  cbn [orb]. change (ev_id (event_row e)) with (ev_id e). rewrite Hnew, Hv. cbn [negb andb].
  rewrite bool_decide_true by done. unfold upsert_match_state. cbn [st_matches fst].
  do 2 eexists. split; [reflexivity|]. unfold apply_event_to_match.
  assert (Hmid : ev_match_id (event_row e) = as_i64 d) by (cbn; by rewrite Hd).
  rewrite Hmid, lookup_insert_eq, Hrow. split; [reflexivity|]. unfold merge_row, is_latest.
  cbn [m_status m_winner]. rewrite (proj2 (rank_le_spec _ _)); [done|]. left. cbn. rewrite Hle, as_i32_small; lia.
Qed.

(** Match 1, created and then won by its first player. *)
Definition sample_completed : Value :=
  VObject [("ledger", VNumber 7); ("txnMeta", VString "cd");
           ("event", VObject [("topics", VArray [VString "match"; VString "completed"]);
                              ("data", VArray [VString "1"; VString "player1"; VString "200"])])].
Definition sample_events : list IndexedEvent :=
  option_list (parse_event sample_hash (sample_value "1") 0 100) ++
  option_list (parse_event sample_hash sample_completed 0 100).
Definition sample_store : Store := ingest sample_events fresh_store.

Lemma sample_polled r : In r (st_events sample_store) -> polled sample_hash r.
Proof.
  intros Hr. vm_compute in Hr. destruct Hr as [<-|[<-|[]]].
  - exists (sample_value "1"), 0, 100. eexists _, None. split; [vm_compute; reflexivity|reflexivity].
  - exists sample_completed, 0, 100. eexists _, None. split; [vm_compute; reflexivity|reflexivity].
Qed.

Lemma results_never_counted_witness :
  exists a, analytics_player (fun _ => None) (fun _ => "0") never (fun l => l) "G1" 0 0 None None sample_store
      = Done a /\ pa_total_matches a = 1 /\ pa_wins a = 0.
Proof.
  eexists. split; [vm_compute; reflexivity|]. split; [reflexivity|].
  eapply (results_never_counted sample_hash (fun _ => None) (fun _ => "0"%string) never (fun l => l) "G1" 0 0
    None None sample_store).
  - exact sample_polled.
  - intros r Hr Hw. vm_compute in Hr. destruct Hr as [<-|[<-|[]]]; [by destruct Hw|]. cbn. split; congruence.
  - vm_compute. reflexivity.
Defined.

Lemma dispute_reopens_match_witness :
  exists e rows' m', parse_event sample_hash (dispute_created 9 "ef" "1" "44" "G9" "h" "50") 0 120 = Some e /\
    st_matches (insert_event never e sample_store).1 = Incremental rows' /\
    rows' !! 1 = Some m' /\ m_status m' = Some "pending"%string /\ m_winner m' = None.
Proof.
  eexists. assert (Hrow : exists rows m, st_matches sample_store = Incremental rows /\ rows !! 1 = Some m /\
    m_last_ledger m = 7) by (do 2 eexists; split_and!; vm_compute; reflexivity).
  destruct Hrow as (rows & m & Hm & Hrow & Hl).
  edestruct (dispute_reopens_match sample_hash 9 "ef" "1" 1 "44" "G9" "h" "50" 120) as (rows' & m' & H1 & H2);
    [lia|vm_compute; reflexivity|vm_compute; reflexivity|exact Hm|vm_compute; reflexivity|exact Hrow|rewrite Hl; lia|].
  exists rows', m'. split; [vm_compute; reflexivity|]. split; [exact H1|exact H2].
Defined.
